(* ===== verification/_CoqProject ===== *)
-Q . S2P
Prelude.v
GoText.v
Prog.v
Zoom.v
Sha256.v
Json.v
GoJson.v
Money.v
Domain.v
Cluster.v
Limits.v
Tokens.v
Settlement.v
Keys.v
Attest.v
Probe.v
World.v
Files.v
Migrate.v
Store.v
Endpoint.v
Auth.v
Market.v
Agp.v
Preflight.v
Ledger.v
Keyring.v
Trade.v
TradeSettlement.v
Mints.v
Flights.v
MintsSpec.v
Safety.v
Preserve.v
Handlers.v
Listings.v
System.v
Metrics.v
Config.v
RateLimit.v
Http.v
Types.v
Promises.v
Refine.v
Progress.v
Routing.v
HttpSpec.v
Boot.v
Caps.v
TradeSpec.v
Faults.v
Render.v
GoValue.v
Wire.v
SeedKeys.v
SeedClient.v
Seed.v
Mcp.v
AnyClient.v
Seller.v
Buyer.v
Router.v
Loops.v
Describe.v
