(* ===== verification/Prelude.v ===== *)
(** * A verified model of vtessera

    vtessera (Go, [src/]) is a marketplace for software agents: agents publish
    offers, two agents negotiate a trade, agree, and either record it off chain
    or settle it on Solana; every completed trade gets an entry in a hash-chained
    ledger and a signed receipt, its tessera.  This library models the service
    from the Go source, from its command line to its HTTP routes, and proves what
    makes it correct.

    ** The program's parts and the files that model them

    Values and texts:
    - [GoText] and [GoJson]: what the source uses of [strings], [strconv], [flag],
      [time] and [encoding/json]; [Sha256], [Json], [Keys]: hashing, encoding,
      base64, Ed25519 keys.
    - [Money] ([internal/money]), [Domain] ([internal/domain]), [Cluster] and
      [Endpoint] ([internal/cluster]), [Limits] ([internal/limits]), [Tokens]
      ([internal/tokens], [internal/fees]): amounts, vocabulary and validation,
      chain identity, caps and prices, governed mints and the fee.
    State and programs:
    - [Prog]: programs as sequences of atomic actions, their interleavings and the
      judgement [safe]; [Zoom]: a program on a part of a larger state.
    - [World]: the database, one map or list per table of [store/schema.sql] and of
      the migrations; the clock, identifiers, the mutex, the chain endpoint.
      [Store], [Metrics]: one definition per statement of [internal/store].
      [Migrate]: opening the database, its schema and its migrations.
    - [Files]: a file system that can lose power; [Keyring]: the key file of
      [ledger/signer.go] on it.
    Services:
    - [Settlement], [Preflight], [Mints]: [internal/settlement] (terms, canonical
      transactions, building and verifying, the RPC client, the mint verifier)
      and the start-up check [internal/preflight].
    - [Ledger] ([internal/ledger]); [Trade], [TradeSettlement]
      ([internal/trade]: trades, settlement, the reconciler).
    - [Attest] ([internal/attest]), [Probe] ([internal/probe]), [Market]
      ([internal/registry]), [Auth] ([internal/auth]), [Agp] ([internal/agp]).
    The process:
    - [Config] ([internal/config]), [RateLimit] and [Http] ([internal/httpapi]: every
      route with its middleware, handler and status codes), [Router] (the patterns it
      registers, [net/http]'s mux over them, the marketplace's card), [Boot]
      ([cmd/vtessera]: start-up, wiring, key rotation), [Loops] (the two sweepers and
      the reconciler's timer loop), [Describe] (texts of mismatches, rates and fee).
    Clients:
    - [Render], [GoValue], [Wire]: writing and reading JSON by Go type, requests and
      answers, URL escaping.  A client is a program over the traffic it causes, the
      marketplace any function of that traffic.
    - [SeedKeys], [SeedClient], [Seed] ([internal/seed], [cmd/vtessera-seed]): the
      seeder with its key file.  [Mcp] ([mcp/]): the tool server, its client, its card
      and routes.  [AnyClient] ([examples/go]), [Buyer] ([examples/buyer]) and
      [Seller] ([cmd/vtessera-seller]), which share the calls of [AnyClient].

    ** How programs are modelled

    Pure code is functions, errors are [res] with the list of sentinels that
    [errors.Is] would find.  A request is a [Prog.prog]: a sequence of atomic
    actions on the world, each one store call (one SQLite transaction or query),
    one look at the clock, one identifier, one lock operation or one RPC.  A store
    or RPC action can also fail without effect.  [Prog.run] runs a request alone;
    [Prog.exec] runs it against an environment that acts between its actions.
    [Prog.step] interleaves any number of requests at action granularity with
    moves of the environment, failures, and crashes that lose everything but the
    database.  [Prog.safe] is a rely-guarantee judgement, by structural recursion
    on the program; [Prog.pool_answers] and [Prog.pool_safe] lift it to all
    interleavings, [Prog.safe_exec] to one program and its environment.

    ** What is proved

    - The database, over all interleavings, failures and crashes: [Safety] states the
      invariant [wf] and the guarantee [evo]; [Preserve] proves them for every
      statement, [Handlers] and [Listings] for every operation of the services;
      [System], [Promises] and [Types] draw the consequences for everything
      reachable from an empty database: a trade is settled only by an exactly
      matching landed payment at the signed price, agreed only by both parties,
      moves only forward, has at most one live settlement request; ledger,
      receipts and events only grow; published signatures verify; listings never
      change; every stored row reads back.
    - [Refine]: the service refines an exchange of deals without requests, clock or
      failures.  [Progress]: requests run out of actions, nothing deadlocks, every
      request can be answered.
    - [Settlement] characterises the verifier and closes the loop with the builder;
      [Ledger] binds history to the head hash up to an exhibited collision;
      [Keyring]: no crash during a rotation loses a key.
    - [Mints], [Flights], [MintsSpec]: the mint verifier's shared requests, over all
      interleavings: callers are answered, and on fresh readings only.
    - [Caps] and [Metrics]: the spending check and the public figures are exact;
      [RateLimit]: quotas hold and what they forget; [Routing]: an intent reaches a
      live, compliant offer at the least price.
    - [HttpSpec]: what a request without credentials can do, and whom operator
      actions are attributed to.  [Config], [Preflight], [Boot], [Migrate]: what a
      process that starts has checked, that nothing is created before, what it
      then serves with, and that concurrent starts migrate a database once.
    - [TradeSpec] gives closed forms of the trade operations; [Faults], [Promises],
      [Routing] and [RateLimit] also prove what the code does not survive, each with
      a run that reaches it.
    - [Router]: every route is reached by its path and by no other pattern; a tool of
      [Mcp] reaches the handler it is meant for with the id or filters it was called
      with, without a credential.  [Mcp]: answers and refusals are told apart, and
      results have the declared shape.  [Seed]: every offer opened is accounted for,
      mainnet is not touched unasked; [SeedKeys]: no crash loses an identity on disk.
      [AnyClient]: the receipt check accepts exactly what verifies; [Buyer]: a trade
      is only asked for at the least price listed; [Seller]: the calls of a task and
      one listing at a time.  [Loops]: the background loops keep the invariants.
      [Describe]: a mismatch is told by the first instruction that differs.

    ** Assumptions and bounds

    Code outside [src/] is a parameter: [SolanaKeys], [Solana] and [rpcClient] (the
    Solana library and its client), [MintDecoder], [Base58], [Ed25519], [JWT] and
    [SessionJWT] (token encodings), and of the standard library the parts the code
    only calls: [Unicode] and [Folding] (letter tables), [NetURL], [Resolver] (name
    lookup), [Float64] and [FloatText] (binary64), [FloatJson] and [FloatV] (the text
    of a float64), [KeyFromSeed], [convert_overflow].  Theorems
    that rely on documented laws of these name them ([SolanaLaws], [Base58Laws],
    [Base58Text], [Ed25519Laws]).  The environment may move the clock at will and
    land transactions, but never retracts a landed one.  Strings are sequences of
    bytes.  Recursion with fuel ([format_uint], SHA-256, JSON, trimming, the retry
    loops) takes it from the length of the input or from the code's own bound, and
    never runs out.  JSON columns of the database are kept decoded, which is exact for
    the valid UTF-8 that requests are decoded to.  Error values carry their sentinels, not their texts, and the
    reason text of a verifier's refusal is left out of the dispute event it is
    stored in.

    ** Not modelled

    Bytes on the server's side of the wire: a request served is its route,
    credentials and decoded body, a response its status and payload ([Router] takes
    the method and the target as text; the clients write and read whole texts).
    Logging, signals, listeners and the shutdown of a process.  The HTTP exchange of
    a probe is an argument, its reply.  The MCP library (sessions, the schema of a
    tool's arguments), which is not under [src/].  The text of [printPreflight].
*)
From Stdlib Require Export ZArith Lia Ascii.
From stdpp Require Export base gmap sets list strings sorting relations.

#[global] Unset Program Cases.

Declare Scope vt_scope.
Delimit Scope vt_scope with vt.
#[global] Open Scope vt_scope.
#[global] Open Scope Z_scope.

(** Facts no other request can falsify; see [Safety]. *)
Create HintDb safety.

(** ** Errors and results

    A Go error chain is the list of sentinels that [errors.Is] finds in it, so
    [fmt.Errorf("%w: ...", S)] is [[S]], [fmt.Errorf("%w: %w", S, err)] is
    [S :: err], and [fmt.Errorf("%w: %v", S, err)] forgets [err].  Message texts
    are not modelled.  A sentinel is named by the package variable that holds
    it; [errors.New] compares by identity, which distinct names reproduce. *)
Definition sentinel := string.
Definition error := list sentinel.

(** [errors.Is] *)
Definition errorIs (e : error) (s : sentinel) : bool := bool_decide (s ∈ e).

Inductive res (A : Type) : Type :=
  | Ok (a : A)
  | Err (e : error).
Arguments Ok {A} _.
Arguments Err {A} _.

#[export] Instance res_ret : MRet res := fun _ a => Ok a.
#[export] Instance res_bind : MBind res := fun _ _ f m =>
  match m with Ok a => f a | Err e => Err e end.

(** [if cond { return ..., err }] *)
Definition guard_err (b : bool) (e : error) : res unit := if b then Err e else Ok tt.

(** [fmt.Errorf("%w: %w", s, err)] over a failing call. *)
Definition wrap {A} (s : sentinel) (r : res A) : res A :=
  match r with Ok a => Ok a | Err e => Err (s :: e) end.

(** [fmt.Errorf("%w: %v", s, err)]: the inner chain is flattened to text. *)
Definition rewrap {A} (s : sentinel) (r : res A) : res A :=
  match r with Ok a => Ok a | Err _ => Err [s] end.

Definition is_ok {A} (r : res A) : bool := match r with Ok _ => true | Err _ => false end.

#[export] Instance res_eq_dec {A} `{EqDecision A} : EqDecision (res A).
Proof. refine (λ r s, match r, s with
  | Ok a, Ok b => cast_if (decide (a = b))
  | Err e, Err f => cast_if (decide (e = f))
  | _, _ => right _ end); abstract congruence.
Defined.

Lemma res_bind_ok {A B} (m : res A) (f : A → res B) b :
  (m ≫= f) = Ok b ↔ ∃ a, m = Ok a ∧ f a = Ok b.
Proof. destruct m; cbn; naive_solver. Qed.

Lemma guard_err_ok b e u : guard_err b e = Ok u ↔ b = false.
Proof. destruct b, u; cbn; naive_solver. Qed.

Lemma errorIs_single s s' : errorIs [s] s' = bool_decide (s' = s).
Proof. unfold errorIs. apply bool_decide_ext. set_solver. Qed.

(** ** Machine integers *)
Definition two64 : Z := 18446744073709551616.
Definition maxUint64 : Z := two64 - 1.
Definition wrap64 (z : Z) : Z := z mod two64.
Definition is_uint64 (z : Z) : Prop := 0 ≤ z < two64.
#[export] Instance is_uint64_dec z : Decision (is_uint64 z).
Proof. unfold is_uint64. apply _. Defined.

(** int64 two's complement. *)
Definition int64 (z : Z) : Z :=
  let m := z mod two64 in if m <? 9223372036854775808 then m else m - two64.

Lemma int64_id z : -9223372036854775808 ≤ z < 9223372036854775808 → int64 z = z.
Proof.
  intros H. unfold int64, two64. cbv zeta.
  destruct (Z.ltb_spec (z mod 18446744073709551616) 9223372036854775808);
    Z.to_euclidean_division_equations; lia.
Qed.

(** ** Time: an instant is its nanosecond offset from the Unix epoch, UTC. *)
Definition time := Z.
Definition duration := Z.
Definition second : duration := 1000000000.
Definition minute : duration := 60 * second.
Definition hour : duration := 60 * minute.
(** Go's zero [time.Time] is midnight, January 1st of year 1. *)
Definition zeroTime : time := -62135596800 * second.
Definition time_IsZero (t : time) : bool := t =? zeroTime.
(** [t.Before(u)] and [t.After(u)] *)
Definition before (t u : time) : bool := t <? u.
Definition after (t u : time) : bool := u <? t.

(** ** Byte strings: a Go string is a sequence of bytes. *)
Abbreviation slen := String.length.
#[global] Arguments String.append : simpl nomatch.
#[global] Arguments String.length : simpl nomatch.
(** Byte equality. *)
Abbreviation ceqb := Stdlib.Strings.Ascii.eqb.
Abbreviation ceqb_refl := Stdlib.Strings.Ascii.eqb_refl.
Definition ord (c : ascii) : Z := Z.of_N (N_of_ascii c).

Fixpoint all_chars (f : ascii → bool) (s : string) : bool :=
  match s with
  | EmptyString => true
  | String c s' => f c && all_chars f s'
  end.

Definition has_char (f : ascii → bool) (s : string) : bool :=
  negb (all_chars (fun c => negb (f c)) s).

(** [strings.Repeat(string(c), n)] *)
Fixpoint srepeat (c : ascii) (n : nat) : string :=
  match n with O => "" | S n' => String c (srepeat c n') end.

Fixpoint srev_onto (acc s : string) : string :=
  match s with EmptyString => acc | String c s' => srev_onto (String c acc) s' end.
Definition srev (s : string) : string := srev_onto "" s.

(** [strings.Cut(s, string(sep))] *)
Fixpoint cut (sep : ascii) (s : string) : string * string * bool :=
  match s with
  | EmptyString => ("", "", false)
  | String c s' =>
      if ceqb c sep then ("", s', true)
      else let '(b, a, f) := cut sep s' in (String c b, a, f)
  end.

(** [strings.TrimLeft(s, cutset)], the cutset given as a predicate *)
Fixpoint trim_left (f : ascii → bool) (s : string) : string :=
  match s with
  | EmptyString => ""
  | String c s' => if f c then trim_left f s' else s
  end.
Definition trim_right (f : ascii → bool) (s : string) : string := srev (trim_left f (srev s)).
(** [strings.Trim(s, cutset)] *)
Definition trim (f : ascii → bool) (s : string) : string := trim_right f (trim_left f s).

(** [s[:n]] and [s[n:]] for [n <= len(s)] *)
Fixpoint stake (n : nat) (s : string) : string :=
  match n, s with
  | S n', String c s' => String c (stake n' s')
  | _, _ => ""
  end.
Fixpoint sdrop (n : nat) (s : string) : string :=
  match n, s with
  | S n', String _ s' => sdrop n' s'
  | _, _ => s
  end.

(** [strings.HasPrefix(s, p)] *)
Definition has_prefix (s p : string) : bool := String.prefix p s.

(** Go's [<] on strings is bytewise. *)
Definition str_lt (a b : string) : bool := String.ltb a b.

(** *** Lemmas on byte strings *)
Lemma slen_cons c s : slen (String c s) = S (slen s).
Proof. done. Qed.

Lemma sapp_nil_r s : (s +:+ "") = s.
Proof. induction s; cbn; congruence. Qed.

Lemma sapp_assoc s1 s2 s3 : ((s1 +:+ s2) +:+ s3) = (s1 +:+ (s2 +:+ s3)).
Proof. induction s1; cbn; congruence. Qed.

Lemma slen_app s1 s2 : slen (s1 +:+ s2) = (slen s1 + slen s2)%nat.
Proof. induction s1; cbn; lia. Qed.

Lemma sapp_inj s1 s2 t1 t2 :
  slen s1 = slen t1 → s1 +:+ s2 = t1 +:+ t2 → s1 = t1 ∧ s2 = t2.
Proof.
  revert t1. induction s1 as [|c s1 IH]; intros [|d t1]; cbn; try done.
  intros [= Hl] [= -> H]. destruct (IH _ Hl H). by subst.
Qed.

Lemma sapp_inj_l s t1 t2 : s +:+ t1 = s +:+ t2 → t1 = t2.
Proof. intros H. by eapply sapp_inj in H as [_ ?]. Qed.

Lemma slen_srepeat c n : slen (srepeat c n) = n.
Proof. induction n; cbn; congruence. Qed.

Lemma all_chars_app f s1 s2 : all_chars f (s1 +:+ s2) = all_chars f s1 && all_chars f s2.
Proof. induction s1 as [|c s IH]; cbn; [done|]. by rewrite IH, andb_assoc. Qed.

Lemma all_chars_srepeat f c n : f c = true → all_chars f (srepeat c n) = true.
Proof. intros H. induction n; cbn; [done|]. by rewrite H. Qed.

Lemma all_chars_impl (f g : ascii → bool) s :
  (∀ c, f c = true → g c = true) → all_chars f s = true → all_chars g s = true.
Proof.
  intros Hfg. induction s; cbn; [done|]. rewrite !andb_true_iff. naive_solver.
Qed.

Lemma stake_sdrop n s : stake n s +:+ sdrop n s = s.
Proof. revert s; induction n; intros [|c s]; cbn; congruence. Qed.

Lemma slen_stake n s : (n ≤ slen s)%nat → slen (stake n s) = n.
Proof. revert s; induction n; intros [|c s]; cbn; try lia. intros. rewrite IHn; lia. Qed.

Lemma slen_sdrop n s : slen (sdrop n s) = (slen s - n)%nat.
Proof. revert s; induction n; intros [|c s]; cbn; try lia. rewrite IHn; lia. Qed.

Lemma trim_left_all f s : trim_left f s = "" ↔ all_chars f s = true.
Proof.
  induction s as [|c s IH]; cbn; [done|]. destruct (f c) eqn:E; cbn; [done|]. naive_solver.
Qed.

Lemma srev_onto_app acc s : srev_onto acc s = srev s +:+ acc.
Proof.
  unfold srev. revert acc. induction s as [|c s IH]; intros acc; cbn; [done|].
  rewrite (IH (String c acc)), (IH (String c "")), sapp_assoc. done.
Qed.

Lemma srev_cons c s : srev (String c s) = srev s +:+ String c "".
Proof. unfold srev at 1; cbn. apply srev_onto_app. Qed.

Lemma all_chars_srev f s : all_chars f (srev s) = all_chars f s.
Proof.
  induction s as [|c s IH]; [done|]. rewrite srev_cons, all_chars_app, IH; cbn.
  rewrite andb_true_r. apply andb_comm.
Qed.

Lemma srev_empty s : srev s = "" ↔ s = "".
Proof.
  destruct s as [|c s]; [done|]. rewrite srev_cons. split; [|done].
  destruct (srev s); done.
Qed.

Lemma all_chars_trim_left f s : all_chars f (trim_left f s) = all_chars f s.
Proof. induction s as [|c s IH]; cbn; [done|]. destruct (f c) eqn:E; cbn; by rewrite ?E. Qed.

Lemma trim_empty f s : trim f s = "" ↔ all_chars f s = true.
Proof.
  unfold trim, trim_right.
  by rewrite srev_empty, trim_left_all, all_chars_srev, all_chars_trim_left.
Qed.

Lemma cut_app sep i f :
  all_chars (fun c => negb (ceqb c sep)) i = true →
  cut sep (i +:+ String sep f) = (i, f, true).
Proof.
  induction i as [|c i IH]; cbn.
  - by rewrite ceqb_refl.
  - rewrite andb_true_iff, negb_true_iff. intros [-> H]. by rewrite IH.
Qed.

Lemma cut_none sep i :
  all_chars (fun c => negb (ceqb c sep)) i = true → cut sep i = (i, "", false).
Proof.
  induction i as [|c i IH]; cbn; [done|].
  rewrite andb_true_iff, negb_true_iff. intros [-> H]. by rewrite IH.
Qed.


(** ** Decimal numerals *)
Definition is_digit (c : ascii) : bool := (48 <=? ord c) && (ord c <=? 57).
Definition digit_val (c : ascii) : Z := ord c - 48.
Definition digit_char (d : Z) : ascii := ascii_of_N (Z.to_N (d + 48)).

(** The value of a digit string read after a prefix worth [acc]. *)
Fixpoint dec_acc (acc : Z) (s : string) : Z :=
  match s with
  | EmptyString => acc
  | String c s' => dec_acc (10 * acc + digit_val c) s'
  end.
Definition dec (s : string) : Z := dec_acc 0 s.

Fixpoint format_go (fuel : nat) (n : Z) (acc : string) : string :=
  match fuel with
  | O => acc
  | S fuel' =>
      let acc' := String (digit_char (n mod 10)) acc in
      if n <? 10 then acc' else format_go fuel' (n / 10) acc'
  end.
(** [strconv.FormatUint(n, 10)] and [strconv.Itoa(n)] for [n >= 0]; the fuel is
    the bit length of [n] plus one, never less than its number of digits. *)
Definition format_uint (n : Z) : string := format_go (S (Z.to_nat (Z.log2 n))) n "".

Lemma digit_char_val d : 0 ≤ d < 10 → digit_val (digit_char d) = d.
Proof.
  intros H. unfold digit_val, digit_char, ord.
  rewrite N_ascii_embedding by lia. lia.
Qed.

Lemma digit_char_is_digit d : 0 ≤ d < 10 → is_digit (digit_char d) = true.
Proof.
  intros H. unfold is_digit, digit_char, ord.
  rewrite N_ascii_embedding by lia. rewrite andb_true_iff, !Z.leb_le. lia.
Qed.

Lemma is_digit_val c : is_digit c = true → 0 ≤ digit_val c < 10.
Proof. unfold is_digit, digit_val. rewrite andb_true_iff, !Z.leb_le. lia. Qed.

Lemma dec_acc_app acc s t : dec_acc acc (s +:+ t) = dec_acc (dec_acc acc s) t.
Proof. revert acc; induction s; intros acc; cbn; auto. Qed.

Lemma dec_acc_linear acc s : dec_acc acc s = acc * 10 ^ Z.of_nat (slen s) + dec s.
Proof.
  unfold dec. revert acc. induction s as [|c s IH]; intros acc; cbn [dec_acc].
  - change (acc = acc * 1 + 0). lia.
  - change (slen (String c s)) with (S (slen s)).
    rewrite (IH (10 * acc + _)), (IH (10 * 0 + _)), Nat2Z.inj_succ, Z.pow_succ_r by lia. ring.
Qed.

Lemma dec_app s t : dec (s +:+ t) = dec s * 10 ^ Z.of_nat (slen t) + dec t.
Proof. unfold dec at 1. by rewrite dec_acc_app, dec_acc_linear. Qed.

Lemma dec_cons c s : dec (String c s) = digit_val c * 10 ^ Z.of_nat (slen s) + dec s.
Proof. unfold dec at 1; cbn [dec_acc]. rewrite dec_acc_linear. ring. Qed.

Lemma dec_zeros n : dec (srepeat "0" n) = 0.
Proof. induction n; [done|]. cbn [srepeat]. rewrite dec_cons, IHn. by cbn. Qed.

Lemma dec_bounds s : all_chars is_digit s = true → 0 ≤ dec s < 10 ^ Z.of_nat (slen s).
Proof.
  induction s as [|c s IH]; [by cbn|].
  cbn [all_chars]. rewrite andb_true_iff. intros [Hc%is_digit_val Hs%IH].
  rewrite dec_cons. rewrite slen_cons. rewrite Nat2Z.inj_succ, Z.pow_succ_r by lia. nia.
Qed.

Lemma format_go_spec fuel n acc :
  0 ≤ n < 2 ^ Z.of_nat fuel → (0 < fuel)%nat →
  ∃ p, format_go fuel n acc = p +:+ acc ∧ dec p = n ∧ all_chars is_digit p = true ∧
       p ≠ "" ∧ (∀ c p', p = String c p' → p' ≠ "" → c ≠ "0"%char).
Proof.
  revert n acc. induction fuel as [|fuel IH]; intros n acc Hn Hf; [lia|].
  cbn [format_go]. destruct (Z.ltb_spec n 10) as [Hlt|Hge].
  - exists (String (digit_char (n mod 10)) ""). rewrite Z.mod_small by lia.
    split_and!; try done.
    + rewrite dec_cons, digit_char_val by lia. cbn. lia.
    + cbn. by rewrite digit_char_is_digit by lia.
    + naive_solver.
  - assert (0 ≤ n / 10 < 2 ^ Z.of_nat fuel) as Hq.
    { rewrite Nat2Z.inj_succ, Z.pow_succ_r in Hn by lia.
      Z.to_euclidean_division_equations; lia. }
    destruct (decide (fuel = 0%nat)) as [->|Hf0].
    { cbn in Hn. lia. }
    destruct (IH (n / 10) (String (digit_char (n mod 10)) acc)) as (p & -> & Hd & Hdig & Hne & Hz);
      [done|lia|].
    exists (p +:+ String (digit_char (n mod 10)) ""). split_and!.
    + by rewrite sapp_assoc.
    + rewrite dec_app, Hd, dec_cons, digit_char_val by (apply Z.mod_pos_bound; lia).
      cbn. Z.to_euclidean_division_equations; lia.
    + rewrite all_chars_app, Hdig. cbn.
      by rewrite digit_char_is_digit by (apply Z.mod_pos_bound; lia).
    + by destruct p.
    + destruct p as [|c p]; [done|]. intros c' p' [= <- <-] _.
      destruct (decide (p = "")) as [->|]; [|by eapply Hz].
      intros ->. change (dec (String "0" "")) with 0 in Hd. Z.to_euclidean_division_equations; lia.
Qed.

(** [format_uint] is a right inverse of [dec], and produces canonical numerals. *)
Lemma format_uint_spec n : 0 ≤ n →
  dec (format_uint n) = n ∧ all_chars is_digit (format_uint n) = true ∧
  format_uint n ≠ "" ∧
  (∀ c p, format_uint n = String c p → p ≠ "" → c ≠ "0"%char).
Proof.
  intros Hn. unfold format_uint.
  destruct (format_go_spec (S (Z.to_nat (Z.log2 n))) n "") as (p & -> & H).
  - rewrite Nat2Z.inj_succ, Z2Nat.id by apply Z.log2_nonneg.
    destruct (decide (n = 0)) as [->|]; [done|]. pose proof (Z.log2_spec n). lia.
  - lia.
  - by rewrite sapp_nil_r.
Qed.

Lemma dec_format_uint n : 0 ≤ n → dec (format_uint n) = n.
Proof. intros H. by apply format_uint_spec. Qed.

Lemma format_uint_digits n : 0 ≤ n → all_chars is_digit (format_uint n) = true.
Proof. intros H. by apply format_uint_spec. Qed.

Lemma format_uint_inj n m : 0 ≤ n → 0 ≤ m → format_uint n = format_uint m → n = m.
Proof. intros Hn Hm H. by rewrite <-(dec_format_uint n), H, dec_format_uint. Qed.

(** A numeral with no superfluous leading zero is at least [10^(digits-1)]. *)
Lemma dec_lower c s :
  is_digit c = true → all_chars is_digit s = true → (s ≠ "" → c ≠ "0"%char) → s ≠ "" →
  10 ^ Z.of_nat (slen s) ≤ dec (String c s).
Proof.
  intros Hc Hs Hz Hne. rewrite dec_cons. pose proof (dec_bounds s Hs).
  assert (digit_val c ≠ 0).
  { intros E. apply (Hz Hne). unfold digit_val, ord in E.
    rewrite <-(ascii_N_embedding c). replace (N_of_ascii c) with 48%N by lia. done. }
  pose proof (is_digit_val c Hc). nia.
Qed.

Lemma format_uint_length n k : 0 ≤ n < 10 ^ Z.of_nat k → (0 < k)%nat →
  (slen (format_uint n) ≤ k)%nat.
Proof.
  intros [Hn Hk] Hk0. destruct (format_uint_spec n Hn) as (Hd & Hdig & Hne & Hz).
  destruct (format_uint n) as [|c p]; [done|]. rewrite slen_cons.
  destruct (decide (p = "")) as [->|Hp]; [cbn; lia|].
  cbn [all_chars] in Hdig. apply andb_true_iff in Hdig as [Hc Hdp].
  pose proof (dec_lower c p Hc Hdp ltac:(naive_solver) Hp).
  assert (10 ^ Z.of_nat (slen p) < 10 ^ Z.of_nat k) as Hlt by lia.
  apply Z.pow_lt_mono_r_iff in Hlt; lia.
Qed.

(** ** [strings.TrimSpace]: the White_Space code points, in UTF-8. *)
Definition byte_at (n : nat) (s : string) : Z :=
  match String.get n s with Some c => ord c | None => -1 end.

(** The byte length of the white-space rune [s] starts with; 0 if there is none. *)
Definition space_len (s : string) : nat :=
  let b0 := byte_at 0 s in let b1 := byte_at 1 s in let b2 := byte_at 2 s in
  if ((9 <=? b0) && (b0 <=? 13)) || (b0 =? 32) then 1
  else if (b0 =? 0xC2) && ((b1 =? 0x85) || (b1 =? 0xA0)) then 2
  else if (b0 =? 0xE1) && (b1 =? 0x9A) && (b2 =? 0x80) then 3
  else if (b0 =? 0xE2) && (b1 =? 0x80) &&
          (((0x80 <=? b2) && (b2 <=? 0x8A)) || (b2 =? 0xA8) || (b2 =? 0xA9) || (b2 =? 0xAF))
       then 3
  else if (b0 =? 0xE2) && (b1 =? 0x81) && (b2 =? 0x9F) then 3
  else if (b0 =? 0xE3) && (b1 =? 0x80) && (b2 =? 0x80) then 3
  else 0.

Fixpoint trim_space_left (fuel : nat) (s : string) : string :=
  match fuel with
  | O => s
  | S fuel' => match space_len s with O => s | n => trim_space_left fuel' (sdrop n s) end
  end.

(** The byte length of the white-space rune [s] ends with. *)
Definition space_len_end (s : string) : nat :=
  let n := slen s in
  if (space_len (sdrop (n - 1) s) =? 1)%nat then 1
  else if (space_len (sdrop (n - 2) s) =? 2)%nat then 2
  else if (space_len (sdrop (n - 3) s) =? 3)%nat then 3
  else 0.

Fixpoint trim_space_right (fuel : nat) (s : string) : string :=
  match fuel with
  | O => s
  | S fuel' => match space_len_end s with O => s | n => trim_space_right fuel' (stake (slen s - n) s) end
  end.

(** The fuel [len(s)] suffices: every round drops at least one byte. *)
Definition TrimSpace (s : string) : string :=
  let l := trim_space_left (slen s) s in trim_space_right (slen l) l.

(** ** [strings.ToLower]: the ASCII fast path of the library, and its Unicode
    tables (a parameter) for any string with a non-ASCII byte. *)
Class Unicode := { unicode_lower : string → string }.

Definition lower_char (c : ascii) : ascii :=
  if (65 <=? ord c) && (ord c <=? 90) then ascii_of_N (N_of_ascii c + 32) else c.
Fixpoint smap (f : ascii → ascii) (s : string) : string :=
  match s with EmptyString => "" | String c s' => String (f c) (smap f s') end.
Definition is_ascii (s : string) : bool := all_chars (fun c => ord c <? 128) s.
Definition ToLower `{Unicode} (s : string) : string :=
  if is_ascii s then smap lower_char s else unicode_lower s.

(** ** [sort.SliceStable] with a Go [less] function: insertion from the right
    places an element in front of the first one that is not less than it. *)
Section StableSort.
Context {A : Type} (lt : A → A → bool).

Fixpoint stable_insert (x : A) (l : list A) : list A :=
  match l with
  | [] => [x]
  | y :: l' => if lt y x then y :: stable_insert x l' else x :: l
  end.

Definition stable_sort (l : list A) : list A := foldr stable_insert [] l.

Lemma stable_insert_perm x l : stable_insert x l ≡ₚ x :: l.
Proof. induction l as [|y l IH]; cbn; [done|]. destruct (lt y x); [|done]. rewrite IH. constructor. Qed.

Lemma stable_sort_perm l : stable_sort l ≡ₚ l.
Proof. induction l as [|x l IH]; cbn; [done|]. by rewrite stable_insert_perm, IH. Qed.

(** On the elements that satisfy [P], [less] is a strict weak order: its negation
    is total and transitive. *)
Context (P : A → Prop).
Context (le_total : ∀ x y, P x → P y → lt x y = false ∨ lt y x = false).
Context (le_trans : ∀ x y z, P x → P y → P z → lt y x = false → lt z y = false → lt z x = false).

Definition not_after (x y : A) : Prop := lt y x = false.

Lemma stable_insert_sorted x l : P x → Forall P l →
  StronglySorted not_after l → StronglySorted not_after (stable_insert x l).
Proof.
  intros Hx HP. induction 1 as [|y l Hl IH Hy]; cbn; [repeat constructor|]. apply Forall_cons in HP as [HPy HPl].
  destruct (lt y x) eqn:E.
  - constructor; [by apply IH|]. rewrite stable_insert_perm. constructor; [|done].
    unfold not_after. destruct (le_total x y); congruence.
  - constructor; [by constructor|]. constructor; [done|].
    rewrite Forall_forall in Hy, HPl. apply Forall_forall. intros z Hz. eapply (le_trans x y z); [| | |done|]; auto.
    by apply Hy.
Qed.

Lemma stable_sort_sorted l : Forall P l → StronglySorted not_after (stable_sort l).
Proof.
  induction 1 as [|x l Hx Hl IH]; cbn; [constructor|]. apply stable_insert_sorted; [done| |done].
  by rewrite stable_sort_perm.
Qed.
End StableSort.

(** ** Byte order of strings *)
Lemma str_lt_irrefl_total x y : str_lt x y = false ∨ str_lt y x = false.
Proof.
  unfold str_lt, String.ltb. rewrite (String.compare_antisym y x). destruct (String.compare x y); auto.
Qed.

Lemma ascii_compare_Z a b : Stdlib.Strings.Ascii.compare a b = (ord a ?= ord b).
Proof. unfold Stdlib.Strings.Ascii.compare, ord. by rewrite N2Z.inj_compare. Qed.

(** [x <= y] in byte order, and its transitivity. *)
Lemma str_le_trans x y z : str_lt y x = false → str_lt z y = false → str_lt z x = false.
Proof.
  unfold str_lt, String.ltb. revert y z. induction x as [|a x IH]; intros [|b y] [|c z]; cbn; try done.
  rewrite !ascii_compare_Z. destruct (Z.compare_spec (ord b) (ord a)), (Z.compare_spec (ord c) (ord b)),
    (Z.compare_spec (ord c) (ord a)); try lia; try done; try apply IH.
Qed.

Lemma str_le_antisym x y : str_lt y x = false → str_lt x y = false → x = y.
Proof.
  unfold str_lt, String.ltb. rewrite (String.compare_antisym x y). intros H1 H2.
  destruct (String.compare y x) eqn:E; cbn in *; [|done..]. symmetry. by apply String.compare_eq_iff.
Qed.

Lemma str_sorted l : StronglySorted (not_after str_lt) (stable_sort str_lt l).
Proof.
  apply (stable_sort_sorted str_lt (fun _ => True)); [|intros x y z _ _ _; apply str_le_trans|by apply Forall_true].
  intros x y _ _. apply str_lt_irrefl_total.
Qed.

(** Ordering of rows by one or two columns, as [ORDER BY a, b] asks. *)
Definition lt_Z_str {A} (f : A → Z) (g : A → string) (x y : A) : bool :=
  (f x <? f y) || ((f x =? f y) && str_lt (g x) (g y)).
