(* ===== verification/GoText.v ===== *)
(** * Texts of the Go standard library: strconv, time.ParseDuration, flag

    What configuration and preflight read from strings.  An [option] result is
    [None] where the Go function returns an error; binary64 arithmetic is the
    standard library's [SpecFloat]. *)
From Stdlib Require Import SpecFloat.
From S2P Require Import Prelude.

(** [strings.Split(s, string(sep))] *)
Fixpoint split (sep : ascii) (s : string) : list string :=
  match s with
  | "" => [""]
  | String c s' =>
      if ceqb c sep then "" :: split sep s'
      else match split sep s' with x :: l => String c x :: l | [] => [String c ""] end
  end.

(** ** binary64 *)
Definition f64 := spec_float.
Definition f64_of (n : Z) : f64 := binary_normalize 53 1024 n 0 false.
#[global] Arguments f64_of : simpl never.
Definition f64_add : f64 → f64 → f64 := SFadd 53 1024.
Definition f64_sub : f64 → f64 → f64 := SFsub 53 1024.
Definition f64_mul : f64 → f64 → f64 := SFmul 53 1024.
Definition f64_div : f64 → f64 → f64 := SFdiv 53 1024.
Definition f64_lt (x y : f64) : bool := SFltb x y.
Definition f64_le (x y : f64) : bool := SFleb x y.
(** The builtin [min]: NaN if either is, and the negative of two zeros. *)
Definition f64_min (x y : f64) : f64 :=
  match x, y with
  | S754_nan, _ | _, S754_nan => S754_nan
  | S754_zero a, S754_zero b => S754_zero (a || b)
  | _, _ => if SFltb y x then y else x
  end.
(** Truncation to an integer, for values in the range of the integer type. *)
Definition f64_trunc (x : f64) : Z :=
  match x with
  | S754_finite s m e => let v := if e <? 0 then Z.pos m / 2 ^ (- e) else Z.pos m * 2 ^ e in if s then - v else v
  | _ => 0
  end.

(** ** strconv *)

(** [strconv.ParseUint(s, 10, bits)] *)
Definition ParseUintBits (bits : Z) (s : string) : option Z :=
  if negb (String.eqb s "") && all_chars is_digit s && (dec s <? 2 ^ bits) then Some (dec s) else None.

Definition lower_ord (c : ascii) : Z := Z.lor (ord c) 32.
Definition is_hex_letter (c : ascii) : bool := (97 <=? lower_ord c) && (lower_ord c <=? 102).
Definition digit_of (c : ascii) : option Z :=
  if is_digit c then Some (digit_val c)
  else if (97 <=? lower_ord c) && (lower_ord c <=? 122) then Some (lower_ord c - 97 + 10) else None.

(** The digits of [ParseUint(s, 0, _)], underscores skipped. *)
Fixpoint read_base (base acc : Z) (s : string) : option Z :=
  match s with
  | "" => Some acc
  | String c s' =>
      if ceqb c "_" then read_base base acc s'
      else d ← digit_of c; if d <? base then read_base base (acc * base + d) s' else None
  end.

(** [underscoreOK]: underscores only between digits or after a base prefix. *)
Inductive saw := Begin | Digit | Underscore | Other.
Fixpoint underscores_ok (hexed : bool) (last : saw) (s : string) : bool :=
  match s with
  | "" => match last with Underscore => false | _ => true end
  | String c s' =>
      if is_digit c || (hexed && is_hex_letter c) then underscores_ok hexed Digit s'
      else if ceqb c "_" then match last with Digit => underscores_ok hexed Underscore s' | _ => false end
      else match last with Underscore => false | _ => underscores_ok hexed Other s' end
  end.

Definition base_prefix (s : string) : option Z :=
  match s with
  | String "0" (String c _) =>
      if lower_ord c =? 98 then Some 2 else if lower_ord c =? 111 then Some 8 else if lower_ord c =? 120 then Some 16 else None
  | _ => None
  end.
Definition underscoreOK (s : string) : bool :=
  match base_prefix s with
  | Some b => underscores_ok (b =? 16) Digit (sdrop 2 s)
  | None => underscores_ok false Begin s
  end.

(** [strconv.ParseUint(s, 0, 64)] *)
Definition ParseUint0 (s : string) : option Z :=
  let '(base, digits) :=
    match s with
    | String "0" (String _ (String _ _)) =>
        match base_prefix s with Some b => (b, sdrop 2 s) | None => (8, sdrop 1 s) end
    | String "0" rest => (8, rest)
    | _ => (10, s)
    end in
  if String.eqb s "" then None
  else n ← read_base base 0 digits;
       if (n <? two64) && (underscoreOK s || negb (has_char (ceqb "_") digits)) then Some n else None.

(** A sign and a magnitude within int64: [strconv.ParseInt] over its unsigned parser. *)
Definition signed (parse : string → option Z) (s : string) : option Z :=
  match s with
  | "" => None
  | String c s' =>
      let neg := ceqb c "-" in
      n ← parse (if neg || ceqb c "+" then s' else s);
      if neg then (if n <=? 9223372036854775808 then Some (- n) else None)
      else if n <? 9223372036854775808 then Some n else None
  end.

(** [strconv.Atoi(s)], also [ParseInt(s, 10, 64)]; and [ParseInt(s, 0, 64)]. *)
Definition Atoi : string → option Z := signed (ParseUintBits 64).
Definition ParseInt0 : string → option Z := signed ParseUint0.

(** The value [strconv.Atoi] returns whatever its error: zero for a syntax error, and
    the nearest bound of int64 for a number out of range, which is found before the
    characters that follow are looked at. *)
Fixpoint uint_scan (acc : Z) (s : string) : option Z :=
  match s with
  | EmptyString => Some acc
  | String c s' =>
      if is_digit c then if two64 <=? 10 * acc + digit_val c then Some (two64 - 1) else uint_scan (10 * acc + digit_val c) s'
      else None
  end.
Definition Atoi_value (s : string) : Z :=
  match s with
  | EmptyString => 0
  | String c s' =>
      let neg := ceqb c "-" in
      let digits := if neg || ceqb c "+" then s' else s in
      if String.eqb digits "" then 0
      else match uint_scan 0 digits with
           | None => 0
           | Some un => if neg then - Z.min un 9223372036854775808 else Z.min un 9223372036854775807
           end
  end.

Lemma uint_scan_small acc s : all_chars is_digit s = true → 0 ≤ acc → dec_acc acc s < two64 → uint_scan acc s = Some (dec_acc acc s).
Proof.
  revert acc. induction s as [|c s IH]; intros acc Hs Ha Hd; [done|]. cbn [all_chars] in Hs. apply andb_true_iff in Hs as [Hc Hs].
  pose proof (is_digit_val c Hc). cbn [uint_scan dec_acc] in *. rewrite Hc. assert (10 * acc + digit_val c ≤ dec_acc (10 * acc + digit_val c) s) as Hle.
  { rewrite dec_acc_linear. pose proof (dec_bounds s Hs). assert (1 ≤ 10 ^ Z.of_nat (slen s)) by (apply Z.lt_pred_le, Z.pow_pos_nonneg; lia). nia. }
  rewrite (proj2 (Z.leb_gt _ _)) by lia. apply IH; [done|lia|done].
Qed.
(** Where there is no error it is the number read. *)
Lemma Atoi_value_ok s n : Atoi s = Some n → Atoi_value s = n.
Proof.
  unfold Atoi, signed, Atoi_value. destruct s as [|c s]; [done|]. cbv zeta. set (neg := ceqb c "-").
  set (digits := if neg || ceqb c "+" then s else String c s). unfold ParseUintBits.
  destruct (String.eqb_spec digits "") as [|_]; [done|]. destruct (all_chars is_digit digits) eqn:Hd; [|done].
  destruct (Z.ltb_spec (dec digits) (2 ^ 64)) as [Hlt|]; [|done]. cbn [negb andb mbind option_bind].
  unfold dec in *. rewrite uint_scan_small by (first [done|lia|unfold two64; lia]).
  destruct neg; [destruct (Z.leb_spec (dec_acc 0 digits) 9223372036854775808)|destruct (Z.ltb_spec (dec_acc 0 digits) 9223372036854775808)]; intros [= <-]; lia.
Qed.

Definition ParseBool (s : string) : option bool :=
  if bool_decide (s ∈ ["1"; "t"; "T"; "true"; "TRUE"; "True"]) then Some true
  else if bool_decide (s ∈ ["0"; "f"; "F"; "false"; "FALSE"; "False"]) then Some false
  else None.

(** ** time.ParseDuration *)
Definition max63 : Z := 9223372036854775808.

Definition unitMap (u : string) : option Z :=
  if String.eqb u "ns" then Some 1
  else if bool_decide (u ∈ ["us"; "µs"; "μs"]) then Some 1000
  else if String.eqb u "ms" then Some 1000000
  else if String.eqb u "s" then Some second
  else if String.eqb u "m" then Some minute
  else if String.eqb u "h" then Some hour
  else None.

Fixpoint span (f : ascii → bool) (s : string) : string * string :=
  match s with
  | String c s' => if f c then let '(a, b) := span f s' in (String c a, b) else ("", s)
  | "" => ("", "")
  end.

(** The value of the digits before the point; [None] when it exceeds 2^63. *)
Definition leadingInt (digits : string) : option Z := if dec digits <=? max63 then Some (dec digits) else None.

(** The value and the number of the digits after the point that fit. *)
Fixpoint leadingFraction (x : Z) (n : nat) (digits : string) : Z * nat :=
  match digits with
  | "" => (x, n)
  | String c s' =>
      if ((max63 - 1) / 10 <? x) || (max63 <? x * 10 + digit_val c) then (x, n)
      else leadingFraction (x * 10 + digit_val c) (S n) s'
  end.

(** [uint64(float64(f) * (float64(unit) / scale))], the scale multiplied up by
    ten once for each digit. *)
Fixpoint f64_pow10 (n : nat) : f64 := match n with O => f64_of 1 | S n' => f64_mul (f64_pow10 n') (f64_of 10) end.
Definition fraction_ns (f : Z) (digits : nat) (unit_ : Z) : Z :=
  f64_trunc (f64_mul (f64_of f) (f64_div (f64_of unit_) (f64_pow10 digits))).

Definition is_unit_char (c : ascii) : bool := negb (ceqb c "." || is_digit c).

(** The terms [<number><unit>] after the sign; each takes at least two bytes, so
    the length is fuel enough. *)
Fixpoint duration_terms (fuel : nat) (d : Z) (s : string) : option Z :=
  match fuel, s with
  | _, "" => Some d
  | O, _ => None
  | S fuel', _ =>
      let '(int, s1) := span is_digit s in
      v ← leadingInt int;
      let '(frac, s2) := match s1 with String "." r => span is_digit r | _ => ("", s1) end in
      if String.eqb int "" && String.eqb frac "" then None
      else
        let '(u, s3) := span is_unit_char s2 in
        if String.eqb u "" then None
        else
          unit_ ← unitMap u;
          if max63 / unit_ <? v then None
          else
            let '(f, n) := leadingFraction 0 0 frac in
            let v' := v * unit_ + (if 0 <? f then fraction_ns f n unit_ else 0) in
            if (max63 <? v') || (max63 <? wrap64 (d + v')) then None else duration_terms fuel' (wrap64 (d + v')) s3
  end.

Definition ParseDuration (s : string) : option duration :=
  let '(neg, body) :=
    match s with
    | String "-" r => (true, r)
    | String "+" r => (false, r)
    | _ => (false, s)
    end in
  if String.eqb body "0" then Some 0
  else if String.eqb body "" then None
  else d ← duration_terms (slen body) 0 body;
       if (neg : bool) then Some (- d) else if max63 - 1 <? d then None else Some d.

Example durations :
  map ParseDuration ["72h"; "5m"; "1h30m0.5s"; "-1.5h"; "0"; "1d"; "10"; ".s"; "9223372036854775807ns"; "9223372036854775808ns"] =
  [Some (72 * hour); Some (5 * minute); Some (hour + 30 * minute + 500000000); Some (- (hour + 30 * minute)); Some 0;
   None; None; None; Some 9223372036854775807; None].
Proof. vm_compute. reflexivity. Qed.

Example integers :
  map ParseInt0 ["0x_1F"; "0b101"; "-017"; "1_000"; "_1"; "1__0"; "9223372036854775808"; ""; "+"; "0"; "08"] =
  [Some 31; Some 5; Some (-15); Some 1000; None; None; None; None; None; Some 0; None].
Proof. vm_compute. reflexivity. Qed.

(** ** [strings.EqualFold]: bytes while both strings are ASCII, the Unicode tables
    (a parameter) beyond. *)
Class Folding := { unicode_equal_fold : string → string → bool }.
Definition EqualFold `{Folding} (a b : string) : bool :=
  if is_ascii a && is_ascii b then String.eqb (smap lower_char a) (smap lower_char b) else unicode_equal_fold a b.
Definition demoFolding : Folding := {| unicode_equal_fold := String.eqb |}.

(** [encoding/hex.DecodeString] *)
Definition hex_val (c : ascii) : option Z :=
  if is_digit c then Some (digit_val c) else if is_hex_letter c then Some (lower_ord c - 87) else None.
Fixpoint hex_decode (s : string) : option string :=
  match s with
  | "" => Some ""
  | String _ "" => None
  | String a (String b s') => h ← hex_val a; l ← hex_val b; r ← hex_decode s'; Some (String (ascii_of_N (Z.to_N (16 * h + l))) r)
  end.

(** ** The flag package

    [FlagSet.Parse] over a table of flags; what was set is kept as the texts
    given, each accepted by the type of its flag. *)
Class FloatText := { parse_float64 : string → option f64 }.  (* [strconv.ParseFloat(s, 64)] *)
Inductive flag_kind := KString | KDuration | KInt | KFloat | KBool.

Section Flags.
Context `{FloatText} (table : list (string * flag_kind)).

Definition flag_accepts (k : flag_kind) (v : string) : bool :=
  match k with
  | KString => true
  | KDuration => bool_decide (is_Some (ParseDuration v))
  | KInt => bool_decide (is_Some (ParseInt0 v))
  | KFloat => match parse_float64 v with Some _ => true | None => false end
  | KBool => bool_decide (is_Some (ParseBool v))
  end.
Definition flag_kind_of (name : string) : option flag_kind := snd <$> find (fun x => String.eqb x.1 name) table.

Abbreviation settings := (gmap string string).
Inductive FlagResult := Parsed (st : settings) (rest : list string) | Help | Bad.

Fixpoint flag_Parse (args : list string) (st : settings) : FlagResult :=
  match args with
  | [] => Parsed st []
  | s :: rest =>
      if (slen s <? 2)%nat || negb (has_prefix s "-") then Parsed st args
      else if String.eqb s "--" then Parsed st rest
      else
        let name0 := sdrop (if has_prefix s "--" then 2 else 1) s in
        if has_prefix name0 "-" || has_prefix name0 "=" then Bad
        else
          let '(before_eq, after_eq, hasValue) := cut "=" name0 in
          match flag_kind_of before_eq with
          | None => if String.eqb before_eq "help" || String.eqb before_eq "h" then Help else Bad
          | Some KBool => if hasValue then if flag_accepts KBool after_eq then flag_Parse rest (<[before_eq := after_eq]> st) else Bad
                          else flag_Parse rest (<[before_eq := "true"]> st)
          | Some k =>
              if hasValue then if flag_accepts k after_eq then flag_Parse rest (<[before_eq := after_eq]> st) else Bad
              else match rest with
                   | [] => Bad
                   | v :: rest' => if flag_accepts k v then flag_Parse rest' (<[before_eq := v]> st) else Bad
                   end
          end
  end.

(** The value of a flag: the last text set, or the default. *)
Definition flag_get {A} (read : string → option A) (st : settings) (name : string) (dflt : A) : A :=
  match st !! name with Some v => default dflt (read v) | None => dflt end.
Definition flag_string := flag_get (@Some string).
Definition flag_duration := flag_get ParseDuration.
Definition flag_int := flag_get ParseInt0.
Definition flag_float := flag_get parse_float64.
Definition flag_bool := flag_get ParseBool.
End Flags.
