(* ===== verification/Prog.v ===== *)
(** * Programs over a shared world

    The services of this program run many requests at once against one store:
    each store call is one SQLite transaction or query, the clock, the UUID
    generator and the chain are consulted between them, and one mutex serialises
    part of [trade.Create].  [prog W A] is such a request: a sequence of atomic
    actions on a world [W], each of which may block, and each of which may fail
    without effect (an I/O error, a cancelled context) when the call it stands
    for can.  [run] executes a request alone; [step] interleaves a pool of
    requests at atomic-action granularity with arbitrary environment moves,
    failures and crashes.  [safe] is a rely-guarantee judgement on one request,
    and [pool_safe] lifts it to every interleaving. *)
From S2P Require Import Prelude.

(** [Atomic f fault k]: [f] is the action (None when it blocks), [fault] the
    result it has when it fails without effect, [k] the rest. *)
Inductive prog (W A : Type) : Type :=
  | Ret (a : A)
  | Atomic {R : Type} (f : W → option (R * W)) (fault : option R) (k : R → prog W A).
Arguments Ret {W A} _.
Arguments Atomic {W A R} _ _ _.

Fixpoint prog_bind {W A B} (f : A → prog W B) (p : prog W A) : prog W B :=
  match p with
  | Ret a => f a
  | Atomic act fl k => Atomic act fl (fun r => prog_bind f (k r))
  end.

(** A request that may return a Go error. *)
Definition io (W A : Type) : Type := prog W (res A).

(** Go's [x, err := m; if err != nil { return err }; f x]. *)
Definition io_bind {W A B} (m : io W A) (f : A → io W B) : io W B :=
  prog_bind (fun r => match r with Ok a => f a | Err e => Ret (Err e) end) m.

Notation "x <~ m ;; k" := (io_bind m (fun x => k))
  (at level 20, m at level 99, k at level 200) : vt_scope.
Notation "' p <~ m ;; k" := (io_bind m (fun x => match x with p => k end))
  (at level 20, p pattern, m at level 99, k at level 200) : vt_scope.

Definition ok {W A} (a : A) : io W A := Ret (Ok a).
Definition fail {W A} (e : error) : io W A := Ret (Err e).
(** A pure fallible step of a request. *)
Definition lift {W A} (r : res A) : io W A := Ret r.
(** [if cond { return ..., err }] *)
Definition refuse {W} (b : bool) (e : error) : io W unit := Ret (guard_err b e).

(** [err != nil && errors.Is(err, s)] branches: what follows a call whose error
    is inspected rather than returned. *)
Definition on_result {W A B} (m : io W A) (k : res A → io W B) : io W B := prog_bind k m.

(** [for _, x := range l { acc, err = f(acc, x); if err != nil { return } }] *)
Fixpoint io_fold {W A B} (f : B → A → io W B) (acc : B) (l : list A) : io W B :=
  match l with
  | [] => ok acc
  | x :: l' => acc' <~ f acc x;; io_fold f acc' l'
  end.

(** ** Running a request alone *)
Fixpoint run {W A} (p : prog W A) (w : W) : option (A * W) :=
  match p with
  | Ret a => Some (a, w)
  | Atomic f _ k => match f w with Some (r, w') => run (k r) w' | None => None end
  end.

Lemma run_bind {W A B} (p : prog W A) (f : A → prog W B) w :
  run (prog_bind f p) w = match run p w with Some (a, w') => run (f a) w' | None => None end.
Proof. revert w. induction p as [a|R act fl k IH]; intros w; cbn; [done|]. by destruct (act w) as [[]|]. Qed.

Lemma run_io_bind {W A B} (p : io W A) (f : A → io W B) w :
  run (io_bind p f) w = match run p w with
    | Some (Ok a, w') => run (f a) w'
    | Some (Err e, w') => Some (Err e, w')
    | None => None end.
Proof. unfold io_bind. rewrite run_bind. by destruct (run p w) as [[[] ?]|]. Qed.

(** ** Interleaved execution *)
Section Pool.
Context {W A : Type}.
(** The environment's moves, what survives a crash of the process, and the
    requests that may arrive. *)
Context (env : relation W) (crash : W → W) (admissible : prog W A → Prop).

Inductive step : W * list (prog W A) → W * list (prog W A) → Prop :=
  | step_act w ps i R (f : W → option (R * W)) fl k r w' :
      ps !! i = Some (Atomic f fl k) → f w = Some (r, w') →
      step (w, ps) (w', <[i := k r]> ps)
  | step_fault w ps i R (f : W → option (R * W)) r k :
      ps !! i = Some (Atomic f (Some r) k) →
      step (w, ps) (w, <[i := k r]> ps)
  | step_spawn w ps p : admissible p → step (w, ps) (w, ps ++ [p])
  | step_env w w' ps : env w w' → step (w, ps) (w', ps)
  | step_crash w ps : step (w, ps) (crash w, []).
End Pool.

(** ** Rely-guarantee *)
Section Safe.
Context {W : Type} (R G : relation W).

(** Whatever the others do between two actions (within [R]), every action of
    [p] stays within [G], and a returned value satisfies [Q]. *)
Fixpoint safe {A} (Q : A → W → Prop) (p : prog W A) (w : W) : Prop :=
  match p with
  | Ret a => Q a w
  | Atomic f fl k => ∀ w1, R w w1 →
      (∀ r w2, f w1 = Some (r, w2) → G w1 w2 ∧ safe Q (k r) w2) ∧
      (∀ r, fl = Some r → safe Q (k r) w1)
  end.

Lemma safe_mono {A} (Q Q' : A → W → Prop) (p : prog W A) w :
  (∀ a w', Q a w' → Q' a w') → safe Q p w → safe Q' p w.
Proof.
  intros HQ. revert w. induction p as [a|X f fl k IH]; cbn; intros w; [by auto|].
  intros H w1 Hw1. destruct (H w1 Hw1) as [H1 H2]. split.
  - intros r w2 Hf. destruct (H1 r w2 Hf). auto.
  - intros r Hf. auto.
Qed.

Lemma safe_bind {A B} (Q : B → W → Prop) (p : prog W A) (f : A → prog W B) w :
  safe (fun a w' => safe Q (f a) w') p w → safe Q (prog_bind f p) w.
Proof.
  revert w. induction p as [a|X act fl k IH]; cbn; intros w; [done|].
  intros H w1 Hw1. destruct (H w1 Hw1) as [H1 H2]. split.
  - intros r w2 Hf. destruct (H1 r w2 Hf). split; [done|]. by apply IH.
  - intros r Hf. by apply IH, H2.
Qed.

Lemma safe_io_bind {A B} (Q : res B → W → Prop) (p : io W A) (f : A → io W B) w :
  safe (fun r w' => match r with Ok a => safe Q (f a) w' | Err e => Q (Err e) w' end) p w →
  safe Q (io_bind p f) w.
Proof.
  intros H. unfold io_bind. apply safe_bind. revert H. apply safe_mono.
  by intros [a|e] w'.
Qed.

(** What the program reaches is related to where it started. *)
Lemma safe_reaches `{!Reflexive R} `{!Transitive R} {A} (Q : A → W → Prop) (p : prog W A) w :
  (∀ w w', G w w' → R w w') → safe Q p w → safe (fun a w' => R w w' ∧ Q a w') p w.
Proof.
  intros GR. enough (∀ w0, R w0 w → safe Q p w → safe (fun a w' => R w0 w' ∧ Q a w') p w) as H by (intros; by apply H).
  intros w0. revert w. induction p as [a|X f fl k IH]; cbn; intros w Hw; [done|].
  intros H w1 Hw1. destruct (H w1 Hw1) as [H1 H2]. assert (R w0 w1) as Hw01 by (by etrans). split.
  - intros r w2 Hf. destruct (H1 r w2 Hf) as [Hg Hs]. split; [done|]. apply IH; [|done]. etrans; [exact Hw01|by apply GR].
  - intros r Hf. by apply IH, H2.
Qed.

(** Judgements are closed under interference when postconditions are. *)
Lemma safe_rely `{!Transitive R} {A} (Q : A → W → Prop) (p : prog W A) w w' :
  (∀ a w w', R w w' → Q a w → Q a w') → R w w' → safe Q p w → safe Q p w'.
Proof.
  intros HQ HR. destruct p as [a|X f fl k]; cbn; [by eauto|].
  intros H w1 Hw1. apply H. by etrans.
Qed.
End Safe.

(** [safe] requests that need no postcondition. *)
Abbreviation always := (fun _ _ => True).

Section Answers.
Context {W A : Type} (env : relation W) (crash : W → W) (admissible : prog W A → Prop).
Context (R : relation W) `{!Reflexive R} `{!Transitive R}.
Context (env_R : ∀ w w', env w w' → R w w').
Context (crash_R : ∀ w, R w (crash w)).
(** An invariant of the world that [R] keeps and requests may start from. *)
Context (I : W → Prop) (R_I : ∀ w w', R w w' → I w → I w').
(** What an answer guarantees, whatever happens next. *)
Context (Q : A → W → Prop) (Q_R : ∀ a w w', R w w' → Q a w → Q a w').
Context (admissible_safe : ∀ p w, admissible p → I w → safe R R Q p w).

Definition pool_holds (c : W * list (prog W A)) : Prop :=
  I c.1 ∧ Forall (fun p => safe R R Q p c.1) c.2.

Lemma pool_holds_rely w w' ps : R w w' → pool_holds (w, ps) → pool_holds (w', ps).
Proof.
  intros HR [HI H]. split; [by eapply R_I|]. cbn in *. eapply Forall_impl; [exact H|].
  intros p. by apply safe_rely.
Qed.

Lemma step_holds c c' : step env crash admissible c c' → pool_holds c → R c.1 c'.1 ∧ pool_holds c'.
Proof.
  intros Hs Hp. pose proof Hp as [HI Hf].
  destruct Hs as [w ps i X f fl k r w' Hi Ha|w ps i X f r k Hi|w ps p Ha|w w' ps He|w ps]; cbn in *.
  - rewrite Forall_lookup in Hf. apply Hf in Hi as Hsafe.
    destruct (Hsafe w (reflexivity w)) as [H _]. destruct (H r w' Ha) as [HR Hsk].
    split; [done|]. destruct (pool_holds_rely w w' ps HR Hp) as [HI' Hf']. split; [done|].
    cbn in *. by apply Forall_insert.
  - split; [done|]. split; [done|]. cbn. apply Forall_insert; [done|].
    rewrite Forall_lookup in Hf. destruct (Hf _ _ Hi w (reflexivity w)) as [_ H]. by apply H.
  - split; [done|]. split; [done|]. cbn. apply Forall_app. split; [done|]. constructor; [|done]. by apply admissible_safe.
  - split; [by apply env_R|]. eapply pool_holds_rely, Hp. by apply env_R.
  - split; [apply crash_R|]. split; [|constructor]. cbn. eapply R_I, HI. apply crash_R.
Qed.

(** Every interleaving of safe requests, from any pool of safe requests, stays
    within [R]. *)
Lemma pool_answers c c' :
  rtc (step env crash admissible) c c' → pool_holds c → R c.1 c'.1 ∧ pool_holds c'.
Proof.
  induction 1 as [c|c1 c2 c3 H12 _ IH]; [done|]. intros Hp.
  destruct (step_holds c1 c2 H12 Hp) as [H1 H2]. destruct (IH H2) as [H3 H4].
  split; [by etrans|done].
Qed.
End Answers.

Section Lifting.
Context {W A : Type} (env : relation W) (crash : W → W) (admissible : prog W A → Prop).
Context (R : relation W) `{!Reflexive R} `{!Transitive R}.
Context (env_R : ∀ w w', env w w' → R w w').
Context (crash_R : ∀ w, R w (crash w)).
Context (I : W → Prop) (R_I : ∀ w w', R w w' → I w → I w').
Context (admissible_safe : ∀ p w, admissible p → I w → safe R R always p w).

Definition pool_ok (c : W * list (prog W A)) : Prop :=
  I c.1 ∧ Forall (fun p => safe R R always p c.1) c.2.

(** Every interleaving of safe requests, from any pool of safe requests, stays
    within [R]. *)
Lemma pool_safe c c' :
  rtc (step env crash admissible) c c' → pool_ok c → R c.1 c'.1 ∧ pool_ok c'.
Proof. by apply (pool_answers env crash admissible R env_R crash_R I R_I). Qed.
End Lifting.

(** ** Running a request inside a pool *)
Section Alone.
Context {W A : Type} (env : relation W) (crash : W → W) (admissible : prog W A → Prop).

(** One action of the request at the end of [ps]. *)
Lemma step_middle ps R (f : W → option (R * W)) fl k qs w r w' : f w = Some (r, w') →
  step env crash admissible (w, ps ++ Atomic f fl k :: qs) (w', ps ++ k r :: qs).
Proof.
  intros Hf. assert (ps ++ k r :: qs = <[length ps := k r]> (ps ++ Atomic f fl k :: qs)) as ->.
  { by rewrite insert_app_r_alt, Nat.sub_diag by lia. }
  eapply step_act; [|exact Hf]. by rewrite lookup_app_r, Nat.sub_diag by lia.
Qed.

(** A request that runs to its end undisturbed is one interleaving. *)
Lemma run_steps_middle (p : prog W A) w a w' ps qs :
  run p w = Some (a, w') →
  rtc (step env crash admissible) (w, ps ++ p :: qs) (w', ps ++ Ret a :: qs).
Proof.
  revert w. induction p as [b|X f fl k IH]; intros w; cbn; [by intros [= -> ->]|].
  destruct (f w) as [[r w1]|] eqn:Hf; [|done]. intros Hr.
  eapply rtc_l; [by apply step_middle|by apply IH].
Qed.

Lemma run_steps (p : prog W A) w a w' ps :
  run p w = Some (a, w') →
  rtc (step env crash admissible) (w, ps ++ [p]) (w', ps ++ [Ret a]).
Proof. apply run_steps_middle. Qed.

(** The rest of a request after its first [n] actions. *)
Fixpoint run_split (n : nat) (p : prog W A) (w : W) : option (prog W A * W) :=
  match n, p with
  | S n', Atomic f _ k => match f w with Some (r, w') => run_split n' (k r) w' | None => None end
  | _, _ => Some (p, w)
  end.

Lemma run_split_steps n (p q : prog W A) w w' ps : run_split n p w = Some (q, w') →
  rtc (step env crash admissible) (w, ps ++ [p]) (w', ps ++ [q]).
Proof.
  revert p w. induction n as [|n IH]; intros [a|X f fl k] w; cbn; try (by intros [= -> ->]).
  destruct (f w) as [[r w1]|] eqn:Hf; [|done]. intros Hr.
  eapply rtc_l; [by apply step_middle|by apply IH].
Qed.

(** A scenario: requests served one after the other, requests cut short by a
    crash, a request served between the [n]-th action of another and its next,
    moves of the environment. *)
Inductive happening :=
  | Serves (p : prog W A)
  | CrashIn (p : prog W A) (n : nat)
  | Amid (p : prog W A) (n : nat) (q : prog W A)
  | Moves (f : W → W).

Definition happens (e : happening) (w : W) : option W :=
  match e with
  | Serves p => snd <$> run p w
  | CrashIn p n => crash ∘ snd <$> run_split n p w
  | Amid p n q =>
      '(p', w1) ← run_split n p w; '(_, w2) ← run q w1; snd <$> run p' w2
  | Moves f => Some (f w)
  end.

Definition play (l : list happening) (w : W) : option W :=
  foldl (fun o e => o ≫= happens e) (Some w) l.

(** What a scenario may contain. *)
Definition allowed (e : happening) : Prop :=
  match e with
  | Serves p | CrashIn p _ => admissible p
  | Amid p _ q => admissible p ∧ admissible q
  | Moves f => ∀ w, env w (f w)
  end.

Lemma happens_steps e w w' ps : allowed e → happens e w = Some w' →
  ∃ ps', rtc (step env crash admissible) (w, ps) (w', ps').
Proof.
  destruct e as [p|p n|p n q|f]; cbn; intros Ha.
  - destruct (run p w) as [[a w1]|] eqn:Hr; cbn; [|done]. intros [= <-].
    exists (ps ++ [Ret a]). eapply rtc_l; [by apply step_spawn|]. by apply run_steps.
  - destruct (run_split n p w) as [[q w1]|] eqn:Hr; cbn; [|done]. intros [= <-]. exists [].
    eapply rtc_l; [by apply step_spawn|]. etrans; [by eapply run_split_steps|]. apply rtc_once, step_crash.
  - destruct Ha as [Hp Hq]. destruct (run_split n p w) as [[p' w1]|] eqn:Hr; cbn; [|done].
    destruct (run q w1) as [[a w2]|] eqn:Hr2; cbn; [|done].
    destruct (run p' w2) as [[b w3]|] eqn:Hr3; cbn; [|done]. intros [= <-].
    exists (ps ++ Ret b :: [Ret a]). eapply rtc_l; [by apply (step_spawn env crash admissible w ps p)|].
    etrans; [by eapply run_split_steps|].
    eapply rtc_l; [by apply (step_spawn env crash admissible w1 (ps ++ [p']) q)|].
    etrans; [by eapply run_steps|]. rewrite <-app_assoc. cbn [app]. eapply run_steps_middle. exact Hr3.
  - intros [= <-]. exists ps. by apply rtc_once, step_env.
Qed.

(** A scenario that plays to its end is an interleaving. *)
Lemma play_steps l w w' ps : Forall allowed l → play l w = Some w' →
  ∃ ps', rtc (step env crash admissible) (w, ps) (w', ps').
Proof.
  unfold play. revert w ps. induction l as [|e l IH]; intros w ps Hl; cbn.
  - intros [= ->]. by exists ps.
  - inversion Hl as [|? ? He Hl']; subst. destruct (happens e w) as [w1|] eqn:Hh; cbn.
    + intros Hp. destruct (happens_steps e w w1 ps He Hh) as [ps1 H1].
      destruct (IH w1 ps1 Hl' Hp) as [ps2 H2]. exists ps2. by etrans.
    + intros Hp. exfalso. clear -Hp. induction l as [|e' l IH]; cbn in *; [done|]. by apply IH.
Qed.
End Alone.
Arguments happening : clear implicits.

(** ** Finitely many actions *)
Section Work.
Context {W A : Type}.

(** The requests one action away. *)
Definition follows (q p : prog W A) : Prop :=
  match p with Ret _ => False | Atomic _ _ k => ∃ r, q = k r end.

Lemma follows_acc (p : prog W A) : Acc follows p.
Proof. induction p as [a|R f fl k IH]; constructor; cbn; [done|]. by intros q [r ->]. Qed.

(** One request of the pool moved on by an action. *)
Definition shrinks (qs ps : list (prog W A)) : Prop :=
  ∃ i p q, ps !! i = Some p ∧ follows q p ∧ qs = <[i := q]> ps.

Lemma shrinks_acc ps : Acc shrinks ps.
Proof.
  induction ps as [|p ps IH].
  { constructor. intros qs (i & p & q & Hi & _). done. }
  revert ps IH. induction (follows_acc p) as [p _ IHp]. intros ps Hps.
  induction Hps as [ps Hacc IHps]. constructor. intros qs ([|i] & p' & q & Hi & Hf & ->); cbn in *.
  - injection Hi as <-. apply IHp; [exact Hf|by constructor].
  - apply IHps. by exists i, p', q.
Qed.

(** An action of a request in progress; and one that may fail. *)
Inductive acts : W * list (prog W A) → W * list (prog W A) → Prop :=
  | acts_done w ps i R (f : W → option (R * W)) fl k r w' :
      ps !! i = Some (Atomic f fl k) → f w = Some (r, w') → acts (w, ps) (w', <[i := k r]> ps).
Inductive works : W * list (prog W A) → W * list (prog W A) → Prop :=
  | works_done c c' : acts c c' → works c c'
  | works_failed w ps i R (f : W → option (R * W)) r k :
      ps !! i = Some (Atomic f (Some r) k) → works (w, ps) (w, <[i := k r]> ps).

Lemma works_shrinks c c' : works c c' → shrinks c'.2 c.2.
Proof. destruct 1 as [? ? []|]; cbn; eexists _, _, _; (split_and!; [eassumption|by eexists|done]). Qed.

Lemma works_acc c : Acc (flip works) c.
Proof.
  destruct c as [w ps]. revert w. induction (shrinks_acc ps) as [ps _ IH]. intros w. constructor.
  intros [w' ps'] Hw%works_shrinks. by apply IH.
Qed.

(** Work is part of what the pool may do. *)
Lemma works_step (env : relation W) crash (admissible : prog W A → Prop) c c' :
  works c c' → step env crash admissible c c'.
Proof. destruct 1 as [? ? []|]; [by eapply step_act|by eapply step_fault]. Qed.

Definition replied (p : prog W A) : Prop := ∃ a, p = Ret a.
#[export] Instance replied_dec p : Decision (replied p).
Proof. destruct p as [a|R f fl k]; [left; by exists a|right; by intros [a ?]]. Defined.
End Work.

(** ** Steps by computation

    What a request does next, and what becomes of it when its action fails. *)
Definition next_of {W A} (p : prog W A) (w : W) : option (prog W A * W) :=
  match p with
  | Ret _ => None
  | Atomic f _ k => match f w with Some (r, w') => Some (k r, w') | None => None end
  end.
Definition failed_of {W A} (p : prog W A) : option (prog W A) :=
  match p with Atomic _ (Some r) k => Some (k r) | _ => None end.

Lemma next_bind {W A B} (f : A → prog W B) (p : prog W A) w q w' : next_of (prog_bind f p) w = Some (q, w') →
  (∃ a, p = Ret a) ∨ ∃ p', next_of p w = Some (p', w') ∧ q = prog_bind f p'.
Proof.
  destruct p as [a|R g fl k]; [intros _; left; by exists a|]. cbn. destruct (g w) as [[r w1]|]; [|done].
  intros [= <- <-]. right. by eexists.
Qed.
Lemma failed_bind {W A B} (f : A → prog W B) (p : prog W A) q : failed_of (prog_bind f p) = Some q →
  (∃ a, p = Ret a) ∨ ∃ p', failed_of p = Some p' ∧ q = prog_bind f p'.
Proof.
  destruct p as [a|R g [r|] k]; [intros _; left; by exists a| |done]. intros [= <-]. right. by eexists.
Qed.

(** *** One program, and an environment that acts between its actions *)
Section Execution.
Context {W : Type} (env : relation W).

Inductive exec {A} : prog W A → W → prog W A → W → Prop :=
  | exec_here p w : exec p w p w
  | exec_env p w w1 q w' : env w w1 → exec p w1 q w' → exec p w q w'
  | exec_act p w p1 w1 q w' : next_of p w = Some (p1, w1) → exec p1 w1 q w' → exec p w q w'
  | exec_fault p w p1 q w' : failed_of p = Some p1 → exec p1 w q w' → exec p w q w'.

(** A sequence is in its first part, or the first part has ended. *)
Lemma exec_bind {A B} (f : A → prog W B) (p : prog W A) w q w' : exec (prog_bind f p) w q w' →
  (∃ p', exec p w p' w' ∧ q = prog_bind f p') ∨ ∃ a w1, exec p w (Ret a) w1 ∧ exec (f a) w1 q w'.
Proof.
  remember (prog_bind f p) as b eqn:E. intros H. revert p E.
  induction H as [b w|b w w1 q w' He H IH|b w b1 w1 q w' Hn H IH|b w b1 q w' Hn H IH]; intros p ->.
  - left. exists p. split; [constructor|done].
  - destruct (IH p eq_refl) as [(p' & H1 & H2)|(a & w2 & H1 & H2)]; [left; exists p'|right; exists a, w2]; (split; [by eapply exec_env|done]).
  - destruct (next_bind f p w _ _ Hn) as [[a ->]|(p1 & Hp & ->)]; [right; exists a, w; split; [constructor|by eapply exec_act]|].
    destruct (IH p1 eq_refl) as [(p' & H1 & H2)|(a & w2 & H1 & H2)]; [left; exists p'|right; exists a, w2]; (split; [by eapply exec_act|done]).
  - destruct (failed_bind f p _ Hn) as [[a ->]|(p1 & Hp & ->)]; [right; exists a, w; split; [constructor|by eapply exec_fault]|].
    destruct (IH p1 eq_refl) as [(p' & H1 & H2)|(a & w2 & H1 & H2)]; [left; exists p'|right; exists a, w2]; (split; [by eapply exec_fault|done]).
Qed.

Lemma exec_io_bind {A B} (f : A → io W B) (p : io W A) w q w' : exec (io_bind p f) w q w' →
  (∃ p', exec p w p' w' ∧ q = io_bind p' f) ∨ (∃ e, exec p w (Ret (Err e)) w' ∧ q = Ret (Err e)) ∨
  ∃ a w1, exec p w (Ret (Ok a)) w1 ∧ exec (f a) w1 q w'.
Proof.
  intros [(p' & H & ->)|([a|e] & w1 & H1 & H2)]%exec_bind; [left; by exists p'|right; right; by exists a, w1|right; left].
  assert (q = Ret (Err e) ∧ exec p w (Ret (Err e)) w') as [-> ?]; [|by exists e]. clear f. revert H1.
  remember (Ret (Err e)) as b eqn:E. revert E. induction H2 as [b w1|b w1 w2 q w' He H IH|b w1 b1 w2 q w' Hn|b w1 b1 q w' Hn]; intros -> H1; try done.
  apply IH; [done|]. clear -H1 He. remember (Ret (Err e)) as c eqn:E. induction H1; subst; [eapply exec_env; [exact He|constructor]|by eapply exec_env; eauto|by eapply exec_act; eauto|by eapply exec_fault; eauto].
Qed.

(** Running alone is one execution. *)
Lemma run_exec {A} (p : prog W A) w a w' : run p w = Some (a, w') → exec p w (Ret a) w'.
Proof.
  revert w. induction p as [x|R f fl k IH]; intros w; cbn; [intros [= <- <-]; constructor|].
  destruct (f w) as [[r w1]|] eqn:E; [|done]. intros H. eapply exec_act; [cbn; by rewrite E|by apply IH].
Qed.

Context (R G : relation W) `{!Reflexive R} `{!Transitive R} (env_R : ∀ w w', env w w' → R w w').
Lemma safe_exec {A} (Q : A → W → Prop) (p q : prog W A) w w' : (∀ a w w', R w w' → Q a w → Q a w') →
  safe R G Q p w → exec p w q w' → safe R G Q q w' ∧ rtc (fun a b => R a b ∨ G a b) w w'.
Proof.
  intros HQ Hs He. revert Hs. induction He as [p w|p w w1 q w' He H IH|p w p1 w1 q w' Hn H IH|p w p1 q w' Hn H IH]; intros Hs; [by split|..].
  - apply env_R in He. destruct IH as [H1 H2]; [by eapply safe_rely|]. split; [done|]. eapply rtc_l; [by left|done].
  - destruct p as [a|X f fl k]; [done|]. cbn in Hn. destruct (f w) as [[r w2]|] eqn:E; [|done]. injection Hn as <- <-.
    destruct (Hs w (reflexivity w)) as [H1 _]. destruct (H1 r w2 E) as [Hg Hk]. destruct (IH Hk) as [H2 H3].
    split; [done|]. eapply rtc_l; [by right|done].
  - destruct p as [a|X f [r|] k]; [done| |done]. injection Hn as <-. destruct (Hs w (reflexivity w)) as [_ H2]. by apply IH, H2.
Qed.
End Execution.

Lemma step_cases {W A} (env : relation W) crash (admissible : prog W A → Prop) w ps w' ps' :
  step env crash admissible (w, ps) (w', ps') →
  (∃ i p q, ps !! i = Some p ∧ next_of p w = Some (q, w') ∧ ps' = <[i := q]> ps) ∨
  (∃ i p q, ps !! i = Some p ∧ failed_of p = Some q ∧ w' = w ∧ ps' = <[i := q]> ps) ∨
  (∃ p, admissible p ∧ w' = w ∧ ps' = ps ++ [p]) ∨
  (env w w' ∧ ps' = ps) ∨ (w' = crash w ∧ ps' = []).
Proof.
  inversion 1 as [? ? i R f fl k r ? Hi Hf|? ? i R f r k Hi| | |]; subst.
  - left. exists i, (Atomic f fl k), (k r). split_and!; [done| |done]. cbn. by rewrite Hf.
  - right; left. by exists i, (Atomic f (Some r) k), (k r).
  - right; right; left. by eexists.
  - right; right; right; left. done.
  - right; right; right; right. done.
Qed.

Lemma next_acts {W A} (w : W) (ps : list (prog W A)) i p q w' :
  ps !! i = Some p → next_of p w = Some (q, w') → acts (w, ps) (w', <[i := q]> ps).
Proof.
  destruct p as [a|R f fl k]; [done|]. cbn. destruct (f w) as [[r w1]|] eqn:E; [|done]. intros Hi [= <- <-]. by eapply acts_done.
Qed.

(** A pool some of whose requests can always act until all are finished drains. *)
Lemma drains {W A} (env : relation W) crash (admissible : prog W A → Prop) (I : W * list (prog W A) → Prop) :
  (∀ c c', I c → step env crash admissible c c' → I c') →
  (∀ c, I c → ¬ Forall replied c.2 → ∃ c', acts c c') →
  ∀ c, I c → ∃ c', rtc acts c c' ∧ Forall replied c'.2.
Proof.
  intros HI Hgo c. induction (works_acc c) as [c _ IH]. intros Hc.
  destruct (decide (Forall replied c.2)) as [Hf|Hn]; [by exists c|].
  destruct (Hgo c Hc Hn) as [c1 H1]. destruct (IH c1) as (c2 & H2 & Hf).
  - by apply works_done.
  - eapply HI; [done|]. eapply works_step. by apply works_done.
  - exists c2. split; [by eapply rtc_l|done].
Qed.
