(* ===== verification/Zoom.v ===== *)
(** * A program on a part of the state

    [zoom] runs a program over [V] as one over [W], through a pair of functions that
    read and write the part; [zoom_safe] carries a judgement over, together with
    what happens to the rest. *)
From S2P Require Import Prelude Prog.

Lemma safe_weaken {W A} (R G G' : relation W) (Q : A → W → Prop) (p : prog W A) w :
  (∀ w w', G w w' → G' w w') → safe R G Q p w → safe R G' Q p w.
Proof.
  intros HG. revert w. induction p as [a|X f fl k IH]; cbn; intros w; [done|]. intros H w1 Hw1.
  destruct (H w1 Hw1) as [H1 H2]. split; [intros r w2 Hf; destruct (H1 r w2 Hf); by split; [apply HG|apply IH]|intros r Hf; by apply IH, H2].
Qed.

Section Zoom.
Context {W V : Type} (get : W → V) (put : V → W → W).
Fixpoint zoom {A} (p : prog V A) : prog W A :=
  match p with
  | Ret a => Ret a
  | Atomic f fl k => Atomic (fun w => match f (get w) with Some (r, v) => Some (r, put v w) | None => None end) fl (fun r => zoom (k r))
  end.

Context (get_put : ∀ v w, get (put v w) = v) (R : relation V) (S F G' : relation W) `{!Transitive F}.
Context (S_R : ∀ w w', S w w' → R (get w) (get w')) (S_F : ∀ w w', S w w' → F w w') (put_F : ∀ v w, F w (put v w)) (put_G : ∀ v w, G' w (put v w)).
Lemma zoom_safe {A} (G : relation V) (Q : A → V → Prop) (p : prog V A) w w0 : F w0 w → safe R G Q p (get w) →
  safe S G' (fun a w' => Q a (get w') ∧ F w0 w') (zoom p) w.
Proof.
  revert w. induction p as [a|X f fl k IH]; cbn; intros w Hw; [done|]. intros H w1 Hw1.
  assert (F w0 w1) as Hw01 by (etrans; [exact Hw|by apply S_F]). destruct (H _ (S_R _ _ Hw1)) as [H1 H2]. split.
  - intros r w2. destruct (f (get w1)) as [[r' v]|] eqn:E; [|done]. intros [= <- <-]. split; [apply put_G|].
    apply IH; [etrans; [exact Hw01|apply put_F]|]. rewrite get_put. by apply H1.
  - intros r Hr. apply IH; [done|]. by apply H2.
Qed.
End Zoom.
