(* ===== verification/Sha256.v ===== *)
(** * SHA-256 and hexadecimal, executable

    [crypto/sha256] and [encoding/hex] as the ledger uses them.  Words are Z
    below 2^32, reduced by a mask.  Collision resistance is not a fact about this function
    and is nowhere assumed: theorems that need it conclude "equal, or here is a
    collision". *)
From S2P Require Import Prelude.

Definition w32 (z : Z) : Z := Z.land z 4294967295.
Definition add32 (a b : Z) : Z := w32 (a + b).
Definition rotr (n x : Z) : Z := Z.lor (Z.shiftr x n) (w32 (Z.shiftl x (32 - n))).

Definition Ch (x y z : Z) : Z := Z.lxor (Z.land x y) (Z.land (Z.lxor x 4294967295) z).
Definition Maj (x y z : Z) : Z := Z.lxor (Z.land x y) (Z.lxor (Z.land x z) (Z.land y z)).
Definition Sigma0 (x : Z) : Z := Z.lxor (rotr 2 x) (Z.lxor (rotr 13 x) (rotr 22 x)).
Definition Sigma1 (x : Z) : Z := Z.lxor (rotr 6 x) (Z.lxor (rotr 11 x) (rotr 25 x)).
Definition sigma0 (x : Z) : Z := Z.lxor (rotr 7 x) (Z.lxor (rotr 18 x) (Z.shiftr x 3)).
Definition sigma1 (x : Z) : Z := Z.lxor (rotr 17 x) (Z.lxor (rotr 19 x) (Z.shiftr x 10)).

(** The constants, as the standard defines them: the first 32 fractional bits
    of the cube roots of the first 64 primes, and of the square roots of the
    first eight. *)
Definition is_prime (n : nat) : bool :=
  forallb (fun d => negb (Nat.eqb (Nat.modulo n d) 0)) (seq 2 (n - 2)).
Definition primes : list Z := map Z.of_nat (List.filter is_prime (seq 2 310)).

(** The integer cube root, one bit of the result at a time. *)
Fixpoint cube_root_from (bits : nat) (root n : Z) : Z :=
  match bits with
  | O => root
  | S bits' =>
      let next := root + 2 ^ Z.of_nat bits' in
      cube_root_from bits' (if next * next * next <=? n then next else root) n
  end.
Definition cube_root (n : Z) : Z := cube_root_from 40 0 n.

Definition sha_K : list Z := Eval vm_compute in
  map (fun p => w32 (cube_root (p * 2 ^ 96))) primes.
Definition sha_H0 : list Z := Eval vm_compute in
  map (fun p => w32 (Z.sqrt (p * 2 ^ 64))) (take 8 primes).

Example sha_K_length : length sha_K = 64%nat.
Proof. reflexivity. Qed.

(** The message schedule, newest word first: [n] more words from the last 16. *)
Fixpoint schedule (n : nat) (rev_w : list Z) : list Z :=
  match n with
  | O => rev_w
  | S n' =>
      let at_ i := nth i rev_w 0 in
      let w := w32 (sigma1 (at_ 1%nat) + at_ 6%nat + sigma0 (at_ 14%nat) + at_ 15%nat) in
      schedule n' (w :: rev_w)
  end.

Definition round (st : list Z) (kw : Z * Z) : list Z :=
  match st with
  | [a; b; c; d; e; f; g; h] =>
      let t1 := w32 (h + Sigma1 e + Ch e f g + kw.1 + kw.2) in
      let t2 := add32 (Sigma0 a) (Maj a b c) in
      [add32 t1 t2; a; b; c; add32 d t1; e; f; g]
  | _ => st
  end.

Definition compress (st block : list Z) : list Z :=
  let ws := rev (schedule 48 (rev block)) in
  zip_with add32 st (foldl round st (zip sha_K ws)).

Fixpoint bytes_of (s : string) : list Z :=
  match s with EmptyString => [] | String c s' => ord c :: bytes_of s' end.

Definition be_bytes (n : nat) (z : Z) : list Z :=
  map (fun i => Z.land (Z.shiftr z (8 * Z.of_nat (n - 1 - i))) 255) (seq 0 n).

(** Padding: 0x80, zeroes up to 56 modulo 64, the bit length in 64 bits. *)
Definition sha_pad (bs : list Z) : list Z :=
  let l := length bs in
  bs ++ [0x80] ++ replicate ((119 - l mod 64) mod 64)%nat 0 ++ be_bytes 8 (8 * Z.of_nat l).

Fixpoint words (bs : list Z) : list Z :=
  match bs with
  | a :: b :: c :: d :: rest => (16777216 * a + 65536 * b + 256 * c + d) :: words rest
  | _ => []
  end.

Fixpoint blocks (fuel : nat) (ws : list Z) (st : list Z) : list Z :=
  match fuel, ws with
  | S fuel', _ :: _ => blocks fuel' (drop 16 ws) (compress st (take 16 ws))
  | _, _ => st
  end.

(** The fuel, one round per word, is more than one per block. *)
Definition sha256_words (s : string) : list Z :=
  let ws := words (sha_pad (bytes_of s)) in blocks (length ws) ws sha_H0.

Definition hex_digit (d : Z) : ascii :=
  ascii_of_N (Z.to_N (if d <? 10 then 48 + d else 87 + d)).

(** [hex.EncodeToString] *)
Fixpoint hex (bs : list Z) : string :=
  match bs with
  | [] => ""
  | b :: rest => String (hex_digit (Z.shiftr b 4)) (String (hex_digit (Z.land b 15)) (hex rest))
  end.

(** [hex.EncodeToString(sha256.Sum256(s))] *)
Definition sha256_hex (s : string) : string := hex (concat (map (be_bytes 4) (sha256_words s))).

Example sha256_abc :
  sha256_hex "abc" = "ba7816bf8f01cfea414140de5dae2223b00361a396177a9cb410ff61f20015ad".
Proof. vm_compute. reflexivity. Qed.

Example sha256_two_blocks :
  sha256_hex "abcdbcdecdefdefgefghfghighijhijkijkljklmklmnlmnomnopnopq" =
  "248d6a61d20638b8e5c026930c3e6039a33ce45964ff2167f6ecedd419db06c1".
Proof. vm_compute. reflexivity. Qed.

#[global] Arguments sha256_hex : simpl never.

(** The two strings are a collision of the digest. *)
Definition collides (a b : string) : Prop := a ≠ b ∧ sha256_hex a = sha256_hex b.

(** ** The digest has 64 hexadecimal digits *)
Lemma hex_length bs : slen (hex bs) = (2 * length bs)%nat.
Proof. induction bs as [|b bs IH]; [done|]. cbn [hex length]. rewrite !slen_cons, IH. lia. Qed.

Lemma round_length st kw : length st = 8%nat → length (round st kw) = 8%nat.
Proof. intros H. do 9 (destruct st as [|? st]; try discriminate H). reflexivity. Qed.

Lemma compress_length st b : length st = 8%nat → length (compress st b) = 8%nat.
Proof.
  intros H. unfold compress. rewrite length_zip_with.
  assert (∀ l s, length s = 8%nat → length (foldl round s l) = 8%nat) as Hfold.
  { induction l as [|x l IH]; intros s Hs; [done|]. cbn [foldl]. by apply IH, round_length. }
  rewrite Hfold by done. lia.
Qed.

Lemma blocks_length fuel ws st : length st = 8%nat → length (blocks fuel ws st) = 8%nat.
Proof.
  revert ws st. induction fuel as [|f IH]; intros [|w ws] st H; try done.
  cbn [blocks]. by apply IH, compress_length.
Qed.

Lemma sha256_hex_length s : slen (sha256_hex s) = 64%nat.
Proof.
  unfold sha256_hex. rewrite hex_length.
  assert (length (sha256_words s) = 8%nat) as H by by apply blocks_length.
  revert H. generalize (sha256_words s). intros l H.
  do 9 (destruct l as [|? l]; try discriminate H). reflexivity.
Qed.
