(* ===== verification/Json.v ===== *)
(** * [encoding/json] and RFC 3339 times, as the services use them

    The string encoder of [encoding/json] (HTML-safe escapes, U+FFFD for invalid
    UTF-8), objects with their fields in a given order, and the nanosecond
    RFC 3339 rendering of a UTC instant. *)
From S2P Require Import Prelude.

Definition hex_lower (d : Z) : ascii := ascii_of_N (Z.to_N (if d <? 10 then 48 + d else 87 + d)).

(** The byte length of the valid UTF-8 sequence [s] starts with; 0 if none. *)
Definition cont (b : Z) : bool := (0x80 <=? b) && (b <=? 0xBF).
Definition rune_len (s : string) : nat :=
  let b0 := byte_at 0 s in let b1 := byte_at 1 s in
  let b2 := byte_at 2 s in let b3 := byte_at 3 s in
  if b0 <? 0 then 0
  else if b0 <? 0x80 then 1
  else if (0xC2 <=? b0) && (b0 <=? 0xDF) && cont b1 then 2
  else if (b0 =? 0xE0) && (0xA0 <=? b1) && (b1 <=? 0xBF) && cont b2 then 3
  else if (b0 =? 0xED) && (0x80 <=? b1) && (b1 <=? 0x9F) && cont b2 then 3
  else if (0xE1 <=? b0) && (b0 <=? 0xEF) && negb (b0 =? 0xED) && cont b1 && cont b2 then 3
  else if (b0 =? 0xF0) && (0x90 <=? b1) && (b1 <=? 0xBF) && cont b2 && cont b3 then 4
  else if (0xF1 <=? b0) && (b0 <=? 0xF3) && cont b1 && cont b2 && cont b3 then 4
  else if (b0 =? 0xF4) && (0x80 <=? b1) && (b1 <=? 0x8F) && cont b2 && cont b3 then 4
  else 0.

Definition backslash : ascii := ascii_of_N 92.
Definition dquote : ascii := ascii_of_N 34.

Definition escape_u (n : Z) : string :=
  String backslash (String "u" (String (hex_lower (n / 4096)) (String (hex_lower (n / 256 mod 16))
    (String (hex_lower (n / 16 mod 16)) (String (hex_lower (n mod 16)) ""))))).

Definition escape_ascii (c : ascii) : string :=
  let b := ord c in
  if (b =? 34) || (b =? 92) then String backslash (String c "")
  else if b =? 8 then String backslash "b"
  else if b =? 12 then String backslash "f"
  else if b =? 10 then String backslash "n"
  else if b =? 13 then String backslash "r"
  else if b =? 9 then String backslash "t"
  else if (b <? 32) || (b =? 60) || (b =? 62) || (b =? 38) then escape_u b
  else String c "".

Fixpoint escape_go (fuel : nat) (s : string) : string :=
  match fuel, s with
  | S fuel', String c s' =>
      match rune_len s with
      | O => escape_u 0xFFFD +:+ escape_go fuel' s'
      | 1%nat => escape_ascii c +:+ escape_go fuel' s'
      | n =>
          let b0 := byte_at 0 s in let b1 := byte_at 1 s in let b2 := byte_at 2 s in
          (if (b0 =? 0xE2) && (b1 =? 0x80) && ((b2 =? 0xA8) || (b2 =? 0xA9))
           then escape_u (0x1F80 + b2) else stake n s) +:+ escape_go fuel' (sdrop n s)
      end
  | _, _ => ""
  end.

(** [json.Marshal] of a string; the fuel is one step per byte. *)
Definition json_string (s : string) : string :=
  String dquote (escape_go (slen s) s +:+ String dquote "").

(** What [json.Unmarshal] gives back of a marshalled string: every byte that is not
    part of valid UTF-8 has become U+FFFD. *)
Definition replacement : string := String (ascii_of_N 0xEF) (String (ascii_of_N 0xBF) (String (ascii_of_N 0xBD) "")).
Fixpoint json_text_go (fuel : nat) (s : string) : string :=
  match fuel, s with
  | S fuel', String _ s' =>
      match rune_len s with
      | O => replacement +:+ json_text_go fuel' s'
      | n => stake n s +:+ json_text_go fuel' (sdrop n s)
      end
  | _, _ => ""
  end.
Definition json_text (s : string) : string := json_text_go (slen s) s.

Fixpoint json_fields (fields : list (string * string)) : string :=
  match fields with
  | [] => ""
  | [(k, v)] => json_string k +:+ ":" +:+ v
  | (k, v) :: rest => json_string k +:+ ":" +:+ v +:+ "," +:+ json_fields rest
  end.

(** An object whose field values are already rendered. *)
Definition json_object (fields : list (string * string)) : string :=
  "{" +:+ json_fields fields +:+ "}".

(** ** Times *)

(** Days since 1970-01-01 to year, month, day in the proleptic Gregorian calendar. *)
Definition civil (days : Z) : Z * Z * Z :=
  let z := days + 719468 in
  let era := z / 146097 in
  let doe := z mod 146097 in
  let yoe := (doe - doe / 1460 + doe / 36524 - doe / 146096) / 365 in
  let doy := doe - (365 * yoe + yoe / 4 - yoe / 100) in
  let mp := (5 * doy + 2) / 153 in
  let d := doy - (153 * mp + 2) / 5 + 1 in
  let m := if mp <? 10 then mp + 3 else mp - 9 in
  (yoe + era * 400 + (if m <=? 2 then 1 else 0), m, d).

Definition pad (n : nat) (z : Z) : string :=
  let s := format_uint z in srepeat "0" (n - slen s) +:+ s.

(** The fraction of a second with trailing zeroes removed, and its point. *)
Definition frac_nanos (ns : Z) : string :=
  if ns =? 0 then "" else "." +:+ trim_right (fun c => ceqb c "0") (pad 9 ns).

(** [t.Format(time.RFC3339Nano)] for a UTC time whose year has four digits. *)
Definition rfc3339nano (t : time) : string :=
  let secs := t / second in let ns := t mod second in
  let '(y, m, d) := civil (secs / 86400) in
  let s := secs mod 86400 in
  pad 4 y +:+ "-" +:+ pad 2 m +:+ "-" +:+ pad 2 d +:+ "T" +:+
  pad 2 (s / 3600) +:+ ":" +:+ pad 2 (s / 60 mod 60) +:+ ":" +:+ pad 2 (s mod 60) +:+
  frac_nanos ns +:+ "Z".

(** [time.Time.MarshalJSON] refuses a year outside 0..9999. *)
Definition time_json (t : time) : res string :=
  let '(y, _, _) := civil (t / second / 86400) in
  if (y <? 0) || (y >? 9999) then Err [] else Ok (json_string (rfc3339nano t)).

Example json_string_ex : json_string "a<b" = String dquote ("a" +:+ escape_u 60 +:+ "b" +:+ String dquote "").
Proof. reflexivity. Qed.

Example rfc3339_epoch : rfc3339nano 0 = "1970-01-01T00:00:00Z".
Proof. reflexivity. Qed.

Example rfc3339_leap : rfc3339nano (951827696120000000) = "2000-02-29T12:34:56.12Z".
Proof. vm_compute. reflexivity. Qed.

(** ** [base64.StdEncoding.EncodeToString] *)
Definition base64_char (n : Z) : ascii :=
  ascii_of_N (Z.to_N (
    if n <? 26 then 65 + n else if n <? 52 then 71 + n else if n <? 62 then n - 4
    else if n =? 62 then 43 else 47)).

Fixpoint base64_go (fuel : nat) (s : string) : string :=
  let sextet v k := base64_char (v / 2 ^ k mod 64) in
  match fuel, s with
  | S fuel', String a (String b (String c rest)) =>
      let v := 65536 * ord a + 256 * ord b + ord c in
      String (sextet v 18) (String (sextet v 12) (String (sextet v 6) (String (sextet v 0) (base64_go fuel' rest))))
  | S _, String a (String b EmptyString) =>
      let v := 65536 * ord a + 256 * ord b in
      String (sextet v 18) (String (sextet v 12) (String (sextet v 6) "="))
  | S _, String a EmptyString =>
      let v := 65536 * ord a in String (sextet v 18) (String (sextet v 12) "==")
  | _, _ => ""
  end.
(** One step takes three bytes, so the length is fuel enough. *)
Definition base64 (s : string) : string := base64_go (slen s) s.

Example base64_ex : base64 "Man" = "TWFu" ∧ base64 "Ma" = "TWE=" ∧ base64 "M" = "TQ==".
Proof. vm_compute. done. Qed.
