(* ===== verification/GoJson.v ===== *)
(** * [encoding/json.Unmarshal], as the key files and the clients use it

    The decoder's scanner and its values ([json_value]), the field matching and the
    typed reads of a struct.  A value that does not fit its field makes [Unmarshal]
    return an error, here [None].  Strings decode as the library decodes them:
    escapes, surrogate pairs, U+FFFD for what is neither.  The fuel of the parser
    bounds its calls, at most two per byte. *)
From S2P Require Import Prelude GoText Json.

Inductive json :=
  | JNull | JBool (b : bool) | JNumber (lit : string) | JString (s : string)
  | JArray (l : list json) | JObject (l : list (string * json)).

Definition maxNestingDepth : Z := 10000.

Definition is_json_space (c : ascii) : bool := ceqb c " " || (ord c =? 9) || (ord c =? 10) || (ord c =? 13).
Fixpoint skip_space (s : string) : string :=
  match s with String c s' => if is_json_space c then skip_space s' else s | _ => s end.

(** ** Strings *)
Definition utf8 (r : Z) : string :=
  let b n := String (ascii_of_N (Z.to_N n)) in
  if r <? 0x80 then b r ""
  else if r <? 0x800 then b (0xC0 + r / 64) (b (0x80 + r mod 64) "")
  else if r <? 0x10000 then b (0xE0 + r / 4096) (b (0x80 + r / 64 mod 64) (b (0x80 + r mod 64) ""))
  else b (0xF0 + r / 262144) (b (0x80 + r / 4096 mod 64) (b (0x80 + r / 64 mod 64) (b (0x80 + r mod 64) ""))).

Definition hex4 (s : string) : option (Z * string) :=
  match s with
  | String a (String b (String c (String d s'))) =>
      wa ← hex_val a; wb ← hex_val b; wc ← hex_val c; wd ← hex_val d;
      Some (4096 * wa + 256 * wb + 16 * wc + wd, s')
  | _ => None
  end.
Definition is_high (r : Z) : bool := (0xD800 <=? r) && (r <? 0xDC00).
Definition is_low (r : Z) : bool := (0xDC00 <=? r) && (r <? 0xE000).

(** The second half of a surrogate pair, when it follows. *)
Definition low_half (s : string) : option (Z * string) :=
  match s with
  | String a (String b s') =>
      if ceqb a backslash && ceqb b "u" then '(r, s2) ← hex4 s'; (if is_low r then Some (r, s2) else None) else None
  | _ => None
  end.

Definition unescape (c : ascii) : option ascii :=
  if ceqb c dquote || ceqb c backslash || ceqb c "/" then Some c
  else if ceqb c "b" then Some (ascii_of_N 8) else if ceqb c "f" then Some (ascii_of_N 12)
  else if ceqb c "n" then Some (ascii_of_N 10) else if ceqb c "r" then Some (ascii_of_N 13)
  else if ceqb c "t" then Some (ascii_of_N 9) else None.

Definition prepend (p : string) (r : option (string * string)) : option (string * string) :=
  match r with Some (s, rest) => Some (p +:+ s, rest) | None => None end.

(** What follows the opening quote, up to the closing one. *)
Fixpoint string_body (fuel : nat) (s : string) : option (string * string) :=
  match fuel, s with
  | S f, String c s' =>
      if ceqb c dquote then Some ("", s')
      else if ceqb c backslash then
        match s' with
        | EmptyString => None
        | String e s2 =>
            match unescape e with
            | Some ch => prepend (String ch "") (string_body f s2)
            | None =>
                if negb (ceqb e "u") then None
                else match hex4 s2 with
                | None => None
                | Some (r, s3) =>
                    if is_high r then
                      match low_half s3 with
                      | Some (r2, s4) => prepend (utf8 (0x10000 + (r - 0xD800) * 1024 + (r2 - 0xDC00))) (string_body f s4)
                      | None => prepend replacement (string_body f s3)
                      end
                    else prepend (if is_low r then replacement else utf8 r) (string_body f s3)
                end
            end
        end
      else if ord c <? 32 then None
      else match rune_len s with
      | O => prepend replacement (string_body f s')
      | n => prepend (stake n s) (string_body f (sdrop n s))
      end
  | _, _ => None
  end.

(** ** Numbers: the literal the scanner accepts. *)
Fixpoint digits (s : string) : string * string :=
  match s with
  | String c s' => if is_digit c then let '(d, r) := digits s' in (String c d, r) else ("", s)
  | _ => ("", s)
  end.
Definition some_digits (s : string) : option (string * string) :=
  let '(d, r) := digits s in if String.eqb d "" then None else Some (d, r).

Definition integer_part (s : string) : option (string * string) :=
  match s with
  | String c s' => if ceqb c "0" then Some ("0", s') else some_digits s
  | _ => None
  end.
Definition fraction_part (s : string) : option (string * string) :=
  match s with
  | String c s' => if ceqb c "." then prepend "." (some_digits s') else Some ("", s)
  | _ => Some ("", s)
  end.
Definition exponent_part (s : string) : option (string * string) :=
  match s with
  | String e s' =>
      if ceqb e "e" || ceqb e "E" then
        match s' with
        | String g s2 => if ceqb g "+" || ceqb g "-" then prepend (String e (String g "")) (some_digits s2)
                         else prepend (String e "") (some_digits s')
        | _ => None
        end
      else Some ("", s)
  | _ => Some ("", s)
  end.
Definition number (s : string) : option (string * string) :=
  let unsigned s :=
    '(i, s1) ← integer_part s; '(f, s2) ← fraction_part s1; '(e, s3) ← exponent_part s2; Some (i +:+ f +:+ e, s3) in
  match s with
  | String c s' => if ceqb c "-" then prepend "-" (unsigned s') else unsigned s
  | _ => None
  end.

(** ** Values *)
Definition expect (lit s : string) : option string :=
  if String.eqb (stake (slen lit) s) lit then Some (sdrop (slen lit) s) else None.

Fixpoint json_value (fuel : nat) (depth : Z) (s : string) : option (json * string) :=
  match fuel, s with
  | S f, String c s' =>
      if ceqb c "{" then
        if depth >=? maxNestingDepth then None else
        match skip_space s' with
        | String d s2 => if ceqb d "}" then Some (JObject [], s2)
                         else '(l, r) ← json_members f (depth + 1) (String d s2); Some (JObject l, r)
        | _ => None
        end
      else if ceqb c "[" then
        if depth >=? maxNestingDepth then None else
        match skip_space s' with
        | String d s2 => if ceqb d "]" then Some (JArray [], s2)
                         else '(l, r) ← json_elements f (depth + 1) (String d s2); Some (JArray l, r)
        | _ => None
        end
      else if ceqb c dquote then '(t, r) ← string_body (slen s') s'; Some (JString t, r)
      else if ceqb c "t" then r ← expect "true" s; Some (JBool true, r)
      else if ceqb c "f" then r ← expect "false" s; Some (JBool false, r)
      else if ceqb c "n" then r ← expect "null" s; Some (JNull, r)
      else '(t, r) ← number s; Some (JNumber t, r)
  | _, _ => None
  end
(** The elements of an array, up to its closing bracket; the first is next. *)
with json_elements (fuel : nat) (depth : Z) (s : string) : option (list json * string) :=
  match fuel with
  | O => None
  | S f =>
      '(v, r) ← json_value f depth s;
      match skip_space r with
      | String d s2 =>
          if ceqb d "]" then Some ([v], s2)
          else if ceqb d "," then '(l, r2) ← json_elements f depth (skip_space s2); Some (v :: l, r2)
          else None
      | _ => None
      end
  end
with json_members (fuel : nat) (depth : Z) (s : string) : option (list (string * json) * string) :=
  match fuel, s with
  | S f, String c s' =>
      if negb (ceqb c dquote) then None else
      '(k, r) ← string_body (slen s') s';
      match skip_space r with
      | String d s2 =>
          if negb (ceqb d ":") then None else
          '(v, r2) ← json_value f depth (skip_space s2);
          match skip_space r2 with
          | String e s3 =>
              if ceqb e "}" then Some ([(k, v)], s3)
              else if ceqb e "," then '(l, r3) ← json_members f depth (skip_space s3); Some ((k, v) :: l, r3)
              else None
          | _ => None
          end
      | _ => None
      end
  | _, _ => None
  end.

(** The whole input is one value. *)
Definition json_parse (s : string) : option json :=
  '(v, r) ← json_value (S (2 * slen s)) 0 (skip_space s);
  if String.eqb (skip_space r) "" then Some v else None.

(** ** Typed reads; [null] leaves a value as it is. *)
Definition as_string (old : string) (v : json) : option string :=
  match v with JString s => Some s | JNull => Some old | _ => None end.
Definition as_int (old : Z) (v : json) : option Z :=
  match v with JNumber lit => Atoi lit | JNull => Some old | _ => None end.
Definition as_bool (old : bool) (v : json) : option bool :=
  match v with JBool b => Some b | JNull => Some old | _ => None end.

(** Into a slice, element by element over what is there. *)
Fixpoint as_list {A} (zero : A) (read : A → json → option A) (old : list A) (l : list json) : option (list A) :=
  match l with
  | [] => Some []
  | v :: l' => x ← read (default zero (head old)) v; xs ← as_list zero read (tail old) l'; Some (x :: xs)
  end.
Definition as_slice {A} (zero : A) (read : A → json → option A) (old : list A) (v : json) : option (list A) :=
  match v with JArray l => as_list zero read old l | JNull => Some [] | _ => None end.

Section Fields.
Context `{Folding}.
(** The members in order; each sets the field it names, unknown ones are skipped. *)
Fixpoint read_fields {A} (fields : list (string * (A → json → option A))) (acc : A) (l : list (string * json)) : option A :=
  match l with
  | [] => Some acc
  | (k, v) :: l' =>
      acc' ← match find (fun f => EqualFold f.1 k) fields with Some (_, set) => set acc v | None => Some acc end;
      read_fields fields acc' l'
  end.
Definition as_struct {A} (fields : list (string * (A → json → option A))) (old : A) (v : json) : option A :=
  match v with JObject l => read_fields fields old l | JNull => Some old | _ => None end.
End Fields.

Example unmarshal_escapes : json_parse (" [" +:+ String dquote ("a\u00e9\ud83d\ude00\n" +:+ String dquote " , -1.5e3,null ] ")) =
  Some (JArray [JString ("a" +:+ utf8 233 +:+ utf8 128512 +:+ String (ascii_of_N 10) ""); JNumber "-1.5e3"; JNull]).
Proof. vm_compute. reflexivity. Qed.
Example unmarshal_refuses : map json_parse ["[1,]"; "01"; "{}x"; ""; "nul"; "[1 2]"] = [None; None; None; None; None; None].
Proof. vm_compute. reflexivity. Qed.

(** ** Reading back what was written *)

(** A character that is written and read as itself. *)
Definition plain_char (c : ascii) : bool :=
  (32 <=? ord c) && (ord c <? 127) && negb (existsb (Z.eqb (ord c)) [34; 92; 60; 62; 38]).
Definition plain (s : string) : bool := all_chars plain_char s.

Lemma plain_char_spec c : plain_char c = true →
  escape_ascii c = String c "" ∧ ceqb c dquote = false ∧ ceqb c backslash = false ∧ (ord c <? 32) = false ∧
  ∀ s, rune_len (String c s) = 1%nat.
Proof.
  destruct c as [[] [] [] [] [] [] [] []]; intros Hc; (discriminate Hc || (clear Hc; split_and!; [reflexivity..|intros s; reflexivity])).
Qed.

Lemma escape_plain s : plain s = true → ∀ n, (slen s ≤ n)%nat → escape_go n s = s.
Proof.
  induction s as [|c s IH]; intros Hp [|n] Hn; cbn in *; try lia; try done.
  apply andb_true_iff in Hp as [Hc Hs]. destruct (plain_char_spec c Hc) as (E & _ & _ & _ & Hr).
  rewrite Hr, E. cbn. by rewrite IH by (done || lia).
Qed.

Lemma json_string_plain s : plain s = true → json_string s = String dquote (s +:+ String dquote "").
Proof. intros Hs. unfold json_string. by rewrite escape_plain. Qed.

Lemma string_body_plain t rest : plain t = true → ∀ n, (slen t < n)%nat →
  string_body n (t +:+ String dquote rest) = Some (t, rest).
Proof.
  induction t as [|c t IH]; intros Hp [|n] Hn; cbn in Hn; try lia; [done|].
  cbn in Hp. apply andb_true_iff in Hp as [Hc Ht]. destruct (plain_char_spec c Hc) as (_ & E1 & E2 & E3 & Hr).
  change (String c t +:+ String dquote rest) with (String c (t +:+ String dquote rest)). cbn [string_body].
  rewrite E1, E2, E3, Hr. cbn [stake sdrop]. by rewrite IH by (done || lia).
Qed.

Section Back.
Context (depth : Z).

Lemma value_string t rest f : plain t = true →
  json_value (S f) depth (json_string t +:+ rest) = Some (JString t, rest).
Proof.
  intros Hp. rewrite json_string_plain by done.
  change (String dquote (t +:+ String dquote "") +:+ rest) with (String dquote ((t +:+ String dquote "") +:+ rest)).
  cbn [json_value ceqb]. change (ceqb dquote "{") with false. change (ceqb dquote "[") with false. change (ceqb dquote dquote) with true.
  cbv iota. rewrite sapp_assoc. change (String dquote "" +:+ rest) with (String dquote rest).
  rewrite string_body_plain; [done|done|]. rewrite slen_app. cbn. lia.
Qed.

(** A member and what follows it. *)
Lemma member_read k sp v rest f r d s3 : plain k = true →
  json_value f depth (skip_space sp) = Some (v, r) → skip_space r = String d s3 →
  rest = String ":" sp →
  json_members (S f) depth (json_string k +:+ rest) =
    if ceqb d "}" then Some ([(k, v)], s3)
    else if ceqb d "," then '(l, r3) ← json_members f depth (skip_space s3); Some ((k, v) :: l, r3)
    else None.
Proof.
  intros Hp Hv Hr ->. rewrite json_string_plain by done.
  change (String dquote (k +:+ String dquote "") +:+ String ":" sp) with (String dquote ((k +:+ String dquote "") +:+ String ":" sp)).
  cbn [json_members]. change (negb (ceqb dquote dquote)) with false. cbv iota. rewrite sapp_assoc.
  change (String dquote "" +:+ String ":" sp) with (String dquote (String ":" sp)).
  rewrite string_body_plain; [|done|rewrite slen_app; cbn; lia]. cbn [mbind option_bind].
  change (skip_space (String ":" sp)) with (String ":" sp). change (negb (ceqb ":" ":")) with false. cbv iota. rewrite Hv. cbn. by rewrite Hr.
Qed.

(** An array of strings, its elements separated as [sep] does. *)
Fixpoint string_list (sep : string) (l : list string) : string :=
  match l with [] => "" | [x] => json_string x | x :: l' => json_string x +:+ "," +:+ sep +:+ string_list sep l' end.

Lemma skip_string s rest : plain s = true → skip_space (json_string s +:+ rest) = json_string s +:+ rest.
Proof. intros Hp. by rewrite json_string_plain. Qed.

Lemma string_list_head sep x l rest : Forall (fun x => plain x = true) (x :: l) →
  skip_space (string_list sep (x :: l) +:+ rest) = string_list sep (x :: l) +:+ rest.
Proof. intros [Hx _]%Forall_cons. destruct l; cbn [string_list]; rewrite ?sapp_assoc; by apply skip_string. Qed.

Lemma elements_strings sep close l rest : Forall (fun x => plain x = true) l → l ≠ [] →
  (∀ s, skip_space (sep +:+ s) = skip_space s) → (∀ s, skip_space (close +:+ s) = skip_space s) →
  ∀ f, (length l < f)%nat →
  json_elements f depth (string_list sep l +:+ close +:+ String "]" rest) = Some (map JString l, rest).
Proof.
  intros Hp Hne Hsep Hclose. induction Hp as [|x l Hx Hl IH]; [done|]. intros [|[|f]] Hf; cbn in Hf; try lia.
  destruct l as [|y l].
  - cbn [string_list]. cbn [json_elements]. rewrite value_string by done. cbn. by rewrite Hclose.
  - change (string_list sep (x :: y :: l)) with (json_string x +:+ "," +:+ sep +:+ string_list sep (y :: l)).
    rewrite !sapp_assoc. set (after := string_list sep (y :: l) +:+ close +:+ String "]" rest) in *.
    change ("," +:+ sep +:+ after) with (String "," (sep +:+ after)).
    assert (skip_space (sep +:+ after) = after) as Hs by (rewrite Hsep; by apply string_list_head).
    change (json_elements (S (S f)) depth (json_string x +:+ String "," (sep +:+ after)))
      with ('(v, r) ← json_value (S f) depth (json_string x +:+ String "," (sep +:+ after));
            match skip_space r with
            | String d s2 => if ceqb d "]" then Some ([v], s2)
                             else if ceqb d "," then '(l, r2) ← json_elements (S f) depth (skip_space s2); Some (v :: l, r2) else None
            | _ => None end).
    rewrite value_string by done. cbn [mbind option_bind].
    change (skip_space (String "," (sep +:+ after))) with (String "," (sep +:+ after)).
    change (ceqb "," "]") with false. change (ceqb "," ",") with true. cbv iota. rewrite Hs, IH; [done|done|cbn in *; lia].
Qed.

Lemma as_strings l : as_list "" as_string [] (map JString l) = Some l.
Proof. induction l as [|x l IH]; [done|]. cbn in *. by rewrite IH. Qed.
End Back.
