(* ===== verification/Money.v ===== *)
(** * [internal/money]: exact decimal amounts

    [Amount] keeps the decimal string it was parsed from.  This file models every
    operation of [money.go] and proves: what [Parse] accepts ([Parse_ok]), that
    [BaseUnits] is exact scaling with a 64-bit range check ([BaseUnits_ok]),
    that [Cmp] is the order of the amounts' rational values ([Cmp_numeric]), and
    that [NewFromBaseUnits] inverts [BaseUnits]. *)
From S2P Require Import Prelude.

Definition MaxFractionDigits : Z := 9.
Definition MaxIntegerDigits : Z := 19.

Definition ErrOverflow : sentinel := "money.ErrOverflow".
Definition ErrTooPrecise : sentinel := "money.ErrTooPrecise".
Definition ErrNegative : sentinel := "money.ErrNegative".
Definition ErrNonCanonical : sentinel := "money.ErrNonCanonical".
Definition ErrNotAStringValue : sentinel := "money.ErrNotAStringValue".
Definition ErrBadScale : sentinel := "money.ErrBadScale".

(** The zero value [Amount{}] holds the empty string. *)
Record Amount := mkAmount { value : string }.

#[export] Instance Amount_eq_dec : EqDecision Amount.
Proof. solve_decision. Defined.

Definition AmountZero : Amount := mkAmount "".

Definition allDigits (s : string) : bool := all_chars is_digit s.

Definition len (s : string) : Z := Z.of_nat (slen s).

Definition Parse (s : string) : res Amount :=
  if String.eqb s "" then Err [ErrNonCanonical]
  else if has_prefix s "-" then Err [ErrNegative]
  else if has_prefix s "+" || has_char (fun c => ceqb c "e" || ceqb c "E") s
  then Err [ErrNonCanonical]
  else
    let '(integer, fraction, hasFraction) := cut "." s in
    if String.eqb integer "" || (len integer >? MaxIntegerDigits) then Err [ErrNonCanonical]
    else if (len integer >? 1) && has_prefix integer "0" then Err [ErrNonCanonical]
    else if negb (allDigits integer) then Err [ErrNonCanonical]
    else if hasFraction &&
            ((len fraction =? 0) || (len fraction >? MaxFractionDigits))
    then Err [ErrNonCanonical]
    else if hasFraction && negb (allDigits fraction) then Err [ErrNonCanonical]
    else Ok (mkAmount s).

(** [a.String()] *)
Definition amount_String (a : Amount) : string := value a.

(** [strings.Trim(a.value, "0.") == ""] *)
Definition IsZero (a : Amount) : bool :=
  String.eqb (trim (fun c => ceqb c "0" || ceqb c ".") (value a)) "".

(** The integer and fraction parts, as [strings.Cut(a.value, ".")] gives them. *)
Definition int_part (a : Amount) : string := (cut "." (value a)).1.1.
Definition frac_part (a : Amount) : string := (cut "." (value a)).1.2.

Definition align (integer fraction : string) (width scale : nat) : string :=
  srepeat "0" (width - slen integer) +:+ integer +:+ fraction +:+
  srepeat "0" (scale - slen fraction).

Definition Cmp (a b : Amount) : Z :=
  let ai := int_part a in let af := frac_part a in
  let bi := int_part b in let bf := frac_part b in
  let scale := Nat.max (slen af) (slen bf) in
  let width := Nat.max (slen ai) (slen bi) in
  let at_ := align ai af width scale in
  let bt := align bi bf width scale in
  if str_lt bt at_ then 1 else if str_lt at_ bt then -1 else 0.

(** [strconv.ParseUint(s, 10, 64)]: a syntax error on anything but digits, a
    range error above [2^64 - 1]. *)
Definition ParseUint (s : string) : res Z :=
  if String.eqb s "" || negb (allDigits s) then Err ["strconv.ErrSyntax"]
  else if dec s <? two64 then Ok (dec s) else Err ["strconv.ErrRange"].

Definition BaseUnits (a : Amount) (decimals : Z) : res Z :=
  if (decimals <? 0) || (decimals >? MaxFractionDigits) then Err [ErrNonCanonical]
  else
    let integer := int_part a in
    let fraction := frac_part a in
    if len fraction >? decimals then Err [ErrTooPrecise]
    else
      let digits := integer +:+ fraction +:+ srepeat "0" (Z.to_nat (decimals - len fraction)) in
      let digits := trim_left (fun c => ceqb c "0") digits in
      if String.eqb digits "" then Ok 0
      else rewrap ErrOverflow (ParseUint digits).

Definition NewFromBaseUnits (units : Z) (decimals : Z) : res Amount :=
  if (decimals <=? 0) || (decimals >? MaxFractionDigits) then Err [ErrBadScale]
  else
    let digits := format_uint units in
    if len digits >? MaxIntegerDigits + decimals then Err [ErrOverflow]
    else
      let digits :=
        if len digits <=? decimals
        then srepeat "0" (Z.to_nat (decimals - len digits + 1)) +:+ digits
        else digits in
      let k := (slen digits - Z.to_nat decimals)%nat in
      Ok (mkAmount (stake k digits +:+ "." +:+ sdrop k digits)).

(** [UnmarshalJSON] on a JSON document that is already decoded: a string is
    parsed, any other JSON value is refused. *)
Definition UnmarshalJSON (doc : option string) : res Amount :=
  match doc with
  | None => Err [ErrNotAStringValue]
  | Some s => Parse s
  end.

(** ** Specification: canonical decimals and their values *)

(** A canonical integer part: 1 to 19 digits, no superfluous leading zero. *)
Definition canonical_int (i : string) : Prop :=
  allDigits i = true ∧ 1 ≤ len i ≤ MaxIntegerDigits ∧
  (1 < len i → has_prefix i "0" = false).

(** The decimals [Parse] is meant to accept. *)
Definition canonical (s : string) : Prop :=
  ∃ i, canonical_int i ∧
    (s = i ∨ ∃ f, s = i +:+ String "." f ∧ allDigits f = true ∧ 1 ≤ len f ≤ MaxFractionDigits).

(** An amount's numerator over [10 ^ len (frac_part a)]. *)
Definition numerator (a : Amount) : Z := dec (int_part a +:+ frac_part a).

(** [a.value * 10^d], exact whenever [len (frac_part a) <= d]. *)
Definition scaled (a : Amount) (d : Z) : Z := numerator a * 10 ^ (d - len (frac_part a)).

(** ** Lemmas *)
Lemma digit_not c d : is_digit c = true → is_digit d = false → ceqb c d = false.
Proof.
  intros Hc Hd. destruct (Stdlib.Strings.Ascii.eqb_spec c d) as [->|]; [congruence|done].
Qed.

Lemma digits_no_char d s : is_digit d = false → allDigits s = true →
  all_chars (fun c => negb (ceqb c d)) s = true.
Proof.
  intros Hd. apply all_chars_impl. intros c Hc. by rewrite (digit_not c d).
Qed.

Lemma cut_digits i f : allDigits i = true →
  cut "." i = (i, "", false) ∧ cut "." (i +:+ String "." f) = (i, f, true).
Proof.
  intros Hi. pose proof (digits_no_char "." i eq_refl Hi).
  split; [by apply cut_none|by apply cut_app].
Qed.

Lemma has_prefix_char c s : has_prefix s (String c "") = true ↔ ∃ s', s = String c s'.
Proof.
  unfold has_prefix. destruct s as [|d s]; cbn [String.prefix]; [naive_solver|].
  assert (String.prefix "" s = true) as -> by by destruct s.
  destruct (Stdlib.Strings.Ascii.ascii_dec c d); naive_solver.
Qed.

Lemma cut_inv sep s b a f : cut sep s = (b, a, f) →
  s = (if f then b +:+ String sep a else b) ∧ (f = false → a = "").
Proof.
  revert b a f. induction s as [|c s IH]; cbn; intros b a f.
  - intros [= <- <- <-]. done.
  - destruct (Stdlib.Strings.Ascii.eqb_spec c sep) as [->|Hne].
    + intros [= <- <- <-]. done.
    + destruct (cut sep s) as [[b' a'] f'] eqn:E. intros [= <- <- <-].
      destruct (IH b' a' f' eq_refl) as [-> Ha]. by destruct f'.
Qed.

Lemma len_nonneg s : 0 ≤ len s.
Proof. unfold len. lia. Qed.

Lemma len_app s t : len (s +:+ t) = len s + len t.
Proof. unfold len. rewrite slen_app. lia. Qed.

Lemma parts_int i : allDigits i = true →
  int_part (mkAmount i) = i ∧ frac_part (mkAmount i) = "".
Proof. intros H. unfold int_part, frac_part. cbn. by rewrite (proj1 (cut_digits i "" H)). Qed.

Lemma parts_frac i f : allDigits i = true →
  int_part (mkAmount (i +:+ String "." f)) = i ∧ frac_part (mkAmount (i +:+ String "." f)) = f.
Proof. intros H. unfold int_part, frac_part. cbn. by rewrite (proj2 (cut_digits i f H)). Qed.

Lemma canonical_parts a : canonical (value a) →
  canonical_int (int_part a) ∧ allDigits (frac_part a) = true ∧
  0 ≤ len (frac_part a) ≤ MaxFractionDigits.
Proof.
  destruct a as [s]. intros (i & Hi & [Hs|(f & Hs & Hf & Hl)]); cbn in Hs; subst s.
  - destruct (parts_int i (proj1 Hi)) as [-> ->]. done.
  - destruct (parts_frac i f (proj1 Hi)) as [-> ->]. split_and!; try done; lia.
Qed.

Lemma canonical_numerator a : canonical (value a) →
  0 ≤ numerator a < 10 ^ (len (int_part a) + len (frac_part a)).
Proof.
  intros [[Hi _] [Hf _]]%canonical_parts. unfold numerator. rewrite <-len_app.
  apply dec_bounds. unfold allDigits in *. by rewrite all_chars_app, Hi, Hf.
Qed.

(** The characters of a canonical amount are digits and dots, so no guard of
    [Parse] on signs or exponents fires. *)
Lemma canonical_chars s : canonical s → all_chars (fun c => is_digit c || ceqb c ".") s = true.
Proof.
  assert (∀ t, allDigits t = true → all_chars (fun c => is_digit c || ceqb c ".") t = true) as Hd.
  { intros t. apply all_chars_impl. intros c ->. done. }
  intros (i & (Hi & _) & [->|(f & -> & Hf & _)]); [by apply Hd|].
  rewrite all_chars_app, Hd by done. cbn. by apply Hd.
Qed.

Lemma all_chars_no (P f : ascii → bool) s :
  (∀ c, P c = true → f c = false) → all_chars P s = true → has_char f s = false.
Proof.
  intros H Hs. unfold has_char. apply negb_false_iff.
  revert Hs. apply all_chars_impl. intros c Hc. by rewrite (H c).
Qed.

Lemma no_prefix (P : ascii → bool) c s :
  P c = false → all_chars P s = true → has_prefix s (String c "") = false.
Proof.
  intros Hc Hs. apply not_true_iff_false. intros [s' ->]%has_prefix_char.
  cbn in Hs. by rewrite Hc in Hs.
Qed.

Lemma ceqb_true c d : ceqb c d = true → c = d.
Proof. by destruct (Stdlib.Strings.Ascii.eqb_spec c d). Qed.

Definition body_ok (integer fraction : string) (hasFraction : bool) : bool :=
  negb (String.eqb integer "" || (len integer >? MaxIntegerDigits)) &&
  negb ((len integer >? 1) && has_prefix integer "0") && allDigits integer &&
  negb (hasFraction && ((len fraction =? 0) || (len fraction >? MaxFractionDigits))) &&
  negb (hasFraction && negb (allDigits fraction)).

Lemma body_ok_spec i f h : body_ok i f h = true ↔
  canonical_int i ∧ (h = true → allDigits f = true ∧ 1 ≤ len f ≤ MaxFractionDigits).
Proof.
  unfold body_ok, canonical_int. pose proof (len_nonneg f).
  assert (String.eqb i "" = true ↔ len i = 0) as Hi.
  { rewrite String.eqb_eq. unfold len. destruct i; [done|]. rewrite slen_cons. split; [done|lia]. }
  pose proof (len_nonneg i).
  rewrite !andb_true_iff, !negb_true_iff, orb_false_iff, !andb_false_iff, negb_false_iff,
    orb_false_iff, !Z.gtb_ltb, !Z.ltb_ge, Z.eqb_neq, <-not_true_iff_false, Hi.
  clear Hi. destruct (Z.le_gt_cases (len i) 1), h, (has_prefix i "0"), (allDigits f);
    intuition (discriminate || lia).
Qed.

Lemma Parse_body s : Parse s =
  if String.eqb s "" then Err [ErrNonCanonical]
  else if has_prefix s "-" then Err [ErrNegative]
  else if has_prefix s "+" || has_char (fun c => ceqb c "e" || ceqb c "E") s
  then Err [ErrNonCanonical]
  else let '(i, f, h) := cut "." s in
       if body_ok i f h then Ok (mkAmount s) else Err [ErrNonCanonical].
Proof.
  unfold Parse, body_ok.
  destruct (String.eqb s ""); [done|]. destruct (has_prefix s "-"); [done|].
  destruct (has_prefix s "+" || has_char _ s); [done|].
  destruct (cut "." s) as [[i f] h].
  destruct (String.eqb i "" || (_ >? _)); [done|].
  destruct (_ && has_prefix i "0"); [done|].
  destruct (allDigits i); [|done]. destruct (h && ((_ =? 0) || _)); [done|].
  by destruct (h && negb (allDigits f)).
Qed.

Lemma canonical_guards s : canonical s →
  String.eqb s "" = false ∧ has_prefix s "-" = false ∧
  has_prefix s "+" || has_char (fun c => ceqb c "e" || ceqb c "E") s = false.
Proof.
  intros Hs. pose proof (canonical_chars s Hs) as Hc. split_and!.
  - apply String.eqb_neq. intros ->. destruct Hs as (i & (_ & Hl & _) & [<-|(f & Hf & _)]).
    + unfold len in Hl. cbn in Hl. lia.
    + by destruct i.
  - by eapply no_prefix, Hc.
  - apply orb_false_iff; split; [by eapply no_prefix, Hc|].
    eapply all_chars_no, Hc. intros c. rewrite orb_true_iff, orb_false_iff.
    intros [H|H%ceqb_true]; [|by subst]. split; by apply digit_not.
Qed.

Lemma Parse_iff s a : Parse s = Ok a ↔ canonical s ∧ a = mkAmount s.
Proof.
  rewrite Parse_body. split.
  - destruct (String.eqb s ""); [done|]. destruct (has_prefix s "-"); [done|].
    destruct (has_prefix s "+" || has_char _ s); [done|].
    destruct (cut "." s) as [[i f] h] eqn:Hcut.
    destruct (body_ok i f h) eqn:Hb; [|done]. intros [= <-].
    apply body_ok_spec in Hb as [Hi Hf]. apply cut_inv in Hcut as [-> _].
    split; [|done]. exists i. split; [done|]. destruct h; [right|by left]. naive_solver.
  - intros [Hs ->]. destruct (canonical_guards s Hs) as (-> & -> & ->).
    destruct Hs as (i & Hi & [->|(f & -> & Hf & Hl)]); destruct (cut_digits i "" (proj1 Hi)) as [E _].
    + rewrite E. by rewrite (proj2 (body_ok_spec i "" false)).
    + rewrite (proj2 (cut_digits i f (proj1 Hi))).
      by rewrite (proj2 (body_ok_spec i f true)).
Qed.

(** [Parse] accepts exactly the canonical decimals (1 to 19 integer digits
    with no superfluous leading zero, optionally a point and 1 to 9 fraction
    digits), and keeps the accepted string unchanged. *)
Theorem Parse_ok s a : Parse s = Ok a ↔ canonical s ∧ a = mkAmount s.
Proof. exact (Parse_iff s a). Qed.

Lemma trim_zeros_dec s : dec (trim_left (fun c => ceqb c "0") s) = dec s.
Proof.
  induction s as [|c s IH]; [done|]. cbn [trim_left].
  destruct (Stdlib.Strings.Ascii.eqb_spec c "0") as [->|]; [|done].
  rewrite IH, dec_cons. change (digit_val "0") with 0. lia.
Qed.

Lemma all_chars_trim g f s : all_chars f s = true → all_chars f (trim_left g s) = true.
Proof.
  induction s as [|c s IH]; cbn; [done|]. intros H. destruct (g c); [|done].
  apply andb_true_iff in H as [_ H]. auto.
Qed.

Lemma ParseUint_trim s : allDigits s = true →
  (let t := trim_left (fun c => ceqb c "0") s in
   if String.eqb t "" then Ok 0 else rewrap ErrOverflow (ParseUint t)) =
  if dec s <? two64 then Ok (dec s) else Err [ErrOverflow].
Proof.
  intros Hs. cbv zeta. rewrite <-(trim_zeros_dec s).
  destruct (String.eqb_spec (trim_left (fun c => ceqb c "0") s) "") as [->|Hne]; [done|].
  unfold ParseUint. rewrite (proj2 (String.eqb_neq _ _) Hne). cbn [orb].
  unfold allDigits in *. rewrite all_chars_trim by done. cbn [negb].
  by destruct (_ <? _).
Qed.

Lemma BaseUnits_scaled a d : canonical (value a) →
  BaseUnits a d =
    if (d <? 0) || (MaxFractionDigits <? d) then Err [ErrNonCanonical]
    else if d <? len (frac_part a) then Err [ErrTooPrecise]
    else if scaled a d <? two64 then Ok (scaled a d) else Err [ErrOverflow].
Proof.
  intros Ha. pose proof (canonical_parts a Ha) as ((Hi & _) & Hf & Hl).
  unfold BaseUnits. rewrite !Z.gtb_ltb.
  destruct (Z.ltb_spec d 0), (Z.ltb_spec MaxFractionDigits d); try done. cbn [orb].
  destruct (Z.ltb_spec d (len (frac_part a))); [done|].
  rewrite ParseUint_trim.
  - replace (dec _) with (scaled a d); [done|].
    unfold scaled, numerator. rewrite <-sapp_assoc, (dec_app (_ +:+ _) (srepeat _ _)), dec_zeros, slen_srepeat.
    rewrite Z2Nat.id by lia. lia.
  - unfold allDigits in *. rewrite !all_chars_app, Hi, Hf. by apply all_chars_srepeat.
Qed.

(** On a canonical amount, [BaseUnits] is exact scaling by [10^decimals]:
    it fails with [ErrNonCanonical] exactly outside scales 0..9, with
    [ErrTooPrecise] exactly when there are more fraction digits than the scale,
    with [ErrOverflow] exactly when the scaled value leaves uint64, and
    otherwise returns the scaled value. *)
Theorem BaseUnits_exact a d : canonical (value a) →
  BaseUnits a d =
    if (d <? 0) || (MaxFractionDigits <? d) then Err [ErrNonCanonical]
    else if d <? len (frac_part a) then Err [ErrTooPrecise]
    else if scaled a d <? two64 then Ok (scaled a d) else Err [ErrOverflow].
Proof. exact (BaseUnits_scaled a d). Qed.

(** *** Comparison of equal-length digit strings is comparison of values *)
Lemma str_compare_dec s t :
  allDigits s = true → allDigits t = true → slen s = slen t →
  String.compare s t = Z.compare (dec s) (dec t).
Proof.
  revert t. induction s as [|c s IH]; intros [|d t]; try done.
  unfold allDigits in *. cbn [all_chars]. rewrite !andb_true_iff, !slen_cons.
  intros [Hc Hs] [Hd Ht] [= Hl]. rewrite !dec_cons, <-Hl.
  pose proof (dec_bounds s Hs). pose proof (dec_bounds t Ht). rewrite <-Hl in *.
  pose proof (is_digit_val c Hc). pose proof (is_digit_val d Hd).
  cbn [String.compare]. unfold Stdlib.Strings.Ascii.compare.
  assert ((N_of_ascii c ?= N_of_ascii d)%N = (digit_val c ?= digit_val d)) as ->.
  { unfold digit_val, ord. symmetry.
    destruct (N.compare_spec (N_of_ascii c) (N_of_ascii d));
      [apply Z.compare_eq_iff|apply Z.compare_lt_iff|apply Z.compare_gt_iff]; lia. }
  destruct (Z.compare_spec (digit_val c) (digit_val d)) as [E|E|E]; symmetry.
  - rewrite E, Z.add_compare_mono_l. symmetry. by apply IH.
  - apply Z.compare_lt_iff. nia.
  - apply Z.compare_gt_iff. nia.
Qed.

Lemma str_lt_dec s t : allDigits s = true → allDigits t = true → slen s = slen t →
  str_lt s t = (dec s <? dec t).
Proof.
  intros Hs Ht Hl. unfold str_lt, String.ltb. rewrite str_compare_dec by done.
  unfold Z.ltb. by destruct (_ ?= _).
Qed.

Lemma align_spec i f w sc : allDigits i = true → allDigits f = true →
  (slen i ≤ w)%nat → (slen f ≤ sc)%nat →
  allDigits (align i f w sc) = true ∧ slen (align i f w sc) = (w + sc)%nat ∧
  dec (align i f w sc) = dec (i +:+ f) * 10 ^ (Z.of_nat sc - len f).
Proof.
  intros Hi Hf Hw Hs. unfold align, allDigits in *. split_and!.
  - rewrite !all_chars_app, Hi, Hf, !all_chars_srepeat by done. done.
  - rewrite !slen_app, !slen_srepeat. lia.
  - rewrite dec_app, dec_zeros, <-sapp_assoc, (dec_app (_ +:+ _) (srepeat _ _)), dec_zeros, slen_srepeat.
    unfold len. rewrite Nat2Z.inj_sub by done. lia.
Qed.

(** On canonical amounts [Cmp] is the sign of the difference of the two
    rational values, compared at the larger of the two scales, however the
    amounts are spelled ([1.5], [1.50] and [1.500000000] are equal). *)
Theorem Cmp_numeric a b : canonical (value a) → canonical (value b) →
  let s := Z.max (len (frac_part a)) (len (frac_part b)) in
  Cmp a b = Z.sgn (scaled a s - scaled b s).
Proof.
  intros Ha Hb. cbv zeta.
  pose proof (canonical_parts a Ha) as ((Hai & _) & Haf & _).
  pose proof (canonical_parts b Hb) as ((Hbi & _) & Hbf & _).
  unfold Cmp. cbv zeta.
  set (w := Nat.max (slen (int_part a)) (slen (int_part b))).
  set (sc := Nat.max (slen (frac_part a)) (slen (frac_part b))).
  destruct (align_spec (int_part a) (frac_part a) w sc) as (Da & La & Va); [done..|lia|lia|].
  destruct (align_spec (int_part b) (frac_part b) w sc) as (Db & Lb & Vb); [done..|lia|lia|].
  rewrite !str_lt_dec by (done || congruence).
  assert (Z.max (len (frac_part a)) (len (frac_part b)) = Z.of_nat sc) as ->
    by (unfold sc, len; lia).
  unfold scaled, numerator. rewrite <-Va, <-Vb.
  destruct (Z.ltb_spec (dec (align (int_part b) (frac_part b) w sc))
                       (dec (align (int_part a) (frac_part a) w sc))); [lia|].
  destruct (Z.ltb_spec (dec (align (int_part a) (frac_part a) w sc))
                       (dec (align (int_part b) (frac_part b) w sc))); lia.
Qed.

(** A canonical amount [IsZero] exactly when its value is zero. *)
Lemma IsZero_numerator a : canonical (value a) → IsZero a = (numerator a =? 0).
Proof.
  intros Ha. pose proof (canonical_parts a Ha) as ((Hi & _) & Hf & _).
  assert (∀ s, allDigits s = true →
    all_chars (fun c => ceqb c "0" || ceqb c ".") s = true ↔ dec s = 0) as Hz.
  { induction s as [|c s IH]; [done|]. unfold allDigits in *. cbn [all_chars].
    rewrite !andb_true_iff, dec_cons. intros [Hc Hs]. rewrite (IH Hs).
    pose proof (dec_bounds s Hs). pose proof (is_digit_val c Hc).
    assert (ceqb c "0" || ceqb c "." = true ↔ digit_val c = 0) as ->.
    { rewrite (digit_not c ".") by done. rewrite orb_false_r. split.
      - by intros ->%ceqb_true.
      - unfold digit_val, ord. intros E. apply Stdlib.Strings.Ascii.eqb_eq.
        rewrite <-(ascii_N_embedding c). by replace (N_of_ascii c) with 48%N by lia. }
    split; [intros [-> ->]; lia|]. nia. }
  assert (allDigits (int_part a +:+ frac_part a) = true) as Hd.
  { unfold allDigits in *. by rewrite all_chars_app, Hi, Hf. }
  unfold IsZero, numerator. apply eq_bool_prop_intro.
  rewrite !Is_true_true, String.eqb_eq, trim_empty, Z.eqb_eq, <-(Hz _ Hd).
  destruct (cut "." (value a)) as [[i f] h] eqn:E. pose proof E as E'.
  apply cut_inv in E as [-> Ef]. unfold int_part, frac_part. rewrite E'. cbn.
  destruct h; rewrite ?(Ef eq_refl), !all_chars_app; cbn; [done|]. by rewrite andb_true_r.
Qed.

(** The digit string [NewFromBaseUnits] splits: padded so that at least one
    integer digit remains in front of [d] fraction digits. *)
Lemma padded_digits u d : is_uint64 u → 0 < d ≤ MaxFractionDigits →
  let digits := format_uint u in
  let p := if len digits <=? d
           then srepeat "0" (Z.to_nat (d - len digits + 1)) +:+ digits else digits in
  len digits ≤ 20 ∧ allDigits p = true ∧ dec p = u ∧ d + 1 ≤ len p ≤ d + 19 ∧
  (d + 1 < len p → has_prefix p "0" = false).
Proof.
  intros [Hu Hu'] Hd. cbv zeta. unfold MaxFractionDigits in Hd.
  destruct (format_uint_spec u Hu) as (Hdec & Hdig & Hne & Hz).
  assert (len (format_uint u) ≤ 20) as Hlen.
  { pose proof (format_uint_length u 20). unfold len, two64 in *. lia. }
  assert (1 ≤ len (format_uint u)).
  { unfold len. destruct (format_uint u); [done|]. rewrite slen_cons. lia. }
  split; [done|]. destruct (Z.leb_spec (len (format_uint u)) d).
  - unfold allDigits. rewrite all_chars_app, Hdig, all_chars_srepeat by done.
    rewrite dec_app, dec_zeros, len_app. unfold len at 1 4 7.
    rewrite slen_srepeat. split_and!; (done || lia).
  - split_and!; try (done || lia). intros _. apply not_true_iff_false.
    intros [p Hp]%has_prefix_char. eapply Hz; [exact Hp| |done].
    intros ->. rewrite Hp in *. unfold len in *. cbn in *. lia.
Qed.

(** For every uint64 count of base units and every scale 1..9,
    [NewFromBaseUnits] succeeds, yields a canonical amount that [Parse] accepts
    back unchanged, and [BaseUnits] at the same scale returns the original
    count: rendering then parsing loses nothing. *)
Theorem NewFromBaseUnits_roundtrip u d : is_uint64 u → 0 < d ≤ MaxFractionDigits →
  ∃ a, NewFromBaseUnits u d = Ok a ∧ Parse (amount_String a) = Ok a ∧ BaseUnits a d = Ok u.
Proof.
  intros Hu Hd. pose proof (padded_digits u d Hu Hd) as (Hlen & Hdig & Hdec & Hl & Hz).
  cbv zeta in *. unfold NewFromBaseUnits. cbv zeta.
  set (p := if len (format_uint u) <=? d then _ else _) in *.
  rewrite !Z.gtb_ltb. unfold MaxFractionDigits, MaxIntegerDigits in *.
  destruct (Z.leb_spec d 0), (Z.ltb_spec 9 d), (Z.ltb_spec (19 + d) (len (format_uint u)));
    try lia. cbn [orb].
  set (k := (slen p - Z.to_nat d)%nat).
  assert (k ≤ slen p)%nat as Hk by lia.
  assert (Hsplit := stake_sdrop k p).
  assert (slen (stake k p) = k) as Hi by by apply slen_stake.
  assert (slen (sdrop k p) = Z.to_nat d) as Hf by (rewrite slen_sdrop; unfold k, len in *; lia).
  set (i := stake k p) in *. set (f := sdrop k p) in *.
  unfold allDigits in Hdig. rewrite <-Hsplit, all_chars_app, andb_true_iff in Hdig.
  destruct Hdig as [Hid Hfd].
  assert (canonical (i +:+ String "." f)) as Hc.
  { exists i. split.
    - split; [done|]. unfold MaxIntegerDigits, len, k in *. rewrite Hi. split; [lia|].
      intros Hgt. apply not_true_iff_false. intros [i' Hi']%has_prefix_char.
      apply not_true_iff_false in Hz; [|lia]. apply Hz. apply has_prefix_char.
      exists (i' +:+ f). by rewrite <-Hsplit, Hi'.
    - right. exists f. unfold MaxFractionDigits, len. rewrite Hf. split_and!; (done || lia). }
  exists (mkAmount (i +:+ String "." f)). split; [done|]. split; [by apply Parse_iff|].
  rewrite BaseUnits_scaled by done. unfold scaled, numerator.
  destruct (parts_frac i f Hid) as [-> ->]. rewrite Hsplit, Hdec.
  unfold MaxFractionDigits, len. rewrite Hf, Z2Nat.id by lia.
  destruct (Z.ltb_spec d 0), (Z.ltb_spec 9 d), (Z.ltb_spec d d); try lia. cbn [orb].
  rewrite Z.sub_diag, Z.pow_0_r, Z.mul_1_r. destruct Hu as [Hu Hu'].
  by apply Z.ltb_lt in Hu' as ->.
Qed.

(** *** Witnesses *)
Lemma BaseUnits_exact_witness :
  BaseUnits (mkAmount "10.50") 6 = Ok 10500000 ∧
  BaseUnits (mkAmount "10.50") 6 =
    if (6 <? 0) || (MaxFractionDigits <? 6) then Err [ErrNonCanonical]
    else if 6 <? len (frac_part (mkAmount "10.50")) then Err [ErrTooPrecise]
    else if scaled (mkAmount "10.50") 6 <? two64
         then Ok (scaled (mkAmount "10.50") 6) else Err [ErrOverflow].
Proof.
  split; [vm_compute; reflexivity|]. apply BaseUnits_exact.
  eapply (proj1 (Parse_iff "10.50" (mkAmount "10.50"))). vm_compute; reflexivity.
Defined.

Lemma Cmp_numeric_witness :
  Cmp (mkAmount "1.50") (mkAmount "1.5") = 0 ∧
  Cmp (mkAmount "10.00") (mkAmount "9.999999999") =
    Z.sgn (scaled (mkAmount "10.00") 9 - scaled (mkAmount "9.999999999") 9).
Proof.
  split; [vm_compute; reflexivity|].
  apply (Cmp_numeric (mkAmount "10.00") (mkAmount "9.999999999")).
  - apply (proj1 (Parse_iff "10.00" (mkAmount "10.00"))). vm_compute; reflexivity.
  - apply (proj1 (Parse_iff "9.999999999" (mkAmount "9.999999999"))). vm_compute; reflexivity.
Defined.

Lemma NewFromBaseUnits_roundtrip_witness :
  NewFromBaseUnits 7 6 = Ok (mkAmount "0.000007") ∧
  ∃ a, NewFromBaseUnits maxUint64 1 = Ok a ∧ Parse (amount_String a) = Ok a ∧
       BaseUnits a 1 = Ok maxUint64.
Proof.
  split; [vm_compute; reflexivity|].
  apply NewFromBaseUnits_roundtrip; vm_compute; repeat split; discriminate.
Defined.

(** ** Whole amounts *)
Lemma canonical_format n : 0 ≤ n < 10 ^ 19 → canonical (format_uint n).
Proof.
  intros Hn. destruct (format_uint_spec n) as (_ & Hdig & Hne & Hz); [lia|].
  pose proof (format_uint_length n 19 ltac:(lia) ltac:(lia)).
  exists (format_uint n). split; [|by left]. unfold canonical_int, MaxIntegerDigits, len.
  split_and!; [done|destruct (format_uint n); [done|rewrite slen_cons; lia]|lia|].
  intros Hl. apply not_true_iff_false. intros [s' Hs]%has_prefix_char.
  eapply Hz; [exact Hs| |done]. intros ->. rewrite Hs in Hl. cbn in Hl. lia.
Qed.

Lemma scaled_format n d : 0 ≤ n → scaled (mkAmount (format_uint n)) d = n * 10 ^ d.
Proof.
  intros Hn. unfold scaled, numerator.
  destruct (parts_int _ (format_uint_digits n Hn)) as [-> ->].
  rewrite sapp_nil_r, dec_format_uint by done. unfold len. cbn. by rewrite Z.sub_0_r.
Qed.
Lemma Cmp_refl a : Cmp a a = 0.
Proof.
  unfold Cmp, str_lt. cbv zeta. set (s := align _ _ _ _).
  destruct (String.ltb s s) eqn:E; [|done]. unfold String.ltb in E.
  pose proof (String.compare_eq_iff s s). destruct (String.compare s s) eqn:E'; try done.
  exfalso. pose proof (String.compare_antisym s s). rewrite E' in *. done.
Qed.
