(* ===== verification/Domain.v ===== *)
(** * [internal/domain]: the vocabulary types

    Enumerations that arrive from a request stay strings with a [Valid] test;
    those only this service writes ([TradeState], [TradeEventType],
    [SettlementStatus]) are inductive, with their stored spelling alongside. *)
From S2P Require Import Prelude Money.

Definition ErrNotFound : sentinel := "domain.ErrNotFound".
Definition ErrConflict : sentinel := "domain.ErrConflict".
Definition ErrStale : sentinel := "domain.ErrStale".
Definition ErrInvalid : sentinel := "domain.ErrInvalid".

(** [base58.Decode] of [mr-tron/base58] and [base58.Encode]: bytes as 0..255. *)
Class Base58 := {
  b58_decode : string → option (list Z);
  b58_encode : list Z → string;
}.

(** Documented behaviour of that package: decoding inverts encoding. *)
Class Base58Laws `{Base58} : Prop := {
  b58_roundtrip l : Forall (fun b => 0 ≤ b < 256) l → b58_decode (b58_encode l) = Some l;
}.

(** ** Settlement modes, statuses, directions *)
Definition SettlementMode := string.
Definition SettlementOffchain : SettlementMode := "offchain".
Definition SettlementOnchain : SettlementMode := "onchain".
Definition SettlementMode_Valid (m : SettlementMode) : bool :=
  String.eqb m SettlementOffchain || String.eqb m SettlementOnchain.

Definition AgentStatus := string.
Definition AgentActive : AgentStatus := "active".
Definition AgentSuspended : AgentStatus := "suspended".
Definition AgentRetired : AgentStatus := "retired".
Definition AgentStatus_Valid (s : AgentStatus) : bool :=
  String.eqb s AgentActive || String.eqb s AgentSuspended || String.eqb s AgentRetired.

Definition OfferDirection := string.
Definition DirectionAsk : OfferDirection := "ask".
Definition DirectionBid : OfferDirection := "bid".
Definition OfferDirection_Valid (d : OfferDirection) : bool :=
  String.eqb d DirectionAsk || String.eqb d DirectionBid.

Definition OfferStatus := string.
Definition OfferOpen : OfferStatus := "open".
Definition OfferClosed : OfferStatus := "closed".
Definition OfferStatus_Valid (s : OfferStatus) : bool :=
  String.eqb s OfferOpen || String.eqb s OfferClosed.

Definition Resolution := string.
Definition ResolutionReleased : Resolution := "released".
Definition ResolutionUpheld : Resolution := "upheld".
Definition Resolution_Valid (r : Resolution) : bool :=
  String.eqb r ResolutionReleased || String.eqb r ResolutionUpheld.

(** ** Keys and mints *)
Section Keys.
Context `{Base58}.

Definition ParsePublicKey (s : string) : res string :=
  if String.eqb s "" then Err []
  else match b58_decode s with
       | None => Err []
       | Some raw => if Nat.eqb (length raw) 32 then Ok s else Err []
       end.

Definition ValidateMint (address : string) : res unit :=
  if String.eqb address "" then Err []
  else match b58_decode address with
       | None => Err []
       | Some raw => if Nat.eqb (length raw) 32 then Ok tt else Err []
       end.
End Keys.

Record MintInfo := mkMintInfo {
  mi_Address : string; mi_Symbol : string; mi_Decimals : Z; mi_Known : bool }.

(** ** Agents *)
Record AgentSkill := mkAgentSkill {
  skill_ID : string; skill_Name : string; skill_Tags : list string;
  skill_Input : list string; skill_Output : list string }.

Record AgentCard := mkAgentCard {
  card_Name : string; card_Description : string; card_Version : string; card_URL : string;
  card_PublicKey : string; card_Capabilities : list string; card_Skills : list AgentSkill;
  card_Currencies : list string; card_SettlementModes : list SettlementMode; card_ProbeTarget : string }.

(** The parts of a URL that the validation reads, as [net/url] returns them; its
    parser is the parameter [url_parse]. *)
Record URL := mkURL {
  url_Scheme : string; url_hasUser : bool; url_Host : string; url_Hostname : string; url_Port : string;
  url_Path : string; url_RawQuery : string; url_Fragment : string }.
Class NetURL := { url_parse : string → option URL; url_print : URL → string }.

Section CardValidate.
Context `{Base58} `{NetURL}.

Definition validateServiceURL (raw : string) : res unit :=
  match url_parse (TrimSpace raw) with
  | None => Err []
  | Some parsed =>
      if negb (String.eqb (url_Scheme parsed) "http") && negb (String.eqb (url_Scheme parsed) "https") then Err []
      else if String.eqb (url_Host parsed) "" then Err []
      else Ok tt
  end.

Definition validateProbeTarget (raw : string) : res unit :=
  match url_parse (TrimSpace raw) with
  | None => Err []
  | Some parsed =>
      if negb (String.eqb (url_Scheme parsed) "https") then Err []
      else if url_hasUser parsed then Err []
      else if String.eqb (url_Hostname parsed) "" then Err []
      else if String.eqb (url_Port parsed) "" then Err []
      else if String.eqb (url_Path parsed) "" || String.eqb (url_Path parsed) "/" then Err []
      else if negb (String.eqb (url_RawQuery parsed) "") || negb (String.eqb (url_Fragment parsed) "") then Err []
      else Ok tt
  end.

Definition card_validate (c : AgentCard) : res unit :=
  if String.eqb (TrimSpace (card_Name c)) "" then Err []
  else if len (card_Name c) >? 200 then Err []
  else if len (card_Description c) >? 2000 then Err []
  else
    _ ← ParsePublicKey (card_PublicKey c);
    _ ← validateServiceURL (card_URL c);
    if negb (forallb SettlementMode_Valid (card_SettlementModes c)) then Err []
    else if negb (forallb (fun m => is_ok (ValidateMint m)) (card_Currencies c)) then Err []
    else
      _ ← (if String.eqb (card_ProbeTarget c) "" then Ok tt else validateProbeTarget (card_ProbeTarget c));
      if (64 <? length (card_Capabilities c))%nat then Err [] else Ok tt.

Definition card_Validate (c : AgentCard) : res unit := wrap ErrInvalid (card_validate c).
End CardValidate.

Record Agent := mkAgent {
  agent_ID : string; agent_Card : AgentCard; agent_Status : AgentStatus;
  agent_CreatedAt : time; agent_UpdatedAt : time }.

Record Retirement := mkRetirement {
  ret_AgentID : string; ret_Reason : string; ret_Actor : string; ret_RetiredAt : time;
  ret_RestoredAt : option time; ret_RestoredBy : option string }.

(** ** Offers *)
Record Offer := mkOffer {
  offer_ID : string; offer_AgentID : string; offer_Direction : OfferDirection;
  offer_Description : string; offer_Capabilities : list string;
  offer_PriceAmount : Amount; offer_PriceMint : string;
  offer_SettlementModes : list SettlementMode; offer_Status : OfferStatus;
  offer_CreatedAt : time; offer_UpdatedAt : time; offer_ExpiresAt : time }.

Definition AcceptsMode (o : Offer) (m : SettlementMode) : bool :=
  bool_decide (m ∈ offer_SettlementModes o).

Section OfferValidate.
Context `{Base58}.

Definition offer_validate (o : Offer) : res unit :=
  if String.eqb (TrimSpace (offer_Description o)) "" then Err []
  else if len (offer_Description o) >? 4000 then Err []
  else if negb (OfferDirection_Valid (offer_Direction o)) then Err []
  else if negb (OfferStatus_Valid (offer_Status o)) then Err []
  else if IsZero (offer_PriceAmount o) then Err []
  else match ValidateMint (offer_PriceMint o) with
  | Err e => Err e
  | Ok _ =>
    if Nat.eqb (length (offer_SettlementModes o)) 0 then Err []
    else if negb (forallb SettlementMode_Valid (offer_SettlementModes o)) then Err []
    else if (64 <? length (offer_Capabilities o))%nat then Err []
    else Ok tt
  end.

Definition offer_Validate (o : Offer) : res unit := wrap ErrInvalid (offer_validate o).
End OfferValidate.

(** ** Trades *)
Inductive TradeState :=
  | TradeProposed | TradeNegotiating | TradeAccepted | TradeSettlementPending
  | TradeRecorded | TradeSettled | TradeDisputed | TradeResolved | TradeCancelled.

#[export] Instance TradeState_eq_dec : EqDecision TradeState.
Proof. solve_decision. Defined.

(** The string constant of each state. *)
Definition TradeState_string (s : TradeState) : string :=
  match s with
  | TradeProposed => "proposed" | TradeNegotiating => "negotiating"
  | TradeAccepted => "accepted" | TradeSettlementPending => "settlement_pending"
  | TradeRecorded => "recorded" | TradeSettled => "settled" | TradeDisputed => "disputed"
  | TradeResolved => "resolved" | TradeCancelled => "cancelled"
  end.

Definition all_states : list TradeState :=
  [TradeProposed; TradeNegotiating; TradeAccepted; TradeSettlementPending;
   TradeRecorded; TradeSettled; TradeDisputed; TradeResolved; TradeCancelled].

(** [TradeState(s).Valid()] *)
Definition TradeState_Valid (s : string) : bool :=
  existsb (fun st => String.eqb s (TradeState_string st)) all_states.

Definition Terminal (s : TradeState) : bool :=
  match s with
  | TradeRecorded | TradeSettled | TradeDisputed | TradeResolved | TradeCancelled => true
  | _ => false
  end.

Inductive TradeEventType :=
  | EventProposed | EventNegotiating | EventAccepted | EventSettlementPending
  | EventRecorded | EventSettled | EventCancelled | EventDisputed | EventResolved
  | EventExpired.

#[export] Instance TradeEventType_eq_dec : EqDecision TradeEventType.
Proof. solve_decision. Defined.

(** A JSON object, as [encoding/json] builds it from the maps the services pass. *)
Inductive json_value :=
  | JString (s : string) | JBool (b : bool) | JNumber (n : Z) | JStrings (l : list string).
Definition json := list (string * json_value).

Record TradeEvent := mkTradeEvent {
  ev_Seq : Z; ev_TradeID : string; ev_Actor : string; ev_Type : TradeEventType;
  ev_From : option TradeState; ev_To : TradeState; ev_Detail : option json;
  ev_CreatedAt : time }.

Record Trade := mkTrade {
  tr_ID : string; tr_OfferID : string; tr_Buyer : string; tr_Seller : string;
  tr_Description : string; tr_Amount : Amount; tr_Mint : string;
  tr_Mode : SettlementMode; tr_State : TradeState; tr_IdempotencyKey : string;
  tr_CreatedAt : time; tr_UpdatedAt : time;
  tr_Acceptances : list string; tr_Events : list TradeEvent }.

Definition Party (t : Trade) (agentID : string) : bool :=
  String.eqb agentID (tr_Buyer t) || String.eqb agentID (tr_Seller t).

(** ** Settlement requests *)
Inductive SettlementStatus := SettlementIssued | SettlementConfirmed | SettlementExpired.

#[export] Instance SettlementStatus_eq_dec : EqDecision SettlementStatus.
Proof. solve_decision. Defined.

Definition PrePhase3Cluster : string := "pre-phase-3".

Record SettlementRequest := mkSettlementRequest {
  sr_ID : string; sr_TradeID : string; sr_UnsignedTx : string; sr_Blockhash : string;
  sr_LastValid : Z; sr_BuyerATA : string; sr_SellerATA : string; sr_CreatedATA : bool;
  sr_FeeLamports : Z; sr_FeeWallet : string; sr_Status : SettlementStatus;
  sr_Signature : string; sr_Cluster : string;
  sr_CreatedAt : time; sr_UpdatedAt : time; sr_ExpiresAt : time }.

Definition SettlementRequest_Live (r : SettlementRequest) (now : time) : bool :=
  bool_decide (sr_Status r = SettlementIssued) && before now (sr_ExpiresAt r).

(** ** Ledger, receipts, challenges, limits *)
Definition GenesisHash : string :=
  "0000000000000000000000000000000000000000000000000000000000000000".

Record LedgerAppend := mkLedgerAppend {
  la_TradeID : string; la_Payload : string; la_PayloadHash : string; la_PrevHash : string;
  la_CreatedAt : time }.

Definition EntryHasher := Z → string → string → string.

Record LedgerEntry := mkLedgerEntry {
  le_Seq : Z; le_TradeID : string; le_Payload : string; le_PayloadHash : string;
  le_PrevHash : string; le_Hash : string; le_CreatedAt : time }.

Record Receipt := mkReceipt {
  rc_ID : string; rc_TradeID : string; rc_JWS : string; rc_IssuedAt : time }.

Record Challenge := mkChallenge {
  ch_ID : string; ch_AgentID : string; ch_Nonce : string; ch_ExpiresAt : time;
  ch_Consumed : option time }.

Record AgentLimits := mkAgentLimits {
  al_AgentID : string; al_PerTradeUSD : Amount; al_PerDayUSD : Amount; al_RaisedAt : time }.

Record SpendRow := mkSpendRow { sp_Mint : string; sp_Amount : Amount }.

(** ** Lemmas *)
Lemma Party_spec t a : Party t a = true ↔ a = tr_Buyer t ∨ a = tr_Seller t.
Proof. unfold Party. by rewrite orb_true_iff, !String.eqb_eq. Qed.

Lemma all_states_complete s : s ∈ all_states.
Proof. destruct s; cbn; set_solver. Qed.

(** The stored spelling determines the state. *)
Lemma TradeState_string_inj s s' : TradeState_string s = TradeState_string s' → s = s'.
Proof. by destruct s, s'. Qed.

Lemma TradeState_Valid_spec s : TradeState_Valid s = true ↔ ∃ st, s = TradeState_string st.
Proof.
  unfold TradeState_Valid. rewrite existsb_exists. split.
  - intros (st & _ & ->%String.eqb_eq). by exists st.
  - intros [st ->]. exists st. split; [|by apply String.eqb_eq].
    apply list_elem_of_In, all_states_complete.
Qed.
