(* ===== verification/Cluster.v ===== *)
(** * [internal/cluster]: chain identity

    A cluster is a name pinned to a genesis hash.  Modelled: name resolution,
    the pins and their verification, the per-cluster policy predicates.  The
    endpoint host check is [Endpoint.CheckEndpoint]. *)
From S2P Require Import Prelude.

Definition Cluster := string.
Definition MainnetBeta : Cluster := "mainnet-beta".
Definition Devnet : Cluster := "devnet".
Definition Localnet : Cluster := "localnet".
Definition Testnet : Cluster := "testnet".

Definition ErrUnknownCluster : sentinel := "cluster.ErrUnknownCluster".
Definition ErrClusterUnsupported : sentinel := "cluster.ErrClusterUnsupported".
Definition ErrClusterMismatch : sentinel := "cluster.ErrClusterMismatch".

Definition genesisPins (c : Cluster) : option string :=
  if String.eqb c MainnetBeta then Some "5eykt4UsFv8P8NJdTREpY1vzqKqZKvdpKuc147dw2N9d"
  else if String.eqb c Devnet then Some "EtWTRABZaYq6iMfeYKouRu166VU2xqa1wcaWoxPkrZBG"
  else None.

Definition supported : list Cluster := [MainnetBeta; Devnet; Localnet].

Definition Parse `{Unicode} (s : string) : res Cluster :=
  let name := ToLower (TrimSpace s) in
  if String.eqb name "" then Err [ErrUnknownCluster]
  else if String.eqb name Testnet then Err [ErrClusterUnsupported]
  else match find (fun c => String.eqb c name) supported with
       | Some c => Ok c
       | None => Err [ErrUnknownCluster]
       end.

(** [genesisPins[c]]: the empty string when there is no pin. *)
Definition GenesisHash (c : Cluster) : string := default "" (genesisPins c).

Definition IsProduction (c : Cluster) : bool := String.eqb c MainnetBeta.
Definition AllowsExtraMints (c : Cluster) : bool := String.eqb c Localnet.
Definition RequiresLoopback (c : Cluster) : bool := String.eqb c Localnet.

Definition Verify (c : Cluster) (reported : string) : res unit :=
  let want := GenesisHash c in
  if String.eqb want "" then Ok tt
  else if String.eqb reported want then Ok tt
  else Err [ErrClusterMismatch].

Lemma supported_spec c : c ∈ supported ↔ c = MainnetBeta ∨ c = Devnet ∨ c = Localnet.
Proof. unfold supported. set_solver. Qed.

(** A configured name resolves only to one of the three supported clusters,
    so a chain this service refuses ([testnet]) or a misspelling never reaches
    settlement; and two different public clusters never share a pin, so a node
    whose genesis hash passes [Verify] for one of them is not the other. *)
Theorem Parse_identity `{Unicode} s c : Parse s = Ok c →
  c ∈ supported ∧ c = ToLower (TrimSpace s) ∧
  ∀ c' h, c' ∈ supported → GenesisHash c ≠ "" → GenesisHash c' ≠ "" →
    Verify c h = Ok tt → Verify c' h = Ok tt → c = c'.
Proof.
  unfold Parse. destruct (String.eqb_spec (ToLower (TrimSpace s)) ""); [done|].
  destruct (String.eqb_spec (ToLower (TrimSpace s)) Testnet); [done|].
  destruct (find (fun c => String.eqb c (ToLower (TrimSpace s))) supported) as [c0|] eqn:Hf; [|done]. intros [= <-].
  apply find_some in Hf as [Hin Heq%String.eqb_eq].
  split; [by apply list_elem_of_In|]. split; [done|].
  intros c' h [-> | [-> | -> ]]%supported_spec; apply list_elem_of_In, supported_spec in Hin;
    destruct Hin as [-> | [-> | -> ]]; try done; unfold Verify; cbn;
    destruct (String.eqb_spec h "5eykt4UsFv8P8NJdTREpY1vzqKqZKvdpKuc147dw2N9d") as [->|];
    (done || by cbn).
Qed.

Lemma Parse_identity_witness :
  let u := {| unicode_lower := id |} in
  Parse (H := u) "  DevNet " = Ok Devnet ∧ Devnet ∈ supported.
Proof.
  cbv zeta. split; [vm_compute; reflexivity|].
  exact (proj1 (Parse_identity (H := {| unicode_lower := id |}) "  DevNet " Devnet
    ltac:(vm_compute; reflexivity))).
Defined.
