(* ===== verification/Limits.v ===== *)
(** * [internal/limits]: spending caps in USD

    Rates, the cap policy, the effective caps of one agent and the conversion
    of a token amount to micro-USD.  [scaleToUSD] is the 128-bit product and
    quotient of [math/bits] on Z.  The conversion divides by [10^USDScale]
    whatever the mint's own scale is; [USDValue_spec] states exactly what it
    computes and [USDValue_scale_error] how far that is from the dollar value
    for a mint whose declared scale is not six. *)
From S2P Require Import Prelude Money Domain.

Definition USDScale : Z := 6.

Definition ErrNoRate : sentinel := "limits.ErrNoRate".
Definition ErrRateInvalid : sentinel := "limits.ErrRateInvalid".
Definition ErrCapInvalid : sentinel := "limits.ErrCapInvalid".
Definition ErrCapNotPositive : sentinel := "limits.ErrCapNotPositive".
Definition ErrAboveCeiling : sentinel := "limits.ErrAboveCeiling".

(** [decimals] is a uint8. *)
Record Rate := mkRate { rate_Decimals : Z; rate_USD : Amount }.

Abbreviation Rates := (gmap string Rate).

Definition governedPar : Rates := {[
  "EPjFWdd5AufqSSqeM2qN1xzybapC8G4wEGGkZwyTDt1v" := mkRate 6 (mkAmount "1.00");
  "4zMMC9srt5Ri5X14GAgXhaHii3GnPAEERYPJgZJDncDU" := mkRate 6 (mkAmount "1.00");
  "HzwqbKZw8HxMN6bF2yFZNrht3c2iXXzpKcFu7uBEDKtr" := mkRate 6 (mkAmount "1.00") ]}.

Definition DefaultRates : Rates := governedPar.

Definition toMicro (a : Amount) : res Z :=
  if IsZero a then Err [ErrCapInvalid]
  else rewrap ErrCapInvalid (BaseUnits a USDScale).

Definition CapMicro (c : Amount) : res Z := toMicro c.

Section Keyish.
Context `{Base58}.

Definition ParsePublicKeyish (s : string) : res string :=
  if String.eqb (TrimSpace s) "" then Err []
  else match ValidateMint s with Err e => Err e | Ok _ => Ok s end.

(** [r.Add(mint, rate)], returning the updated table. *)
Definition Rates_Add (r : Rates) (mint : string) (rate : Rate) : res Rates :=
  match ParsePublicKeyish mint with
  | Err e => Err e
  | Ok _ =>
    if rate_Decimals rate >? 9 then Err []
    else match toMicro (rate_USD rate) with
         | Err e => Err e
         | Ok _ => Ok (<[mint := rate]> r)
         end
  end.
End Keyish.

Definition Rates_Lookup (r : Rates) (mint : string) : option Rate := r !! mint.

(** [r.Missing(governed)], sorted. *)
Definition Rates_Missing (r : Rates) (governed : list string) : list string :=
  merge_sort String.le (filter (fun m => r !! m = None) governed).

(** The policy; the per-agent override function is the caller's, and its answer
    for the agent at hand is an argument of [Effective]. *)
Record Policy := mkPolicy {
  PerTrade : Amount; PerDay : Amount; Window : duration;
  CeilingPerTrade : Amount; CeilingPerDay : Amount; rates : Rates }.

Definition DefaultPolicy (r : Rates) : Policy :=
  mkPolicy (mkAmount "10.00") (mkAmount "10.00") (24 * hour) AmountZero AmountZero r.

Definition WithRates (p : Policy) (r : Rates) : Policy :=
  mkPolicy (PerTrade p) (PerDay p) (Window p) (CeilingPerTrade p) (CeilingPerDay p) r.
Definition WithCeilings (p : Policy) (perTrade perDay : Amount) : Policy :=
  mkPolicy (PerTrade p) (PerDay p) (Window p) perTrade perDay (rates p).
Definition WithWindow (p : Policy) (d : duration) : Policy :=
  mkPolicy (PerTrade p) (PerDay p) d (CeilingPerTrade p) (CeilingPerDay p) (rates p).

Definition check_bound (value bounded : Amount) : res unit :=
  if IsZero value then Ok tt
  else match toMicro value with
       | Err e => Err e
       | Ok _ => if Cmp value bounded <? 0 then Err [] else Ok tt
       end.

Definition Policy_Validate (p : Policy) : res unit :=
  if IsZero (PerTrade p) then Err [ErrCapNotPositive]
  else if IsZero (PerDay p) then Err [ErrCapNotPositive]
  else
    _ ← toMicro (PerTrade p);
    _ ← toMicro (PerDay p);
    if Window p <=? 0 then Err []
    else _ ← check_bound (CeilingPerTrade p) (PerTrade p);
         check_bound (CeilingPerDay p) (PerDay p).

Record Limits := mkLimits { lim_PerTrade : Amount; lim_PerDay : Amount; lim_Raised : bool }.

Definition Priced (p : Policy) (mint : string) : bool :=
  bool_decide (is_Some (Rates_Lookup (rates p) mint)).

(** [p.Effective(ctx, agentID)]; [over] is what the override function returns
    for the agent: [None] when there is none or it answers [ok = false]. *)
Definition Effective (p : Policy) (over : option (Amount * Amount)) : Limits :=
  match over with
  | None => mkLimits (PerTrade p) (PerDay p) false
  | Some (perTrade, perDay) =>
      let t := negb (IsZero perTrade) && (Cmp perTrade (PerTrade p) >? 0) in
      let d := negb (IsZero perDay) && (Cmp perDay (PerDay p) >? 0) in
      mkLimits (if t then perTrade else PerTrade p) (if d then perDay else PerDay p) (t || d)
  end.

Definition Policy_Check (p : Policy) (perTrade perDay : Amount) : res unit :=
  if IsZero perTrade then Err [ErrCapNotPositive]
  else if IsZero perDay then Err [ErrCapNotPositive]
  else
    _ ← toMicro perTrade;
    _ ← toMicro perDay;
    if negb (IsZero (CeilingPerTrade p)) && (Cmp perTrade (CeilingPerTrade p) >? 0)
    then Err [ErrAboveCeiling]
    else if negb (IsZero (CeilingPerDay p)) && (Cmp perDay (CeilingPerDay p) >? 0)
    then Err [ErrAboveCeiling]
    else Ok tt.

Definition usdScaleFactor : Z := 10 ^ USDScale.

(** [bits.Mul64] and [bits.Div64]; the latter panics unless [y > hi], which the
    guard in front of it rules out. *)
Definition Mul64 (x y : Z) : Z * Z := ((x * y) / two64, (x * y) mod two64).
Definition Div64 (hi lo y : Z) : Z * Z := ((hi * two64 + lo) / y, (hi * two64 + lo) mod y).

Definition scaleToUSD (units microUSDPerToken : Z) : Z :=
  let '(hi, lo) := Mul64 units microUSDPerToken in
  if hi >=? usdScaleFactor then maxUint64
  else (Div64 hi lo usdScaleFactor).1.

Definition USDValue (p : Policy) (amount : Amount) (mint : string) : res Z :=
  match Rates_Lookup (rates p) mint with
  | None => Err [ErrNoRate]
  | Some rate =>
      units ← BaseUnits amount (rate_Decimals rate);
      perToken ← toMicro (rate_USD rate);
      if perToken =? 0 then Err [ErrRateInvalid]
      else Ok (scaleToUSD units perToken)
  end.

(** [PriceCache]: the parsed rate of each mint priced so far. *)
Record PriceCache := mkPriceCache { pc_policy : Policy; pc_micro : gmap string Z }.

Definition NewPriceCache (p : Policy) : PriceCache := mkPriceCache p ∅.

Definition PriceCache_USDValue (c : PriceCache) (amount : Amount) (mint : string)
    : res Z * PriceCache :=
  match Rates_Lookup (rates (pc_policy c)) mint with
  | None => (Err [ErrNoRate], c)
  | Some rate =>
      match BaseUnits amount (rate_Decimals rate) with
      | Err e => (Err e, c)
      | Ok units =>
          let finish perToken c' :=
            if perToken =? 0 then (Err [ErrRateInvalid], c')
            else (Ok (scaleToUSD units perToken), c') in
          match pc_micro c !! mint with
          | Some perToken => finish perToken c
          | None =>
              match toMicro (rate_USD rate) with
              | Err e => (Err e, c)
              | Ok perToken =>
                  finish perToken (mkPriceCache (pc_policy c) (<[mint := perToken]> (pc_micro c)))
              end
          end
      end
  end.

Definition FormatUSD (micro : Z) : string :=
  match NewFromBaseUnits micro USDScale with
  | Ok amount => amount_String amount
  | Err _ => "an unrepresentable amount"
  end.

(** ** Conversion *)
Lemma pow10_pos k : 0 ≤ k → 0 < 10 ^ k.
Proof. intros. lia. Qed.

Lemma scaleToUSD_sat u m : is_uint64 u → is_uint64 m →
  scaleToUSD u m = Z.min (u * m / usdScaleFactor) maxUint64.
Proof.
  unfold is_uint64, scaleToUSD, Mul64, Div64, usdScaleFactor, USDScale, maxUint64, two64.
  cbn [fst]. intros Hu Hm. change (10 ^ 6) with 1000000.
  set (x := u * m). assert (0 ≤ x) by nia.
  rewrite Z.mul_comm, <-Z.div_mod by lia. rewrite Z.geb_leb.
  destruct (Z.leb_spec 1000000 (x / 18446744073709551616));
    Z.to_euclidean_division_equations; lia.
Qed.

(** The 128-bit conversion never wraps: on uint64 inputs it is the exact
    truncated quotient, saturated at the largest uint64. *)
Theorem scaleToUSD_saturates u m : is_uint64 u → is_uint64 m →
  scaleToUSD u m = Z.min (u * m / usdScaleFactor) maxUint64.
Proof. exact (scaleToUSD_sat u m). Qed.

Lemma scaleToUSD_saturates_witness :
  is_uint64 maxUint64 ∧ scaleToUSD maxUint64 maxUint64 = maxUint64 ∧
  scaleToUSD 2500000 1000000 = Z.min (2500000 * 1000000 / usdScaleFactor) maxUint64.
Proof.
  split_and!; [vm_compute; split; congruence|vm_compute; reflexivity|].
  apply (scaleToUSD_saturates 2500000 1000000); vm_compute; split; congruence.
Defined.

(** The dollar value, in micro-USD, of [amount] of a mint priced at [r]: its
    whole-token value times the micro-USD price of one token, truncated. *)
Definition dollar_value (r : Rate) (amount : Amount) (perToken : Z) : Z :=
  scaled amount (rate_Decimals r) * perToken / 10 ^ rate_Decimals r.

Lemma USDValue_spec p amount mint r perToken :
  rates p !! mint = Some r → canonical (value amount) →
  len (frac_part amount) ≤ rate_Decimals r ≤ 9 →
  scaled amount (rate_Decimals r) < two64 →
  toMicro (rate_USD r) = Ok perToken → 0 < perToken →
  USDValue p amount mint = Ok (scaleToUSD (scaled amount (rate_Decimals r)) perToken).
Proof.
  intros Hr Ha Hd Hs Hm Hp. unfold USDValue, Rates_Lookup. rewrite Hr, BaseUnits_scaled by done.
  pose proof (len_nonneg (frac_part amount)). unfold MaxFractionDigits.
  destruct (Z.ltb_spec (rate_Decimals r) 0), (Z.ltb_spec 9 (rate_Decimals r)),
    (Z.ltb_spec (rate_Decimals r) (len (frac_part amount))); try lia. cbn [orb].
  apply Z.ltb_lt in Hs as ->. cbn. rewrite Hm. cbn.
  by destruct (Z.eqb_spec perToken 0); [lia|].
Qed.

Lemma scaled_nonneg a d : canonical (value a) → 0 ≤ scaled a d.
Proof.
  intros Ha. unfold scaled. pose proof (canonical_numerator a Ha).
  apply Z.mul_nonneg_nonneg; [lia|]. apply Z.pow_nonneg. lia.
Qed.

(** For a mint declared at six decimals (every governed stablecoin),
    [USDValue] is the dollar value of the amount in micro-USD, truncated by
    less than one millionth of a dollar and saturated rather than wrapped. *)
Theorem USDValue_six_decimals p amount mint r perToken :
  rates p !! mint = Some r → rate_Decimals r = 6 → canonical (value amount) →
  len (frac_part amount) ≤ 6 → scaled amount 6 < two64 →
  toMicro (rate_USD r) = Ok perToken → 0 < perToken < two64 →
  USDValue p amount mint = Ok (Z.min (dollar_value r amount perToken) maxUint64).
Proof.
  intros Hr Hd Ha Hl Hs Hm Hp. rewrite (USDValue_spec p amount mint r perToken);
    rewrite ?Hd; try (done || lia).
  unfold dollar_value. rewrite Hd, scaleToUSD_sat; [done| |].
  - pose proof (scaled_nonneg amount 6 Ha). done.
  - unfold is_uint64. lia.
Qed.

Definition demoPolicy : Policy :=
  DefaultPolicy {[ "M0" := mkRate 0 (mkAmount "1.00"); "M6" := mkRate 6 (mkAmount "1.00") ]}.

Lemma USDValue_six_decimals_witness :
  USDValue demoPolicy (mkAmount "2.5") "M6" =
  Ok (Z.min (dollar_value (mkRate 6 (mkAmount "1.00")) (mkAmount "2.5") 1000000) maxUint64).
Proof.
  apply (USDValue_six_decimals demoPolicy (mkAmount "2.5") "M6" (mkRate 6 (mkAmount "1.00")) 1000000).
  3: apply (proj1 (Parse_iff "2.5" (mkAmount "2.5"))); vm_compute; reflexivity.
  all: vm_compute; repeat split; congruence.
Defined.

(** [USDValue] divides by [10^6] whatever the mint's declared scale: [n]
    whole tokens of a mint declared at one dollar and [d] decimals are counted
    as [n * 10^d] micro-USD, which is [n] dollars only when [d = 6].  A mint
    with fewer decimals is under-counted by [10^(6-d)], so a cap of ten dollars
    admits ten million whole dollars of a zero-decimal token. *)
Theorem USDValue_scale_error p mint d n :
  rates p !! mint = Some (mkRate d (mkAmount "1.00")) → 0 ≤ d ≤ 9 →
  0 ≤ n < 10 ^ 19 → n * 10 ^ d < two64 →
  USDValue p (mkAmount (format_uint n)) mint = Ok (n * 10 ^ d) ∧
  dollar_value (mkRate d (mkAmount "1.00")) (mkAmount (format_uint n)) (10 ^ 6) = n * 10 ^ 6.
Proof.
  intros Hr Hd Hn Hlt. pose proof (canonical_format n Hn) as Hc.
  assert (0 < 10 ^ d) by (apply pow10_pos; lia).
  assert (0 ≤ n * 10 ^ d) by nia.
  split.
  - rewrite (USDValue_spec p (mkAmount (format_uint n)) mint _ 1000000 Hr Hc); cbn [rate_Decimals rate_USD].
    + rewrite scaled_format, scaleToUSD_sat by (try (done || lia); vm_compute; intuition discriminate).
      unfold usdScaleFactor, USDScale. change (10 ^ 6) with 1000000.
      rewrite Z.div_mul by done. unfold maxUint64. f_equal. lia.
    + destruct (parts_int _ (format_uint_digits n ltac:(lia))) as [_ ->]. unfold len. cbn. lia.
    + by rewrite scaled_format by lia.
    + vm_compute. done.
    + lia.
  - unfold dollar_value. cbn [rate_Decimals]. rewrite scaled_format by lia.
    rewrite <-Z.mul_assoc, (Z.mul_comm (10 ^ d)), Z.mul_assoc, Z.div_mul; lia.
Qed.

(** Ten million whole dollars of a zero-decimal token pass a ten-dollar cap. *)
Lemma USDValue_scale_error_witness :
  USDValue demoPolicy (mkAmount "10000000") "M0" = Ok (10000000 * 10 ^ 0) ∧
  CapMicro (PerTrade demoPolicy) = Ok 10000000.
Proof.
  split; [|vm_compute; reflexivity].
  apply (USDValue_scale_error demoPolicy "M0" 0 10000000); vm_compute; repeat split; congruence.
Defined.

(** ** The price cache *)
Definition cache_ok (c : PriceCache) : Prop := ∀ mint v,
  pc_micro c !! mint = Some v →
  ∃ r, rates (pc_policy c) !! mint = Some r ∧ toMicro (rate_USD r) = Ok v.

Lemma NewPriceCache_ok p : cache_ok (NewPriceCache p).
Proof. intros mint v. cbn. by rewrite lookup_empty. Qed.

Lemma PriceCache_same c amount mint : cache_ok c →
  (PriceCache_USDValue c amount mint).1 = USDValue (pc_policy c) amount mint ∧
  cache_ok (PriceCache_USDValue c amount mint).2 ∧
  pc_policy (PriceCache_USDValue c amount mint).2 = pc_policy c.
Proof.
  intros Hc. unfold PriceCache_USDValue, USDValue, Rates_Lookup.
  destruct (rates (pc_policy c) !! mint) as [r|] eqn:Hr; [|done].
  destruct (BaseUnits amount (rate_Decimals r)) as [units|e]; [cbn|done].
  destruct (pc_micro c !! mint) as [v|] eqn:Hv.
  - destruct (Hc mint v Hv) as (r' & Hr' & Ht). simplify_eq. rewrite Ht. cbn. by destruct (v =? 0).
  - destruct (toMicro (rate_USD r)) as [v|e] eqn:Hm; [cbn|done].
    set (c' := mkPriceCache _ _).
    assert (cache_ok c') as Hc'.
    { intros m x. cbn. destruct (decide (m = mint)) as [->|].
      - rewrite lookup_insert_eq. intros [= <-]. by exists r.
      - rewrite lookup_insert_ne by done. apply Hc. }
    by destruct (v =? 0).
Qed.

(** From a fresh cache on, every priced row has the value [Policy.USDValue]
    gives it, errors included, whatever was priced before. *)
Theorem PriceCache_agrees c amount mint : cache_ok c →
  (PriceCache_USDValue c amount mint).1 = USDValue (pc_policy c) amount mint ∧
  cache_ok (PriceCache_USDValue c amount mint).2 ∧
  pc_policy (PriceCache_USDValue c amount mint).2 = pc_policy c.
Proof. exact (PriceCache_same c amount mint). Qed.

Lemma PriceCache_agrees_witness :
  (PriceCache_USDValue (NewPriceCache demoPolicy) (mkAmount "2.5") "M6").1 = Ok 2500000.
Proof.
  rewrite (proj1 (PriceCache_agrees (NewPriceCache demoPolicy) (mkAmount "2.5") "M6"
    (NewPriceCache_ok demoPolicy))).
  vm_compute. reflexivity.
Defined.

(** ** Caps *)

(** An opt-in can only widen a cap: each effective cap is the deployment's
    own or the stored one, never below the deployment default, and [Raised] is
    set exactly when one of them is above it. *)
Theorem Effective_bounds p over :
  let e := Effective p over in
  0 ≤ Cmp (lim_PerTrade e) (PerTrade p) ∧ 0 ≤ Cmp (lim_PerDay e) (PerDay p) ∧
  (lim_Raised e = true ↔
     0 < Cmp (lim_PerTrade e) (PerTrade p) ∨ 0 < Cmp (lim_PerDay e) (PerDay p)).
Proof.
  cbv zeta. destruct over as [[t d]|]; cbn; rewrite ?Cmp_refl; [|intuition (discriminate || lia)].
  rewrite !Z.gtb_ltb.
  destruct (IsZero t), (IsZero d), (Z.ltb_spec 0 (Cmp t (PerTrade p))),
    (Z.ltb_spec 0 (Cmp d (PerDay p))); cbn; rewrite ?Cmp_refl;
    intuition (discriminate || lia).
Qed.

(** A requested pair of caps is accepted exactly when both are positive
    amounts that fit the micro-USD scale and neither is above a declared
    ceiling. *)
Theorem Policy_Check_ok p t d : Policy_Check p t d = Ok tt ↔
  (∃ vt vd, toMicro t = Ok vt ∧ toMicro d = Ok vd) ∧
  (IsZero (CeilingPerTrade p) = false → Cmp t (CeilingPerTrade p) ≤ 0) ∧
  (IsZero (CeilingPerDay p) = false → Cmp d (CeilingPerDay p) ≤ 0).
Proof.
  unfold Policy_Check. rewrite !Z.gtb_ltb. split.
  - destruct (IsZero t); [done|]. destruct (IsZero d); [done|].
    destruct (toMicro t) as [vt|]; [cbn|done]. destruct (toMicro d) as [vd|]; [cbn|done].
    destruct (IsZero (CeilingPerTrade p)), (IsZero (CeilingPerDay p)),
      (Z.ltb_spec 0 (Cmp t (CeilingPerTrade p))), (Z.ltb_spec 0 (Cmp d (CeilingPerDay p)));
      cbn; naive_solver.
  - intros ((vt & vd & Ht & Hd) & H1 & H2). rewrite Ht, Hd.
    unfold toMicro in Ht, Hd. destruct (IsZero t); [done|]. destruct (IsZero d); [done|]. cbn.
    destruct (IsZero (CeilingPerTrade p)), (IsZero (CeilingPerDay p)),
      (Z.ltb_spec 0 (Cmp t (CeilingPerTrade p))), (Z.ltb_spec 0 (Cmp d (CeilingPerDay p)));
      cbn; naive_solver lia.
Qed.
