(* ===== verification/Tokens.v ===== *)
(** * [internal/tokens] and [internal/fees]: the governed registry, the fee policy

    The registry scopes mints to one cluster; [Enabled] tells a governed and
    enabled mint from a disabled one, from one governed on another cluster and
    from an unknown address.  Solana keys are parsed by [solana-go], a
    parameter. *)
From S2P Require Import Prelude Money Domain Cluster.

Definition ErrNotRegistered : sentinel := "tokens.ErrNotRegistered".
Definition ErrUngoverned : sentinel := "tokens.ErrUngoverned".
Definition ErrDisabled : sentinel := "tokens.ErrDisabled".
Definition tokens_ErrInvalid : sentinel := "tokens.ErrInvalid".

(** A Solana public key: its 32 raw bytes. *)
Definition pubkey := string.

(** [solana.PublicKeyFromBase58] and [PublicKey.String]. *)
Class SolanaKeys := {
  pk_parse : string → option pubkey;
  pk_print : pubkey → string;
}.

Definition MaxDecimals : Z := 9.
Definition TokenProgram : string := "TokenkegQfeZyiNwAJbNbGKPFXCWuBvf9Ss623VQ5DA".

Record Token := mkToken {
  tok_Address : string; tok_Symbol : string; tok_Decimals : Z; tok_Enabled : bool;
  tok_Cluster : string; tok_MintAuthority : string; tok_FreezeAuthority : string }.

Definition Token_MintInfo (t : Token) : MintInfo :=
  mkMintInfo (tok_Address t) (tok_Symbol t) (tok_Decimals t) true.

(** Two entries are ordered by symbol, then by address. *)
Definition token_lt (a b : Token) : bool :=
  if String.eqb (tok_Symbol a) (tok_Symbol b)
  then str_lt (tok_Address a) (tok_Address b)
  else str_lt (tok_Symbol a) (tok_Symbol b).

Definition sorted_tokens (entries : list Token) : list Token := stable_sort token_lt entries.

Record Registry := mkRegistry {
  reg_cluster : Cluster; reg_byMint : gmap string Token;
  reg_elsewhere : gmap string Cluster; reg_ordered : list Token }.

Record governed := mkGoverned {
  g_address : string; g_symbol : string; g_decimals : Z;
  g_mintAuthority : string; g_freezeAuthority : string }.

Definition mainnetMints : list governed := [
  mkGoverned "EPjFWdd5AufqSSqeM2qN1xzybapC8G4wEGGkZwyTDt1v" "USDC" 6
    "BJE5MMbqXjVwjAF7oxwPYXnTXDyspzZyt4vwenNw5ruG"
    "7dGbd2QZcCKcTndnHcTL8q7SMVXAkp688NTQYwrRCrar";
  mkGoverned "HzwqbKZw8HxMN6bF2yFZNrht3c2iXXzpKcFu7uBEDKtr" "EURC" 6
    "Hy9168u7b2Toujh8SJKtKK8DWbyaBbXPzxm337R4o4XY"
    "6FF2CPcL6fat16QVJH6W27DeBcX7TSqbwY3a5wtyVJLC"].

Definition devnetMints : list governed := [
  mkGoverned "4zMMC9srt5Ri5X14GAgXhaHii3GnPAEERYPJgZJDncDU" "USDC" 6
    "GrNg1XM2ctzeE2mXxXCfhcTUbejM8Z4z4wNVTy2FjMEz"
    "CJtyoKSLrktozQzjERTiK3btQtiTK3nN4QrqGHLidyCT";
  mkGoverned "HzwqbKZw8HxMN6bF2yFZNrht3c2iXXzpKcFu7uBEDKtr" "EURC" 6
    "DuYQKfdunafuUqS7h6gugadrAiprxwtwBZFZLAMk4A99"
    "DuYQKfdunafuUqS7h6gugadrAiprxwtwBZFZLAMk4A99"].

Definition localnetMints : list governed := [].

Definition mintsFor (c : Cluster) : list governed :=
  if String.eqb c MainnetBeta then mainnetMints
  else if String.eqb c Devnet then devnetMints
  else if String.eqb c Localnet then localnetMints
  else [].

(** Every governed mint of the other public clusters that is not in [mine].
    Go ranges over a map here; an address governed on two other clusters keeps
    the cluster visited last, which only an error text shows. *)
Definition elsewhere (c : Cluster) (mine : list Token) : gmap string Cluster :=
  let have a := existsb (fun e => String.eqb (tok_Address e) a) mine in
  foldl (fun out '(other, rows) =>
    if String.eqb other c then out
    else foldl (fun out row =>
           if have (g_address row) then out else <[g_address row := other]> out) out rows)
    ∅ [(MainnetBeta, mainnetMints); (Devnet, devnetMints)].

Section Registry.
Context `{SolanaKeys} `{Unicode}.

Definition is_key (s : string) : bool := bool_decide (is_Some (pk_parse s)).

Definition Token_validate (t : Token) : res unit :=
  if negb (is_key (tok_Address t)) then Err [tokens_ErrInvalid]
  else if String.eqb (TrimSpace (tok_Symbol t)) "" then Err [tokens_ErrInvalid]
  else if (tok_Decimals t <? 0) || (tok_Decimals t >? MaxDecimals) then Err [tokens_ErrInvalid]
  else if forallb (fun a => String.eqb a "" || is_key a)
            [tok_MintAuthority t; tok_FreezeAuthority t]
  then Ok tt else Err [tokens_ErrInvalid].

Definition set_cluster (c : Cluster) (t : Token) : Token :=
  mkToken (tok_Address t) (tok_Symbol t) (tok_Decimals t) (tok_Enabled t) c
    (tok_MintAuthority t) (tok_FreezeAuthority t).

Fixpoint add_entries (c : Cluster) (byMint : gmap string Token) (entries : list Token)
    : res (gmap string Token) :=
  match entries with
  | [] => Ok byMint
  | e :: es =>
      match Token_validate e with
      | Err x => Err x
      | Ok _ =>
          match byMint !! tok_Address e with
          | Some _ => Err [tokens_ErrInvalid]
          | None => add_entries c (<[tok_Address e := set_cluster c e]> byMint) es
          end
      end
  end.

Definition New (c : Cluster) (entries : list Token) : res Registry :=
  _ ← Cluster.Parse c;
  byMint ← add_entries c ∅ entries;
  Ok (mkRegistry c byMint (elsewhere c entries) (sorted_tokens entries)).

Definition ForCluster (c : Cluster) (extra : list Token) : res Registry :=
  _ ← Cluster.Parse c;
  if (0 <? length extra)%nat && negb (AllowsExtraMints c) then Err [tokens_ErrInvalid]
  else
    New c (map (fun row => mkToken (g_address row) (g_symbol row) (g_decimals row) true c
                            (g_mintAuthority row) (g_freezeAuthority row)) (mintsFor c) ++ extra).

Definition Lookup (r : Registry) (address : string) : option Token := reg_byMint r !! address.

Definition Enabled (r : Registry) (address : string) : res Token :=
  match Lookup r address with
  | None =>
      match reg_elsewhere r !! address with
      | Some _ => Err [ErrUngoverned]
      | None => Err [ErrNotRegistered]
      end
  | Some entry => if tok_Enabled entry then Ok entry else Err [ErrDisabled]
  end.

Definition List_ (r : Registry) : list Token := reg_ordered r.

(** *** Invariants *)
Lemma add_entries_spec c m es m' : add_entries c m es = Ok m' →
  (∀ a t, m' !! a = Some t →
     m !! a = Some t ∨ ∃ e, e ∈ es ∧ a = tok_Address e ∧ t = set_cluster c e ∧ Token_validate e = Ok tt) ∧
  (∀ a t, m !! a = Some t → m' !! a = Some t) ∧
  (∀ e, e ∈ es → m' !! tok_Address e = Some (set_cluster c e)).
Proof.
  revert m. induction es as [|e es IH]; cbn; intros m.
  - intros [= <-]. split_and!; [by left|done|]. intros e He. set_solver.
  - destruct (Token_validate e) as [[]|] eqn:Hv; [|done].
    destruct (m !! tok_Address e) eqn:Hm; [done|]. intros (H1 & H2 & H3)%IH. split_and!.
    + intros a t Ha. destruct (H1 a t Ha) as [Hi|(e' & ? & ? & ? & ?)]; [|right; set_solver].
      apply lookup_insert_Some in Hi as [[<- <-]|[? ?]]; [right; exists e; set_solver|by left].
    + intros a t Ha. apply H2. rewrite lookup_insert_ne; [done|]. congruence.
    + intros e' [->|He]%elem_of_cons; [|by apply H3]. apply H2, lookup_insert_eq.
Qed.

Lemma New_spec c entries r : New c entries = Ok r →
  reg_cluster r = c ∧ reg_ordered r ≡ₚ entries ∧ reg_elsewhere r = elsewhere c entries ∧
  (∀ a t, Lookup r a = Some t ↔ ∃ e, e ∈ entries ∧ a = tok_Address e ∧ t = set_cluster c e) ∧
  (∀ a t, Lookup r a = Some t →
     tok_Address t = a ∧ tok_Cluster t = c ∧ is_key a = true ∧ 0 ≤ tok_Decimals t ≤ MaxDecimals).
Proof.
  unfold New, Lookup. destruct (Cluster.Parse c); [cbn|done].
  destruct (add_entries c ∅ entries) as [m|] eqn:Hadd; [cbn|done]. intros [= <-]; cbn.
  destruct (add_entries_spec _ _ _ _ Hadd) as (H1 & _ & H3).
  split_and!; [done|apply stable_sort_perm|done| |].
  - intros x t. split; [|intros (e & He & -> & ->); by apply H3].
    intros [Hx|(e & ? & ? & ? & ?)]%H1; [by rewrite lookup_empty in Hx|]. by exists e.
  - intros x t [Hx|(e & ? & -> & -> & Hv)]%H1; [by rewrite lookup_empty in Hx|].
    cbn. unfold Token_validate in Hv. rewrite Z.gtb_ltb in Hv.
    destruct (is_key (tok_Address e)); [|done]. cbn in Hv.
    destruct (String.eqb _ ""); [done|].
    destruct (Z.ltb_spec (tok_Decimals e) 0), (Z.ltb_spec MaxDecimals (tok_Decimals e)); done.
Qed.

(** A registry built for a cluster governs exactly the entries it was
    built from, under their own addresses, each stamped with that cluster and
    each a valid key with a scale 0..9; and no duplicate or invalid entry
    survives construction. *)
Theorem New_governs c entries r : New c entries = Ok r →
  reg_cluster r = c ∧ reg_ordered r ≡ₚ entries ∧
  (∀ a t, Lookup r a = Some t ↔ ∃ e, e ∈ entries ∧ a = tok_Address e ∧ t = set_cluster c e) ∧
  (∀ a t, Lookup r a = Some t →
     tok_Address t = a ∧ tok_Cluster t = c ∧ is_key a = true ∧ 0 ≤ tok_Decimals t ≤ MaxDecimals).
Proof. intros (? & ? & _ & ? & ?)%New_spec. done. Qed.

(** The registry entry of a row of the governed table. *)
Definition governed_token (c : Cluster) (row : governed) : Token :=
  mkToken (g_address row) (g_symbol row) (g_decimals row) true c
    (g_mintAuthority row) (g_freezeAuthority row).

Definition has_address (a : string) (row : governed) : bool := String.eqb (g_address row) a.

(** Whether some public cluster pins the address. *)
Definition pinned_anywhere (a : string) : bool :=
  existsb (has_address a) (mainnetMints ++ devnetMints).
#[local] Arguments pinned_anywhere : simpl never.

Lemma public_elsewhere c a : c = MainnetBeta ∨ c = Devnet →
  find (has_address a) (mintsFor c) = None →
  bool_decide (is_Some (elsewhere c (map (governed_token c) (mintsFor c)) !! a)) =
  pinned_anywhere a.
Proof.
  unfold pinned_anywhere. intros Hc.
  assert (elsewhere c (map (governed_token c) (mintsFor c)) =
    if String.eqb c MainnetBeta
    then {["4zMMC9srt5Ri5X14GAgXhaHii3GnPAEERYPJgZJDncDU" := Devnet]}
    else {["EPjFWdd5AufqSSqeM2qN1xzybapC8G4wEGGkZwyTDt1v" := MainnetBeta]}) as ->
    by (destruct Hc as [-> | ->]; vm_compute; reflexivity).
  destruct Hc as [-> | ->];
    [change (mintsFor MainnetBeta) with mainnetMints; change (String.eqb MainnetBeta MainnetBeta) with true
    |change (mintsFor Devnet) with devnetMints; change (String.eqb Devnet MainnetBeta) with false];
    unfold has_address; cbn -[String.eqb lookup];
    repeat match goal with |- context [String.eqb ?x a] => destruct (String.eqb_spec x a) as [<-|] end;
    intros Hf; try discriminate Hf; rewrite ?lookup_singleton_ne by done; reflexivity.
Qed.

(** On a public cluster the governed set is the pinned table and cannot be
    widened by configuration; [Enabled] answers each pinned address with its
    pinned entry, an address pinned only on the other cluster with
    [ErrUngoverned], and anything else with [ErrNotRegistered]. *)
Theorem public_registry c extra r a : c = MainnetBeta ∨ c = Devnet →
  ForCluster c extra = Ok r →
  extra = [] ∧
  Enabled r a = match find (has_address a) (mintsFor c) with
                | Some row => Ok (governed_token c row)
                | None => if pinned_anywhere a
                          then Err [ErrUngoverned] else Err [ErrNotRegistered]
                end.
Proof.
  intros Hc. unfold ForCluster. destruct (Cluster.Parse c); [cbn -[existsb find elsewhere]|done].
  assert (AllowsExtraMints c = false) as -> by (destruct Hc; by subst).
  destruct extra as [|x xs]; [|done]. cbn [length Nat.ltb Nat.leb andb].
  rewrite app_nil_r. intros (_ & _ & Helse & Hl & _)%New_spec. split; [done|].
  unfold Enabled. destruct (find (has_address a) (mintsFor c)) as [row|] eqn:Hf.
  - apply find_some in Hf as [Hin <-%String.eqb_eq].
    assert (Lookup r (g_address row) = Some (governed_token c row)) as ->; [|done].
    apply Hl. exists (governed_token c row). split; [|done].
    apply list_elem_of_In, in_map_iff. by exists row.
  - assert (Lookup r a = None) as ->.
    { destruct (Lookup r a) as [t|] eqn:Ha; [|done]. exfalso.
      apply Hl in Ha as (e & He & -> & _). apply list_elem_of_In, in_map_iff in He as (row & <- & Hrow).
      eapply find_none in Hf; [|exact Hrow]. unfold has_address in Hf. cbn in Hf.
      by rewrite String.eqb_refl in Hf. }
    rewrite Helse. rewrite <-(public_elsewhere c a Hc Hf). fold (governed_token c).
    case_bool_decide as Hs; [by destruct Hs as [? ->]|]. by apply eq_None_not_Some in Hs as ->.
Qed.
End Registry.

(** *** Witnesses: every non-empty string is a key, lower-casing is the identity. *)
Definition demoKeys : SolanaKeys :=
  {| pk_parse s := if String.eqb s "" then None else Some s; pk_print := id |}.
Definition demoUnicode : Unicode := {| unicode_lower := id |}.

Lemma New_governs_witness :
  let t := mkToken "mintA" "TST" 6 true "" "" "" in
  ∃ r, @New demoKeys demoUnicode Localnet [t] = Ok r ∧
       Lookup r "mintA" = Some (set_cluster Localnet t).
Proof.
  cbv zeta. eexists. split; [vm_compute; reflexivity|].
  apply (@New_governs demoKeys demoUnicode Localnet [mkToken "mintA" "TST" 6 true "" "" ""]);
    [vm_compute; reflexivity|].
  exists (mkToken "mintA" "TST" 6 true "" "" ""). split_and!; [set_solver|reflexivity|reflexivity].
Defined.

Lemma public_registry_witness :
  ∃ r, @ForCluster demoKeys demoUnicode Devnet [] = Ok r ∧
       Enabled r "EPjFWdd5AufqSSqeM2qN1xzybapC8G4wEGGkZwyTDt1v" = Err [ErrUngoverned].
Proof.
  eexists. split; [vm_compute; reflexivity|].
  refine (eq_trans (proj2 (@public_registry demoKeys demoUnicode Devnet [] _
    "EPjFWdd5AufqSSqeM2qN1xzybapC8G4wEGGkZwyTDt1v" (or_intror eq_refl) _)) _);
    vm_compute; reflexivity.
Defined.

(** ** [internal/fees] *)
Definition DefaultLamports : Z := 1000.
Definition DefaultWallet : string := "J59EPyPHf9wtoLjf8rG4f9cARnLnUPKCdNwZX241rakh".
Definition ErrInvalidLamports : sentinel := "fees.ErrInvalidLamports".
Definition ErrInvalidWallet : sentinel := "fees.ErrInvalidWallet".

Record FeePolicy := mkFeePolicy { fee_lamports : Z; fee_wallet : pubkey }.

Section Fees.
Context `{SolanaKeys}.

Definition fees_New (lamports : Z) (wallet : string) : res FeePolicy :=
  if lamports =? 0 then Err [ErrInvalidLamports]
  else match pk_parse wallet with
       | None => Err [ErrInvalidWallet]
       | Some key => Ok (mkFeePolicy lamports key)
       end.

Definition fees_Description (p : FeePolicy) : string :=
  format_uint (fee_lamports p) +:+ " lamports".
End Fees.
