(* ===== verification/Settlement.v ===== *)
(** * [internal/settlement]: terms, canonical transactions, verification

    [terms.go], [canonical.go] and [verify.go].  A trade's frozen terms, the
    instructions a settlement must consist of, the reduction of a compiled
    Solana message to comparable instructions, and the verifier that accepts a
    landed transaction only when it is exactly the agreed one.  The Solana
    library (instruction builders, message compiler, address derivation,
    signature checking) is the parameter [Solana]; its message is the struct the
    source reads.  [Verify_exact] characterises acceptance, and
    [built_transaction_verifies] closes the loop with the builder. *)
From S2P Require Import Prelude Money Domain Cluster Tokens.

Definition ErrTradeNotSettleable : sentinel := "settlement.ErrTradeNotSettleable".
Definition ErrMismatch : sentinel := "settlement.ErrMismatch".
Definition ErrTransactionNotFound : sentinel := "settlement.ErrTransactionNotFound".

(** ** The library's transaction, as the source reads it *)
Record MessageHeader := mkHeader {
  NumRequiredSignatures : Z; NumReadonlySignedAccounts : Z; NumReadonlyUnsignedAccounts : Z }.

Record CompiledInstruction := mkCompiled {
  ProgramIDIndex : nat; ix_Accounts : list nat; ix_Data : string }.

Record Message := mkMessage {
  msg_legacy : bool; msg_Header : MessageHeader;
  AccountKeys : list pubkey; msg_Instructions : list CompiledInstruction }.

Record Transaction := mkTransaction {
  tx_Signatures : list string; tx_Message : Message }.

(** A landed transaction as the chain reports it; [fe_ExecErr] when it failed. *)
Record Fetched := mkFetched {
  fe_Transaction : option Transaction; fe_ExecErr : bool }.

(** [solana-go]: builders of the four instructions, the message compiler, the
    associated-account derivation, signature checking and encodings. *)
Class Solana := {
  sol_keys :: SolanaKeys;
  sol_instruction : Type;
  sol_signers : sol_instruction → list pubkey;  (* the accounts an instruction marks as signers *)
  ix_transfer_checked : Z → Z → pubkey → pubkey → pubkey → pubkey → sol_instruction;
  ix_memo : string → pubkey → sol_instruction;
  ix_system_transfer : Z → pubkey → pubkey → sol_instruction;
  ix_create_ata : pubkey → pubkey → pubkey → sol_instruction;
  sol_new_transaction : list sol_instruction → string → pubkey → res Transaction;
  sol_find_ata : pubkey → pubkey → res pubkey;
  sol_verify_signatures : Transaction → bool;
  sol_marshal : Transaction → res string;
  sig_parse : string → option string;
  sig_print : string → string;
}.

(** [solana.Hash{}] *)
Definition zeroHash : string := srepeat "000" 32.

(** ** terms.go *)
Record Terms := mkTerms {
  te_TradeID : string; te_Amount : Z; te_Decimals : Z; te_Mint : pubkey;
  te_Buyer : pubkey; te_Seller : pubkey; te_Fee : FeePolicy }.

Section Settlement.
Context `{Solana}.

Definition partyKey (agentID : string) : res pubkey :=
match pk_parse (TrimSpace agentID) with Some k => Ok k | None => Err [] end.

Definition NewTerms (tr : Trade) (registry : Registry) (policy : FeePolicy) : res Terms :=
if negb (bool_decide (tr_State tr = TradeAccepted)) && negb (bool_decide (tr_State tr = TradeSettlementPending))
then Err [ErrTradeNotSettleable]
else if negb (String.eqb (tr_Mode tr) SettlementOnchain) then Err [ErrTradeNotSettleable]
else if IsZero (tr_Amount tr) then Err [ErrTradeNotSettleable]
else
  entry ← Enabled registry (tr_Mint tr);
  match pk_parse (tr_Mint tr) with
  | None => Err []
  | Some mint =>
      buyer ← partyKey (tr_Buyer tr);
      seller ← partyKey (tr_Seller tr);
      amount ← BaseUnits (tr_Amount tr) (tok_Decimals entry);
      if amount =? 0 then Err [ErrTradeNotSettleable]
      else Ok (mkTerms (tr_ID tr) amount (tok_Decimals entry) mint buyer seller policy)
  end.

Definition ata (t : Terms) (wallet : pubkey) : res pubkey := sol_find_ata wallet (te_Mint t).
Definition BuyerATA (t : Terms) : res pubkey := ata t (te_Buyer t).
Definition SellerATA (t : Terms) : res pubkey := ata t (te_Seller t).
Definition Memo (t : Terms) : string := te_TradeID t.

(** ** canonical.go *)
Record account := mkAccount { acc_key : pubkey; acc_signer : bool; acc_writable : bool }.
Record instruction := mkInstruction {
in_program : pubkey; in_accounts : list account; in_data : string }.

Definition account_equals (a b : account) : bool :=
String.eqb (acc_key a) (acc_key b) && eqb (acc_signer a) (acc_signer b) &&
eqb (acc_writable a) (acc_writable b).

Fixpoint all_equal {A} (eq : A → A → bool) (l m : list A) : bool :=
match l, m with
| [], [] => true
| x :: l', y :: m' => eq x y && all_equal eq l' m'
| _, _ => false
end.

Definition instruction_equals (i o : instruction) : bool :=
String.eqb (in_program i) (in_program o) && String.eqb (in_data i) (in_data o) &&
all_equal account_equals (in_accounts i) (in_accounts o).

Definition sameInstructions (a b : list instruction) : bool := all_equal instruction_equals a b.

(** The zero [solana.PublicKey]. *)
Definition zeroKey : pubkey := srepeat "000" 32.

Definition resolve (m : Message) (index : nat) : account :=
match AccountKeys m !! index with
| None => mkAccount zeroKey false false
| Some key =>
    let i := Z.of_nat index in
    let numSigners := NumRequiredSignatures (msg_Header m) in
    let signer := i <? numSigners in
    let writable :=
      if signer then i <? numSigners - NumReadonlySignedAccounts (msg_Header m)
      else i <? Z.of_nat (length (AccountKeys m)) - NumReadonlyUnsignedAccounts (msg_Header m) in
    mkAccount key signer writable
end.

Fixpoint compile_all (m : Message) (ixs : list CompiledInstruction) : res (list instruction) :=
match ixs with
| [] => Ok []
| ix :: rest =>
    match AccountKeys m !! ProgramIDIndex ix with
    | None => Err []
    | Some program =>
        out ← compile_all m rest;
        Ok (mkInstruction program (map (resolve m) (ix_Accounts ix)) (ix_Data ix) :: out)
    end
end.

Definition compile (m : Message) : res (list instruction) :=
if negb (msg_legacy m) then Err [] else compile_all m (msg_Instructions m).

Definition transferChecked (t : Terms) : res sol_instruction :=
buyerATA ← BuyerATA t;
sellerATA ← SellerATA t;
Ok (ix_transfer_checked (te_Amount t) (te_Decimals t mod 256) buyerATA (te_Mint t) sellerATA (te_Buyer t)).

Definition expectedInstructions (t : Terms) (sellerATAExists : bool) : res (list sol_instruction) :=
transfer ← transferChecked t;
let note := ix_memo (Memo t) (te_Buyer t) in
let fee := ix_system_transfer (fee_lamports (te_Fee t)) (te_Buyer t) (fee_wallet (te_Fee t)) in
let built := if sellerATAExists then [] else [ix_create_ata (te_Buyer t) (te_Seller t) (te_Mint t)] in
Ok (built ++ [transfer; note; fee]).

(** [assemble] with [solana.NewTransaction]. *)
Definition assemble (ixs : list sol_instruction) (blockhash : string) (payer : pubkey) : res Transaction :=
sol_new_transaction ixs blockhash payer.

Definition expectedCanonical (t : Terms) (sellerATAExists : bool) : res (list instruction) :=
raw ← expectedInstructions t sellerATAExists;
tx ← sol_new_transaction raw zeroHash (te_Buyer t);
compile (tx_Message tx).

(** ** verify.go *)
Definition checkPayer (t : Terms) (tx : Transaction) : res unit :=
match AccountKeys (tx_Message tx) with
| [] => Err [ErrMismatch]
| key0 :: _ =>
    if negb (String.eqb key0 (te_Buyer t)) then Err [ErrMismatch]
    else if negb (NumRequiredSignatures (msg_Header (tx_Message tx)) =? 1) then Err [ErrMismatch]
    else if negb (sol_verify_signatures tx) then Err [ErrMismatch]
    else Ok tt
end.

Definition Verify (t : Terms) (otx : option Transaction) : res unit :=
match otx with
| None => Err [ErrMismatch]
| Some tx =>
    _ ← checkPayer t tx;
    match compile (tx_Message tx) with
    | Err _ => Err [ErrMismatch]
    | Ok actual =>
        withoutATA ← expectedCanonical t true;
        withATA ← expectedCanonical t false;
        if sameInstructions actual withATA then Ok tt
        else if sameInstructions actual withoutATA then Ok tt
        else Err [ErrMismatch]
    end
end.

(** ** Lemmas *)
Lemma all_equal_spec {A} (eq : A → A → bool) l m :
(∀ x y, eq x y = true ↔ x = y) → all_equal eq l m = true ↔ l = m.
Proof.
intros Heq. revert m. induction l as [|x l IH]; intros [|y m]; cbn; try done.
rewrite andb_true_iff, Heq, IH. naive_solver.
Qed.

Lemma account_equals_spec a b : account_equals a b = true ↔ a = b.
Proof.
destruct a, b. unfold account_equals; cbn.
rewrite !andb_true_iff, String.eqb_eq, !eqb_true_iff. naive_solver.
Qed.

Lemma instruction_equals_spec i o : instruction_equals i o = true ↔ i = o.
Proof.
destruct i, o. unfold instruction_equals; cbn.
rewrite !andb_true_iff, !String.eqb_eq, (all_equal_spec account_equals) by apply account_equals_spec.
naive_solver.
Qed.

Lemma sameInstructions_spec a b : sameInstructions a b = true ↔ a = b.
Proof. apply all_equal_spec, instruction_equals_spec. Qed.

Lemma checkPayer_ok t tx : checkPayer t tx = Ok tt ↔
head (AccountKeys (tx_Message tx)) = Some (te_Buyer t) ∧
NumRequiredSignatures (msg_Header (tx_Message tx)) = 1 ∧ sol_verify_signatures tx = true.
Proof.
unfold checkPayer. destruct (AccountKeys (tx_Message tx)) as [|k ks]; cbn; [naive_solver|].
destruct (String.eqb_spec k (te_Buyer t)), (Z.eqb_spec (NumRequiredSignatures (msg_Header (tx_Message tx))) 1),
  (sol_verify_signatures tx); cbn; naive_solver.
Qed.

Lemma checkPayer_err t tx e : checkPayer t tx = Err e → e = [ErrMismatch].
Proof.
unfold checkPayer. destruct (AccountKeys (tx_Message tx)) as [|k ks]; [naive_solver|].
repeat case_match; naive_solver.
Qed.

Lemma Verify_ok t tx : Verify t (Some tx) = Ok tt ↔
checkPayer t tx = Ok tt ∧ ∃ l a b,
  compile (tx_Message tx) = Ok l ∧ expectedCanonical t true = Ok a ∧
  expectedCanonical t false = Ok b ∧ (l = a ∨ l = b).
Proof.
unfold Verify. destruct (checkPayer t tx) as [[]|e]; cbn; [|naive_solver].
destruct (compile (tx_Message tx)) as [l|e]; [|naive_solver].
destruct (expectedCanonical t true) as [a|e]; cbn; [|naive_solver].
destruct (expectedCanonical t false) as [b|e]; cbn; [|naive_solver].
destruct (sameInstructions l b) eqn:E1; [apply sameInstructions_spec in E1; naive_solver|].
destruct (sameInstructions l a) eqn:E2; [apply sameInstructions_spec in E2; naive_solver|].
split; [done|]. intros (_ & l' & a' & b' & [= ->] & [= ->] & [= ->] & Hl).
destruct Hl as [Hl|Hl]; apply sameInstructions_spec in Hl; congruence.
Qed.

(** C9: the verifier accepts a transaction exactly when the buyer is its fee
  payer and its only required signer, the buyer's signature is valid, and its
  instructions reduce to one of the two agreed lists: the token transfer, the
  trade's memo and the fee transfer, in that order, with or without the
  creation of the seller's token account in front. *)
Theorem Verify_exact t otx : Verify t otx = Ok tt ↔
∃ tx, otx = Some tx ∧
  head (AccountKeys (tx_Message tx)) = Some (te_Buyer t) ∧
  NumRequiredSignatures (msg_Header (tx_Message tx)) = 1 ∧
  sol_verify_signatures tx = true ∧
  ∃ l a b, compile (tx_Message tx) = Ok l ∧ expectedCanonical t true = Ok a ∧
    expectedCanonical t false = Ok b ∧ (l = a ∨ l = b).
Proof.
destruct otx as [tx|]; [|cbn; naive_solver].
rewrite Verify_ok, checkPayer_ok. naive_solver.
Qed.

(** When the terms compile at all, every transaction that is not the agreed
  one is refused with [ErrMismatch] and nothing else, so the caller's dispute
  branch and its acceptance branch are exhaustive. *)
Theorem Verify_mismatch t otx a b e :
expectedCanonical t true = Ok a → expectedCanonical t false = Ok b →
Verify t otx = Err e → e = [ErrMismatch].
Proof.
intros Ha Hb. destruct otx as [tx|]; cbn; [|naive_solver].
destruct (checkPayer t tx) as [[]|e'] eqn:Hp; cbn; [|intros [= <-]; by eapply checkPayer_err].
destruct (compile (tx_Message tx)) as [l|]; [|naive_solver].
rewrite Ha, Hb; cbn. repeat case_match; naive_solver.
Qed.

(** *** The builder's transaction *)

(** Documented behaviour of the library, for any instructions: the message of a
  transaction has the fee payer first and requires the signatures of the payer and
  of every account that an instruction marks as a signer, each once; the blockhash
  only fills its own field, which [Message] leaves out; and the builders mark the
  owner of the tokens, the signer of a memo, the account a system transfer takes
  from and the payer of a new account. *)
Class SolanaLaws : Prop := {
new_transaction_payer ixs h p tx :
  sol_new_transaction ixs h p = Ok tx → head (AccountKeys (tx_Message tx)) = Some p;
new_transaction_signatures ixs h p tx :
  sol_new_transaction ixs h p = Ok tx →
  NumRequiredSignatures (msg_Header (tx_Message tx)) = Z.of_nat (length (remove_dups (p :: concat (map sol_signers ixs))));
new_transaction_blockhash ixs h h' p tx :
  sol_new_transaction ixs h p = Ok tx → ∃ tx', sol_new_transaction ixs h' p = Ok tx' ∧ tx_Message tx' = tx_Message tx;
signers_transfer_checked amount decimals source mint destination owner :
  sol_signers (ix_transfer_checked amount decimals source mint destination owner) = [owner];
signers_memo text signer : sol_signers (ix_memo text signer) = [signer];
signers_system_transfer lamports from to : sol_signers (ix_system_transfer lamports from to) = [from];
signers_create_ata payer wallet mint : sol_signers (ix_create_ata payer wallet mint) = [payer];
}.

(** The buyer alone has to sign the agreed instructions. *)
Lemma buyer_signs_alone `{!SolanaLaws} t e ixs h tx :
  expectedInstructions t e = Ok ixs → sol_new_transaction ixs h (te_Buyer t) = Ok tx →
  NumRequiredSignatures (msg_Header (tx_Message tx)) = 1.
Proof.
  intros Hixs Htx. rewrite (new_transaction_signatures _ _ _ _ Htx). unfold expectedInstructions, transferChecked in Hixs.
  destruct (BuyerATA t) as [src|]; [|done]. destruct (SellerATA t) as [dst|]; [|done]. cbn in Hixs. injection Hixs as <-.
  assert (∀ (k : pubkey) n, remove_dups (replicate (S n) k) = [k]) as Hone.
  { intros k n. induction n as [|n IH]; [reflexivity|]. change (replicate (S (S n)) k) with (k :: replicate (S n) k).
    transitivity (remove_dups (replicate (S n) k)); [|exact IH]. change (remove_dups (k :: replicate (S n) k)) with
      (if decide_rel (∈) k (replicate (S n) k) then remove_dups (replicate (S n) k) else k :: remove_dups (replicate (S n) k)).
    destruct (decide_rel _ _ _) as [_|Hk]; [done|]. destruct Hk. by left. }
  destruct e; cbn [app map concat]; rewrite ?signers_create_ata, signers_transfer_checked, signers_memo, signers_system_transfer; cbn [app].
  - by rewrite (Hone (te_Buyer t) 3%nat : remove_dups [te_Buyer t; te_Buyer t; te_Buyer t; te_Buyer t] = _).
  - by rewrite (Hone (te_Buyer t) 4%nat : remove_dups [te_Buyer t; te_Buyer t; te_Buyer t; te_Buyer t; te_Buyer t] = _).
Qed.

Definition sign_with (signatures : list string) (tx : Transaction) : Transaction :=
mkTransaction signatures (tx_Message tx).

(** C10: the transaction the builder hands out, once the buyer has signed it and
  nothing else has changed, is accepted by the verifier, whichever blockhash
  it was built with and whether or not the seller's account existed. *)
Theorem built_transaction_verifies `{!SolanaLaws} t e ixs h tx sigs a b :
expectedInstructions t e = Ok ixs → assemble ixs h (te_Buyer t) = Ok tx →
expectedCanonical t true = Ok a → expectedCanonical t false = Ok b →
sol_verify_signatures (sign_with sigs tx) = true →
Verify t (Some (sign_with sigs tx)) = Ok tt.
Proof.
intros Hixs Htx Ha Hb Hs. unfold assemble in Htx. apply Verify_ok. split.
- apply checkPayer_ok. cbn. split_and!; [by eapply new_transaction_payer|by eapply buyer_signs_alone|done].
- destruct (new_transaction_blockhash ixs h zeroHash _ tx Htx) as (tx0 & Htx0 & Hc).
  assert (expectedCanonical t e = compile (tx_Message tx)) as He.
  { unfold expectedCanonical. rewrite Hixs. cbn -[zeroHash]. rewrite Htx0. cbn. by rewrite Hc. }
  cbn. destruct e; rewrite He in *; eauto 8.
Qed.

(** *** Terms *)
Lemma NewTerms_inv tr r p t : NewTerms tr r p = Ok t →
(tr_State tr = TradeAccepted ∨ tr_State tr = TradeSettlementPending) ∧
tr_Mode tr = SettlementOnchain ∧ te_TradeID t = tr_ID tr ∧ te_Fee t = p ∧
∃ entry, Enabled r (tr_Mint tr) = Ok entry ∧ te_Decimals t = tok_Decimals entry ∧
  BaseUnits (tr_Amount tr) (tok_Decimals entry) = Ok (te_Amount t) ∧ te_Amount t ≠ 0 ∧
  pk_parse (tr_Mint tr) = Some (te_Mint t) ∧ partyKey (tr_Buyer tr) = Ok (te_Buyer t) ∧
  partyKey (tr_Seller tr) = Ok (te_Seller t).
Proof.
unfold NewTerms.
destruct (decide (tr_State tr = TradeAccepted ∨ tr_State tr = TradeSettlementPending)) as [Hs|Hs];
  [|rewrite !bool_decide_false by naive_solver; done].
assert (negb (bool_decide (tr_State tr = TradeAccepted)) &&
  negb (bool_decide (tr_State tr = TradeSettlementPending)) = false) as ->.
{ destruct Hs as [-> | ->]; done. }
destruct (String.eqb_spec (tr_Mode tr) SettlementOnchain); [cbn|done].
destruct (IsZero (tr_Amount tr)); [done|].
destruct (Enabled r (tr_Mint tr)) as [entry|] eqn:He; [cbn|done].
destruct (pk_parse (tr_Mint tr)) as [mint|] eqn:Hm; [|done].
destruct (partyKey (tr_Buyer tr)) as [b|]; [cbn|done].
destruct (partyKey (tr_Seller tr)) as [s|]; [cbn|done].
destruct (BaseUnits _ _) as [a|] eqn:Ha; [cbn|done].
destruct (Z.eqb_spec a 0); [done|]. intros [= <-]. cbn. naive_solver.
Qed.

(** The terms a settlement is held to are the trade's own: its id as the
  memo, its mint and parties as keys, its amount as an exact, non-zero number
  of base units at the governed scale; and they depend on nothing else of the
  trade, so re-requesting from [settlement_pending] gives the same terms. *)
Theorem NewTerms_frozen tr r p t s :
NewTerms tr r p = Ok t → s = TradeAccepted ∨ s = TradeSettlementPending →
Memo t = tr_ID tr ∧ 0 ≠ te_Amount t ∧
(∃ entry, Enabled r (tr_Mint tr) = Ok entry ∧
   BaseUnits (tr_Amount tr) (tok_Decimals entry) = Ok (te_Amount t)) ∧
∀ at_ acc evs, NewTerms (mkTrade (tr_ID tr) (tr_OfferID tr) (tr_Buyer tr) (tr_Seller tr)
    (tr_Description tr) (tr_Amount tr) (tr_Mint tr) (tr_Mode tr) s (tr_IdempotencyKey tr)
    (tr_CreatedAt tr) at_ acc evs) r p = Ok t.
Proof.
intros Ht Hs. pose proof (NewTerms_inv _ _ _ _ Ht) as (Hst & _ & Hid & _ & entry & He & _ & Hb & Hne & _).
split_and!; [done|naive_solver|eauto|]. intros at_ acc evs. rewrite <-Ht. unfold NewTerms; cbn.
by destruct Hs as [-> | ->], Hst as [-> | ->].
Qed.
End Settlement.

(** ** A concrete library for the witnesses: an account list with the payer
    first, then the other signers and every program and account once, all writable. *)
Record demo_instruction := mkDemoIx { di_program : pubkey; di_keys : list pubkey; di_data : string; di_signers : list pubkey }.

Definition demo_index (keys : list pubkey) (k : pubkey) : nat :=
  default 0%nat (fst <$> list_find (fun k' => k' = k) keys).

Definition demo_new_transaction (ixs : list demo_instruction) (h : string) (payer : pubkey) : res Transaction :=
  let signers := concat (map di_signers ixs) in
  let used := concat (map (fun i => di_program i :: di_keys i) ixs) in
  let keys := payer :: filter (fun k => k ≠ payer) (remove_dups signers) ++ filter (fun k => k ∉ payer :: signers) (remove_dups used) in
  Ok (mkTransaction [] (mkMessage true (mkHeader (Z.of_nat (length (remove_dups (payer :: signers)))) 0 0) keys
    (map (fun i => mkCompiled (demo_index keys (di_program i)) (map (demo_index keys) (di_keys i)) (di_data i)) ixs))).

Definition demoSolana : Solana := {|
  sol_keys := demoKeys;
  sol_instruction := demo_instruction;
  sol_signers := di_signers;
  ix_transfer_checked a d src m dst o :=
    mkDemoIx "token" [src; m; dst; o] (format_uint a +:+ "/" +:+ format_uint d) [o];
  ix_memo s k := mkDemoIx "memo" [k] s [k];
  ix_system_transfer l a b := mkDemoIx "system" [a; b] (format_uint l) [a];
  ix_create_ata p w m := mkDemoIx "ata" [p; w; m] "" [p];
  sol_new_transaction := demo_new_transaction;
  sol_find_ata w m := Ok ("ata:" +:+ w +:+ ":" +:+ m);
  sol_verify_signatures tx := bool_decide (tx_Signatures tx ≠ []);
  sol_marshal tx := Ok (foldr (fun i acc => ix_Data i +:+ acc) "" (msg_Instructions (tx_Message tx)));
  sig_parse s := if String.eqb s "" then None else Some s;
  sig_print := id |}.

Lemma demoSolana_laws : @SolanaLaws demoSolana.
Proof.
  split; try done.
  - intros ixs h p tx [= <-]. done.
  - intros ixs h p tx [= <-]. done.
  - intros ixs h h' p tx [= <-]. by eexists.
Qed.

Definition demoMint : string := "MINTMINTMINTMINTMINTMINTMINTMINT".
Definition demoTerms : Terms := mkTerms "trade-1" 2500000 6 demoMint "BUYER" "SELLER" (mkFeePolicy 1000 "WALLET").

(** The transaction the builder assembles for [demoTerms]. *)
Definition demoBuilt : Transaction :=
  match @expectedInstructions demoSolana demoTerms false with
  | Ok ixs => match demo_new_transaction ixs "hash" "BUYER" with Ok tx => tx | Err _ => mkTransaction [] (mkMessage true (mkHeader 0 0 0) [] []) end
  | Err _ => mkTransaction [] (mkMessage true (mkHeader 0 0 0) [] [])
  end.

Lemma built_transaction_verifies_witness :
  @Verify demoSolana demoTerms (Some (sign_with ["sig"] demoBuilt)) = Ok tt ∧
  @Verify demoSolana demoTerms (Some demoBuilt) = Err [ErrMismatch].
Proof.
  split; [|vm_compute; reflexivity].
  eapply (@built_transaction_verifies demoSolana demoSolana_laws demoTerms false _ "hash");
    vm_compute; reflexivity.
Defined.

Lemma Verify_mismatch_witness :
  @Verify demoSolana demoTerms None = Err [ErrMismatch] ∧ [ErrMismatch] = [ErrMismatch].
Proof.
  split; [vm_compute; reflexivity|].
  eapply (@Verify_mismatch demoSolana demoTerms None); vm_compute; reflexivity.
Defined.

Definition demoTrade : Trade :=
  mkTrade "trade-1" "offer-1" "BUYER" "SELLER" "" (mkAmount "2.5") demoMint SettlementOnchain
    TradeAccepted "" 0 0 [] [].

Definition demoToken : Token := mkToken demoMint "TST" 6 true Localnet "" "".
Definition demoRegistry : Registry := mkRegistry Localnet {[demoMint := demoToken]} ∅ [demoToken].

Lemma NewTerms_frozen_witness :
  @NewTerms demoSolana demoTrade demoRegistry (mkFeePolicy 1000 "WALLET") = Ok demoTerms ∧
  Memo demoTerms = tr_ID demoTrade.
Proof.
  split; [vm_compute; reflexivity|].
  apply (@NewTerms_frozen demoSolana demoTrade demoRegistry (mkFeePolicy 1000 "WALLET") demoTerms TradeAccepted);
    [vm_compute; reflexivity|left; reflexivity].
Defined.
