(* ===== verification/Keys.v ===== *)
(** * Ed25519 keys and base64, as the services use them

    Keys are byte lists; a private key ends with its public half, as
    [crypto/ed25519] lays it out.  The signature scheme is the parameter
    [Ed25519], its correctness the law [Ed25519Laws]; unforgeability is nowhere
    assumed.  [base64.StdEncoding] is modelled in both directions. *)
From S2P Require Import Prelude Money Domain Sha256 Json.

Abbreviation privkey := (list Z).
Abbreviation edpub := (list Z).
Definition PrivateKeySize : nat := 64.
Definition PublicKeySize : nat := 32.
Definition SignatureSize : nat := 64.
(** [private.Public()] *)
Definition ed_public (k : privkey) : edpub := drop 32 k.

(** [ed25519.Sign] and [ed25519.Verify] over byte strings. *)
Class Ed25519 := {
  ed_sign : privkey → string → string;
  ed_verify : edpub → string → string → bool;
}.

(** Documented behaviour: a signature has 64 bytes and verifies under the public
    half of the key that made it. *)
Class Ed25519Laws `{Ed25519} : Prop := {
  ed_sign_length k m : slen (ed_sign k m) = SignatureSize;
  ed_sign_verify k m : length k = PrivateKeySize → ed_verify (ed_public k) m (ed_sign k m) = true;
}.

(** ** [base64.StdEncoding.DecodeString]: line breaks are skipped anywhere, the
    padding must close the input, and unused low bits are not checked. *)
Definition base64_val (c : ascii) : option Z :=
  let n := ord c in
  if (65 <=? n) && (n <=? 90) then Some (n - 65)
  else if (97 <=? n) && (n <=? 122) then Some (n - 71)
  else if (48 <=? n) && (n <=? 57) then Some (n + 4)
  else if n =? 43 then Some 62
  else if n =? 47 then Some 63
  else None.

Definition byte_char (n : Z) : ascii := ascii_of_N (Z.to_N (n mod 256)).

Fixpoint base64_quads (s : string) : option string :=
  match s with
  | EmptyString => Some ""
  | String a (String b (String c (String d rest))) =>
      match base64_val a, base64_val b with
      | Some va, Some vb =>
          match base64_val c, base64_val d with
          | Some vc, Some vd =>
              let v := 262144 * va + 4096 * vb + 64 * vc + vd in
              match base64_quads rest with
              | Some out => Some (String (byte_char (v / 65536)) (String (byte_char (v / 256)) (String (byte_char v) out)))
              | None => None
              end
          | Some vc, None =>
              let v := 262144 * va + 4096 * vb + 64 * vc in
              if ceqb d "=" && String.eqb rest "" then Some (String (byte_char (v / 65536)) (String (byte_char (v / 256)) ""))
              else None
          | None, _ =>
              let v := 262144 * va + 4096 * vb in
              if ceqb c "=" && ceqb d "=" && String.eqb rest "" then Some (String (byte_char (v / 65536)) "")
              else None
          end
      | _, _ => None
      end
  | _ => None
  end.

Definition is_newline (c : ascii) : bool := (ord c =? 10) || (ord c =? 13).
Fixpoint without_newlines (s : string) : string :=
  match s with
  | EmptyString => ""
  | String c s' => if is_newline c then without_newlines s' else String c (without_newlines s')
  end.

Definition base64_decode (s : string) : option string := base64_quads (without_newlines s).

Lemma base64_char_val n : 0 ≤ n < 64 → base64_val (base64_char n) = Some n ∧ is_newline (base64_char n) = false.
Proof.
  intros Hn. assert (forallb (fun k => bool_decide (base64_val (base64_char (Z.of_nat k)) = Some (Z.of_nat k)) &&
    negb (is_newline (base64_char (Z.of_nat k)))) (seq 0 64) = true) as H by (vm_compute; reflexivity).
  rewrite forallb_forall in H. specialize (H (Z.to_nat n)). rewrite in_seq, Z2Nat.id, andb_true_iff, negb_true_iff in H by lia.
  destruct H as [H1 H2]; [lia|]. by apply bool_decide_eq_true in H1.
Qed.

Lemma ord_byte c : 0 ≤ ord c < 256.
Proof. unfold ord. pose proof (N_ascii_bounded c). lia. Qed.

Lemma byte_char_ord v c : v mod 256 = ord c → byte_char v = c.
Proof. intros Hv. unfold byte_char. rewrite Hv. unfold ord. by rewrite N2Z.id, ascii_N_embedding. Qed.

(** Strings by steps of three bytes. *)
Lemma string_ind3 (P : string → Prop) :
  P "" → (∀ a, P (String a "")) → (∀ a b, P (String a (String b ""))) →
  (∀ a b c s, P s → P (String a (String b (String c s)))) → ∀ s, P s.
Proof.
  intros H0 H1 H2 H3. fix IH 1. intros [|a [|b [|c s]]]; [done|apply H1|apply H2|apply H3, IH].
Qed.

Lemma base64_go_fuel s n m : (slen s ≤ n)%nat → (slen s ≤ m)%nat → base64_go n s = base64_go m s.
Proof.
  revert n m. induction s as [|a|a b|a b c s IH] using string_ind3; intros n m Hn Hm;
    destruct n as [|n], m as [|m]; cbn in Hn, Hm; try lia; try done.
  cbn [base64_go]. do 4 f_equal. apply IH; lia.
Qed.

Lemma base64_cons3 a b c s :
  base64 (String a (String b (String c s))) =
  let v := 65536 * ord a + 256 * ord b + ord c in
  String (base64_char (v / 2 ^ 18 mod 64)) (String (base64_char (v / 2 ^ 12 mod 64))
    (String (base64_char (v / 2 ^ 6 mod 64)) (String (base64_char (v / 2 ^ 0 mod 64)) (base64 s)))).
Proof.
  unfold base64 at 2. rewrite <-(base64_go_fuel s (S (S (slen s))) (slen s)) by lia. reflexivity.
Qed.

Lemma sextet_range v k : 0 ≤ v / 2 ^ k mod 64 < 64.
Proof. apply Z.mod_pos_bound. lia. Qed.

Lemma base64_no_newline s : without_newlines (base64 s) = base64 s.
Proof.
  induction s as [|a|a b|a b c s IH] using string_ind3; [done| | |].
  - unfold base64. cbn [slen base64_go]. cbv zeta.
    cbn [without_newlines]. rewrite !(proj2 (base64_char_val _ (sextet_range _ _))). done.
  - unfold base64. cbn [slen base64_go]. cbv zeta.
    cbn [without_newlines]. rewrite !(proj2 (base64_char_val _ (sextet_range _ _))). done.
  - rewrite base64_cons3. cbv zeta. cbn [without_newlines].
    rewrite !(proj2 (base64_char_val _ (sextet_range _ _))). by rewrite IH.
Qed.

Lemma base64_roundtrip s : base64_decode (base64 s) = Some s.
Proof.
  unfold base64_decode. rewrite base64_no_newline.
  induction s as [|a|a b|a b c s IH] using string_ind3; [done| | |].
  - unfold base64. cbn [slen base64_go]. cbv zeta. cbn [base64_quads].
    rewrite !(proj1 (base64_char_val _ (sextet_range _ _))). cbn.
    f_equal. f_equal. apply byte_char_ord. pose proof (ord_byte a).
    Z.to_euclidean_division_equations; lia.
  - unfold base64. cbn [slen base64_go]. cbv zeta. cbn [base64_quads].
    rewrite !(proj1 (base64_char_val _ (sextet_range _ _))). cbn.
    pose proof (ord_byte a). pose proof (ord_byte b).
    do 2 f_equal; [|f_equal]; apply byte_char_ord; Z.to_euclidean_division_equations; lia.
  - rewrite base64_cons3. cbv zeta. cbn [base64_quads].
    rewrite !(proj1 (base64_char_val _ (sextet_range _ _))), IH.
    pose proof (ord_byte a). pose proof (ord_byte b). pose proof (ord_byte c).
    do 2 f_equal; [|f_equal; [|f_equal]]; apply byte_char_ord; cbn; Z.to_euclidean_division_equations; lia.
Qed.

(** ** Concrete schemes for the witnesses *)

(** An encoding that spells each byte as itself. *)
Definition demoBase58 : Base58 := {|
  b58_decode s := Some (bytes_of s);
  b58_encode l := foldr (fun b s => String (ascii_of_N (Z.to_N b)) s) "" l |}.

Lemma demoBase58_laws : @Base58Laws demoBase58.
Proof.
  split. intros l. induction 1 as [|b l Hb _ IH]; [done|].
  cbn in *. injection IH as ->. unfold ord. rewrite N_ascii_embedding by lia.
  by rewrite Z2N.id by lia.
Qed.

(** The signature is a checksum of the public key and the message, spelled four
    times. *)
Fixpoint string_of (l : list Z) : string := match l with [] => "" | b :: l' => String (byte_char b) (string_of l') end.
Fixpoint checksum (acc : Z) (s : string) : Z :=
  match s with "" => acc | String c s' => checksum (Z.land (33 * acc + ord c) 0xFFFFFFFFFFFF) s' end.
Definition demo_seal (p : edpub) (m : string) : string :=
  let h := hex (be_bytes 8 (checksum 5381 (string_of p +:+ m))) in h +:+ h +:+ h +:+ h.
Definition demoEd25519 : Ed25519 := {|
  ed_sign k m := demo_seal (ed_public k) m;
  ed_verify p m v := String.eqb v (demo_seal p m) |}.

Lemma demoEd25519_laws : @Ed25519Laws demoEd25519.
Proof.
  split.
  - intros k m. unfold ed_sign, demoEd25519, demo_seal. by rewrite !slen_app, !hex_length.
  - intros k m _. apply String.eqb_refl.
Qed.

Definition demoKey (b : Z) : privkey := replicate 64 b.
