(* ===== verification/Attest.v ===== *)
(** * [internal/attest]: signed statements about cards, offers and probes

    [attest.go]: the canonical encodings, signing and verification.  The
    encodings are shown to be unambiguous (equal bytes mean equal statements, of
    the same kind and time), so that a signature binds its statement up to a
    SHA-256 collision. *)
From S2P Require Import Prelude Money Domain Sha256 Json Keys.

Definition attest_ErrInvalid : sentinel := "attest.ErrInvalid".
Definition Alg : string := "Ed25519".
Definition CanonicalForm : string := "vtessera/attest/v1".

(** ** Statements *)
Record Skill := mkSkill {
  sk_ID : string; sk_Name : string; sk_Tags : list string; sk_Input : list string; sk_Output : list string }.

Record Card := mkCard {
  cd_AgentID : string; cd_Name : string; cd_Description : string; cd_Version : string; cd_URL : string;
  cd_Capabilities : list string; cd_Skills : list Skill; cd_Currencies : list string;
  cd_SettlementModes : list string; cd_ProbeTarget : string }.

Record AttestOffer := mkAttestOffer {
  ao_ID : string; ao_Seller : string; ao_Description : string; ao_Direction : string;
  ao_Capabilities : list string; ao_Mint : string; ao_Scale : string; ao_AmountBaseUnits : string;
  ao_UnitAmount : string; ao_SettlementModes : list string }.

Record ProbeResult := mkProbeResult { pr_Capability : string; pr_Status : string; pr_Detail : string }.
Record Probe := mkProbe {
  pb_AgentID : string; pb_Target : string; pb_Results : list ProbeResult; pb_CheckedAt : time }.

Record Signature := mkSignature {
  si_Alg : string; si_KeyID : string; si_Digest : string; si_Value : string; si_SignedAt : time }.

(** ** The encoder *)
Definition nl : string := String (ascii_of_N 10) "".
Definition itoa (n : nat) : string := format_uint (Z.of_nat n).

Definition newEncoder (kind : string) : string := CanonicalForm +:+ nl +:+ "kind:" +:+ kind +:+ nl.

Definition field (name value : string) : string :=
  name +:+ ":" +:+ itoa (slen value) +:+ ":" +:+ value +:+ nl.

(** The lines of a list's elements, numbered from [i]. *)
Fixpoint elements (name : string) (i : nat) (values : list string) : string :=
  match values with
  | [] => ""
  | v :: rest => field (name +:+ "." +:+ itoa i) v +:+ elements name (S i) rest
  end.

Definition count_line (name : string) (n : nat) : string := name +:+ ".count:" +:+ itoa n +:+ nl.

Definition list_ (name : string) (values : list string) : string :=
  count_line name (length values) +:+ elements name 0 values.

(** Each value once, in byte order. *)
Definition sortedUnique (values : list string) : list string := stable_sort str_lt (remove_dups values).

Record skillWithKey := mkSkillWithKey {
  sw_ID : string; sw_Name : string; sw_tags : list string; sw_input : list string; sw_output : list string }.
Definition newSkillWithKey (s : Skill) : skillWithKey :=
  mkSkillWithKey (sk_ID s) (sk_Name s) (sortedUnique (sk_Tags s)) (sortedUnique (sk_Input s)) (sortedUnique (sk_Output s)).

(** [strings.Join(l, "\x00")] *)
Definition nul : string := String (ascii_of_N 0) "".
Fixpoint join_nul (l : list string) : string :=
  match l with
  | [] => ""
  | [s] => s
  | s :: rest => s +:+ nul +:+ join_nul rest
  end.
Definition skill_key (s : skillWithKey) : string :=
  join_nul [sw_ID s; sw_Name s; join_nul (sw_tags s); join_nul (sw_input s); join_nul (sw_output s)].

Definition ordered_skills (l : list Skill) : list skillWithKey :=
  stable_sort (fun a b => str_lt (skill_key a) (skill_key b)) (map newSkillWithKey l).

Definition skill_lines (prefix : string) (s : skillWithKey) : string :=
  field (prefix +:+ ".id") (sw_ID s) +:+ field (prefix +:+ ".name") (sw_Name s) +:+
  list_ (prefix +:+ ".tags") (sw_tags s) +:+ list_ (prefix +:+ ".inputModes") (sw_input s) +:+
  list_ (prefix +:+ ".outputModes") (sw_output s).

(** The lines of a list of records, numbered from [i]. *)
Fixpoint records {A} (line : string → A → string) (name : string) (i : nat) (l : list A) : string :=
  match l with
  | [] => ""
  | x :: rest => line (name +:+ "." +:+ itoa i) x +:+ records line name (S i) rest
  end.

Definition skills (name : string) (l : list Skill) : string :=
  let ordered := ordered_skills l in
  count_line name (length ordered) +:+ records skill_lines name 0 ordered.

Definition ordered_results (l : list ProbeResult) : list ProbeResult :=
  stable_sort (fun a b => str_lt (pr_Capability a) (pr_Capability b)) l.

Definition result_lines (prefix : string) (r : ProbeResult) : string :=
  field (prefix +:+ ".capability") (pr_Capability r) +:+ field (prefix +:+ ".status") (pr_Status r) +:+
  field (prefix +:+ ".detail") (pr_Detail r).

Definition probeResults (name : string) (l : list ProbeResult) : string :=
  let ordered := ordered_results l in
  count_line name (length ordered) +:+ records result_lines name 0 ordered.

Definition header (kind : string) (at_ : time) : string := newEncoder kind +:+ field "signedAt" (rfc3339nano at_).

Definition CardBytes (c : Card) (at_ : time) : string :=
  header "agent-card" at_ +:+ field "agent" (cd_AgentID c) +:+ field "name" (cd_Name c) +:+
  field "description" (cd_Description c) +:+ field "version" (cd_Version c) +:+ field "url" (cd_URL c) +:+
  list_ "capabilities" (sortedUnique (cd_Capabilities c)) +:+ skills "skills" (cd_Skills c) +:+
  field "probeTarget" (cd_ProbeTarget c) +:+ list_ "currencies" (sortedUnique (cd_Currencies c)) +:+
  list_ "settlementModes" (sortedUnique (cd_SettlementModes c)).

Definition OfferBytes (o : AttestOffer) (at_ : time) : string :=
  header "offer" at_ +:+ field "offer" (ao_ID o) +:+ field "seller" (ao_Seller o) +:+
  field "description" (ao_Description o) +:+ field "direction" (ao_Direction o) +:+
  list_ "capabilities" (sortedUnique (ao_Capabilities o)) +:+ field "mint" (ao_Mint o) +:+
  field "scale" (ao_Scale o) +:+ field "amountBaseUnits" (ao_AmountBaseUnits o) +:+
  field "unitAmount" (ao_UnitAmount o) +:+ list_ "settlementModes" (sortedUnique (ao_SettlementModes o)).

Definition ProbeBytes (p : Probe) (at_ : time) : string :=
  header "probe" at_ +:+ field "agent" (pb_AgentID p) +:+ field "target" (pb_Target p) +:+
  field "checkedAt" (rfc3339nano (pb_CheckedAt p)) +:+ probeResults "results" (pb_Results p).

(** ** Signing and verifying *)
Definition Digest (payload : string) : string := sha256_hex payload.

Section Sign.
Context `{Base58} `{Ed25519}.

Definition decodeKey (keyID : string) : res edpub :=
  match b58_decode keyID with
  | None => Err []
  | Some raw => if negb (Nat.eqb (length raw) PublicKeySize) then Err [] else Ok raw
  end.

Definition Verify (payload : string) (sig : Signature) (expectedKeyID : string) : res unit :=
  if negb (String.eqb (si_Alg sig) Alg) then Err [attest_ErrInvalid]
  else if negb (String.eqb (si_KeyID sig) expectedKeyID) then Err [attest_ErrInvalid]
  else
    key ← wrap attest_ErrInvalid (decodeKey (si_KeyID sig));
    match base64_decode (si_Value sig) with
    | None => Err [attest_ErrInvalid]
    | Some value =>
        if negb (Nat.eqb (slen value) SignatureSize) then Err [attest_ErrInvalid]
        else if negb (String.eqb (si_Digest sig) (Digest payload)) then Err [attest_ErrInvalid]
        else if negb (ed_verify key payload value) then Err [attest_ErrInvalid]
        else Ok tt
    end.

Definition VerifyAny (payload : string) (sig : Signature) (keyIDs : list string) : res unit :=
  match find (String.eqb (si_KeyID sig)) keyIDs with
  | Some id => Verify payload sig id
  | None => Err [attest_ErrInvalid]
  end.

Definition PublicKeyBase58 (k : privkey) : string := b58_encode (ed_public k).

Definition Sign (k : privkey) (payload : string) (at_ : time) : res Signature :=
  Ok (mkSignature Alg (PublicKeyBase58 k) (Digest payload) (base64 (ed_sign k payload)) at_).

Definition SignCard (k : privkey) (card : Card) (at_ : time) : res Signature :=
  if negb (String.eqb (cd_AgentID card) (PublicKeyBase58 k)) then Err [attest_ErrInvalid]
  else Sign k (CardBytes card at_) at_.

Definition VerifyCard (card : Card) (sig : Signature) : res unit :=
  Verify (CardBytes card (si_SignedAt sig)) sig (cd_AgentID card).

Definition AttestCard (k : privkey) (card : Card) (at_ : time) : res Signature := Sign k (CardBytes card at_) at_.
Definition VerifyCardAttestedBy (card : Card) (sig : Signature) (attesterKeyID : string) : res unit :=
  Verify (CardBytes card (si_SignedAt sig)) sig attesterKeyID.
Definition VerifyCardAttestedByAny (card : Card) (sig : Signature) (keyIDs : list string) : res unit :=
  VerifyAny (CardBytes card (si_SignedAt sig)) sig keyIDs.

Definition SignOffer (k : privkey) (offer : AttestOffer) (at_ : time) : res Signature :=
  if negb (String.eqb (ao_Seller offer) (PublicKeyBase58 k)) then Err [attest_ErrInvalid]
  else if bool_decide (b58_decode (ao_Mint offer) = None) then Err [attest_ErrInvalid]
  else Sign k (OfferBytes offer at_) at_.

Definition VerifyOffer (offer : AttestOffer) (sig : Signature) : res unit :=
  Verify (OfferBytes offer (si_SignedAt sig)) sig (ao_Seller offer).

Definition SignProbe (k : privkey) (probe : Probe) (at_ : time) : res Signature := Sign k (ProbeBytes probe at_) at_.
Definition VerifyProbeAttestedBy (probe : Probe) (sig : Signature) (attesterKeyID : string) : res unit :=
  Verify (ProbeBytes probe (si_SignedAt sig)) sig attesterKeyID.
Definition VerifyProbeAttestedByAny (probe : Probe) (sig : Signature) (keyIDs : list string) : res unit :=
  VerifyAny (ProbeBytes probe (si_SignedAt sig)) sig keyIDs.
End Sign.

Record CardAttestations := mkCardAttestations { at_Market : Signature; at_Agent : option Signature }.

(** ** The encodings are unambiguous *)

(** A decimal numeral is delimited by the byte after it. *)
Lemma digits_delimited c p q x y : all_chars is_digit p = true → all_chars is_digit q = true →
  is_digit c = false → p +:+ String c x = q +:+ String c y → p = q ∧ x = y.
Proof.
  intros Hp Hq Hc. revert q Hq. induction p as [|a p IH]; intros [|b q] Hq; cbn [String.append all_chars] in *.
  - by intros [= ->].
  - intros [= <- _]. apply andb_true_iff in Hq as [Hb _]. congruence.
  - intros [= -> _]. apply andb_true_iff in Hp as [Ha _]. congruence.
  - intros [= -> E]. apply andb_true_iff in Hp as [_ Hp]. apply andb_true_iff in Hq as [_ Hq].
    destruct (IH Hp q Hq E) as [-> ->]. done.
Qed.

Lemma itoa_delimited c n m x y : is_digit c = false →
  itoa n +:+ String c x = itoa m +:+ String c y → n = m ∧ x = y.
Proof.
  intros Hc E. apply digits_delimited in E as [E ->]; [|apply format_uint_digits; lia..|done].
  apply format_uint_inj in E; [|lia..]. split; [lia|done].
Qed.

Lemma field_inj name v v' r r' : field name v +:+ r = field name v' +:+ r' → v = v' ∧ r = r'.
Proof.
  unfold field. rewrite !sapp_assoc. intros E. do 2 apply sapp_inj_l in E.
  apply itoa_delimited in E as [Hl E]; [|reflexivity]. apply sapp_inj in E as [-> E]; [|done].
  split; [done|]. by apply sapp_inj_l in E.
Qed.

Lemma count_line_inj name n m r r' : count_line name n +:+ r = count_line name m +:+ r' → n = m ∧ r = r'.
Proof.
  unfold count_line. rewrite !sapp_assoc. intros E. do 2 apply sapp_inj_l in E.
  by apply itoa_delimited in E as [-> ->].
Qed.

Lemma elements_inj name i vs vs' r r' : length vs = length vs' →
  elements name i vs +:+ r = elements name i vs' +:+ r' → vs = vs' ∧ r = r'.
Proof.
  revert i vs'. induction vs as [|v vs IH]; intros i [|v' vs'] Hl; try discriminate Hl; [done|].
  cbn [elements]. rewrite !sapp_assoc. intros E. apply field_inj in E as [-> E].
  apply IH in E as [-> ->]; [done|]. by injection Hl.
Qed.

Lemma list_inj name vs vs' r r' : list_ name vs +:+ r = list_ name vs' +:+ r' → vs = vs' ∧ r = r'.
Proof.
  unfold list_. rewrite !sapp_assoc. intros [Hl E]%count_line_inj. by apply elements_inj in E.
Qed.

Lemma records_inj {A} (line : string → A → string) name i l l' r r' :
  (∀ p x y s s', line p x +:+ s = line p y +:+ s' → x = y ∧ s = s') → length l = length l' →
  records line name i l +:+ r = records line name i l' +:+ r' → l = l' ∧ r = r'.
Proof.
  intros Hline. revert i l'. induction l as [|x l IH]; intros i [|y l'] Hl; try discriminate Hl; [done|].
  cbn [records]. rewrite !sapp_assoc. intros E. apply Hline in E as [-> E].
  apply IH in E as [-> ->]; [done|]. by injection Hl.
Qed.

Lemma skill_lines_inj p x y s s' : skill_lines p x +:+ s = skill_lines p y +:+ s' → x = y ∧ s = s'.
Proof.
  destruct x, y. unfold skill_lines. cbn. rewrite !sapp_assoc. intros E.
  apply field_inj in E as [-> E]. apply field_inj in E as [-> E].
  do 3 apply list_inj in E as [-> E]. done.
Qed.

Lemma result_lines_inj p x y s s' : result_lines p x +:+ s = result_lines p y +:+ s' → x = y ∧ s = s'.
Proof.
  destruct x, y. unfold result_lines. cbn. rewrite !sapp_assoc. intros E.
  do 3 apply field_inj in E as [-> E]. done.
Qed.

Lemma skills_inj name l l' r r' : skills name l +:+ r = skills name l' +:+ r' →
  ordered_skills l = ordered_skills l' ∧ r = r'.
Proof.
  unfold skills. cbv zeta. rewrite !sapp_assoc. intros [Hl E]%count_line_inj.
  by apply records_inj in E; [|apply skill_lines_inj|].
Qed.

Lemma probeResults_inj name l l' r r' : probeResults name l +:+ r = probeResults name l' +:+ r' →
  ordered_results l = ordered_results l' ∧ r = r'.
Proof.
  unfold probeResults. cbv zeta. rewrite !sapp_assoc. intros [Hl E]%count_line_inj.
  by apply records_inj in E; [|apply result_lines_inj|].
Qed.

Lemma header_inj kind t u r r' : header kind t +:+ r = header kind u +:+ r' → rfc3339nano t = rfc3339nano u ∧ r = r'.
Proof.
  unfold header. rewrite !sapp_assoc. intros E. apply sapp_inj_l in E. by apply field_inj in E.
Qed.

(** ** Lists are signed as sets *)
Lemma sort_strings_unique l l' : l ≡ₚ l' → stable_sort str_lt l = stable_sort str_lt l'.
Proof.
  intros Hp. eapply (StronglySorted_unique_strong (not_after str_lt)).
  - intros x y _ _. apply str_le_antisym.
  - apply str_sorted.
  - apply str_sorted.
  - by rewrite !stable_sort_perm.
Qed.

Lemma sortedUnique_elem l x : x ∈ sortedUnique l ↔ x ∈ l.
Proof. unfold sortedUnique. by rewrite stable_sort_perm, elem_of_remove_dups. Qed.

Lemma sortedUnique_set l l' : sortedUnique l = sortedUnique l' ↔ ∀ x, x ∈ l ↔ x ∈ l'.
Proof.
  split.
  - intros E x. by rewrite <-(sortedUnique_elem l), E, sortedUnique_elem.
  - intros E. apply sort_strings_unique, NoDup_Permutation; [apply NoDup_remove_dups..|].
    intros x. by rewrite !elem_of_remove_dups.
Qed.

(** ** What a signature commits to *)
Definition same_set (l l' : list string) : Prop := ∀ x, x ∈ l ↔ x ∈ l'.

Definition same_offer (a b : AttestOffer) : Prop :=
  ao_ID a = ao_ID b ∧ ao_Seller a = ao_Seller b ∧ ao_Description a = ao_Description b ∧
  ao_Direction a = ao_Direction b ∧ same_set (ao_Capabilities a) (ao_Capabilities b) ∧
  ao_Mint a = ao_Mint b ∧ ao_Scale a = ao_Scale b ∧ ao_AmountBaseUnits a = ao_AmountBaseUnits b ∧
  ao_UnitAmount a = ao_UnitAmount b ∧ same_set (ao_SettlementModes a) (ao_SettlementModes b).

Definition same_card (a b : Card) : Prop :=
  cd_AgentID a = cd_AgentID b ∧ cd_Name a = cd_Name b ∧ cd_Description a = cd_Description b ∧
  cd_Version a = cd_Version b ∧ cd_URL a = cd_URL b ∧
  same_set (cd_Capabilities a) (cd_Capabilities b) ∧
  ordered_skills (cd_Skills a) = ordered_skills (cd_Skills b) ∧ cd_ProbeTarget a = cd_ProbeTarget b ∧
  same_set (cd_Currencies a) (cd_Currencies b) ∧ same_set (cd_SettlementModes a) (cd_SettlementModes b).

Definition same_probe (a b : Probe) : Prop :=
  pb_AgentID a = pb_AgentID b ∧ pb_Target a = pb_Target b ∧
  rfc3339nano (pb_CheckedAt a) = rfc3339nano (pb_CheckedAt b) ∧
  ordered_results (pb_Results a) = ordered_results (pb_Results b).

(** Two encodings compared field by field. *)
Ltac fields E :=
  repeat first [apply field_inj in E as [? E] | apply list_inj in E as [? E] | apply skills_inj in E as [? E] |
                apply probeResults_inj in E as [? E]].

Lemma with_nothing s : s = s +:+ "".
Proof. by rewrite sapp_nil_r. Qed.

Lemma OfferBytes_inj a b t u :
  OfferBytes a t = OfferBytes b u ↔ same_offer a b ∧ rfc3339nano t = rfc3339nano u.
Proof.
  unfold same_offer, same_set. split.
  - intros E. rewrite (with_nothing (OfferBytes a t)), (with_nothing (OfferBytes b u)) in E.
    unfold OfferBytes in E. rewrite !sapp_assoc in E. apply header_inj in E as [Ht E]. fields E.
    split; [|done]. rewrite <-!sortedUnique_set. by split_and!.
  - intros [(E1 & E2 & E3 & E4 & E5 & E6 & E7 & E8 & E9 & E10) Et]. apply sortedUnique_set in E5, E10.
    unfold OfferBytes, header. by rewrite E1, E2, E3, E4, E5, E6, E7, E8, E9, E10, Et.
Qed.

Lemma CardBytes_inj a b t u :
  CardBytes a t = CardBytes b u ↔ same_card a b ∧ rfc3339nano t = rfc3339nano u.
Proof.
  unfold same_card, same_set. split.
  - intros E. rewrite (with_nothing (CardBytes a t)), (with_nothing (CardBytes b u)) in E.
    unfold CardBytes in E. rewrite !sapp_assoc in E. apply header_inj in E as [Ht E]. fields E.
    split; [|done]. rewrite <-!sortedUnique_set. by split_and!.
  - intros [(E1 & E2 & E3 & E4 & E5 & E6 & E7 & E8 & E9 & E10) Et]. apply sortedUnique_set in E6, E9, E10.
    unfold CardBytes, header, skills. by rewrite E1, E2, E3, E4, E5, E6, E7, E8, E9, E10, Et.
Qed.

Lemma ProbeBytes_inj a b t u :
  ProbeBytes a t = ProbeBytes b u ↔ same_probe a b ∧ rfc3339nano t = rfc3339nano u.
Proof.
  unfold same_probe. split.
  - intros E. rewrite (with_nothing (ProbeBytes a t)), (with_nothing (ProbeBytes b u)) in E.
    unfold ProbeBytes in E. rewrite !sapp_assoc in E. apply header_inj in E as [Ht E]. fields E.
    split; [|done]. by split_and!.
  - intros [(E1 & E2 & E3 & E4) Et].
    unfold ProbeBytes, header, probeResults. by rewrite E1, E2, E3, E4, Et.
Qed.

(** Statements of different kinds never encode to the same bytes. *)
Lemma kinds_differ kind kind' t u r r' : header kind t +:+ r = header kind' u +:+ r' →
  all_chars (fun c => negb (ord c =? 10)) kind = true → all_chars (fun c => negb (ord c =? 10)) kind' = true →
  kind = kind'.
Proof.
  unfold header, newEncoder. rewrite !sapp_assoc. intros E. do 3 apply sapp_inj_l in E. revert kind' E.
  induction kind as [|c k IH]; intros [|d k'] E Hk Hk'; [done| | |]; cbn [String.append all_chars nl] in *.
  - injection E as <- _. discriminate Hk'.
  - injection E as -> _. discriminate Hk.
  - injection E as -> E. apply andb_true_iff in Hk as [_ Hk]. apply andb_true_iff in Hk' as [_ Hk'].
    f_equal. by apply IH.
Qed.

(** The signed bytes are unambiguous.  Two offers, two cards or two probes
  encode to the same bytes exactly when every signed field is the same (lists
  of capabilities, currencies and modes as sets, skills in canonical order) and
  the rendered signing times agree; no value can shift a field boundary, and
  no statement of one kind encodes like one of another. *)
Theorem encodings_unambiguous :
  (∀ a b t u, OfferBytes a t = OfferBytes b u ↔ same_offer a b ∧ rfc3339nano t = rfc3339nano u) ∧
  (∀ a b t u, CardBytes a t = CardBytes b u ↔ same_card a b ∧ rfc3339nano t = rfc3339nano u) ∧
  (∀ a b t u, ProbeBytes a t = ProbeBytes b u ↔ same_probe a b ∧ rfc3339nano t = rfc3339nano u) ∧
  (∀ a b c t u, OfferBytes a t ≠ CardBytes b u ∧ OfferBytes a t ≠ ProbeBytes c u ∧ CardBytes b t ≠ ProbeBytes c u).
Proof.
  split_and!; [apply OfferBytes_inj|apply CardBytes_inj|apply ProbeBytes_inj|].
  intros a b c t u. split_and!; intros E; apply kinds_differ in E; try reflexivity; discriminate E.
Qed.

(** ** Signatures *)
Section Binding.
Context `{IB : Base58} `{IE : Ed25519}.

Lemma Verify_accepts payload sig key :
  Verify payload sig key = Ok tt ↔
  si_Alg sig = Alg ∧ si_KeyID sig = key ∧ si_Digest sig = Digest payload ∧
  ∃ raw value, b58_decode key = Some raw ∧ length raw = PublicKeySize ∧
    base64_decode (si_Value sig) = Some value ∧ slen value = SignatureSize ∧ ed_verify raw payload value = true.
Proof.
  unfold Verify, decodeKey.
  destruct (String.eqb_spec (si_Alg sig) Alg); cbn [negb]; [|naive_solver].
  destruct (String.eqb_spec (si_KeyID sig) key) as [->|]; cbn [negb]; [|naive_solver].
  destruct (b58_decode key) as [raw|]; cbn [wrap mbind res_bind]; [|naive_solver].
  destruct (Nat.eqb_spec (length raw) PublicKeySize); cbn [negb wrap mbind res_bind]; [|naive_solver].
  destruct (base64_decode (si_Value sig)) as [value|]; [|naive_solver].
  destruct (Nat.eqb_spec (slen value) SignatureSize); cbn [negb]; [|naive_solver].
  destruct (String.eqb_spec (si_Digest sig) (Digest payload)); cbn [negb]; [|naive_solver].
  destruct (ed_verify raw payload value) eqn:Hv; cbn [negb]; (split; [intros He|]).
  - split_and!; try done. by exists raw, value.
  - done.
  - discriminate He.
  - intros (_ & _ & _ & r & v & [= <-] & _ & [= <-] & _ & Hv'). congruence.
Qed.

(** Two payloads one signature is accepted for are equal, or a collision. *)
Lemma Verify_binds p q sig k k' : Verify p sig k = Ok tt → Verify q sig k' = Ok tt → p = q ∨ collides p q.
Proof.
  intros (_ & _ & Hp & _)%Verify_accepts (_ & _ & Hq & _)%Verify_accepts.
  destruct (decide (p = q)); [by left|right]. split; [done|]. unfold Digest in *. congruence.
Qed.

(** C13: a signature binds one statement.  Two offers one signature is accepted for
  are the same offer by the same seller; two cards it is accepted for, as the
  agent's own or as an attestation, are the same card under the same key; and it
  is never accepted for an offer and a card; or else the two encodings are a
  SHA-256 collision. *)
Theorem signature_binds_statement sig :
  let t := si_SignedAt sig in
  (∀ o o', VerifyOffer o sig = Ok tt → VerifyOffer o' sig = Ok tt →
     same_offer o o' ∨ collides (OfferBytes o t) (OfferBytes o' t)) ∧
  (∀ c c' k k', VerifyCardAttestedBy c sig k = Ok tt → VerifyCardAttestedBy c' sig k' = Ok tt →
     k = k' ∧ (same_card c c' ∨ collides (CardBytes c t) (CardBytes c' t))) ∧
  (∀ o c k, VerifyOffer o sig = Ok tt → VerifyCardAttestedBy c sig k = Ok tt →
     collides (OfferBytes o t) (CardBytes c t)).
Proof.
  cbv zeta. split_and!.
  - intros o o' Ho Ho'. destruct (Verify_binds _ _ _ _ _ Ho Ho') as [E|Hc]; [left|by right].
    by apply OfferBytes_inj in E as [E _].
  - intros c c' k k' Hc Hc'. split.
    { apply Verify_accepts in Hc as (_ & <- & _), Hc' as (_ & <- & _). done. }
    destruct (Verify_binds _ _ _ _ _ Hc Hc') as [E|Hcol]; [left|by right]. by apply CardBytes_inj in E as [E _].
  - intros o c k Ho Hc. destruct (Verify_binds _ _ _ _ _ Ho Hc) as [E|Hcol]; [|done].
    apply kinds_differ in E; [discriminate E|reflexivity..].
Qed.

(** What a well-formed key signs verifies under its public key. *)
Lemma Sign_verifies `{!Base58Laws} `{!Ed25519Laws} k p t sig :
  length k = PrivateKeySize → Forall (fun b => 0 ≤ b < 256) k → Sign k p t = Ok sig →
  si_SignedAt sig = t ∧ Verify p sig (PublicKeyBase58 k) = Ok tt.
Proof.
  intros Hl Hb. intros [= <-]. split; [done|]. apply Verify_accepts. cbn [si_Alg si_KeyID si_Digest si_Value].
  split_and!; try done. exists (ed_public k), (ed_sign k p). split_and!.
  - apply b58_roundtrip. by apply Forall_drop.
  - unfold ed_public. by rewrite length_drop, Hl.
  - apply base64_roundtrip.
  - apply ed_sign_length.
  - by apply ed_sign_verify.
Qed.

(** Signing round trip.  What a well-formed key signs for itself verifies, as
  its own offer or card; a key refuses to sign an offer or a card that names
  another agent, and what another agent signed never verifies as this one's. *)
Theorem signed_statements_verify `{!Base58Laws} `{!Ed25519Laws} k o c t sig :
  length k = PrivateKeySize → Forall (fun b => 0 ≤ b < 256) k →
  (SignOffer k o t = Ok sig → VerifyOffer o sig = Ok tt) ∧
  (SignCard k c t = Ok sig → VerifyCard c sig = Ok tt) ∧
  (AttestCard k c t = Ok sig → VerifyCardAttestedBy c sig (PublicKeyBase58 k) = Ok tt) ∧
  (ao_Seller o ≠ PublicKeyBase58 k → SignOffer k o t = Err [attest_ErrInvalid]) ∧
  (AttestCard k c t = Ok sig → cd_AgentID c ≠ PublicKeyBase58 k → VerifyCard c sig = Err [attest_ErrInvalid]).
Proof.
  intros Hl Hb.
  assert (∀ p s, Sign k p t = Ok s → si_SignedAt s = t ∧ Verify p s (PublicKeyBase58 k) = Ok tt) as Hsign
    by (intros; by apply Sign_verifies).
  split_and!.
  - unfold SignOffer, VerifyOffer. destruct (String.eqb_spec (ao_Seller o) (PublicKeyBase58 k)) as [->|]; [|done].
    cbn [negb]. destruct (bool_decide _); [done|]. intros Hs. by destruct (Hsign _ _ Hs) as [-> ?].
  - unfold SignCard, VerifyCard. destruct (String.eqb_spec (cd_AgentID c) (PublicKeyBase58 k)) as [->|]; [|done].
    intros Hs. by destruct (Hsign _ _ Hs) as [-> ?].
  - unfold AttestCard, VerifyCardAttestedBy. intros Hs. by destruct (Hsign _ _ Hs) as [-> ?].
  - intros Hne. unfold SignOffer. by apply String.eqb_neq in Hne as ->.
  - unfold AttestCard, VerifyCard, Verify. intros [= <-] Hne. cbn [si_Alg si_KeyID].
    apply not_eq_sym, String.eqb_neq in Hne. by rewrite Hne.
Qed.
End Binding.

(** ** Witnesses *)
Definition demoStatement : AttestOffer :=
  mkAttestOffer "offer-1" (@PublicKeyBase58 demoBase58 (demoKey 1)) "a summary" "ask" ["summarize"; "translate"]
    "MINT" "6" "2500000" "2.5" ["onchain"].
(** The same terms, the lists in another order. *)
Definition demoReordered : AttestOffer :=
  mkAttestOffer "offer-1" (@PublicKeyBase58 demoBase58 (demoKey 1)) "a summary" "ask" ["translate"; "summarize"; "translate"]
    "MINT" "6" "2500000" "2.5" ["onchain"].
Definition demoSignature : Signature :=
  match @SignOffer demoBase58 demoEd25519 (demoKey 1) demoStatement second with
  | Ok s => s
  | Err _ => mkSignature "" "" "" "" 0
  end.

Lemma signature_binds_statement_witness :
  @VerifyOffer demoBase58 demoEd25519 demoStatement demoSignature = Ok tt ∧
  @VerifyOffer demoBase58 demoEd25519 demoReordered demoSignature = Ok tt ∧
  (same_offer demoStatement demoReordered ∨
   collides (OfferBytes demoStatement second) (OfferBytes demoReordered second)).
Proof.
  split; [vm_compute; reflexivity|]. split; [vm_compute; reflexivity|].
  apply (proj1 (@signature_binds_statement demoBase58 demoEd25519 demoSignature) demoStatement demoReordered);
    vm_compute; reflexivity.
Defined.

Lemma signed_statements_verify_witness :
  @SignOffer demoBase58 demoEd25519 (demoKey 1) demoStatement second = Ok demoSignature ∧
  @VerifyOffer demoBase58 demoEd25519 demoStatement demoSignature = Ok tt.
Proof.
  assert (@SignOffer demoBase58 demoEd25519 (demoKey 1) demoStatement second = Ok demoSignature) as Hs
    by (vm_compute; reflexivity).
  split; [exact Hs|].
  refine (proj1 (@signed_statements_verify demoBase58 demoEd25519 demoBase58_laws demoEd25519_laws (demoKey 1)
    demoStatement (mkCard "" "" "" "" "" [] [] [] [] "") second demoSignature _ _) Hs).
  - reflexivity.
  - vm_compute. repeat constructor; discriminate.
Defined.
