(* ===== verification/Probe.v ===== *)
(** * [internal/probe]: capability probes

    [probe.go]: which targets may be called, which addresses may be dialled, and
    what an agent's reply is worth.  The exchange itself (DNS, TLS, HTTP) is the
    environment's: a [Reply] describes what came back.  IP addresses are byte
    lists as in [net.IP]. *)
From S2P Require Import Prelude Money Domain Json Attest.

Definition ErrRefused : sentinel := "probe.ErrRefused".
Definition ErrTarget : sentinel := "probe.ErrTarget".

Abbreviation Status := string.
Definition StatusPass : Status := "pass".
Definition StatusFail : Status := "fail".
Definition StatusUnknown : Status := "unknown".

Record Result := mkResult { re_Capability : string; re_Status : Status; re_Detail : string }.

Record Report := mkReport {
  rp_AgentID : string; rp_Target : string; rp_Results : list Result; rp_CheckedAt : time;
  rp_Signature : option Signature }.

Definition Passed (r : Report) : bool :=
  if Nat.eqb (length (rp_Results r)) 0 then false
  else forallb (fun x => String.eqb (re_Status x) StatusPass) (rp_Results r).

Record ProbeLimits := mkProbeLimits { pl_Timeout : duration; pl_MaxResponseBytes : Z }.
Definition DefaultLimits : ProbeLimits := mkProbeLimits (5 * second) 65536.

(** The bounds [newRunner] works with. *)
Definition newRunner (limits : ProbeLimits) : ProbeLimits :=
  mkProbeLimits
    (if pl_Timeout limits <=? 0 then pl_Timeout DefaultLimits else pl_Timeout limits)
    (if pl_MaxResponseBytes limits <=? 0 then pl_MaxResponseBytes DefaultLimits else pl_MaxResponseBytes limits).

(** ** The reply *)
Record Response := mkResponse { rs_Challenge : string; rs_AgentID : string; rs_Results : list Result }.

(** No answer, an answer other than 200, a body that breaks off, or a body, known
    by its length and what strict decoding makes of it. *)
Inductive Reply :=
  | Unreachable (e : error)
  | Answered (status : string)
  | Unreadable (e : error)
  | Body (size : Z) (decoded : option Response).

Definition ellipsis : string := String (ascii_of_N 0xE2) (String (ascii_of_N 0x80) (String (ascii_of_N 0xA6) "")).
Definition truncate (s : string) (n : nat) : string :=
  if (slen s <=? n)%nat then s else stake n s +:+ ellipsis.

(** The first result per capability, as the map is filled. *)
Definition byCapability (got : list Result) (capability : string) : option Result :=
  find (fun r => String.eqb (re_Capability r) capability) got.

Definition recognised (s : Status) : bool :=
  String.eqb s StatusPass || String.eqb s StatusFail || String.eqb s StatusUnknown.

Definition normalise_one (got : list Result) (capability : string) : Result :=
  match byCapability got capability with
  | None => mkResult capability StatusUnknown "the agent did not report this capability"
  | Some r =>
      let r1 := if recognised (re_Status r) then r
        else mkResult capability StatusUnknown "the agent reported a status this marketplace does not recognise" in
      if (200 <? slen (re_Detail r1))%nat
      then mkResult (re_Capability r1) (re_Status r1) (truncate (re_Detail r1) 200) else r1
  end.

Definition normalise (got : list Result) (claimed : list string) : list Result :=
  map (normalise_one got) claimed.

(** ** The target *)
Section Endpoint.
Context `{NetURL}.

(** [net.LookupPort] on the digits [net/url] admits as a port. *)
Definition LookupPort (port : string) : bool := all_chars is_digit port && (dec port <=? 65535).

Definition endpoint (target : string) : res string :=
  if String.eqb (TrimSpace target) "" then Err [ErrTarget]
  else match url_parse target with
  | None => Err [ErrTarget]
  | Some u =>
      if negb (String.eqb (url_Scheme u) "https") then Err [ErrTarget]
      else if url_hasUser u then Err [ErrTarget]
      else if String.eqb (url_Port u) "" then Err [ErrTarget]
      else if negb (LookupPort (url_Port u)) then Err [ErrTarget]
      else if String.eqb (url_Path u) "" || String.eqb (url_Path u) "/" then Err [ErrTarget]
      else if negb (String.eqb (url_RawQuery u) "") || negb (String.eqb (url_Fragment u) "") then Err [ErrTarget]
      else Ok (url_print u)
  end.

Definition endpoint_failed (detail : string) : list Result := [mkResult "probe-endpoint" StatusFail detail].

(** [Run] given the instant it starts at and the reply it gets. *)
Definition Run (limits : ProbeLimits) (target agentID : string) (capabilities : list string)
    (challenge : string) (checked : time) (reply : Reply) : res Report :=
  let report results := mkReport agentID target results checked None in
  _ ← endpoint target;
  match reply with
  | Unreachable e => Err (ErrRefused :: e)
  | Answered status => Ok (report (endpoint_failed ("probe endpoint answered " +:+ status)))
  | Unreadable e => Err (ErrRefused :: e)
  | Body size decoded =>
      if size >? pl_MaxResponseBytes (newRunner limits)
      then Ok (report (endpoint_failed "probe response exceeded the size limit"))
      else match decoded with
      | None => Ok (report (endpoint_failed "probe response did not match the probe schema"))
      | Some got =>
          if negb (String.eqb (rs_Challenge got) challenge) then Err [ErrRefused]
          else if negb (String.eqb (rs_AgentID got) "") && negb (String.eqb (rs_AgentID got) agentID)
          then Err [ErrRefused]
          else Ok (report (normalise (rs_Results got) capabilities))
      end
  end.
End Endpoint.

Definition Statement (r : Report) : Probe :=
  mkProbe (rp_AgentID r) (rp_Target r)
    (map (fun x => mkProbeResult (re_Capability x) (re_Status x) (re_Detail x)) (rp_Results r)) (rp_CheckedAt r).

(** ** Addresses: [net.IP] and its predicates *)
Abbreviation IP := (list Z).

Definition To4 (ip : IP) : option IP :=
  if Nat.eqb (length ip) 4 then Some ip
  else if Nat.eqb (length ip) 16 && forallb (Z.eqb 0) (take 10 ip) && forallb (Z.eqb 255) (take 2 (drop 10 ip))
  then Some (drop 12 ip) else None.

Definition at_byte (i : nat) (ip : IP) : Z := default 0 (ip !! i).
Definition mask (z m : Z) : Z := Z.land z m.

(** On an address that is 4 bytes, or 16 that are no mapped 4 (what [checkRoutable]
    passes them). *)
Definition IsUnspecified (ip : IP) : bool := forallb (Z.eqb 0) ip.
Definition IsLoopback (ip : IP) : bool :=
  if Nat.eqb (length ip) 4 then at_byte 0 ip =? 127 else bool_decide (ip = replicate 15 0 ++ [1]).
Definition IsPrivate (ip : IP) : bool :=
  if Nat.eqb (length ip) 4 then
    (at_byte 0 ip =? 10) || ((at_byte 0 ip =? 172) && (mask (at_byte 1 ip) 240 =? 16)) ||
    ((at_byte 0 ip =? 192) && (at_byte 1 ip =? 168))
  else Nat.eqb (length ip) 16 && (mask (at_byte 0 ip) 254 =? 252).
Definition IsLinkLocalUnicast (ip : IP) : bool :=
  if Nat.eqb (length ip) 4 then (at_byte 0 ip =? 169) && (at_byte 1 ip =? 254)
  else Nat.eqb (length ip) 16 && (at_byte 0 ip =? 254) && (mask (at_byte 1 ip) 192 =? 128).
Definition IsLinkLocalMulticast (ip : IP) : bool :=
  if Nat.eqb (length ip) 4 then (at_byte 0 ip =? 224) && (at_byte 1 ip =? 0) && (at_byte 2 ip =? 0)
  else Nat.eqb (length ip) 16 && (at_byte 0 ip =? 255) && (mask (at_byte 1 ip) 15 =? 2).
Definition IsInterfaceLocalMulticast (ip : IP) : bool :=
  Nat.eqb (length ip) 16 && (at_byte 0 ip =? 255) && (mask (at_byte 1 ip) 15 =? 1).
Definition IsMulticast (ip : IP) : bool :=
  if Nat.eqb (length ip) 4 then mask (at_byte 0 ip) 240 =? 224
  else Nat.eqb (length ip) 16 && (at_byte 0 ip =? 255).

(** A network as its address and its number of leading one bits. *)
Record blockedRange := mkBlocked { bl_name : string; bl_net : IP; bl_ones : Z }.

Definition mask_byte (ones : Z) (i : nat) : Z :=
  let k := Z.min 8 (Z.max 0 (ones - 8 * Z.of_nat i)) in 256 - 2 ^ (8 - k).

(** [IPNet.Contains] *)
Definition Contains (b : blockedRange) (ip : IP) : bool :=
  Nat.eqb (length ip) (length (bl_net b)) &&
  forallb (fun i => mask (at_byte i (bl_net b)) (mask_byte (bl_ones b) i) =? mask (at_byte i ip) (mask_byte (bl_ones b) i))
    (seq 0 (length ip)).

Definition blockedRanges : list blockedRange :=
  [mkBlocked "100.64.0.0/10" [100; 64; 0; 0] 10; mkBlocked "192.0.0.0/24" [192; 0; 0; 0] 24;
   mkBlocked "192.0.2.0/24" [192; 0; 2; 0] 24; mkBlocked "198.51.100.0/24" [198; 51; 100; 0] 24;
   mkBlocked "203.0.113.0/24" [203; 0; 113; 0] 24; mkBlocked "198.18.0.0/15" [198; 18; 0; 0] 15;
   mkBlocked "240.0.0.0/4" [240; 0; 0; 0] 4; mkBlocked "fc00::/7" (252 :: replicate 15 0) 7;
   mkBlocked "2001:db8::/32" (32 :: 1 :: 13 :: 184 :: replicate 12 0) 32].

Definition checkRoutable (ip0 : IP) : res unit :=
  let ip := default ip0 (To4 ip0) in
  if IsUnspecified ip || IsLoopback ip || IsPrivate ip || IsLinkLocalUnicast ip || IsLinkLocalMulticast ip ||
     IsInterfaceLocalMulticast ip || IsMulticast ip then Err []
  else if existsb (fun b => Contains b ip) blockedRanges then Err []
  else Ok tt.

(** [publicAddrs]: a literal address as it is, or what the resolver answered; any
    address that is not routable refuses them all. *)
Inductive Resolved := Literal (ip : IP) | Names (answer : option (list IP)).

Fixpoint check_all (addrs : list IP) : res (list IP) :=
  match addrs with
  | [] => Ok []
  | ip :: rest => _ ← wrap ErrTarget (checkRoutable ip); out ← check_all rest; Ok (ip :: out)
  end.

Definition publicAddrs (host : Resolved) : res (list IP) :=
  match host with
  | Literal ip => _ ← checkRoutable ip; Ok [ip]
  | Names None => Err [ErrTarget]
  | Names (Some addrs) => if Nat.eqb (length addrs) 0 then Err [ErrTarget] else check_all addrs
  end.

(** [DialContext] connects to the first of them. *)
Definition dialled (host : Resolved) : res IP :=
  addrs ← publicAddrs host;
  match addrs with ip :: _ => Ok ip | [] => Err [] end.

(** ** What a report says *)
Section Reports.
Context `{IN : NetURL}.

Lemma byCapability_Some got c r : byCapability got c = Some r → re_Capability r = c ∧ r ∈ got.
Proof.
  unfold byCapability. intros H. apply find_some in H as [Hin Hc]. split; [by apply String.eqb_eq|].
  by apply list_elem_of_In.
Qed.

Lemma normalise_one_capability got c : re_Capability (normalise_one got c) = c.
Proof.
  unfold normalise_one. destruct (byCapability got c) as [r|] eqn:E; [|done].
  apply byCapability_Some in E as [E _]. destruct (recognised _); [by case_match|done].
Qed.

(** A pass is never made up. *)
Lemma normalise_one_pass got c : re_Status (normalise_one got c) = StatusPass →
  ∃ r, byCapability got c = Some r ∧ re_Status r = StatusPass.
Proof.
  unfold normalise_one. destruct (byCapability got c) as [r|]; [|done].
  destruct (recognised (re_Status r)); [|done]. case_match; cbn; eauto.
Qed.

Lemma normalise_one_recognised got c : recognised (re_Status (normalise_one got c)) = true.
Proof.
  unfold normalise_one. destruct (byCapability got c) as [y|]; [|done].
  destruct (recognised (re_Status y)) eqn:E; [by case_match|done].
Qed.

Lemma stake_le n s : (slen (stake n s) ≤ n)%nat.
Proof. revert s. induction n as [|n IH]; intros [|c s]; cbn; [lia..|]. specialize (IH s). lia. Qed.

Lemma Run_report limits target agentID capabilities challenge checked reply r :
  Run limits target agentID capabilities challenge checked reply = Ok r →
  rp_AgentID r = agentID ∧ rp_Target r = target ∧ rp_CheckedAt r = checked ∧
  ∀ x, x ∈ rp_Results r → recognised (re_Status x) = true.
Proof.
  unfold Run. destruct (endpoint target); [|done]. cbn [mbind res_bind].
  repeat case_match; intros [= <-]; cbn [rp_AgentID rp_Target rp_CheckedAt rp_Results];
    (split_and!; [done..|intros x]); try (intros ->%list_elem_of_singleton; done).
  intros (c & -> & _)%list_elem_of_fmap. apply normalise_one_recognised.
Qed.

(** What a probe reports.  A report lists exactly the claimed capabilities in
  order, or the one failure of the endpoint, with statuses the marketplace
  knows; it passes only if the reply echoed the challenge,
  named no other agent, fitted the size limit, and the first result it gave for
  each claimed capability was a pass; and a card without capabilities never
  passes. *)
Theorem Run_reports limits target agentID capabilities challenge checked reply r :
  Run limits target agentID capabilities challenge checked reply = Ok r →
  rp_AgentID r = agentID ∧ rp_Target r = target ∧ rp_CheckedAt r = checked ∧
  (map re_Capability (rp_Results r) = capabilities ∨ map re_Capability (rp_Results r) = ["probe-endpoint"]) ∧
  (∀ x, x ∈ rp_Results r → recognised (re_Status x) = true) ∧
  (Passed r = true → capabilities ≠ [] ∧ ∃ size got, reply = Body size (Some got) ∧
     size ≤ pl_MaxResponseBytes (newRunner limits) ∧ rs_Challenge got = challenge ∧
     (rs_AgentID got = "" ∨ rs_AgentID got = agentID) ∧
     ∀ c, c ∈ capabilities → ∃ x, byCapability (rs_Results got) c = Some x ∧ re_Status x = StatusPass).
Proof.
  unfold Run. destruct (endpoint target); [|done]. cbn [mbind res_bind].
  assert (∀ detail x, x ∈ endpoint_failed detail → recognised (re_Status x) = true) as Hr.
  { intros detail x ->%list_elem_of_singleton. done. }
  destruct reply as [e|status|e|size [got|]]; [done| |done| |];
    [intros [= <-]; cbn; split_and!; [done..|by right|by eapply Hr|done]| |].
  - case_match eqn:Hs; [intros [= <-]; cbn; split_and!; [done..|by right|by eapply Hr|done]|].
    destruct (String.eqb_spec (rs_Challenge got) challenge) as [Hc|]; cbn [negb]; [|done].
    destruct (negb (String.eqb (rs_AgentID got) "") && negb _) eqn:Ha; [done|].
    intros [= <-]. cbn [rp_AgentID rp_Target rp_CheckedAt rp_Results]. split_and!; [done..| | |].
    + left. unfold normalise. rewrite map_map. rewrite <-(map_id capabilities) at 2. apply map_ext.
      intros c. apply normalise_one_capability.
    + intros x (c & -> & _)%list_elem_of_fmap. apply normalise_one_recognised.
    + unfold Passed. cbn [rp_Results]. destruct capabilities as [|c0 cs]; [done|]. cbn [length normalise map Nat.eqb].
      intros Hp. split; [done|]. exists size, got. split_and!; [done|lia|done| |].
      * apply andb_false_iff in Ha as [Ha|Ha]; apply negb_false_iff, String.eqb_eq in Ha; auto.
      * intros c Hin. apply normalise_one_pass. change (map (normalise_one (rs_Results got)) (c0 :: cs)) with
          (normalise (rs_Results got) (c0 :: cs)) in Hp.
        assert (forallb (fun x => String.eqb (re_Status x) StatusPass) (normalise (rs_Results got) (c0 :: cs)) = true)
          as Hall by done.
        rewrite forallb_forall in Hall. apply String.eqb_eq, Hall. unfold normalise.
        apply in_map. by apply list_elem_of_In.
  - case_match; intros [= <-]; cbn; (split_and!; [done..|by right|by eapply Hr|done]).
Qed.
End Reports.

(** ** Which addresses may be dialled *)
Definition is_byte (z : Z) : Prop := 0 ≤ z < 256.

(** Blocks of IPv4 addresses, as first address and size. *)
Definition v4 (a b c d : Z) : Z := a * 16777216 + b * 65536 + c * 256 + d.
(** The blocks of IANA's special-purpose address registry that it does not call
    globally reachable, and multicast: this network, private use, shared, loopback,
    link local, protocol assignments, documentation, 6to4 relays, benchmarking,
    reserved. *)
Definition special_v4 : list (Z * Z) :=
  [(v4 0 0 0 0, 16777216); (v4 10 0 0 0, 16777216); (v4 100 64 0 0, 4194304); (v4 127 0 0 0, 16777216);
   (v4 169 254 0 0, 65536); (v4 172 16 0 0, 1048576); (v4 192 0 0 0, 256); (v4 192 0 2 0, 256); (v4 192 88 99 0, 256);
   (v4 192 168 0 0, 65536); (v4 198 18 0 0, 131072); (v4 198 51 100 0, 256); (v4 203 0 113 0, 256);
   (v4 224 0 0 0, 268435456); (v4 240 0 0 0, 268435456)].
(** Those of their addresses that the code lets through. *)
Definition overlooked_v4 : list (Z * Z) := [(v4 0 0 0 1, 16777215); (v4 192 88 99 0, 256)].
(** What its predicates and ranges come to, in the order it asks them. *)
Definition refused_v4 : list (Z * Z) :=
  [(v4 0 0 0 0, 1); (v4 127 0 0 0, 16777216); (v4 10 0 0 0, 16777216); (v4 172 16 0 0, 1048576);
   (v4 192 168 0 0, 65536); (v4 169 254 0 0, 65536); (v4 224 0 0 0, 268435456); (v4 100 64 0 0, 4194304);
   (v4 192 0 0 0, 256); (v4 192 0 2 0, 256); (v4 198 51 100 0, 256); (v4 203 0 113 0, 256);
   (v4 198 18 0 0, 131072); (v4 240 0 0 0, 268435456)].
Definition in_block (n : Z) (b : Z * Z) : bool := (b.1 <=? n) && (n <? b.1 + b.2).

Lemma bytes_all (P : Z → bool) z : forallb (fun k => P (Z.of_nat k)) (seq 0 256) = true → is_byte z → P z = true.
Proof.
  intros H Hz. rewrite forallb_forall in H. rewrite <-(Z2Nat.id z) by apply Hz. apply H.
  apply in_seq. unfold is_byte in Hz. lia.
Qed.

(** The high bits of a byte, arithmetically. *)
Lemma mask_high z k : is_byte z → (k ≤ 8)%nat → mask z (256 - 2 ^ Z.of_nat k) = z / 2 ^ Z.of_nat k * 2 ^ Z.of_nat k.
Proof.
  intros Hz Hk. apply Z.eqb_eq.
  do 9 (destruct k as [|k]; [by apply (bytes_all (fun z => mask z _ =? z / _ * _)); [vm_compute|]|]). lia.
Qed.

(** A block whose mask ends inside byte [b]. *)
Lemma Contains_v4 name p q r s ones a b c d :
  Contains (mkBlocked name [p; q; r; s] ones) [a; b; c; d] =
  ((mask p (mask_byte ones 0) =? mask a (mask_byte ones 0)) && ((mask q (mask_byte ones 1) =? mask b (mask_byte ones 1)) &&
   ((mask r (mask_byte ones 2) =? mask c (mask_byte ones 2)) && ((mask s (mask_byte ones 3) =? mask d (mask_byte ones 3)) && true)))).
Proof. reflexivity. Qed.

Section V4.
Context (a b c d : Z) (Ha : is_byte a) (Hb : is_byte b) (Hc : is_byte c) (Hd : is_byte d).

#[local] Ltac by_bytes := unfold in_block, v4, is_byte in *; cbn [fst snd];
  apply eq_true_iff_eq; rewrite ?andb_true_iff, ?orb_true_iff, ?Z.eqb_eq, ?Z.leb_le, ?Z.ltb_lt;
  Z.to_euclidean_division_equations; lia.
Lemma blocked_range_v4 name p q r s ones lo size :
  is_byte p → is_byte q → is_byte r → is_byte s →
  (ones = 10 ∧ q mod 64 = 0 ∧ r = 0 ∧ s = 0 ∧ lo = v4 p q r s ∧ size = 4194304) ∨
  (ones = 24 ∧ s = 0 ∧ lo = v4 p q r s ∧ size = 256) ∨
  (ones = 15 ∧ q mod 2 = 0 ∧ r = 0 ∧ s = 0 ∧ lo = v4 p q r s ∧ size = 131072) ∨
  (ones = 4 ∧ p mod 16 = 0 ∧ q = 0 ∧ r = 0 ∧ s = 0 ∧ lo = v4 p q r s ∧ size = 268435456) →
  Contains (mkBlocked name [p; q; r; s] ones) [a; b; c; d] = in_block (v4 a b c d) (lo, size).
Proof.
  intros Hp Hq Hr Hs H. rewrite Contains_v4.
  assert (∀ z k, is_byte z → (k ≤ 8)%nat → mask z (256 - 2 ^ Z.of_nat k) = z / 2 ^ Z.of_nat k * 2 ^ Z.of_nat k) as M
    by (intros; by apply mask_high).
  assert (∀ z, is_byte z → mask z 255 = z) as M0 by (intros z Hz; change 255 with (256 - 2 ^ Z.of_nat 0); rewrite M by (done || lia); by rewrite Z.div_1_r, Z.mul_1_r).
  assert (∀ z, is_byte z → mask z 0 = 0) as M8 by (intros; apply Z.land_0_r).
  destruct H as [(-> & ? & ? & ? & -> & ->)|[(-> & ? & -> & ->)|[(-> & ? & ? & ? & -> & ->)|(-> & ? & ? & ? & ? & -> & ->)]]].
  - change (mask_byte 10 0) with 255. change (mask_byte 10 1) with (256 - 2 ^ Z.of_nat 6).
    change (mask_byte 10 2) with 0. change (mask_byte 10 3) with 0.
    rewrite !M, !M0, !M8 by (done || lia). change (2 ^ Z.of_nat 6) with 64. by_bytes.
  - change (mask_byte 24 0) with 255. change (mask_byte 24 1) with 255. change (mask_byte 24 2) with 255.
    change (mask_byte 24 3) with 0. rewrite !M0, !M8 by done. by_bytes.
  - change (mask_byte 15 0) with 255. change (mask_byte 15 1) with (256 - 2 ^ Z.of_nat 1).
    change (mask_byte 15 2) with 0. change (mask_byte 15 3) with 0.
    rewrite !M, !M0, !M8 by (done || lia). change (2 ^ Z.of_nat 1) with 2. by_bytes.
  - change (mask_byte 4 0) with (256 - 2 ^ Z.of_nat 4). change (mask_byte 4 1) with 0.
    change (mask_byte 4 2) with 0. change (mask_byte 4 3) with 0.
    rewrite !M, !M8 by (done || lia). change (2 ^ Z.of_nat 4) with 16. by_bytes.
Qed.

Lemma standard_ranges_v4 :
  IsUnspecified [a; b; c; d] = in_block (v4 a b c d) (v4 0 0 0 0, 1) ∧
  IsLoopback [a; b; c; d] = in_block (v4 a b c d) (v4 127 0 0 0, 16777216) ∧
  IsPrivate [a; b; c; d] = in_block (v4 a b c d) (v4 10 0 0 0, 16777216) ||
    in_block (v4 a b c d) (v4 172 16 0 0, 1048576) || in_block (v4 a b c d) (v4 192 168 0 0, 65536) ∧
  IsLinkLocalUnicast [a; b; c; d] = in_block (v4 a b c d) (v4 169 254 0 0, 65536) ∧
  IsLinkLocalMulticast [a; b; c; d] || (IsInterfaceLocalMulticast [a; b; c; d] || IsMulticast [a; b; c; d]) =
    in_block (v4 a b c d) (v4 224 0 0 0, 268435456).
Proof.
  unfold IsUnspecified, IsLoopback, IsPrivate, IsLinkLocalUnicast, IsLinkLocalMulticast, IsMulticast,
    IsInterfaceLocalMulticast, at_byte. cbn [length Nat.eqb forallb andb orb lookup list_lookup default].
  change 240 with (256 - 2 ^ Z.of_nat 4). rewrite !(mask_high _ 4) by (done || lia). change (2 ^ Z.of_nat 4) with 16.
  unfold id. split_and!; by_bytes.
Qed.

Lemma checkRoutable_v4_aux :
  is_ok (checkRoutable [a; b; c; d]) = negb (existsb (in_block (v4 a b c d)) refused_v4) ∧
  checkRoutable (replicate 10 0 ++ [255; 255; a; b; c; d]) = checkRoutable [a; b; c; d].
Proof.
  split; [|reflexivity]. unfold checkRoutable. change (default [a; b; c; d] (To4 [a; b; c; d])) with [a; b; c; d]. cbv zeta.
  destruct standard_ranges_v4 as (E1 & E2 & E3 & E4 & E5).
  rewrite <-!orb_assoc, E1, E2, E3, E4, E5. unfold blockedRanges, refused_v4. cbn [existsb].
  assert (∀ name net ones, length net = 16%nat → Contains (mkBlocked name net ones) [a; b; c; d] = false) as H6
    by (intros; unfold Contains; cbn [bl_net]; by rewrite H).
  rewrite (H6 _ (252 :: replicate 15 0)), (H6 _ (32 :: 1 :: 13 :: 184 :: replicate 12 0)) by reflexivity.
  unfold is_byte in *.
  rewrite (blocked_range_v4 _ 100 64 0 0 10 (v4 100 64 0 0) 4194304), (blocked_range_v4 _ 192 0 0 0 24 (v4 192 0 0 0) 256),
    (blocked_range_v4 _ 192 0 2 0 24 (v4 192 0 2 0) 256), (blocked_range_v4 _ 198 51 100 0 24 (v4 198 51 100 0) 256),
    (blocked_range_v4 _ 203 0 113 0 24 (v4 203 0 113 0) 256), (blocked_range_v4 _ 198 18 0 0 15 (v4 198 18 0 0) 131072),
    (blocked_range_v4 _ 240 0 0 0 4 (v4 240 0 0 0) 268435456) by (first [unfold is_byte; lia|by left|by right; left|by right; right; left|by right; right; right]).
  assert (∀ x y : bool, is_ok (if x then Err [] else if y then Err [] else (Ok tt : res unit)) = negb (x || y)) as -> by (by intros [] []).
  by rewrite !orb_false_r, !orb_assoc.
Qed.
Lemma refused_special n : 0 ≤ n → negb (existsb (in_block n) refused_v4) = negb (existsb (in_block n) special_v4) || existsb (in_block n) overlooked_v4.
Proof.
  intros Hn. apply eq_true_iff_eq. unfold refused_v4, special_v4, overlooked_v4, in_block, v4. cbn [existsb fst snd].
  rewrite orb_true_iff, !negb_true_iff, !orb_false_iff, !orb_true_iff, !andb_false_iff, !andb_true_iff, !Z.leb_gt, !Z.ltb_ge, !Z.leb_le, !Z.ltb_lt.
  lia.
Qed.
End V4.

(** C40: the address filter against the registry of special blocks.  An IPv4
  address, given as 4 or as mapped 16 bytes, may be dialled exactly when, as a
  number, it lies in none of the registry's blocks, but for the two sets the code
  overlooks, which it lets through: 0.0.0.0/8 other than 0.0.0.0 itself, and the
  6to4 relays of 192.88.99.0/24. *)
Theorem checkRoutable_v4 a b c d :
  is_byte a → is_byte b → is_byte c → is_byte d →
  is_ok (checkRoutable [a; b; c; d]) =
    negb (existsb (in_block (v4 a b c d)) special_v4) || existsb (in_block (v4 a b c d)) overlooked_v4 ∧
  checkRoutable (replicate 10 0 ++ [255; 255; a; b; c; d]) = checkRoutable [a; b; c; d].
Proof.
  intros Ha Hb Hc Hd. rewrite <-refused_special by (unfold v4, is_byte in *; lia). by apply checkRoutable_v4_aux.
Qed.

(** What the runner connects to passed the filter, with everything else its name
    resolved to. *)
Definition addresses (host : Resolved) : list IP :=
  match host with Literal ip => [ip] | Names (Some l) => l | Names None => [] end.

Lemma check_all_ok l out : check_all l = Ok out → out = l ∧ Forall (fun ip => checkRoutable ip = Ok tt) l.
Proof.
  revert out. induction l as [|ip l IH]; intros out; cbn; [by intros [= <-]|].
  destruct (checkRoutable ip) as [[]|] eqn:E; cbn; [|done]. destruct (check_all l) as [o|]; cbn; [|done].
  intros [= <-]. destruct (IH o) as [-> Hf]; [done|]. split; [done|]. by constructor.
Qed.

Lemma dialled_checked host ip : dialled host = Ok ip →
  head (addresses host) = Some ip ∧ Forall (fun a => checkRoutable a = Ok tt) (addresses host).
Proof.
  unfold dialled, publicAddrs. destruct host as [lit|[l|]]; cbn; [| |done].
  - destruct (checkRoutable lit) as [[]|] eqn:E; cbn; [|done]. intros [= ->]. split; [done|]. by constructor.
  - destruct (Nat.eqb_spec (length l) 0); [done|]. destruct (check_all l) as [out|] eqn:E; cbn; [|done].
    apply check_all_ok in E as [-> Hf]. destruct l; [done|]. by intros [= ->].
Qed.

(** The filter does not look inside addresses that carry an IPv4 address.
  Every IPv4 address, loopback and cloud metadata included, is let through in
  its NAT64 form 64:ff9b::a.b.c.d and in its 6to4 form 2002:abcd::, and so are
  the addresses 0.x.y.z other than 0.0.0.0 and those of 192.88.99.0/24. *)
Theorem embedded_v4_passes a b c d :
  is_byte a → is_byte b → is_byte c → is_byte d →
  checkRoutable ([0; 100; 255; 155] ++ replicate 8 0 ++ [a; b; c; d]) = Ok tt ∧
  checkRoutable ([32; 2; a; b; c; d] ++ replicate 10 0) = Ok tt ∧
  (existsb (in_block (v4 a b c d)) overlooked_v4 = true → checkRoutable [a; b; c; d] = Ok tt).
Proof.
  intros Ha Hb Hc Hd. split_and!; [reflexivity|reflexivity|].
  intros Ho. assert (is_ok (checkRoutable [a; b; c; d]) = true) as H.
  { rewrite (proj1 (checkRoutable_v4_aux a b c d Ha Hb Hc Hd)), refused_special, Ho by (unfold v4, is_byte in *; lia). apply orb_true_r. }
  by destruct (checkRoutable [a; b; c; d]) as [[]|].
Qed.

(** ** Witnesses *)
Lemma checkRoutable_v4_witness :
  is_ok (checkRoutable [93; 184; 216; 34]) = true ∧ is_ok (checkRoutable [100; 127; 0; 1]) = false ∧ is_ok (checkRoutable [0; 0; 0; 1]) = true.
Proof.
  rewrite (proj1 (checkRoutable_v4 93 184 216 34 ltac:(done) ltac:(done) ltac:(done) ltac:(done))),
    (proj1 (checkRoutable_v4 100 127 0 1 ltac:(done) ltac:(done) ltac:(done) ltac:(done))),
    (proj1 (checkRoutable_v4 0 0 0 1 ltac:(done) ltac:(done) ltac:(done) ltac:(done))).
  split_and!; vm_compute; reflexivity.
Defined.

Lemma embedded_v4_passes_witness :
  checkRoutable [169; 254; 169; 254] = Err [] ∧
  checkRoutable ([0; 100; 255; 155] ++ replicate 8 0 ++ [169; 254; 169; 254]) = Ok tt.
Proof.
  split; [vm_compute; reflexivity|].
  apply (embedded_v4_passes 169 254 169 254); split; first [discriminate|reflexivity].
Defined.

(** A parser that knows one URL. *)
Definition demoTarget : string := "https://agent.example:8443/probe".
Definition demoNetURL : NetURL := {|
  url_parse s := if String.eqb s demoTarget
    then Some (mkURL "https" false "agent.example:8443" "agent.example" "8443" "/probe" "" "") else
    if String.eqb s "https://agent.example" then Some (mkURL "https" false "agent.example" "agent.example" "" "" "" "") else None;
  url_print _ := demoTarget |}.

Definition demoReply : Reply :=
  Body 120 (Some (mkResponse "nonce" "" [mkResult "translate" "pass" ""; mkResult "summarize" "great" ""; mkResult "other" "pass" ""])).

Lemma Run_reports_witness :
  ∃ r, @Run demoNetURL DefaultLimits demoTarget "A" ["summarize"; "translate"] "nonce" 7 demoReply = Ok r ∧
    map re_Capability (rp_Results r) = ["summarize"; "translate"] ∧ Passed r = false.
Proof.
  eexists. split; [vm_compute; reflexivity|]. split; [|vm_compute; reflexivity].
  edestruct (@Run_reports demoNetURL DefaultLimits demoTarget "A" ["summarize"; "translate"] "nonce" 7 demoReply)
    as (_ & _ & _ & [H|H] & _); [vm_compute; reflexivity|exact H|discriminate H].
Defined.
