(* ===== verification/World.v ===== *)
(** * The shared world: database, clock, identifiers, lock, chain

    The SQLite database as one map or list per table of [store/schema.sql] and
    the migrations of [store.go]; what the process shares besides it (the lock
    of [trade.Service]); and what it consults (the clock, [uuid.NewString], the
    Solana RPC endpoint).  [write] is [Store.write]: one transaction, all or
    nothing.  A store call can also fail without effect ([EIO]). *)
From S2P Require Import Prelude Prog Money Domain Cluster Tokens Settlement Attest Probe.

(** ** Rows *)
Record AgentRow := mkAgentRow {
  a_card : AgentCard; a_status : AgentStatus; a_created : Z; a_updated : Z }.

Record OfferRow := mkOfferRow {
  o_agent : string; o_direction : OfferDirection; o_description : string;
  o_caps : list string; o_price : string; o_mint : string; o_modes : list SettlementMode;
  o_status : OfferStatus; o_idem : option string; o_created : Z; o_updated : Z;
  o_expires : option Z }.

Record TradeRow := mkTradeRow {
  t_offer : string; t_buyer : string; t_seller : string; t_description : string;
  t_amount : string; t_mint : string; t_mode : SettlementMode; t_state : TradeState;
  t_idem : option string; t_created : Z; t_updated : Z }.

Record RequestRow := mkRequestRow {
  q_trade : string; q_tx : string; q_blockhash : string; q_last : Z;
  q_buyer_ata : string; q_seller_ata : string; q_created_ata : bool;
  q_fee : Z; q_wallet : string; q_status : SettlementStatus; q_signature : option string;
  q_created : Z; q_updated : Z; q_expires : Z; q_cluster : string }.

Record LimitsRow := mkLimitsRow { l_trade : string; l_day : string; l_at : Z }.

Record RetirementRow := mkRetirementRow {
  r_reason : string; r_actor : string; r_at : Z;
  r_restored : option Z; r_restored_actor : option string }.

Record ChallengeRow := mkChallengeRow {
  c_agent : string; c_nonce : string; c_expires : Z; c_consumed : option Z }.

(** The signature columns hold JSON documents that decode to what was encoded. *)
Record AttestationRow := mkAttestationRow {
  at_card : option Signature; at_market : Signature; at_updated : Z }.
Record OfferAttestationRow := mkOfferAttestationRow { oa_agent : string; oa_signature : Signature }.

(** The results are the decoded JSON column. *)
Record ProbeRow := mkProbeRow {
  v_target : string; v_results : list Result; v_passed : bool; v_signature : Signature;
  v_checked : Z; v_updated : Z }.

(** ** The database.  Nothing deletes a row, so an autoincrement sequence is the
    table's length; [ledger_entries] is held in sequence order. *)
Record DB := mkDB {
  agents : gmap string AgentRow;
  offers : gmap string OfferRow;
  trades : gmap string TradeRow;
  acceptances : gmap (string * string) Z;
  events : list TradeEvent;
  requests : gmap string RequestRow;
  agent_limits : gmap string LimitsRow;
  retirements : gmap string RetirementRow;
  ledger : list LedgerEntry;
  receipts : gmap string Receipt;
  challenges : gmap string ChallengeRow;
  agent_attestations : gmap string AttestationRow;
  offer_attestations : gmap string OfferAttestationRow;
  probes : gmap string ProbeRow }.

Definition emptyDB : DB := mkDB ∅ ∅ ∅ ∅ [] ∅ ∅ ∅ [] ∅ ∅ ∅ ∅ ∅.

Definition with_agents (d : DB) v := mkDB v (offers d) (trades d) (acceptances d) (events d)
  (requests d) (agent_limits d) (retirements d) (ledger d) (receipts d)
  (challenges d) (agent_attestations d) (offer_attestations d) (probes d).
Definition with_offers (d : DB) v := mkDB (agents d) v (trades d) (acceptances d) (events d)
  (requests d) (agent_limits d) (retirements d) (ledger d) (receipts d)
  (challenges d) (agent_attestations d) (offer_attestations d) (probes d).
Definition with_trades (d : DB) v := mkDB (agents d) (offers d) v (acceptances d) (events d)
  (requests d) (agent_limits d) (retirements d) (ledger d) (receipts d)
  (challenges d) (agent_attestations d) (offer_attestations d) (probes d).
Definition with_acceptances (d : DB) v := mkDB (agents d) (offers d) (trades d) v (events d)
  (requests d) (agent_limits d) (retirements d) (ledger d) (receipts d)
  (challenges d) (agent_attestations d) (offer_attestations d) (probes d).
Definition with_events (d : DB) v := mkDB (agents d) (offers d) (trades d) (acceptances d) v
  (requests d) (agent_limits d) (retirements d) (ledger d) (receipts d)
  (challenges d) (agent_attestations d) (offer_attestations d) (probes d).
Definition with_requests (d : DB) v := mkDB (agents d) (offers d) (trades d) (acceptances d) (events d)
  v (agent_limits d) (retirements d) (ledger d) (receipts d)
  (challenges d) (agent_attestations d) (offer_attestations d) (probes d).
Definition with_limits (d : DB) v := mkDB (agents d) (offers d) (trades d) (acceptances d) (events d)
  (requests d) v (retirements d) (ledger d) (receipts d)
  (challenges d) (agent_attestations d) (offer_attestations d) (probes d).
Definition with_retirements (d : DB) v := mkDB (agents d) (offers d) (trades d) (acceptances d) (events d)
  (requests d) (agent_limits d) v (ledger d) (receipts d)
  (challenges d) (agent_attestations d) (offer_attestations d) (probes d).
Definition with_ledger (d : DB) v := mkDB (agents d) (offers d) (trades d) (acceptances d) (events d)
  (requests d) (agent_limits d) (retirements d) v (receipts d)
  (challenges d) (agent_attestations d) (offer_attestations d) (probes d).
Definition with_receipts (d : DB) v := mkDB (agents d) (offers d) (trades d) (acceptances d) (events d)
  (requests d) (agent_limits d) (retirements d) (ledger d) v
  (challenges d) (agent_attestations d) (offer_attestations d) (probes d).
Definition with_challenges (d : DB) v := mkDB (agents d) (offers d) (trades d) (acceptances d) (events d)
  (requests d) (agent_limits d) (retirements d) (ledger d) (receipts d)
  v (agent_attestations d) (offer_attestations d) (probes d).
Definition with_agent_attestations (d : DB) v := mkDB (agents d) (offers d) (trades d) (acceptances d) (events d)
  (requests d) (agent_limits d) (retirements d) (ledger d) (receipts d)
  (challenges d) v (offer_attestations d) (probes d).
Definition with_offer_attestations (d : DB) v := mkDB (agents d) (offers d) (trades d) (acceptances d) (events d)
  (requests d) (agent_limits d) (retirements d) (ledger d) (receipts d)
  (challenges d) (agent_attestations d) v (probes d).
Definition with_probes (d : DB) v := mkDB (agents d) (offers d) (trades d) (acceptances d) (events d)
  (requests d) (agent_limits d) (retirements d) (ledger d) (receipts d)
  (challenges d) (agent_attestations d) (offer_attestations d) v.

(** ** The endpoint: which chain it serves, the transactions that have landed on
    each chain (by genesis hash and signature), accounts, the latest blockhash
    and the verdict of the mint check. *)
Record Chain := mkChain {
  ch_genesis : string;
  ch_landed : gmap (string * string) Fetched;
  ch_account : pubkey → bool;
  ch_blockhash : string * Z;
  ch_mint : Token → res unit }.

Record World := mkWorld {
  w_db : DB; w_now : time; w_uuid : nat → string; w_next : nat;
  w_locked : bool; w_chain : Chain }.

Definition with_db (w : World) (d : DB) : World :=
  mkWorld d (w_now w) (w_uuid w) (w_next w) (w_locked w) (w_chain w).
Definition with_lock (w : World) (b : bool) : World :=
  mkWorld (w_db w) (w_now w) (w_uuid w) (w_next w) b (w_chain w).

(** What survives a crash of the process: everything but the in-memory lock. *)
Definition crash (w : World) : World := with_lock w false.

(** An I/O failure or a cancelled context; a violated constraint. *)
Definition EIO : sentinel := "io".
Definition ESQL : sentinel := "sqlite.constraint".
(** A Go panic, which ends the request; [net/http] recovers it. *)
Definition EPanic : sentinel := "panic".

(** ** Actions *)
Definition tx (A : Type) : Type := DB → res (A * DB).

(** [Store.write]: the lock, the transaction, its commit or rollback. *)
Definition write {A} (f : tx A) : io World A :=
  Atomic (fun w => match f (w_db w) with
                   | Ok (a, d) => Some (Ok a, with_db w d)
                   | Err e => Some (Err e, w)
                   end) (Some (Err [EIO])) Ret.

(** One query outside a transaction. *)
Definition query {A} (f : DB → res A) : io World A :=
  Atomic (fun w => Some (f (w_db w), w)) (Some (Err [EIO])) Ret.

(** [s.now()] *)
Definition now : io World time := Atomic (fun w => Some (Ok (w_now w), w)) None Ret.

(** [uuid.NewString()] *)
Definition NewString : io World string :=
  Atomic (fun w => Some (Ok (w_uuid w (w_next w)),
    mkWorld (w_db w) (w_now w) (w_uuid w) (S (w_next w)) (w_locked w) (w_chain w))) None Ret.

(** [reserveMu.Lock()] blocks while it is held. *)
Definition lock : io World unit :=
  Atomic (fun w => if w_locked w then None else Some (Ok tt, with_lock w true)) None Ret.
Definition unlock : io World unit :=
  Atomic (fun w => Some (Ok tt, with_lock w false)) None Ret.

(** One RPC call, which fails when the endpoint cannot be reached. *)
Definition rpc {A} (f : Chain → res A) : io World A :=
  Atomic (fun w => Some (f (w_chain w), w)) (Some (Err [EIO])) Ret.

(** [solana-go] lookups of [settlement.RPCClient]. *)
Definition GetGenesisHash : io World string := rpc (fun c => Ok (ch_genesis c)).
Definition ChainTransaction (sig : string) : io World Fetched :=
  rpc (fun c => match ch_landed c !! (ch_genesis c, sig) with
                | Some f => Ok f
                | None => Err [ErrTransactionNotFound]
                end).
Definition AccountExists (a : pubkey) : io World bool := rpc (fun c => Ok (ch_account c a)).
Definition LatestBlockhash : io World (string * Z) := rpc (fun c => Ok (ch_blockhash c)).
Definition MintVerify (t : Token) : io World unit := rpc (fun c => ch_mint c t).

(** Projections of updated worlds and databases. *)
Ltac db_simpl :=
  unfold with_db, with_lock, with_agents, with_offers, with_trades, with_acceptances, with_events,
    with_requests, with_limits, with_retirements, with_ledger, with_receipts, with_challenges,
    with_agent_attestations, with_offer_attestations, with_probes in *;
  cbn [w_db w_now w_uuid w_next w_locked w_chain agents offers trades acceptances events requests
    agent_limits retirements ledger receipts challenges agent_attestations offer_attestations probes] in *.

(** A small world for the witnesses: the given database and time. *)
Definition demoChain : Chain := mkChain "genesis" ∅ (fun _ => true) ("hash", 100) (fun _ => Ok tt).
Definition demoWorld (d : DB) (t : time) : World :=
  mkWorld d t (fun n => "uuid-" +:+ format_uint (Z.of_nat n)) 0 false demoChain.
