(* ===== verification/Files.v ===== *)
(** * A file system that can lose power

    Names lead to files; writing a file and changing a directory are durable only
    once synced.  What a power failure leaves ([survives]): of every file that was
    not synced anything at all, and of every name one of the files it led to since
    the directory was last synced.  [replace_file] is the replacement both key
    files are written with. *)
From S2P Require Import Prelude Prog World.

Record inode := mkInode { in_data : string; in_synced : bool }.

(** [fs_dirs]: the directory entries, the current ones first, back to the last
    sync.  [fs_suffix], [fs_room] and [fs_entropy] are the environment's: the next
    random suffix of a temporary name, the bytes a write has room for if they are
    fewer, the next random bytes. *)
Record FS := mkFS {
  fs_inodes : gmap nat inode; fs_dirs : list (gmap string nat); fs_next : nat;
  fs_suffix : string; fs_room : option nat; fs_entropy : list Z }.

Definition live (s : FS) : gmap string nat := default ∅ (head (fs_dirs s)).
Definition with_inodes (s : FS) m : FS := mkFS m (fs_dirs s) (fs_next s) (fs_suffix s) (fs_room s) (fs_entropy s).
Definition with_dirs (s : FS) d : FS := mkFS (fs_inodes s) d (fs_next s) (fs_suffix s) (fs_room s) (fs_entropy s).

Definition read (s : FS) (path : string) : option string :=
  i ← live s !! path; n ← fs_inodes s !! i; Some (in_data n).

(** The environment's part changes at will. *)
Definition chance (s s' : FS) : Prop :=
  fs_inodes s' = fs_inodes s ∧ fs_dirs s' = fs_dirs s ∧ fs_next s' = fs_next s.
#[export] Instance chance_refl : Reflexive chance.
Proof. by intros s. Qed.

Definition survives (s s' : FS) : Prop :=
  (∃ d, fs_dirs s' = [d] ∧ ∀ p, ∃ e, e ∈ fs_dirs s ∧ d !! p = e !! p) ∧
  (∀ i n, fs_inodes s !! i = Some n → ∃ n', fs_inodes s' !! i = Some n' ∧ (in_synced n = true → in_data n' = in_data n)).

(** ** System calls; each may fail without effect *)
Definition sys {A} (f : FS → res A * FS) : io FS A := Atomic (fun s => Some (f s)) (Some (Err [EIO])) Ret.

Definition ENotExist : sentinel := "os.ErrNotExist".
Definition ReadFile (path : string) : io FS string :=
  sys (fun s => (match read s path with Some raw => Ok raw | None => Err [ENotExist] end, s)).
Definition MkdirAll : io FS unit := sys (fun s => (Ok tt, s)).
(** A new file under a name that is free: a name that is taken is not used, and
    another one is tried. *)
Definition CreateTemp (prefix : string) : io FS (string * nat) :=
  Atomic (fun s =>
    let name := prefix +:+ fs_suffix s in
    if bool_decide (is_Some (live s !! name)) then None
    else Some (Ok (name, fs_next s),
      mkFS (<[fs_next s := mkInode "" false]> (fs_inodes s)) (<[name := fs_next s]> (live s) :: fs_dirs s) (S (fs_next s))
        (fs_suffix s) (fs_room s) (fs_entropy s))) (Some (Err [EIO])) Ret.
Definition Chmod : io FS unit := sys (fun s => (Ok tt, s)).
Definition set_file (i : nat) (n : inode) (s : FS) : FS := with_inodes s (<[i := n]> (fs_inodes s)).
(** A short write leaves what it wrote. *)
Definition Write (i : nat) (data : string) : io FS unit :=
  sys (fun s => match fs_room s with
    | Some n => if (n <? slen data)%nat then (Err [EIO], set_file i (mkInode (stake n data) false) s)
                else (Ok tt, set_file i (mkInode data false) s)
    | None => (Ok tt, set_file i (mkInode data false) s)
    end).
Definition Sync (i : nat) : io FS unit :=
  sys (fun s => match fs_inodes s !! i with
    | Some n => (Ok tt, set_file i (mkInode (in_data n) true) s)
    | None => (Err [EIO], s)
    end).
Definition Close : io FS unit := sys (fun s => (Ok tt, s)).
Definition Rename (old new : string) : io FS unit :=
  sys (fun s => match live s !! old with
    | Some i => (Ok tt, with_dirs s (<[new := i]> (delete old (live s)) :: fs_dirs s))
    | None => (Err [ENotExist], s)
    end).
Definition Remove (name : string) : io FS unit := sys (fun s => (Ok tt, with_dirs s (delete name (live s) :: fs_dirs s))).
Definition SyncDir : io FS unit := sys (fun s => (Ok tt, with_dirs s [live s])).

(** The directory part of a path: up to its last slash. *)
Fixpoint dir_of (path : string) : option string :=
  match path with
  | EmptyString => None
  | String c p =>
      match dir_of p with
      | Some d => Some (String c d)
      | None => if ceqb c "/" then Some "" else None
      end
  end.
Definition Dir (path : string) : string := match dir_of path with Some d => d | None => "." end.

(** An error that is ignored. *)
Definition ignoring {A} (m : io FS unit) (k : io FS A) : io FS A := on_result m (fun _ => k).

(** A temporary file in the same directory, synced, then renamed; whatever
    happens, its name is removed at the end. *)
Definition abandon (e : error) : io FS unit := ignoring Close (fail e).
Definition install (path tmpName : string) (sync_dir : bool) : io FS unit :=
  _ <~ Close;;
  _ <~ Rename tmpName path;;
  if sync_dir then ignoring SyncDir (ok tt) else ok tt.
Definition synced_then (tmp : nat) (k : io FS unit) : io FS unit :=
  on_result (Sync tmp) (fun r => match r with Err e => abandon e | Ok _ => k end).
Definition written_then (tmp : nat) (encoded : string) (k : io FS unit) : io FS unit :=
  on_result Chmod (fun r => match r with Err e => abandon e | Ok _ =>
  on_result (Write tmp encoded) (fun r => match r with Err e => abandon e | Ok _ => k end) end).
Definition replace_file (path pattern : string) (sync_dir : bool) (encoded : string) : io FS unit :=
  _ <~ MkdirAll;;
  '(tmpName, tmp) <~ CreateTemp (Dir path +:+ "/" +:+ pattern);;
  on_result (written_then tmp encoded (synced_then tmp (install path tmpName sync_dir)))
    (fun r => ignoring (Remove tmpName) (Ret r)).

(** ** What a path holds whatever happens

    [K] judges the contents, [None] when the path leads nowhere. *)
Definition held (path : string) (K : option string → Prop) (s : FS) (d : gmap string nat) : Prop :=
  match d !! path with
  | Some i => ∃ n, fs_inodes s !! i = Some n ∧ in_synced n = true ∧ K (Some (in_data n))
  | None => K None
  end.
Definition holds_always (path : string) (K : option string → Prop) (s : FS) : Prop :=
  fs_dirs s ≠ [] ∧
  (∀ i, is_Some (fs_inodes s !! i) → (i < fs_next s)%nat) ∧
  ∀ d, d ∈ fs_dirs s → held path K s d.
(** The path leads to a file, whose contents satisfy [P]; or to none, or such a file. *)
Definition there (P : string → Prop) (o : option string) : Prop := match o with Some raw => P raw | None => False end.
Definition if_there (P : string → Prop) (o : option string) : Prop := match o with Some raw => P raw | None => True end.

Lemma holds_always_read path K s : holds_always path K s → K (read s path).
Proof.
  intros (Hne & _ & Hd). unfold read, live. destruct (fs_dirs s) as [|d ds]; [done|]. cbn.
  specialize (Hd d ltac:(left)). unfold held in Hd. destruct (d !! path) as [i|]; [|done]. destruct Hd as (m & H1 & _ & H2). cbn. by rewrite H1.
Qed.

Lemma holds_always_mono path (K K' : option string → Prop) s : (∀ o, K o → K' o) → holds_always path K s → holds_always path K' s.
Proof.
  intros HK (H1 & H2 & H3). split_and!; [done..|]. intros d Hd. specialize (H3 d Hd). unfold held in *.
  destruct (d !! path) as [i|]; [|by apply HK]. destruct H3 as (n & E & Hs & H). exists n. split_and!; [done..|by apply HK].
Qed.

Lemma holds_always_survives path K s s' : holds_always path K s → survives s s' → K (read s' path).
Proof.
  intros (Hne & _ & Hd) [(d & E & Hp) Hi]. destruct (Hp path) as (e & He & Ep).
  specialize (Hd e He). unfold held in Hd. unfold read, live. rewrite E. cbn. rewrite Ep. destruct (e !! path) as [i|]; [|done].
  destruct Hd as (n & H2 & H3 & H4). destruct (Hi i n H2) as (n' & Hn' & Hdata). cbn. rewrite Hn'. cbn. by rewrite Hdata.
Qed.

(** ** Where a process may be when it dies *)
Definition runs_to {A} (p : prog FS A) (s s' : FS) : Prop := ∃ q, exec chance p s q s'.
Definition into (I : FS → Prop) : relation FS := fun _ s' => I s'.

#[export] Instance chance_trans : Transitive chance.
Proof. intros s1 s2 s3 (A & B & C) (A' & B' & C'). split_and!; congruence. Qed.

Lemma safe_runs_to {A} (I : FS → Prop) (Q : A → FS → Prop) (p : prog FS A) s s' :
  (∀ a s s', chance s s' → Q a s → Q a s') → (∀ s s', chance s s' → I s → I s') →
  runs_to p s s' → safe chance (into I) Q p s → I s → I s'.
Proof.
  intros HQ HI [q H] Hs Hi. destruct (safe_exec chance chance (into I) (fun _ _ H => H) Q p q s s' HQ Hs H) as [_ Hrel].
  clear -Hrel HI Hi. induction Hrel as [s|s s1 s' [Hc|H1] _ IH]; [done|by eapply IH, HI|by apply IH].
Qed.

(** ** Replacing a file *)
Section Replace.
Context (path : string) (K : option string → Prop).
Abbreviation keeps := (holds_always path K).

(** A temporary file: named, open, and not what the path leads to. *)
Definition apart (tmpName : string) (tmp : nat) (s : FS) : Prop :=
  keeps s ∧ live s !! tmpName = Some tmp ∧ is_Some (fs_inodes s !! tmp) ∧ tmpName ≠ path ∧
  ∀ d, d ∈ fs_dirs s → d !! path ≠ Some tmp.

Lemma keeps_chance s s' : chance s s' → keeps s → keeps s'.
Proof. intros (E1 & E2 & E3). unfold holds_always, held. by rewrite E1, E2, E3. Qed.
Lemma apart_chance n i s s' : chance s s' → apart n i s → apart n i s'.
Proof.
  intros Hc (H & H1 & H2 & H3 & H4). pose proof Hc as (E1 & E2 & E3). unfold apart, live in *. rewrite E1, E2.
  split; [by eapply keeps_chance|done].
Qed.

Lemma keeps_dirs s ds : keeps s → ds ≠ [] → (∀ d, d ∈ ds → ∃ e, e ∈ fs_dirs s ∧ d !! path = e !! path) → keeps (with_dirs s ds).
Proof.
  intros (Hne & Hlt & Hd) Hds H. split_and!; [done..|]. cbn. intros d Hin.
  destruct (H d Hin) as (e & He & E). unfold held. rewrite E. by apply Hd.
Qed.

Lemma live_in s : fs_dirs s ≠ [] → live s ∈ fs_dirs s.
Proof. unfold live. destruct (fs_dirs s); [done|]. left. Qed.

Lemma keeps_set_file n i x s : apart n i s → keeps (set_file i x s).
Proof.
  intros ((Hne & Hlt & Hd) & _ & Hi & _ & Hn). split_and!; [done| |]; cbn.
  - intros j. destruct (decide (j = i)) as [->|]; [intros _; by apply Hlt|]. rewrite lookup_insert_ne by done. apply Hlt.
  - intros d Hin. specialize (Hd d Hin). specialize (Hn d Hin). unfold held in *. destruct (d !! path) as [j|]; [|done].
    destruct Hd as (m & H2 & H3). exists m. cbn. rewrite lookup_insert_ne; [done|]. by intros ->.
Qed.
Lemma apart_set_file n i x s : apart n i s → apart n i (set_file i x s).
Proof.
  intros H. pose proof H as (_ & H1 & H2 & H3 & H4). split; [by eapply keeps_set_file|]. split_and!; [done| |done|done].
  cbn. rewrite lookup_insert_eq. by eexists.
Qed.

Lemma keeps_remove n s : keeps s → n ≠ path → keeps (with_dirs s (delete n (live s) :: fs_dirs s)).
Proof.
  intros H Hn. pose proof H as (Hne & _). apply keeps_dirs; [done..|]. intros d [->|Hd]%elem_of_cons; [|by exists d].
  exists (live s). split; [by apply live_in|]. by rewrite lookup_delete_ne.
Qed.

Lemma keeps_rename n i data s : apart n i s → fs_inodes s !! i = Some (mkInode data true) → K (Some data) →
  keeps (with_dirs s (<[path := i]> (delete n (live s)) :: fs_dirs s)).
Proof.
  intros ((Hne & Hlt & Hd) & _) Hi HK. split_and!; [done..|]. cbn. intros d [->|Hin]%elem_of_cons; [|by apply Hd].
  unfold held. rewrite lookup_insert_eq. by exists (mkInode data true).
Qed.

Lemma apart_create prefix s : keeps s → ¬ K None ∨ prefix +:+ fs_suffix s ≠ path → live s !! (prefix +:+ fs_suffix s) = None →
  apart (prefix +:+ fs_suffix s) (fs_next s)
    (mkFS (<[fs_next s := mkInode "" false]> (fs_inodes s)) (<[prefix +:+ fs_suffix s := fs_next s]> (live s) :: fs_dirs s) (S (fs_next s))
        (fs_suffix s) (fs_room s) (fs_entropy s)).
Proof.
  intros (Hne & Hlt & Hd) Hname Hfree. set (n := prefix +:+ fs_suffix s) in *.
  assert (n ≠ path) as Hn.
  { intros E. destruct Hname as [Hname|]; [|done]. apply Hname. specialize (Hd (live s) (live_in s Hne)). unfold held in Hd. by rewrite <-E, Hfree in Hd. }
  assert (fs_inodes s !! fs_next s = None) as Hnew by (apply eq_None_not_Some; intros H%Hlt; lia).
  assert (∀ d i, d ∈ fs_dirs s → d !! path = Some i → i ≠ fs_next s) as Hold.
  { intros d i Hin Hp ->. specialize (Hd d Hin). unfold held in Hd. rewrite Hp in Hd. destruct Hd as (m & H2 & _). congruence. }
  split; [|split_and!]; cbn.
  - split_and!; [done| |]; cbn.
    + intros i. destruct (decide (i = fs_next s)) as [->|]; [lia|]. rewrite lookup_insert_ne by done. intros H%Hlt. lia.
    + intros d Hin. assert (∃ e, e ∈ fs_dirs s ∧ d !! path = e !! path) as (e & He & E).
      { apply elem_of_cons in Hin as [->|Hin]; [|by exists d]. exists (live s). split; [by apply live_in|]. by rewrite lookup_insert_ne. }
      specialize (Hd e He). unfold held in *. rewrite E. destruct (e !! path) as [i|] eqn:Hp; [|done]. destruct Hd as (m & H2 & H3).
      exists m. cbn. rewrite lookup_insert_ne; [done|]. intros <-. by eapply Hold.
  - apply lookup_insert_eq.
  - rewrite lookup_insert_eq. by eexists.
  - done.
  - intros d [->|Hin]%elem_of_cons; [rewrite lookup_insert_ne by done; intros H; by destruct (Hold (live s) (fs_next s) (live_in s Hne) H)|].
    intros H. by destruct (Hold d (fs_next s) Hin H).
Qed.

Abbreviation triple := (safe chance (into keeps)).

Lemma safe_sys {A} (f : FS → res A * FS) (Q : res A → FS → Prop) s :
  (∀ s1, chance s s1 → keeps (f s1).2 ∧ Q (f s1).1 (f s1).2 ∧ Q (Err [EIO]) s1) → triple Q (sys f) s.
Proof.
  intros H s1 Hc. destruct (H s1 Hc) as (H1 & H2 & H3). split; [|by intros r [= <-]].
  intros r s2 E. destruct (f s1) as [r' s3]. injection E as <- <-. by split.
Qed.

(** A call that leaves the file system as it is. *)
Lemma safe_idle {A B} (I : FS → Prop) (v : A) (k : res A → io FS B) (Q : res B → FS → Prop) s :
  (∀ s s', chance s s' → I s → I s') → (∀ s, I s → keeps s) → I s →
  (∀ r s, I s → triple Q (k r) s) → triple Q (on_result (sys (fun s => (Ok v, s))) k) s.
Proof.
  intros HI Hk Hs H. apply safe_bind, safe_sys. intros s1 Hc. cbn. split_and!; [by eapply Hk, HI|apply H|apply H]; by eapply HI.
Qed.

Context (encoded : string).
(** The temporary name is not the path, and success means the path was replaced. *)
Definition tidy (n : string) : res unit → FS → Prop := fun r s => keeps s ∧ n ≠ path ∧ (r = Ok tt → read s path = Some encoded).

Lemma abandon_safe n e s : keeps s → n ≠ path → triple (tidy n) (abandon e) s.
Proof. intros H Hn. apply (safe_idle keeps tt); [by apply keeps_chance|done|done|]. by intros _ s' H'. Qed.

Lemma read_chance s s' p : chance s s' → read s' p = read s p.
Proof. intros (E1 & E2 & _). unfold read, live. by rewrite E1, E2. Qed.
Lemma read_live s s' p : live s' !! p = live s !! p → fs_inodes s' = fs_inodes s → read s' p = read s p.
Proof. intros E1 E2. unfold read. by rewrite E1, E2. Qed.

Lemma install_safe n i sync_dir s : apart n i s → fs_inodes s !! i = Some (mkInode encoded true) → K (Some encoded) →
  triple (tidy n) (install path n sync_dir) s.
Proof.
  intros Ha Hi HK. pose (ready s := apart n i s ∧ fs_inodes s !! i = Some (mkInode encoded true)).
  assert (∀ s s', chance s s' → ready s → ready s') as Hready.
  { intros s1 s2 Hc [H1 H2]. split; [by eapply apart_chance|]. destruct Hc as (-> & _). done. }
  assert (∀ s, ready s → keeps s ∧ n ≠ path) as Hk by (by intros s' [(? & _ & _ & ? & _) _]).
  apply (safe_idle ready tt); [done|by intros s' [??]%Hk|done|]. intros [[]|e] s1 H1; [|by destruct (Hk _ H1)].
  apply safe_io_bind, safe_sys. intros s2 Hc2. pose proof (Hready _ _ Hc2 H1) as H2. pose proof H2 as [Ha2 Hi2].
  pose proof Ha2 as (_ & -> & _). cbn -[safe ignoring]. destruct (Hk _ H2) as [Hk2 Hn].
  set (renamed := with_dirs s2 _). assert (keeps renamed) as Hr by (by eapply keeps_rename).
  assert (read renamed path = Some encoded) as Hread.
  { unfold read, renamed, live. cbn. rewrite lookup_insert_eq. cbn. by rewrite Hi2. }
  split_and!; [done| |done]. destruct sync_dir; [|by split].
  apply safe_bind, safe_sys. intros s3 Hc3. pose proof (keeps_chance _ _ Hc3 Hr) as H3. rewrite <-(read_chance _ _ path Hc3) in Hread.
  assert (keeps (with_dirs s3 [live s3])) as H3'.
  { pose proof H3 as (Hne & _). apply keeps_dirs; [done..|]. intros d ->%list_elem_of_singleton. exists (live s3). split; [by apply live_in|done]. }
  cbn. split_and!; [done| |]; split; done.
Qed.

Lemma synced_safe n i sync_dir s : apart n i s → fs_inodes s !! i = Some (mkInode encoded false) → K (Some encoded) →
  triple (tidy n) (synced_then i (install path n sync_dir)) s.
Proof.
  intros Ha Hi HK. apply safe_bind, safe_sys. intros s1 Hc. pose proof (apart_chance _ _ _ _ Hc Ha) as H1.
  destruct Hc as (E & _). rewrite E, Hi. cbn -[safe abandon install]. pose proof H1 as (Hk & _ & _ & Hn & _).
  split_and!; [by eapply keeps_set_file| |by apply abandon_safe].
  apply (install_safe n i); [by apply apart_set_file|apply lookup_insert_eq|done].
Qed.

Lemma written_safe n i sync_dir s : apart n i s → K (Some encoded) →
  triple (tidy n) (written_then i encoded (synced_then i (install path n sync_dir))) s.
Proof.
  intros Ha HK. assert (∀ s, apart n i s → keeps s ∧ n ≠ path) as Hap by (by intros s' (? & _ & _ & ? & _)).
  apply (safe_idle (apart n i) tt); [by apply apart_chance|by intros s' [??]%Hap|done|].
  intros [[]|e] s1 Ha1; [|destruct (Hap _ Ha1); by apply abandon_safe].
  apply safe_bind, safe_sys. intros s2 Hc2. pose proof (apart_chance _ _ _ _ Hc2 Ha1) as Ha2. destruct (Hap _ Ha2) as [Hk2 Hn].
  assert (∀ x, keeps (set_file i x s2)) as Hkeep by (intros x; by eapply keeps_set_file).
  assert (triple (tidy n) (synced_then i (install path n sync_dir)) (set_file i (mkInode encoded false) s2)) as Hs.
  { apply (synced_safe n i); [by apply apart_set_file|apply lookup_insert_eq|done]. }
  destruct (fs_room s2) as [m|]; [destruct (m <? slen encoded)%nat|]; cbn -[safe abandon synced_then];
    (split_and!; [apply Hkeep| |by apply abandon_safe]); [by apply abandon_safe|exact Hs..].
Qed.

(** Whatever fails and wherever the process dies, the path holds what it held, or
    the new contents; and these on success. *)
Definition replaced (r : res unit) (s : FS) : Prop := keeps s ∧ (r = Ok tt → read s path = Some encoded).
Lemma replace_file_safe pattern sync_dir s : keeps s → K (Some encoded) →
  ¬ K None ∨ (∀ suffix, (Dir path +:+ "/" +:+ pattern) +:+ suffix ≠ path) →
  triple replaced (replace_file path pattern sync_dir encoded) s.
Proof.
  intros Hs HK Hname. apply (safe_idle keeps tt); [by apply keeps_chance|done|done|]. intros [[]|e] s1 H1; [|done].
  apply safe_io_bind. intros s2 Hc. pose proof (keeps_chance _ _ Hc H1) as H2. split; [|by intros r [= <-]].
  intros r s3. cbn -[safe on_result ignoring written_then]. case_bool_decide as Hf; [done|]. intros [= <- <-]. apply eq_None_not_Some in Hf.
  pose proof (apart_create _ _ H2 (match Hname with or_introl H => or_introl H | or_intror H => or_intror (H _) end) Hf) as Ha. split; [by apply Ha|]. cbn -[safe on_result ignoring written_then].
  apply safe_bind. eapply safe_mono; [|by apply written_safe]. intros r s4 (Hk & Hn & Hread).
  apply safe_bind, safe_sys. intros s5 Hc5. pose proof (keeps_chance _ _ Hc5 Hk) as H5. rewrite <-(read_chance _ _ path Hc5) in Hread. cbn.
  assert (keeps (with_dirs s5 (delete ((Dir path +:+ String "/" pattern) +:+ fs_suffix s2) (live s5) :: fs_dirs s5))) as H5' by (by apply keeps_remove).
  split_and!; [done|split; [done|]|by split]. intros Hr. rewrite <-(Hread Hr). apply read_live; [|done]. cbn. by rewrite lookup_delete_ne.
Qed.

Lemma replaced_chance r s s' : chance s s' → replaced r s → replaced r s'.
Proof. intros Hc [H1 H2]. split; [by eapply keeps_chance|]. by rewrite (read_chance _ _ path Hc). Qed.
End Replace.

(** Running to the end is one way to go. *)
Lemma run_runs_to {A} (p : prog FS A) s a s' : run p s = Some (a, s') → runs_to p s s'.
Proof. intros H. eexists. by apply run_exec. Qed.
Lemma safe_run {A} (G : relation FS) (Q : A → FS → Prop) (p : prog FS A) s a s' :
  safe chance G Q p s → run p s = Some (a, s') → Q a s'.
Proof.
  revert s. induction p as [x|R f fl k IH]; intros s; cbn; [by intros H [= <- <-]|].
  intros H. destruct (H s (reflexivity s)) as [H1 _]. destruct (f s) as [[r s1]|] eqn:E; [|done].
  destruct (H1 r s1 eq_refl) as [_ Hk]. by apply IH.
Qed.
