(* ===== verification/Migrate.v ===== *)
(** * [store.Open]: the schema and its migrations

    What the store's statements change of the database's catalogue: which tables
    and indexes exist with which columns, which migrations are recorded, and the
    rows the migrations touch.  Any number of processes may open one file at once
    and any of them may fail or die between two statements.  Every migration is
    applied once, in its own transaction, and an [Open] that succeeds leaves the
    schema that [Store] is written against. *)
From S2P Require Import Prelude GoText Prog Json World.

(** ** The data source name *)
(** [url.QueryEscape] *)
Definition unreserved (c : ascii) : bool :=
  is_digit c || ((97 <=? lower_ord c) && (lower_ord c <=? 122)) || ceqb c "-" || ceqb c "_" || ceqb c "." || ceqb c "~".
Definition hex_upper (d : Z) : ascii := ascii_of_N (Z.to_N (if d <? 10 then 48 + d else 55 + d)).
Fixpoint QueryEscape (s : string) : string :=
  match s with
  | EmptyString => ""
  | String c s' =>
      (if unreserved c then String c "" else if ceqb c " " then "+"
       else String "%" (String (hex_upper (ord c / 16)) (String (hex_upper (ord c mod 16)) ""))) +:+ QueryEscape s'
  end.
Definition starts_with (prefix s : string) : bool := String.eqb (stake (slen prefix) s) prefix.
Definition in_memory (dsn : string) : bool := starts_with "file::memory:" dsn || String.eqb dsn ":memory:".
Definition pragmas (dsn : string) : list string :=
  ["foreign_keys(1)"; "busy_timeout(5000)"] ++ (if in_memory dsn then [] else ["journal_mode(WAL)"; "synchronous(NORMAL)"]).
Fixpoint encode_pragmas (l : list string) : string :=
  match l with
  | [] => ""
  | [p] => "_pragma=" +:+ QueryEscape p
  | p :: l' => "_pragma=" +:+ QueryEscape p +:+ "&" +:+ encode_pragmas l'
  end.
Definition source_name (dsn0 : string) : string :=
  let dsn := if String.eqb dsn0 "" then "file::memory:" else dsn0 in
  let sep := if has_char (fun c => ceqb c "?") dsn then "&" else "?" in
  dsn +:+ sep +:+ encode_pragmas (pragmas dsn).

(** ** The catalogue

    [cat_expires] are the rows of [offers]: when they were created and, if the
    column is there and not NULL, when they expire.  [cat_clusters] are the rows of
    [settlement_requests] with the column [cluster] once it is there. *)
Record Catalog := mkCatalog {
  cat_tables : gmap string (list string); cat_indexes : list string; cat_applied : gmap Z string;
  cat_expires : gmap string (time * option time); cat_clusters : gmap string (option string) }.

Inductive statement :=
  | CreateTable (table : string) (columns : list string)
  | CreateIndex (index table : string) (columns : list string).

Definition with_tables (c : Catalog) t : Catalog := mkCatalog t (cat_indexes c) (cat_applied c) (cat_expires c) (cat_clusters c).
Definition with_index (c : Catalog) i : Catalog := mkCatalog (cat_tables c) (i :: cat_indexes c) (cat_applied c) (cat_expires c) (cat_clusters c).
Definition with_applied (c : Catalog) v n : Catalog :=
  mkCatalog (cat_tables c) (cat_indexes c) (<[v := n]> (cat_applied c)) (cat_expires c) (cat_clusters c).

(** The columns of a table that are there. *)
Definition has_columns (c : Catalog) (table : string) (columns : list string) : bool :=
  match cat_tables c !! table with
  | Some have => forallb (fun x => bool_decide (x ∈ have)) columns
  | None => false
  end.

(** [CREATE ... IF NOT EXISTS]; an index over a column that is not there is an error. *)
Definition execute (s : statement) (c : Catalog) : res Catalog :=
  match s with
  | CreateTable table columns =>
      match cat_tables c !! table with
      | Some _ => Ok c
      | None => Ok (with_tables c (<[table := columns]> (cat_tables c)))
      end
  | CreateIndex index table columns =>
      if bool_decide (index ∈ cat_indexes c) then Ok c
      else if has_columns c table columns then Ok (with_index c index) else Err [ESQL]
  end.
(** [ALTER TABLE ... ADD COLUMN]: an error when the column exists. *)
Definition add_column (table column : string) (c : Catalog) : res Catalog :=
  match cat_tables c !! table with
  | None => Err [ESQL]
  | Some have => if bool_decide (column ∈ have) then Err [ESQL] else Ok (with_tables c (<[table := have ++ [column]]> (cat_tables c)))
  end.

(** [schema.sql] *)
Definition schemaSQL : list statement := [
  CreateTable "agents" ["id"; "name"; "description"; "version"; "url"; "public_key"; "card"; "status"; "created_at"; "updated_at"];
  CreateIndex "agents_status_idx" "agents" ["status"];
  CreateTable "offers" ["id"; "agent_id"; "direction"; "description"; "capabilities"; "price_amount"; "price_mint"; "settlement_modes";
    "status"; "idempotency_key"; "created_at"; "updated_at"];
  CreateIndex "offers_idempotency_idx" "offers" ["idempotency_key"];
  CreateIndex "offers_agent_idx" "offers" ["agent_id"; "status"];
  CreateIndex "offers_discovery_idx" "offers" ["direction"; "status"; "price_mint"];
  CreateTable "trades" ["id"; "offer_id"; "buyer_agent_id"; "seller_agent_id"; "description"; "amount"; "mint"; "settlement_mode"; "state";
    "idempotency_key"; "created_at"; "updated_at"];
  CreateIndex "trades_idempotency_idx" "trades" ["idempotency_key"];
  CreateIndex "trades_buyer_idx" "trades" ["buyer_agent_id"; "state"];
  CreateIndex "trades_seller_idx" "trades" ["seller_agent_id"; "state"];
  CreateIndex "trades_offer_idx" "trades" ["offer_id"];
  CreateIndex "trades_state_updated_idx" "trades" ["state"; "updated_at"];
  CreateTable "trade_acceptances" ["trade_id"; "agent_id"; "created_at"];
  CreateTable "trade_events" ["seq"; "trade_id"; "actor_agent_id"; "type"; "from_state"; "to_state"; "detail"; "created_at"];
  CreateIndex "trade_events_trade_idx" "trade_events" ["trade_id"; "seq"];
  CreateTable "settlement_requests" ["id"; "trade_id"; "unsigned_tx"; "blockhash"; "last_valid"; "buyer_ata"; "seller_ata"; "created_ata";
    "fee_lamports"; "fee_wallet"; "status"; "signature"; "created_at"; "updated_at"; "expires_at"];
  CreateIndex "settlement_requests_live_idx" "settlement_requests" ["trade_id"; "status"];
  CreateIndex "settlement_requests_trade_idx" "settlement_requests" ["trade_id"; "created_at"];
  CreateIndex "settlement_requests_signature_idx" "settlement_requests" ["signature"];
  CreateTable "ledger_entries" ["seq"; "trade_id"; "payload"; "payload_hash"; "prev_hash"; "hash"; "created_at"];
  CreateIndex "ledger_trade_idx" "ledger_entries" ["trade_id"];
  CreateTable "receipts" ["id"; "trade_id"; "jws"; "created_at"];
  CreateTable "auth_challenges" ["id"; "agent_id"; "nonce"; "expires_at"; "consumed_at"]].

Record migration := mkMigration { m_version : Z; m_name : string; m_apply : Catalog → res Catalog }.

(** A new column with a default fills the rows that are there. *)
Definition add_cluster (c : Catalog) : res Catalog :=
  c ← add_column "settlement_requests" "cluster" c;
  Ok (mkCatalog (cat_tables c) (cat_indexes c) (cat_applied c) (cat_expires c) ((fun _ => Some "pre-phase-3") <$> cat_clusters c)).
Definition add_expiry (c : Catalog) : res Catalog :=
  c ← add_column "offers" "expires_at" c;
  let c := mkCatalog (cat_tables c) (cat_indexes c) (cat_applied c)
    ((fun r => (r.1, Some (default (r.1 + 24 * hour) r.2))) <$> cat_expires c) (cat_clusters c) in
  execute (CreateIndex "offers_expiry_idx" "offers" ["status"; "expires_at"]) c.

Definition migrations : list migration := [
  mkMigration 1 "settlement_requests_cluster" add_cluster;
  mkMigration 2 "agent_limits" (execute (CreateTable "agent_limits" ["agent_id"; "per_trade_usd"; "per_day_usd"; "raised_at"]));
  mkMigration 3 "agent_retirements"
    (execute (CreateTable "agent_retirements" ["agent_id"; "reason"; "actor"; "retired_at"; "restored_at"; "restored_actor"]));
  mkMigration 4 "agent_attestations" (fun c =>
    c ← execute (CreateTable "agent_attestations" ["agent_id"; "card_signature"; "card_signed_at"; "market_signature"; "updated_at"]) c;
    c ← execute (CreateTable "offer_attestations" ["offer_id"; "agent_id"; "signature"; "signed_at"]) c;
    execute (CreateIndex "offer_attestations_agent" "offer_attestations" ["agent_id"]) c);
  mkMigration 5 "capability_probes"
    (execute (CreateTable "capability_probes" ["agent_id"; "target"; "results"; "passed"; "signature"; "signed_at"; "checked_at"; "updated_at"]));
  mkMigration 6 "offer_expiry" add_expiry].

(** ** Opening *)
(** One statement, or one transaction: all of it or nothing. *)
Definition change (f : Catalog → res Catalog) : io Catalog unit :=
  Atomic (fun c => Some (match f c with Ok c' => (Ok tt, c') | Err e => (Err e, c) end)) (Some (Err [EIO])) Ret.
Definition select {A} (f : Catalog → A) : io Catalog A := Atomic (fun c => Some (Ok (f c), c)) (Some (Err [EIO])) Ret.

Definition applyMigration (m : migration) : io Catalog unit :=
  exists_ <~ select (fun c => bool_decide (is_Some (cat_applied c !! m_version m)));;
  if (exists_ : bool) then ok tt
  else change (fun c =>
    match cat_applied c !! m_version m with
    | Some _ => Ok c
    | None => c' ← m_apply m c; Ok (with_applied c' (m_version m) (m_name m))
    end).

Definition each {A} (f : A → io Catalog unit) : list A → io Catalog unit := io_fold (fun _ x => f x) tt.
Definition schema_migrations : statement := CreateTable "schema_migrations" ["version"; "name"; "applied_at"].
Definition migrate : io Catalog unit :=
  _ <~ each (fun s => change (execute s)) schemaSQL;;
  _ <~ change (execute schema_migrations);;
  each applyMigration migrations.

(** [sql.Open] and the ping, then the migrations. *)
Definition store_Open : io Catalog unit := _ <~ select (fun _ => tt);; migrate.

Definition emptyCatalog : Catalog := mkCatalog ∅ [] ∅ ∅ ∅.
Example migrates_empty : (fun x => x.1) <$> run migrate emptyCatalog = Some (Ok tt).
Proof. vm_compute. reflexivity. Qed.
Example opens_file : source_name "file:data/vtessera.db" =
  "file:data/vtessera.db?_pragma=foreign_keys%281%29&_pragma=busy_timeout%285000%29&_pragma=journal_mode%28WAL%29&_pragma=synchronous%28NORMAL%29".
Proof. vm_compute. reflexivity. Qed.

(** ** What a file written by any version looks like *)
Definition tables_of (l : list statement) : list (string * list string) :=
  omap (fun s => match s with CreateTable t cols => Some (t, cols) | _ => None end) l.
Definition migrated_tables : list (Z * string * list string) := [
  (2, "agent_limits", ["agent_id"; "per_trade_usd"; "per_day_usd"; "raised_at"]);
  (3, "agent_retirements", ["agent_id"; "reason"; "actor"; "retired_at"; "restored_at"; "restored_actor"]);
  (4, "agent_attestations", ["agent_id"; "card_signature"; "card_signed_at"; "market_signature"; "updated_at"]);
  (4, "offer_attestations", ["offer_id"; "agent_id"; "signature"; "signed_at"]);
  (5, "capability_probes", ["agent_id"; "target"; "results"; "passed"; "signature"; "signed_at"; "checked_at"; "updated_at"])].
Definition all_tables : list (string * list string) :=
  tables_of schemaSQL ++ map (fun x => (x.1.2, x.2)) migrated_tables ++ tables_of [schema_migrations].
(** The columns migrations add, by version. *)
Definition added_columns : list (Z * string * string) := [(1, "settlement_requests", "cluster"); (6, "offers", "expires_at")].

(** The indexes migrations create, by version. *)
Definition migrated_indexes : list (Z * string) := [(4, "offer_attestations_agent"); (6, "offers_expiry_idx")].

Definition applied (c : Catalog) (v : Z) : Prop := is_Some (cat_applied c !! v).

Record tidy (c : Catalog) : Prop := mkTidy {
  td_columns : ∀ t cols have, (t, cols) ∈ all_tables → cat_tables c !! t = Some have → cols ⊆ have;
  td_tables : ∀ v t cols, (v, t, cols) ∈ migrated_tables → applied c v → is_Some (cat_tables c !! t);
  td_added : ∀ v t col, (v, t, col) ∈ added_columns → applied c v → is_Some (cat_tables c !! t);
  td_column : ∀ v t col have, (v, t, col) ∈ added_columns → cat_tables c !! t = Some have → (col ∈ have ↔ applied c v);
  td_indexes : ∀ v i, (v, i) ∈ migrated_indexes → applied c v → i ∈ cat_indexes c;
  td_expires : applied c 6 → map_Forall (fun _ r => is_Some r.2) (cat_expires c);
  td_clusters : applied c 1 → map_Forall (fun _ r => is_Some r) (cat_clusters c) }.

Definition grows (c c' : Catalog) : Prop :=
  (∀ t have, cat_tables c !! t = Some have → ∃ have', cat_tables c' !! t = Some have' ∧ have ⊆ have') ∧
  (∀ v, applied c v → applied c' v) ∧ cat_indexes c ⊆ cat_indexes c'.
#[export] Instance grows_refl : Reflexive grows.
Proof. intros c. split; [|done]. intros t have H. by exists have. Qed.
#[export] Instance grows_trans : Transitive grows.
Proof.
  intros c1 c2 c3 (H1 & H2 & H2') (H3 & H4 & H4'). split_and!; [|by auto|set_solver]. intros t have H. destruct (H1 t have H) as (h2 & E2 & S2).
  destruct (H3 t h2 E2) as (h3 & E3 & S3). exists h3. split; [done|]. set_solver.
Qed.
Definition rely (c c' : Catalog) : Prop := tidy c → tidy c' ∧ grows c c'.
#[export] Instance rely_refl : Reflexive rely.
Proof. by intros c. Qed.
#[export] Instance rely_trans : Transitive rely.
Proof. intros c1 c2 c3 H1 H2 T. destruct (H1 T) as [T2 G2]. destruct (H2 T2) as [T3 G3]. split; [done|by etrans]. Qed.

(** Tables differ in name, and the added columns are in none of them. *)
Lemma table_unique t cols cols' : (t, cols) ∈ all_tables → (t, cols') ∈ all_tables → cols = cols'.
Proof.
  assert (forallb (fun a => forallb (fun b => negb (String.eqb a.1 b.1) || bool_decide (a.2 = b.2)) all_tables) all_tables = true) as H by (vm_compute; reflexivity).
  rewrite forallb_forall in H. intros Ha%list_elem_of_In Hb%list_elem_of_In. specialize (H _ Ha). rewrite forallb_forall in H.
  specialize (H _ Hb). cbn in H. rewrite String.eqb_refl in H. by apply bool_decide_eq_true in H.
Qed.
Lemma added_fresh v t col cols : (v, t, col) ∈ added_columns → (t, cols) ∈ all_tables → (col ∉ cols) ∧ v ∈ [1; 6].
Proof.
  assert (forallb (fun a => forallb (fun b => negb (String.eqb a.1.2 b.1) || bool_decide ((a.2 ∉ b.2) ∧ a.1.1 ∈ [1; 6])) all_tables) added_columns = true) as H
    by (vm_compute; reflexivity).
  rewrite forallb_forall in H. intros Ha%list_elem_of_In Hb%list_elem_of_In. specialize (H _ Ha). rewrite forallb_forall in H.
  specialize (H _ Hb). cbn in H. rewrite String.eqb_refl in H. by apply bool_decide_eq_true in H.
Qed.

(** Creating a table, or an index over columns that are there. *)
Lemma create_table_tidy t cols c : (t, cols) ∈ all_tables → tidy c →
  ∃ c', execute (CreateTable t cols) c = Ok c' ∧ tidy c' ∧ grows c c' ∧ is_Some (cat_tables c' !! t) ∧ cat_applied c' = cat_applied c.
Proof.
  intros Hin T. cbn. destruct (cat_tables c !! t) as [have|] eqn:Ht; [exists c; by split_and!|]. eexists. split; [done|]. split_and!.
  - destruct T as [T1 T2 T3 T4 T5 T6 T7]. constructor; cbn; try done.
    + intros t' cols' have Hin' H. destruct (decide (t' = t)) as [->|]; [|rewrite lookup_insert_ne in H by done; by eapply T1].
      rewrite lookup_insert_eq in H. injection H as <-. by rewrite (table_unique _ _ _ Hin' Hin).
    + intros v t' cols' Hin' Ha. destruct (decide (t' = t)) as [->|]; [rewrite lookup_insert_eq; by eexists|]. rewrite lookup_insert_ne by done. by eapply T2.
    + intros v t' col Hin' Ha. destruct (decide (t' = t)) as [->|]; [rewrite lookup_insert_eq; by eexists|]. rewrite lookup_insert_ne by done. by eapply T3.
    + intros v t' col have Hin' H. destruct (decide (t' = t)) as [->|]; [|rewrite lookup_insert_ne in H by done; by eapply T4].
      rewrite lookup_insert_eq in H. injection H as <-. destruct (added_fresh _ _ _ _ Hin' Hin) as [Hf _]. split; [done|].
      intros Ha. destruct (T3 _ _ _ Hin' Ha) as [? E]. by rewrite Ht in E.
  - split_and!; [|done|done]. cbn. intros t' have H. exists have. split; [|done]. rewrite lookup_insert_ne; [done|]. by intros ->; rewrite Ht in H.
  - cbn. rewrite lookup_insert_eq. by eexists.
  - done.
Qed.

Lemma create_index_tidy i t cols c : has_columns c t cols = true → tidy c →
  ∃ c', execute (CreateIndex i t cols) c = Ok c' ∧ tidy c' ∧ grows c c' ∧ i ∈ cat_indexes c' ∧ cat_applied c' = cat_applied c.
Proof.
  intros Hc T. cbn. case_bool_decide as Hi; [exists c; by split_and!|]. rewrite Hc. eexists. split; [done|].
  split_and!; [|split_and!; [|done|]; cbn; [intros t' have H; by exists have|set_solver]|cbn; set_solver|done].
  destruct T as [T1 T2 T3 T4 T5 T6 T7]. constructor; cbn; try done. intros v i' Hin Ha. right. by eapply T5.
Qed.

(** What a table of the schema lists is there whenever the table is. *)
Lemma has_columns_tidy c t cols cols' : tidy c → (t, cols') ∈ all_tables → is_Some (cat_tables c !! t) →
  forallb (fun x => bool_decide (x ∈ cols')) cols = true → has_columns c t cols = true.
Proof.
  intros T Hin [have Ht] Hall. unfold has_columns. rewrite Ht. rewrite forallb_forall in *. intros x Hx%Hall.
  apply bool_decide_eq_true in Hx. apply bool_decide_eq_true. by eapply (td_columns c T).
Qed.

(** ** Recording a migration *)
Lemma applied_with c v n v' : applied (with_applied c v n) v' ↔ v' = v ∨ applied c v'.
Proof.
  unfold applied, with_applied. cbn. destruct (decide (v' = v)) as [->|]; [rewrite lookup_insert_eq; split; [by left|by eexists]|].
  rewrite lookup_insert_ne by done. split; [by right|by intros [?|?]].
Qed.

Lemma record_tidy c v n :
  (∀ t cols, (v, t, cols) ∈ migrated_tables → is_Some (cat_tables c !! t)) → (∀ i, (v, i) ∈ migrated_indexes → i ∈ cat_indexes c) →
  v ∉ [1; 6] → tidy c → tidy (with_applied c v n) ∧ grows c (with_applied c v n).
Proof.
  intros Ht Hi Hv [T1 T2 T3 T4 T5 T6 T7].
  assert (∀ v' t col, (v', t, col) ∈ added_columns → v' ≠ v) as Hne.
  { intros v' t col Hin ->. apply Hv. unfold added_columns in Hin. rewrite !elem_of_cons, elem_of_nil in Hin. destruct Hin as [[= -> _ _]|[[= -> _ _]|[]]]; [left|right; left]. }
  split; [constructor; cbn|split_and!; [intros t have H; by exists have|intros v' H; apply applied_with; by right|done]].
  - exact T1.
  - intros v' t cols Hin [->|Ha]%applied_with; [by eapply Ht|by eapply T2].
  - intros v' t cols Hin [->|Ha]%applied_with; [by destruct (Hne _ _ _ Hin)|by eapply T3].
  - intros v' t col have Hin H. rewrite applied_with, (T4 _ _ _ _ Hin H). split; [by right|]. intros [->|?]; [by destruct (Hne _ _ _ Hin)|done].
  - intros v' i Hin [->|Ha]%applied_with; [by eapply Hi|by eapply T5].
  - intros [E|Ha]%applied_with; [destruct Hv; rewrite <-E; by right; left|by apply T6].
  - intros [E|Ha]%applied_with; [destruct Hv; rewrite <-E; by left|by apply T7].
Qed.

(** ** Each migration, applied to a tidy catalogue that has the schema *)
Definition present (s : statement) (c : Catalog) : Prop :=
  match s with
  | CreateTable t _ => is_Some (cat_tables c !! t)
  | CreateIndex i _ _ => i ∈ cat_indexes c
  end.
Lemma present_grows s c c' : grows c c' → present s c → present s c'.
Proof.
  intros (H1 & _ & H3). destruct s as [t cols|i t cols]; cbn; [|set_solver].
  intros [have H]. destruct (H1 _ _ H) as (have' & -> & _). by eexists.
Qed.
Definition based (c : Catalog) : Prop := ∀ s, s ∈ schemaSQL → present s c.
Lemma based_grows c c' : grows c c' → based c → based c'.
Proof. intros Hg Hb s Hs. by eapply present_grows, Hb. Qed.

Definition applies_in (m : migration) (c : Catalog) : Prop :=
  ∃ c', m_apply m c = Ok c' ∧ tidy (with_applied c' (m_version m) (m_name m)) ∧ grows c (with_applied c' (m_version m) (m_name m)).

(** A migration that creates tables and indexes only. *)
Lemma record_applies m c c' : m_apply m c = Ok c' → tidy c' → grows c c' →
  (∀ t cols, (m_version m, t, cols) ∈ migrated_tables → is_Some (cat_tables c' !! t)) →
  (∀ i, (m_version m, i) ∈ migrated_indexes → i ∈ cat_indexes c') → m_version m ∉ [1; 6] → applies_in m c.
Proof.
  intros E T G Ht Hi Hv. exists c'. split; [done|]. destruct (record_tidy c' _ (m_name m) Ht Hi Hv T) as [T' G']. split; [done|]. by etrans.
Qed.

Ltac members := rewrite ?elem_of_cons, ?elem_of_nil in *; naive_solver.

Lemma creates_table v name t cols c : (∀ t' cols', (v, t', cols') ∈ migrated_tables → t' = t) → (∀ i, (v, i) ∉ migrated_indexes) →
  v ∉ [1; 6] → (t, cols) ∈ all_tables → tidy c → applies_in (mkMigration v name (execute (CreateTable t cols))) c.
Proof.
  intros Ht Hi Hv Hin T. destruct (create_table_tidy t cols c Hin T) as (c' & E & T' & G & Hs & _).
  eapply (record_applies _ c c'); cbn [m_version m_apply]; [exact E|exact T'|exact G| | |exact Hv].
  - by intros t' cols' ->%Ht.
  - by intros i []%Hi.
Qed.

Lemma attestations_apply name c : tidy c → applies_in (mkMigration 4 name (fun c =>
    c ← execute (CreateTable "agent_attestations" ["agent_id"; "card_signature"; "card_signed_at"; "market_signature"; "updated_at"]) c;
    c ← execute (CreateTable "offer_attestations" ["offer_id"; "agent_id"; "signature"; "signed_at"]) c;
    execute (CreateIndex "offer_attestations_agent" "offer_attestations" ["agent_id"]) c)) c.
Proof.
  intros T.
  destruct (create_table_tidy "agent_attestations" ["agent_id"; "card_signature"; "card_signed_at"; "market_signature"; "updated_at"] c)
    as (c1 & E1 & T1 & G1 & H1 & _); [by apply (bool_decide_unpack _); vm_compute|done|].
  destruct (create_table_tidy "offer_attestations" ["offer_id"; "agent_id"; "signature"; "signed_at"] c1)
    as (c2 & E2 & T2 & G2 & H2 & _); [by apply (bool_decide_unpack _); vm_compute|done|].
  destruct (create_index_tidy "offer_attestations_agent" "offer_attestations" ["agent_id"] c2) as (c3 & E3 & T3 & G3 & H3 & _); [|done|].
  { eapply has_columns_tidy; [done| |done|]; [by apply (bool_decide_unpack (("offer_attestations", ["offer_id"; "agent_id"; "signature"; "signed_at"]) ∈ all_tables)); vm_compute|by vm_compute]. }
  eapply (record_applies _ c c3); cbn [m_version m_apply].
  - unfold mbind, res_bind. rewrite E1. cbv beta iota. rewrite E2. exact E3.
  - exact T3.
  - etrans; [exact G1|]. by etrans.
  - intros t cols Hin. assert (t = "agent_attestations" ∨ t = "offer_attestations") as [-> | ->] by (unfold migrated_tables in Hin; members).
    + eapply (present_grows (CreateTable _ [])), H1. by etrans.
    + by eapply (present_grows (CreateTable _ [])), H2.
  - intros i Hin. assert (i = "offer_attestations_agent") as -> by (unfold migrated_indexes in Hin; members). done.
  - set_solver.
Qed.

(** *** A new column *)
Lemma add_column_new v t col c : (v, t, col) ∈ added_columns → tidy c → ¬ applied c v → is_Some (cat_tables c !! t) →
  ∃ have, cat_tables c !! t = Some have ∧ add_column t col c = Ok (with_tables c (<[t := have ++ [col]]> (cat_tables c))).
Proof.
  intros Hin T Ha [have Ht]. exists have. split; [done|]. unfold add_column. rewrite Ht. case_bool_decide as Hc; [|done].
  by apply (td_column c T _ _ _ _ Hin Ht) in Hc.
Qed.

(** The added column of a version, and versions, determine each other. *)
Lemma added_inv v t col v' t' col' : (v, t, col) ∈ added_columns → (v', t', col') ∈ added_columns →
  (v = v' ↔ t = t') ∧ (t = t' → col = col').
Proof.
  assert (forallb (fun a => forallb (fun b => bool_decide ((a.1.1 = b.1.1 ↔ a.1.2 = b.1.2) ∧ (a.1.2 = b.1.2 → a.2 = b.2))) added_columns) added_columns = true) as H
    by (vm_compute; reflexivity).
  rewrite forallb_forall in H. intros Ha%list_elem_of_In Hb%list_elem_of_In. specialize (H _ Ha). rewrite forallb_forall in H.
  specialize (H _ Hb). by apply bool_decide_eq_true in H.
Qed.

Lemma column_tidy v name t col have c c' :
  (v, t, col) ∈ added_columns → (∀ t' cols, (v, t', cols) ∉ migrated_tables) → tidy c → cat_tables c !! t = Some have →
  cat_tables c' = <[t := have ++ [col]]> (cat_tables c) → cat_applied c' = cat_applied c → cat_indexes c ⊆ cat_indexes c' →
  (∀ i, (v, i) ∈ migrated_indexes → i ∈ cat_indexes c') →
  (v = 6 ∨ applied c 6 → map_Forall (fun _ r => is_Some r.2) (cat_expires c')) →
  (v = 1 ∨ applied c 1 → map_Forall (fun _ r => is_Some r) (cat_clusters c')) →
  tidy (with_applied c' v name) ∧ grows c (with_applied c' v name).
Proof.
  intros Hin Hnot [T1 T2 T3 T4 T5 T6 T7] Ht Etabs Eapp Hidx Hi H6 H1.
  assert (∀ v', applied (with_applied c' v name) v' ↔ v' = v ∨ applied c v') as Happ.
  { intros v'. rewrite applied_with. unfold applied. by rewrite Eapp. }
  assert (∀ t' have', cat_tables c' !! t' = Some have' → (t' ≠ t ∧ cat_tables c !! t' = Some have') ∨ (t' = t ∧ have' = have ++ [col])) as Hold.
  { intros t' have'. rewrite Etabs. destruct (decide (t' = t)) as [->|]; [rewrite lookup_insert_eq; intros [= <-]; by right|].
    rewrite lookup_insert_ne by done. by left. }
  assert (∀ t', is_Some (cat_tables c !! t') → is_Some (cat_tables c' !! t')) as Hkeep.
  { intros t' Hs. rewrite Etabs. destruct (decide (t' = t)) as [->|]; [rewrite lookup_insert_eq; by eexists|by rewrite lookup_insert_ne]. }
  split; [constructor; cbn|split_and!; cbn].
  - intros t' cols have' Hall [[? H]|[-> ->]]%Hold; [by eapply T1|]. apply list_subseteq_app_l. by apply (T1 _ _ _ Hall).
  - intros v' t' cols Hm [->|Ha]%Happ; [by destruct (Hnot _ _ Hm)|by eapply Hkeep, T2].
  - intros v' t' col' Hm [->|Ha]%Happ; [|by eapply Hkeep, T3]. destruct (added_inv _ _ _ _ _ _ Hin Hm) as [[Htt _] _].
    rewrite <-Htt by done. apply Hkeep. by eexists.
  - intros v' t' col' have' Hm H. rewrite Happ. destruct (added_inv _ _ _ _ _ _ Hin Hm) as [Hvt Hcc].
    destruct (Hold _ _ H) as [[Hne Hc]|[-> ->]].
    + rewrite (T4 _ _ _ _ Hm Hc). split; [by right|]. intros [->|?]; [|done]. by destruct Hne; apply symmetry, Hvt.
    + rewrite <-(Hcc eq_refl). split; [|intros _; apply elem_of_app; right; apply list_elem_of_here]. intros _. left. by apply symmetry, Hvt.
  - intros v' i Hm [->|Ha]%Happ; [by apply Hi|]. by eapply Hidx, T5.
  - intros Ha%Happ. apply H6. by destruct Ha; [left|right].
  - intros Ha%Happ. apply H1. by destruct Ha; [left|right].
  - intros t' h H. rewrite Etabs. destruct (decide (t' = t)) as [->|]; [|rewrite lookup_insert_ne by done; by exists h].
    rewrite lookup_insert_eq. rewrite Ht in H. injection H as <-. exists (have ++ [col]). split; [done|]. by apply list_subseteq_app_l.
  - intros v' Ha. apply Happ. by right.
  - done.
Qed.

Lemma cluster_applies name c : tidy c → based c → ¬ applied c 1 → applies_in (mkMigration 1 name add_cluster) c.
Proof.
  intros T B Ha. assert ((1, "settlement_requests", "cluster") ∈ added_columns) as Hin by (unfold added_columns; set_solver).
  assert (is_Some (cat_tables c !! "settlement_requests")) as Ht.
  { apply (B (CreateTable "settlement_requests" ["id"; "trade_id"; "unsigned_tx"; "blockhash"; "last_valid"; "buyer_ata"; "seller_ata"; "created_ata";
    "fee_lamports"; "fee_wallet"; "status"; "signature"; "created_at"; "updated_at"; "expires_at"])). unfold schemaSQL. repeat (apply list_elem_of_here || apply list_elem_of_further). }
  destruct (add_column_new _ _ _ c Hin T Ha Ht) as (have & Hh & E). eexists. split.
  { cbn [m_apply]. unfold add_cluster. rewrite E. reflexivity. }
  eapply column_tidy; [exact Hin| |exact T|exact Hh|done|done|done| | |].
  - intros t' cols Hm. unfold migrated_tables in Hm. members.
  - intros i Hm. unfold migrated_indexes in Hm. members.
  - intros [?|H6]; [done|]. by apply (td_expires c T).
  - intros _ k r. cbn. rewrite lookup_fmap. destruct (cat_clusters c !! k); cbn; [|done]. intros [= <-]. by eexists.
Qed.

Lemma expiry_applies name c : tidy c → based c → ¬ applied c 6 → applies_in (mkMigration 6 name add_expiry) c.
Proof.
  intros T B Ha. assert ((6, "offers", "expires_at") ∈ added_columns) as Hin by (unfold added_columns; set_solver).
  assert (is_Some (cat_tables c !! "offers")) as Ht.
  { apply (B (CreateTable "offers" ["id"; "agent_id"; "direction"; "description"; "capabilities"; "price_amount"; "price_mint"; "settlement_modes";
    "status"; "idempotency_key"; "created_at"; "updated_at"])). unfold schemaSQL. repeat (apply list_elem_of_here || apply list_elem_of_further). }
  destruct (add_column_new _ _ _ c Hin T Ha Ht) as (have & Hh & E).
  assert ("status" ∈ have) as Hst.
  { assert (("offers", ["id"; "agent_id"; "direction"; "description"; "capabilities"; "price_amount"; "price_mint"; "settlement_modes";
      "status"; "idempotency_key"; "created_at"; "updated_at"]) ∈ all_tables) as Hall by (apply (bool_decide_unpack _); vm_compute; done).
    apply (td_columns c T _ _ _ Hall Hh). apply (bool_decide_unpack _). vm_compute. done. }
  set (mid := mkCatalog (<["offers" := have ++ ["expires_at"]]> (cat_tables c)) (cat_indexes c) (cat_applied c)
    ((fun r => (r.1, Some (default (r.1 + 24 * hour) r.2))) <$> cat_expires c) (cat_clusters c)).
  assert (has_columns mid "offers" ["status"; "expires_at"] = true) as Hc.
  { unfold has_columns, mid. cbn [cat_tables]. rewrite lookup_insert_eq. cbn [forallb]. rewrite !bool_decide_eq_true_2 by set_solver. done. }
  assert (∃ c', execute (CreateIndex "offers_expiry_idx" "offers" ["status"; "expires_at"]) mid = Ok c' ∧
    cat_tables c' = cat_tables mid ∧ cat_applied c' = cat_applied mid ∧ cat_expires c' = cat_expires mid ∧ cat_clusters c' = cat_clusters mid ∧
    cat_indexes mid ⊆ cat_indexes c' ∧ "offers_expiry_idx" ∈ cat_indexes c') as (c' & E' & E1 & E2 & E3 & E4 & E5 & E6).
  { unfold execute. case_bool_decide as Hi; [by exists mid|]. rewrite Hc. eexists. split; [done|]. cbn. split_and!; try done; [by apply list_subseteq_cons|apply list_elem_of_here]. }
  exists c'. split.
  { cbn [m_apply]. unfold add_expiry. rewrite E. exact E'. }
  eapply column_tidy; [exact Hin| |exact T|exact Hh|exact E1|exact E2|exact E5| | |].
  - intros t' cols Hm. unfold migrated_tables in Hm. members.
  - intros i Hm. assert (i = "offers_expiry_idx") as -> by (unfold migrated_indexes in Hm; members). done.
  - intros _ k r. rewrite E3. cbn. rewrite lookup_fmap, fmap_Some. intros (x & _ & ->). by eexists.
  - intros [?|H1]; [done|]. rewrite E4. by apply (td_clusters c T).
Qed.

Lemma migration_applies m c : m ∈ migrations → tidy c → based c → ¬ applied c (m_version m) → applies_in m c.
Proof.
  unfold migrations. rewrite !elem_of_cons, elem_of_nil. intros Hm T B Ha.
  destruct Hm as [->|[->|[->|[->|[->|[->|[]]]]]]]; [by apply cluster_applies| | |by apply attestations_apply| |by apply expiry_applies];
  (apply creates_table; [intros t' cols' Hm; unfold migrated_tables in Hm; members|intros i Hm; unfold migrated_indexes in Hm; members|set_solver|
    apply (bool_decide_unpack _); vm_compute; done|exact T]).
Qed.

(** ** Programs that open the store *)
(** An answer: a result for which [P] holds, or the error of the disk. *)
Definition answers {A} (P : A → Catalog → Prop) (r : res A) (c : Catalog) : Prop :=
  tidy c ∧ match r with Ok a => P a c | Err e => e = [EIO] end.

Lemma answers_bind {A B} (P : A → Catalog → Prop) (Q : B → Catalog → Prop) (p : io Catalog A) (k : A → io Catalog B) c :
  tidy c → safe rely rely (answers P) p c →
  (∀ a c', tidy c' → grows c c' → P a c' → safe rely rely (answers Q) (k a) c') → safe rely rely (answers Q) (io_bind p k) c.
Proof.
  intros T Hp Hk. apply safe_io_bind. apply (safe_reaches rely rely) in Hp; [|done]. eapply safe_mono, Hp.
  intros [a|e] c' [HR [T' H]]; [|by split]. destruct (HR T) as [_ G]. by apply Hk.
Qed.

Lemma change_answers f (P : unit → Catalog → Prop) c :
  (∀ c1, tidy c1 → grows c c1 → ∃ c2, f c1 = Ok c2 ∧ tidy c2 ∧ grows c1 c2 ∧ P tt c2) → tidy c →
  safe rely rely (answers P) (change f) c.
Proof.
  intros Hf T. cbn. intros c1 HR. destruct (HR T) as [T1 G1]. destruct (Hf c1 T1 G1) as (c2 & E & T2 & G2 & HP).
  rewrite E. split; [intros r w2 [= <- <-]; by split|intros r [= <-]; by split].
Qed.

(** One statement after the other: what each leaves, later ones keep. *)
Lemma each_answers {A} (K : Catalog → Prop) (D : A → Catalog → Prop) (f : A → io Catalog unit) (seen l : list A) c :
  (∀ c c', grows c c' → K c → K c') → (∀ x c c', grows c c' → D x c → D x c') →
  (∀ pre x post c, l = pre ++ x :: post → tidy c → K c → Forall (fun y => D y c) (seen ++ pre) → safe rely rely (answers (fun _ => D x)) (f x) c) →
  tidy c → K c → Forall (fun y => D y c) seen →
  safe rely rely (answers (fun _ c' => K c' ∧ Forall (fun y => D y c') (seen ++ l))) (each f l) c.
Proof.
  intros HK HD. revert seen c. induction l as [|x l IH]; intros seen c Hf T Kc Hs; [rewrite app_nil_r; by split|].
  unfold each. cbn [io_fold]. apply (answers_bind (fun _ => D x)); [done| |].
  - apply (Hf [] x l); [done..|]. by rewrite app_nil_r.
  - intros [] c' T' G Hx. replace (seen ++ x :: l) with ((seen ++ [x]) ++ l) by by rewrite <-app_assoc. apply IH; [|done|by eapply HK|].
    + intros pre y post c2 -> T2 K2 H2. apply (Hf (x :: pre) y post); [done..|]. by rewrite <-app_assoc in H2.
    + apply Forall_app. split; [|by constructor]. eapply Forall_impl; [exact Hs|]. intros y. by apply HD.
Qed.

(** *** The base schema *)
(** Every index of the schema follows its table, and names its columns. *)
Definition based_on (before : list statement) (s : statement) : bool :=
  match s with
  | CreateTable t cols => bool_decide ((t, cols) ∈ all_tables)
  | CreateIndex _ t cols => existsb (fun '(t', cols') => String.eqb t t' && forallb (fun x => bool_decide (x ∈ cols')) cols) (tables_of before)
  end.
Fixpoint in_order (before l : list statement) : bool :=
  match l with [] => true | s :: l' => based_on before s && in_order (before ++ [s]) l' end.
Lemma in_order_split before pre s post : in_order before (pre ++ s :: post) = true → based_on (before ++ pre) s = true.
Proof.
  revert before. induction pre as [|x pre IH]; cbn; intros before [H1 H2]%andb_prop; [by rewrite app_nil_r|].
  apply IH in H2. by rewrite <-app_assoc in H2.
Qed.
Lemma schema_in_order : in_order [] schemaSQL = true.
Proof. vm_compute. reflexivity. Qed.
Lemma elem_of_tables_of t cols l : (t, cols) ∈ tables_of l ↔ CreateTable t cols ∈ l.
Proof.
  unfold tables_of. rewrite list_elem_of_omap. split; [|intros H; by eexists]. by intros ([] & H & [= <- <-]).
Qed.
Lemma schema_tables t cols : CreateTable t cols ∈ schemaSQL → (t, cols) ∈ all_tables.
Proof. intros H%elem_of_tables_of. unfold all_tables. apply elem_of_app. by left. Qed.

Lemma schema_answers pre s post c : schemaSQL = pre ++ s :: post → tidy c → Forall (fun y => present y c) pre →
  safe rely rely (answers (fun _ => present s)) (change (execute s)) c.
Proof.
  intros E T Hp. apply change_answers; [|done]. intros c1 T1 G1. pose proof schema_in_order as Ho. rewrite E in Ho.
  apply in_order_split in Ho. destruct s as [t cols|i t cols]; cbn in Ho.
  - apply bool_decide_eq_true in Ho. destruct (create_table_tidy t cols c1 Ho T1) as (c2 & ? & ? & ? & ? & _). by exists c2.
  - apply existsb_exists in Ho as ([t' cols'] & Hin%list_elem_of_In%elem_of_tables_of & [Ht Hc]%andb_prop).
    apply String.eqb_eq in Ht as <-. rewrite Forall_forall in Hp.
    destruct (create_index_tidy i t cols c1) as (c2 & ? & ? & ? & ? & _); [|done|by exists c2].
    eapply has_columns_tidy; [done| | |exact Hc].
    + apply schema_tables. rewrite E. apply elem_of_app. by left.
    + by eapply (present_grows (CreateTable t cols')), (Hp _ Hin).
Qed.

(** *** Each migration *)
Lemma applyMigration_answers m c : m ∈ migrations → tidy c → based c →
  safe rely rely (answers (fun _ c' => applied c' (m_version m))) (applyMigration m) c.
Proof.
  intros Hm T B. unfold applyMigration.
  apply (answers_bind (fun (e : bool) c' => e = true → applied c' (m_version m))); [done| |].
  - cbn. intros c1 HR. destruct (HR T) as [T1 G1]. split; [intros r c2 [= <- <-]; split; [done|]|by intros r [= <-]].
    split; [done|]. intros H. by apply bool_decide_eq_true in H.
  - intros [] c1 T1 G1 He; [split; [done|by apply He]|]. apply change_answers; [|done]. intros c2 T2 G2.
    destruct (cat_applied c2 !! m_version m) as [n|] eqn:Ha; [exists c2; split_and!; [done..|by exists n]|].
    destruct (migration_applies m c2 Hm T2) as (c3 & E & T3 & G3).
    + by eapply based_grows, based_grows, B.
    + unfold applied. by rewrite Ha; intros [].
    + rewrite E. eexists. split_and!; [reflexivity|exact T3|exact G3|]. apply applied_with. by left.
Qed.

(** What an [Open] that succeeds has made of the file. *)
Record complete (c : Catalog) : Prop := mkComplete {
  cp_based : based c;
  cp_applied : ∀ m, m ∈ migrations → applied c (m_version m) }.

Lemma complete_grows c c' : grows c c' → complete c → complete c'.
Proof. intros G [B A]. split; [by eapply based_grows|]. intros m Hm. by apply G, A. Qed.

Lemma migrate_answers c : tidy c → safe rely rely (answers (fun _ => complete)) migrate c.
Proof.
  intros T. unfold migrate.
  apply (answers_bind (fun _ c' => True ∧ Forall (fun s => present s c') ([] ++ schemaSQL))); [done| |].
  - apply (each_answers (fun _ => True) present); [done|intros s c1 c2; by apply present_grows| |done|done|by constructor].
    intros pre s post c1 E T1 _ Hp. by eapply schema_answers.
  - intros _ c1 T1 G1 [_ H1]. apply (answers_bind (fun _ _ => True)); [done| |].
    + apply change_answers; [|done]. intros c2 T2 _.
      destruct (create_table_tidy "schema_migrations" ["version"; "name"; "applied_at"] c2) as (c3 & E & T3 & G3 & _); [|done|by exists c3].
      apply (bool_decide_unpack _). vm_compute. done.
    + intros _ c2 T2 G2 _. assert (based c2) as B.
      { intros s Hs. rewrite Forall_forall in H1. by eapply present_grows, H1. }
      eapply safe_mono; [|apply (each_answers based (fun m c' => applied c' (m_version m)) applyMigration [] migrations c2)].
      * intros [[]|e] c3 [T3 H]; (split; [done|]); [|done]. destruct H as [B3 H]. rewrite Forall_forall in H. by split.
      * intros c3 c4. by apply based_grows.
      * intros m c3 c4 (_ & G & _). by apply G.
      * intros pre m post c3 E T3 B3 _. apply applyMigration_answers; [|done..]. rewrite E. apply elem_of_app. right. left.
      * done.
      * done.
      * by constructor.
Qed.

Lemma store_Open_answers c : tidy c → safe rely rely (answers (fun _ => complete)) store_Open c.
Proof.
  intros T. apply (answers_bind (fun _ _ => True)); [done| |intros _ c' T' _ _; by apply migrate_answers].
  cbn. intros c1 HR. destruct (HR T) as [T1 _]. split; [intros r c2 [= <- <-]; by split|by intros r [= <-]].
Qed.

(** C32: any number of processes may open one file at the same time, against servers
    that are already using it, with statements that fail and processes that die
    between statements.  The catalogue stays one that every version of the code
    understands, keeping its tables, columns and indexes; a process for which
    [Open]'s migrations succeeded finds the whole schema, every migration recorded
    exactly once, every offer given a deadline and every settlement request a
    cluster; and no migration ever fails because another process got there first
    (an error can only be the disk's). *)
Theorem migrations_once c0 c (ps : list (io Catalog unit)) : tidy c0 →
  rtc (step rely id (fun p => p = migrate)) (c0, []) (c, ps) →
  tidy c ∧ grows c0 c ∧
  (Ret (Ok tt) ∈ ps → complete c ∧ map_Forall (fun _ r => is_Some r.2) (cat_expires c) ∧ map_Forall (fun _ r => is_Some r) (cat_clusters c)) ∧
  ∀ e, Ret (Err e) ∈ ps → e = [EIO].
Proof.
  intros T0 Hsteps.
  assert (∀ (r : res unit) c c', rely c c' → answers (fun _ => complete) r c → answers (fun _ => complete) r c') as Hans.
  { intros r c1 c2 HR [T H]. destruct (HR T) as [T' G]. split; [done|]. destruct r; [|done]. by eapply complete_grows. }
  apply (pool_answers rely id (fun p => p = migrate) rely) with (I := tidy) (Q := answers (fun _ => complete)) in Hsteps as [HR [T H]].
  - cbn in HR, T, H. destruct (HR T0) as [_ G]. rewrite Forall_forall in H. split_and!; [done..| |].
    + intros Hin. specialize (H _ Hin) as [_ Hc]. split; [done|]. destruct Hc as [_ A]. split.
      * apply (td_expires c T). apply (A (mkMigration 6 "offer_expiry" add_expiry)). unfold migrations. do 5 right. left.
      * apply (td_clusters c T). apply (A (mkMigration 1 "settlement_requests_cluster" add_cluster)). left.
    + intros e Hin. by specialize (H _ Hin) as [_ ?].
  - done.
  - done.
  - intros c1 c2 HR' T. by apply HR'.
  - exact Hans.
  - intros p c1 -> T. by apply migrate_answers.
  - by split.
Qed.

(** *** Witness: two processes race for a file of the first version, with one offer *)
Definition firstCatalog : Catalog :=
  mkCatalog (list_to_map (tables_of schemaSQL)) [] ∅ {["offer" := (7, None)]} {["request" := None]}.

Lemma firstCatalog_tidy : tidy firstCatalog.
Proof.
  assert (∀ v, ¬ applied firstCatalog v) as Hno by (intros v; unfold applied, firstCatalog; cbn [cat_applied]; rewrite lookup_empty; by intros []).
  assert (∀ t have, cat_tables firstCatalog !! t = Some have → (t, have) ∈ all_tables) as Hin.
  { intros t have H%elem_of_list_to_map_2. by apply schema_tables, elem_of_tables_of. }
  constructor.
  - intros t cols have Hall H%Hin. by rewrite (table_unique _ _ _ Hall H).
  - intros v t cols _ []%Hno.
  - intros v t col _ []%Hno.
  - intros v t col have Ha H%Hin. destruct (added_fresh _ _ _ _ Ha H) as [Hf _]. split; [done|by intros []%Hno].
  - intros v i _ []%Hno.
  - intros []%Hno.
  - intros []%Hno.
Qed.

(** The first process is between its check of version 1 and the migration when the
    second one does everything. *)
Definition racing : option ((res unit * Catalog) * res unit) :=
  '(p, c1) ← run_split 25 migrate firstCatalog; '(b, c2) ← run migrate c1; a ← run p c2; Some (a, b).
Lemma racing_steps a c b : racing = Some ((a, c), b) →
  rtc (step rely id (fun p => p = migrate)) (firstCatalog, []) (c, [Ret a; Ret b]).
Proof.
  unfold racing. destruct (run_split 25 migrate firstCatalog) as [[p c1]|] eqn:H1; cbn [mbind option_bind]; [|done].
  destruct (run migrate c1) as [[b' c2]|] eqn:H2; cbn [mbind option_bind]; [|done].
  destruct (run p c2) as [[a' c3]|] eqn:H3; cbn [mbind option_bind]; [|done]. intros [= <- <- <-].
  eapply rtc_l; [by eapply (step_spawn rely id _ _ [] migrate)|]. etrans; [eapply (run_split_steps rely id _ 25 migrate p _ _ []); exact H1|].
  eapply rtc_l; [by eapply (step_spawn rely id _ _ _ migrate)|]. etrans; [eapply (run_steps rely id _ migrate _ _ _ [p]); exact H2|].
  eapply (run_steps_middle rely id _ p _ _ _ []). exact H3.
Qed.
Lemma racing_result : (fun x => (x.1.1, x.2, map_to_list (cat_expires x.1.2), map_to_list (cat_clusters x.1.2))) <$> racing =
  Some (Ok tt, Ok tt, [("offer", (7, Some (7 + 24 * hour)))], [("request", Some "pre-phase-3")]).
Proof. vm_compute. reflexivity. Qed.

Lemma migrations_once_witness :
  ∃ c b, rtc (step rely id (fun p => p = migrate)) (firstCatalog, []) (c, [Ret (Ok tt); Ret b]) ∧ complete c ∧
    map_to_list (cat_expires c) = [("offer", (7, Some (7 + 24 * hour)))].
Proof.
  pose proof racing_result as Hr. destruct racing as [[[a c] b]|] eqn:H; [|discriminate Hr]. apply (inj Some) in Hr.
  pose proof (f_equal (fun x => x.1.1.1) Hr) as Ha. pose proof (f_equal (fun x => x.1.2) Hr) as He. cbn [fst snd] in Ha, He.
  rewrite Ha in H. exists c, b. pose proof (racing_steps _ _ _ H) as Hs. split; [exact Hs|]. split; [|exact He].
  destruct (migrations_once firstCatalog c _ firstCatalog_tidy Hs) as (_ & _ & Hc & _). apply Hc. left.
Defined.
