(* ===== verification/Store.v ===== *)
(** * [internal/store]: the SQL statements

    One definition per store method that the modelled services call, over the
    tables of [World].  A method that runs several queries outside a
    transaction ([GetTrade], [AcceptedBefore], ...) is a program of several
    actions, so other requests may run in between.  Foreign keys, primary keys
    and the unique indexes of the schema are the constraint failures. *)
From S2P Require Import Prelude Prog Money Domain Cluster Json Attest Probe World.

Definition nanos (t : time) : Z := int64 t.
Definition fromNanos (n : Z) : time := n.
Definition nullString (s : string) : option string := if String.eqb s "" then None else Some s.

(** [requireAffected(res)] *)
Definition requireAffected (n : nat) : res unit := if (n =? 0)%nat then Err [ErrNotFound] else Ok tt.

(** ** trades.go *)
Definition CreateTrade (t : Trade) (idempotencyKey : string) : io World unit :=
  write (fun d =>
    let idem := nullString idempotencyKey in
    if bool_decide (is_Some (trades d !! tr_ID t)) then Err [ESQL]
    else if bool_decide (offers d !! tr_OfferID t = None) then Err [ESQL]
    else if bool_decide (agents d !! tr_Buyer t = None) then Err [ESQL]
    else if bool_decide (agents d !! tr_Seller t = None) then Err [ESQL]
    else if bool_decide (idem ≠ None ∧ map_Exists (fun _ r => t_idem r = idem) (trades d)) then Err [ESQL]
    else Ok (tt, with_trades d (<[tr_ID t := mkTradeRow (tr_OfferID t) (tr_Buyer t) (tr_Seller t)
      (tr_Description t) (amount_String (tr_Amount t)) (tr_Mint t) (tr_Mode t) (tr_State t) idem
      (nanos (tr_CreatedAt t)) (nanos (tr_UpdatedAt t))]> (trades d)))).

Definition scanTrade (id : string) (r : TradeRow) : res Trade :=
  match Money.Parse (t_amount r) with
  | Err e => Err e
  | Ok parsed => Ok (mkTrade id (t_offer r) (t_buyer r) (t_seller r) (t_description r) parsed
      (t_mint r) (t_mode r) (t_state r) "" (fromNanos (t_created r)) (fromNanos (t_updated r)) [] [])
  end.

Definition with_acceptance (t : Trade) (acc : list string) : Trade :=
  mkTrade (tr_ID t) (tr_OfferID t) (tr_Buyer t) (tr_Seller t) (tr_Description t) (tr_Amount t)
    (tr_Mint t) (tr_Mode t) (tr_State t) (tr_IdempotencyKey t) (tr_CreatedAt t) (tr_UpdatedAt t)
    acc (tr_Events t).

Definition with_trade_events (t : Trade) (evs : list TradeEvent) : Trade :=
  mkTrade (tr_ID t) (tr_OfferID t) (tr_Buyer t) (tr_Seller t) (tr_Description t) (tr_Amount t)
    (tr_Mint t) (tr_Mode t) (tr_State t) (tr_IdempotencyKey t) (tr_CreatedAt t) (tr_UpdatedAt t)
    (tr_Acceptances t) evs.

(** The acceptance rows of a trade: agent and time. *)
Definition acceptance_rows (d : DB) (tradeID : string) : list (string * Z) :=
  omap (fun '((t, a), at_) => if String.eqb t tradeID then Some (a, at_) else None)
    (map_to_list (acceptances d)).

Definition tradeAcceptances (tradeID : string) : io World (list string) :=
  query (fun d => Ok (map fst (stable_sort (lt_Z_str snd fst) (acceptance_rows d tradeID)))).

(** [SELECT ... FROM trades WHERE id = ?] *)
Definition selectTrade (d : DB) (id : string) : res Trade :=
  match trades d !! id with None => Err [ErrNotFound] | Some r => scanTrade id r end.

Definition GetTrade (id : string) : io World Trade :=
  t <~ query (fun d => selectTrade d id);;
  acceptances <~ tradeAcceptances id;;
  ok (with_acceptance t acceptances).

Definition GetTradeByIdempotencyKey (key : string) : io World Trade :=
  t <~ query (fun d =>
    match list_find (fun '(_, r) => t_idem r = Some key) (map_to_list (trades d)) with
    | None => Err [ErrNotFound]
    | Some (_, (id, r)) => scanTrade id r
    end);;
  acceptances <~ tradeAcceptances (tr_ID t);;
  ok (with_acceptance t acceptances).

(** [INSERT OR IGNORE] ignores a duplicate key, not a missing parent row. *)
Definition AddTradeAcceptance (tradeID agentID : string) (at_ : time) : io World bool :=
  write (fun d =>
    if bool_decide (is_Some (acceptances d !! (tradeID, agentID))) then Ok (false, d)
    else if bool_decide (trades d !! tradeID = None) then Err [ESQL]
    else if bool_decide (agents d !! agentID = None) then Err [ESQL]
    else Ok (true, with_acceptances d (<[(tradeID, agentID) := nanos at_]> (acceptances d)))).

(** [SELECT MIN(created_at)]: [None] for no row. *)
Definition min_list (l : list Z) : option Z :=
  match l with [] => None | x :: l' => Some (foldr Z.min x l') end.

Definition TradeAcceptance (tradeID : string) : io World (option time) :=
  query (fun d => Ok (option_map fromNanos (min_list (map snd (acceptance_rows d tradeID))))).

Definition limit_or (limit : Z) : nat := if limit <=? 0 then 100 else Z.to_nat limit.

(** Ids of the trades that pass a filter, in the order of a column; the order of
    ties is the database's. *)
Definition trade_ids_by (f : TradeRow → Z) (P : string → TradeRow → bool) (d : DB) : list string :=
  map fst (stable_sort (fun x y => f x.2 <? f y.2)
    (List.filter (fun '(id, r) => P id r) (map_to_list (trades d)))).

Definition get_trades (ids : list string) : io World (list Trade) :=
  io_fold (fun out id => tr <~ GetTrade id;; ok (out ++ [tr])) [] ids.

Definition AcceptedBefore (deadline : time) (limit : Z) : io World (list Trade) :=
  ids <~ query (fun d => Ok (take (limit_or limit) (trade_ids_by t_updated (fun id r =>
    bool_decide (t_state r = TradeAccepted) &&
    match min_list (map snd (acceptance_rows d id)) with
    | None => false
    | Some m => m <=? nanos deadline
    end) d)));;
  get_trades ids.

Definition OpenTradesBefore (cutoff : time) (limit : Z) : io World (list Trade) :=
  ids <~ query (fun d => Ok (take (limit_or limit) (trade_ids_by t_updated (fun _ r =>
    (bool_decide (t_state r = TradeProposed) || bool_decide (t_state r = TradeNegotiating)) &&
    (t_updated r <=? nanos cutoff)) d)));;
  get_trades ids.

Definition set_state (r : TradeRow) (s : TradeState) (at_ : Z) : TradeRow :=
  mkTradeRow (t_offer r) (t_buyer r) (t_seller r) (t_description r) (t_amount r) (t_mint r)
    (t_mode r) s (t_idem r) (t_created r) at_.

Definition SetTradeState (tradeID : string) (from to : TradeState) (at_ : time) : io World bool :=
  write (fun d =>
    match trades d !! tradeID with
    | Some r =>
        if bool_decide (t_state r = from)
        then Ok (true, with_trades d (<[tradeID := set_state r to (nanos at_)]> (trades d)))
        else Ok (false, d)
    | None => Ok (false, d)
    end).

Definition AppendTradeEvent (e : TradeEvent) : io World Z :=
  write (fun d =>
    if bool_decide (trades d !! ev_TradeID e = None) then Err [ESQL]
    else
      let seq := Z.of_nat (length (events d)) + 1 in
      Ok (seq, with_events d (events d ++
        [mkTradeEvent seq (ev_TradeID e) (ev_Actor e) (ev_Type e) (ev_From e) (ev_To e)
           (Some (default [] (ev_Detail e))) (nanos (ev_CreatedAt e))]))).

Definition ListTradeEvents (tradeID : string) : io World (list TradeEvent) :=
  query (fun d => Ok (List.filter (fun e => String.eqb (ev_TradeID e) tradeID) (events d))).

(** The finished states of [liveTradeIDs]. *)
Definition finished (s : TradeState) : bool :=
  match s with
  | TradeRecorded | TradeSettled | TradeDisputed | TradeCancelled => true
  | _ => false
  end.

Definition liveTradeIDs (d : DB) (agentID : string) : list string :=
  trade_ids_by t_created (fun _ r =>
    (String.eqb (t_buyer r) agentID || String.eqb (t_seller r) agentID) && negb (finished (t_state r))) d.

Definition LiveTradesForAgent (agentID : string) : io World (list Trade) :=
  ids <~ query (fun d => Ok (liveTradeIDs d agentID));;
  get_trades ids.

Definition TradesInState (state : TradeState) : io World (list Trade) :=
  query (fun d =>
    foldr (fun '(id, r) (acc : res (list Trade)) =>
             t ← scanTrade id r; out ← acc; Ok (t :: out)) (Ok [])
      (stable_sort (lt_Z_str (fun x => t_updated x.2) fst)
         (List.filter (fun '(_, r) => bool_decide (t_state r = state)) (map_to_list (trades d))))).

(** ** settlement.go *)
Section Requests.
Context `{Unicode}.

Definition requestCluster (c : Cluster) : string := if String.eqb c "" then PrePhase3Cluster else c.

Definition set_status (q : RequestRow) (s : SettlementStatus) (sig : option string) (at_ : Z) : RequestRow :=
  mkRequestRow (q_trade q) (q_tx q) (q_blockhash q) (q_last q) (q_buyer_ata q) (q_seller_ata q)
    (q_created_ata q) (q_fee q) (q_wallet q) s sig (q_created q) at_ (q_expires q) (q_cluster q).

(** [UPDATE ... SET status = 'expired' WHERE trade_id = ? AND status = 'issued'] *)
Definition expire_issued (d : DB) (tradeID : string) (at_ : time) : gmap string RequestRow :=
  (fun q => if String.eqb (q_trade q) tradeID && bool_decide (q_status q = SettlementIssued)
            then set_status q SettlementExpired (q_signature q) (nanos at_) else q) <$> requests d.

(** [database/sql] refuses a uint64 with the high bit set. *)
Definition sql_uint64 (n : Z) : bool := n <? 9223372036854775808.

Definition CreateSettlementRequest (r : SettlementRequest) : io World SettlementRequest :=
  if String.eqb (sr_ID r) "" then fail []
  else write (fun d =>
    let swept := expire_issued d (sr_TradeID r) (sr_CreatedAt r) in
    if negb (sql_uint64 (sr_LastValid r) && sql_uint64 (sr_FeeLamports r)) then Err [ESQL]
    else if bool_decide (is_Some (swept !! sr_ID r)) then Err [ESQL]
    else if bool_decide (trades d !! sr_TradeID r = None) then Err [ESQL]
    else Ok (r, with_requests d (<[sr_ID r := mkRequestRow (sr_TradeID r) (sr_UnsignedTx r)
      (sr_Blockhash r) (sr_LastValid r) (sr_BuyerATA r) (sr_SellerATA r) (sr_CreatedATA r)
      (sr_FeeLamports r) (sr_FeeWallet r) (sr_Status r) (nullString (sr_Signature r))
      (nanos (sr_CreatedAt r)) (nanos (sr_UpdatedAt r)) (nanos (sr_ExpiresAt r))
      (requestCluster (sr_Cluster r))]> swept))).

(** A row that predates the cluster column reads back with the empty cluster. *)
Definition scanSettlementRequest (id : string) (q : RequestRow) : res SettlementRequest :=
  let mk c := mkSettlementRequest id (q_trade q) (q_tx q) (q_blockhash q) (q_last q)
    (q_buyer_ata q) (q_seller_ata q) (q_created_ata q) (q_fee q) (q_wallet q) (q_status q)
    (default "" (q_signature q)) c (fromNanos (q_created q)) (fromNanos (q_updated q))
    (fromNanos (q_expires q)) in
  match Cluster.Parse (q_cluster q) with
  | Ok parsed => Ok (mk parsed)
  | Err e => if String.eqb (q_cluster q) PrePhase3Cluster then Ok (mk "") else Err e
  end.

Definition trade_requests (d : DB) (tradeID : string) : list (string * RequestRow) :=
  stable_sort (lt_Z_str (fun x => q_created x.2) fst)
    (List.filter (fun '(_, q) => String.eqb (q_trade q) tradeID) (map_to_list (requests d))).

Definition is_issued (q : RequestRow) : bool := bool_decide (q_status q = SettlementIssued).

(** [ORDER BY (status = 'issued') DESC, created_at DESC, id DESC LIMIT 1] *)
Definition current_request (l : list (string * RequestRow)) : option (string * RequestRow) :=
  match last (List.filter (fun x => is_issued x.2) l) with Some x => Some x | None => last l end.

Definition scan_one (o : option (string * RequestRow)) : res SettlementRequest :=
  match o with None => Err [ErrNotFound] | Some (id, q) => scanSettlementRequest id q end.

Definition GetSettlementRequest (tradeID : string) : io World SettlementRequest :=
  query (fun d => scan_one (current_request (trade_requests d tradeID))).

Definition LiveSettlementRequest (tradeID : string) (at_ : time) : io World SettlementRequest :=
  query (fun d => scan_one (last (List.filter (fun x => is_issued x.2 && (q_expires x.2 >? nanos at_))
    (trade_requests d tradeID)))).

Fixpoint scan_all (l : list (string * RequestRow)) : res (list SettlementRequest) :=
  match l with
  | [] => Ok []
  | (id, q) :: rest => r ← scanSettlementRequest id q; out ← scan_all rest; Ok (r :: out)
  end.

Definition ListSettlementRequests (tradeID : string) : io World (list SettlementRequest) :=
  query (fun d => scan_all (trade_requests d tradeID)).

Definition SetSettlementSignature (id signature : string) (at_ : time) : io World unit :=
  write (fun d =>
    match requests d !! id with
    | Some q =>
        if is_issued q && (bool_decide (q_signature q = None) || bool_decide (q_signature q = Some signature))
        then Ok (tt, with_requests d (<[id := set_status q (q_status q) (Some signature) (nanos at_)]> (requests d)))
        else Err [ErrStale]
    | None => Err [ErrStale]
    end).

Definition ConfirmSettlementRequest (id signature : string) (at_ : time) : io World unit :=
  write (fun d =>
    match requests d !! id with
    | Some q =>
        if is_issued q
        then Ok (tt, with_requests d (<[id := set_status q SettlementConfirmed (Some signature) (nanos at_)]> (requests d)))
        else Err [ErrStale]
    | None => Err [ErrStale]
    end).

Definition ExpireSettlementRequests (tradeID : string) (at_ : time) : io World unit :=
  write (fun d => Ok (tt, with_requests d (expire_issued d tradeID at_))).

Definition ExpireSettlementRequestsForCluster (tradeID : string) (running : Cluster) (at_ : time) : io World Z :=
  write (fun d =>
    let hit q := String.eqb (q_trade q) tradeID && is_issued q && negb (String.eqb (q_cluster q) running) in
    Ok (Z.of_nat (length (List.filter (fun '(_, q) => hit q) (map_to_list (requests d)))),
        with_requests d ((fun q => if hit q then set_status q SettlementExpired (q_signature q) (nanos at_) else q)
          <$> requests d))).
End Requests.

(** ** ledger.go *)
Definition headLedgerEntry (d : DB) : option LedgerEntry := last (ledger d).
Definition HeadLedgerEntry : io World (option LedgerEntry) := query (fun d => Ok (headLedgerEntry d)).

Definition AppendLedgerEntry (a : LedgerAppend) (hashEntry : EntryHasher) : io World LedgerEntry :=
  write (fun d =>
    let '(prevHash, nextSeq) := match headLedgerEntry d with
      | Some head => (le_Hash head, le_Seq head + 1)
      | None => (Domain.GenesisHash, 1)
      end in
    if negb (String.eqb prevHash (la_PrevHash a)) then Err [ErrStale]
    else
      let entry := mkLedgerEntry nextSeq (la_TradeID a) (la_Payload a) (la_PayloadHash a) prevHash
        (hashEntry nextSeq prevHash (la_PayloadHash a)) (la_CreatedAt a) in
      if existsb (fun e => String.eqb (le_TradeID e) (la_TradeID a)) (ledger d) then Err [ESQL]
      else Ok (entry, with_ledger d (ledger d ++
        [mkLedgerEntry (le_Seq entry) (le_TradeID entry) (le_Payload entry) (le_PayloadHash entry)
           (le_PrevHash entry) (le_Hash entry) (nanos (le_CreatedAt entry))]))).

Definition ListLedgerEntries : io World (list LedgerEntry) := query (fun d => Ok (ledger d)).

Definition SaveReceipt (r : Receipt) : io World unit :=
  write (fun d =>
    if bool_decide (is_Some (receipts d !! rc_ID r)) then Err [ESQL]
    else if bool_decide (map_Exists (fun _ x => rc_TradeID x = rc_TradeID r) (receipts d)) then Err [ESQL]
    else Ok (tt, with_receipts d (<[rc_ID r := mkReceipt (rc_ID r) (rc_TradeID r) (rc_JWS r)
      (nanos (rc_IssuedAt r))]> (receipts d)))).

Definition GetReceiptByTrade (tradeID : string) : io World Receipt :=
  query (fun d =>
    match list_find (fun '(_, x) => rc_TradeID x = tradeID) (map_to_list (receipts d)) with
    | None => Err [ErrNotFound]
    | Some (_, (_, r)) => Ok r
    end).

(** The join with [ledger_entries], newest sequence first. *)
Definition ListReceipts (limit : nat) : io World (list Receipt) :=
  query (fun d => Ok (take limit (omap (fun e =>
    snd <$> (snd <$> list_find (fun '(_, x) => rc_TradeID x = le_TradeID e) (map_to_list (receipts d))))
    (rev (ledger d))))).

Definition CreateChallenge (c : Challenge) : io World unit :=
  write (fun d =>
    if bool_decide (is_Some (challenges d !! ch_ID c)) then Err [ESQL]
    else Ok (tt, with_challenges d (<[ch_ID c := mkChallengeRow (ch_AgentID c) (ch_Nonce c)
      (nanos (ch_ExpiresAt c)) None]> (challenges d)))).

Definition ConsumeChallenge (id : string) (at_ : time) : io World Challenge :=
  write (fun d =>
    match challenges d !! id with
    | None => Err [ErrNotFound]
    | Some c =>
        if bool_decide (is_Some (c_consumed c)) then Err [ErrStale]
        else if negb (after (fromNanos (c_expires c)) at_) then Err [ErrStale]
        else Ok (mkChallenge id (c_agent c) (c_nonce c) (fromNanos (c_expires c)) (Some at_),
                 with_challenges d (<[id := mkChallengeRow (c_agent c) (c_nonce c) (c_expires c)
                   (Some (nanos at_))]> (challenges d)))
    end).

(** ** limits.go *)
Definition GetAgentLimits (agentID : string) : io World AgentLimits :=
  query (fun d =>
    match agent_limits d !! agentID with
    | None => Err [ErrNotFound]
    | Some r =>
        perTrade ← Money.Parse (l_trade r);
        perDay ← Money.Parse (l_day r);
        Ok (mkAgentLimits agentID perTrade perDay (fromNanos (l_at r)))
    end).

Definition SetAgentLimits (l : AgentLimits) : io World unit :=
  write (fun d =>
    if bool_decide (agents d !! al_AgentID l = None) then Err [ESQL]
    else Ok (tt, with_limits d (<[al_AgentID l := mkLimitsRow (amount_String (al_PerTradeUSD l))
      (amount_String (al_PerDayUSD l)) (nanos (al_RaisedAt l))]> (agent_limits d)))).

Definition releasedState (s : TradeState) : bool :=
  match s with TradeCancelled | TradeResolved => true | _ => false end.
Definition committedState (s : TradeState) : bool :=
  match s with
  | TradeSettlementPending | TradeRecorded | TradeSettled | TradeDisputed => true
  | _ => false
  end.

(** [MAX(t.created_at, COALESCE(MIN(e.created_at), 0))] over commit events. *)
Definition engaged_at (d : DB) (id : string) (r : TradeRow) : Z :=
  Z.max (t_created r) (default 0 (min_list (map ev_CreatedAt
    (List.filter (fun e => String.eqb (ev_TradeID e) id && committedState (ev_To e)) (events d))))).

(** The rows [CommittedSpendSince] charges. *)
Definition charged (d : DB) (buyer : string) (since : Z) (exclude : string) (id : string) (r : TradeRow) : bool :=
  String.eqb (t_buyer r) buyer && negb (String.eqb id exclude) &&
  (engaged_at d id r >=? since) && negb (releasedState (t_state r)).

Fixpoint spend_rows (l : list (string * TradeRow)) : res (list SpendRow) :=
  match l with
  | [] => Ok []
  | (_, r) :: rest =>
      parsed ← Money.Parse (t_amount r);
      out ← spend_rows rest;
      Ok (mkSpendRow (t_mint r) parsed :: out)
  end.

Definition CommittedSpendSince (buyer : string) (since : time) (exclude : string) : io World (list SpendRow) :=
  query (fun d => spend_rows (List.filter (fun '(id, r) => charged d buyer (nanos since) exclude id r)
    (map_to_list (trades d)))).

(** ** offers.go *)
(** [expiryColumn]: the zero deadline is NULL. *)
Definition expiryColumn (t : time) : option Z := if time_IsZero t then None else Some (nanos t).

(** [INSERT INTO offers] *)
Definition insert_offer (o : Offer) (idempotencyKey : string) (d : DB) : res DB :=
  let idem := nullString idempotencyKey in
  if bool_decide (is_Some (offers d !! offer_ID o)) then Err [ESQL]
  else if bool_decide (agents d !! offer_AgentID o = None) then Err [ESQL]
  else if bool_decide (idem ≠ None ∧ map_Exists (fun _ r => o_idem r = idem) (offers d)) then Err [ESQL]
  else Ok (with_offers d (<[offer_ID o := mkOfferRow (offer_AgentID o) (offer_Direction o)
    (offer_Description o) (offer_Capabilities o) (amount_String (offer_PriceAmount o))
    (offer_PriceMint o) (offer_SettlementModes o) (offer_Status o) idem
    (nanos (offer_CreatedAt o)) (nanos (offer_UpdatedAt o)) (expiryColumn (offer_ExpiresAt o))]> (offers d))).

Definition CreateOffer (o : Offer) (idempotencyKey : string) : io World unit :=
  write (fun d => match insert_offer o idempotencyKey d with Ok d' => Ok (tt, d') | Err e => Err e end).

(** A row back as an offer.  The two JSON columns are kept as the lists they encode:
    what the service decodes from requests is valid UTF-8, which JSON gives back as
    it is, and nothing else writes them, so that their decoding cannot fail is built
    into the row; the price is text, and parsed. *)
Definition scanOffer (id : string) (r : OfferRow) : res Offer :=
  parsed ← Money.Parse (o_price r);
  Ok (mkOffer id (o_agent r) (o_direction r) (o_description r) (o_caps r) parsed (o_mint r)
    (o_modes r) (o_status r) (fromNanos (o_created r)) (fromNanos (o_updated r))
    (default zeroTime (o_expires r))).

Definition GetOffer (id : string) : io World Offer :=
  query (fun d => match offers d !! id with None => Err [ErrNotFound] | Some r => scanOffer id r end).

Definition GetOfferByIdempotencyKey (key : string) : io World Offer :=
  query (fun d =>
    match list_find (fun '(_, r) => o_idem r = Some key) (map_to_list (offers d)) with
    | None => Err [ErrNotFound]
    | Some (_, (id, r)) => scanOffer id r
    end).

Definition set_offer_status (r : OfferRow) (s : OfferStatus) (at_ : Z) : OfferRow :=
  mkOfferRow (o_agent r) (o_direction r) (o_description r) (o_caps r) (o_price r) (o_mint r)
    (o_modes r) s (o_idem r) (o_created r) at_ (o_expires r).

Definition SetOfferStatus (id : string) (status : OfferStatus) (at_ : time) : io World unit :=
  write (fun d =>
    match offers d !! id with
    | None => Err [ErrNotFound]
    | Some r => Ok (tt, with_offers d (<[id := set_offer_status r status (nanos at_)]> (offers d)))
    end).

Fixpoint scan_offers (l : list (string * OfferRow)) : res (list Offer) :=
  match l with
  | [] => Ok []
  | (id, r) :: rest => o ← scanOffer id r; out ← scan_offers rest; Ok (o :: out)
  end.

Definition OpenOffersBefore (cutoff : time) (limit : Z) : io World (list Offer) :=
  if limit <=? 0 then ok []
  else query (fun d => scan_offers (take (Z.to_nat limit)
    (stable_sort (lt_Z_str (fun x => default 0 (o_expires x.2)) fst)
       (List.filter (fun '(_, r) => String.eqb (o_status r) OfferOpen &&
          match o_expires r with Some e => e <=? nanos cutoff | None => false end)
          (map_to_list (offers d)))))).

Definition maxOfferLimit : Z := 200.

Record OfferQuery := mkOfferQuery {
  oq_AgentID : string; oq_Direction : OfferDirection; oq_Status : OfferStatus; oq_Capability : string;
  oq_Text : string; oq_Mint : string; oq_Mode : SettlementMode; oq_ExcludeAgent : string;
  oq_Limit : Z; oq_Offset : Z }.

(** [description LIKE '%text%' ESCAPE '\'] with every metacharacter of the text
    escaped: containment, ASCII letters regardless of case. *)
Fixpoint contains (needle s : string) : bool :=
  String.prefix needle s || match s with EmptyString => false | String _ s' => contains needle s' end.
Definition like_contains (text description : string) : bool :=
  contains (smap lower_char text) (smap lower_char description).

Definition offer_matches (q : OfferQuery) (r : OfferRow) : bool :=
  let given s := negb (String.eqb s "") in
  String.eqb (o_status r) (if given (oq_Status q) then oq_Status q else OfferOpen) &&
  (negb (given (oq_AgentID q)) || String.eqb (o_agent r) (oq_AgentID q)) &&
  (negb (given (oq_ExcludeAgent q)) || negb (String.eqb (o_agent r) (oq_ExcludeAgent q))) &&
  (negb (given (oq_Direction q)) || String.eqb (o_direction r) (oq_Direction q)) &&
  (negb (given (oq_Mint q)) || String.eqb (o_mint r) (oq_Mint q)) &&
  (negb (given (oq_Capability q)) || bool_decide (oq_Capability q ∈ o_caps r)) &&
  (negb (given (oq_Text q)) || like_contains (oq_Text q) (o_description r)) &&
  (negb (given (oq_Mode q)) || bool_decide (oq_Mode q ∈ o_modes r)).

Definition search_limit (limit : Z) : nat :=
  Z.to_nat (if (limit <=? 0) || (limit >? maxOfferLimit) then maxOfferLimit else limit).

(** A negative offset is SQLite's zero. *)
Definition SearchOffers (q : OfferQuery) : io World (list Offer) :=
  query (fun d => scan_offers (take (search_limit (oq_Limit q)) (drop (Z.to_nat (oq_Offset q))
    (stable_sort (lt_Z_str (fun x => o_created x.2) fst)
       (List.filter (fun '(_, r) => offer_matches q r) (map_to_list (offers d))))))).

Definition ListOpenOffers : io World (list Offer) :=
  SearchOffers (mkOfferQuery "" "" OfferOpen "" "" "" "" "" 0 0).

(** ** agents.go *)
Definition CreateAgent (a : Agent) : io World unit :=
  write (fun d =>
    if bool_decide (is_Some (agents d !! agent_ID a)) then Err [ESQL]
    else Ok (tt, with_agents d (<[agent_ID a := mkAgentRow (agent_Card a) (agent_Status a)
      (nanos (agent_CreatedAt a)) (nanos (agent_UpdatedAt a))]> (agents d)))).

(** The card column is JSON too, and kept decoded for the same reason. *)
Definition scanAgent (id : string) (r : AgentRow) : Agent :=
  mkAgent id (a_card r) (a_status r) (fromNanos (a_created r)) (fromNanos (a_updated r)).

Definition GetAgent (id : string) : io World Agent :=
  query (fun d => match agents d !! id with None => Err [ErrNotFound] | Some r => Ok (scanAgent id r) end).

Definition UpdateAgent (a : Agent) : io World unit :=
  write (fun d =>
    match agents d !! agent_ID a with
    | None => Err [ErrNotFound]
    | Some r => Ok (tt, with_agents d (<[agent_ID a := mkAgentRow (agent_Card a) (agent_Status a)
        (a_created r) (nanos (agent_UpdatedAt a))]> (agents d)))
    end).

Definition set_agent_status (r : AgentRow) (s : AgentStatus) (at_ : Z) : AgentRow :=
  mkAgentRow (a_card r) s (a_created r) at_.

Definition SetAgentStatus (id : string) (status : AgentStatus) (at_ : time) : io World unit :=
  write (fun d =>
    match agents d !! id with
    | None => Err [ErrNotFound]
    | Some r => Ok (tt, with_agents d (<[id := set_agent_status r status (nanos at_)]> (agents d)))
    end).

Definition ListAgents (status : AgentStatus) : io World (list Agent) :=
  query (fun d => Ok (map (fun '(id, r) => scanAgent id r)
    (stable_sort (lt_Z_str (fun x => a_created x.2) fst)
       (List.filter (fun '(_, r) => String.eqb (a_status r) status) (map_to_list (agents d)))))).

Definition ListAgentsByIDs (ids : list string) : io World (gmap string Agent) :=
  if Nat.eqb (length ids) 0 then ok ∅
  else query (fun d => Ok (list_to_map (omap (fun '(id, r) =>
    if bool_decide (id ∈ ids) then Some (id, scanAgent id r) else None) (map_to_list (agents d))))).

Definition ErrAgentHasLiveTrades : sentinel := "store.ErrAgentHasLiveTrades".

(** The offers of an agent that are open, closed. *)
Definition close_open (d : DB) (agentID : string) (at_ : Z) : gmap string OfferRow :=
  (fun r => if String.eqb (o_agent r) agentID && String.eqb (o_status r) OfferOpen
            then set_offer_status r OfferClosed at_ else r) <$> offers d.

(** The upsert leaves [restored_actor] of an earlier restore in place. *)
Definition retire_row (old : option RetirementRow) (reason actor : string) (at_ : Z) : RetirementRow :=
  mkRetirementRow reason actor at_ None (old ≫= r_restored_actor).

Definition RetireAgent (id reason actor : string) (at_ : time) : io World Agent :=
  _ <~ write (fun d =>
    if (0 <? length (liveTradeIDs d id))%nat then Err [ErrAgentHasLiveTrades]
    else match agents d !! id with
    | None => Err [ErrNotFound]
    | Some r =>
        let d1 := with_agents d (<[id := set_agent_status r AgentRetired (nanos at_)]> (agents d)) in
        let d2 := with_offers d1 (close_open d1 id (nanos at_)) in
        Ok (tt, with_retirements d2 (<[id := retire_row (retirements d2 !! id) reason actor (nanos at_)]>
          (retirements d2)))
    end);;
  GetAgent id.

Definition RestoreAgent (id actor : string) (at_ : time) : io World Agent :=
  _ <~ write (fun d =>
    match agents d !! id with
    | None => Err [ErrNotFound]
    | Some r =>
        let d1 := with_agents d (<[id := set_agent_status r AgentActive (nanos at_)]> (agents d)) in
        match retirements d1 !! id with
        | Some rr =>
            if bool_decide (r_restored rr = None)
            then Ok (tt, with_retirements d1 (<[id := mkRetirementRow (r_reason rr) (r_actor rr) (r_at rr)
                   (Some (nanos at_)) (Some actor)]> (retirements d1)))
            else Ok (tt, d1)
        | None => Ok (tt, d1)
        end
    end);;
  GetAgent id.

Definition Retirement (id : string) : io World (option Domain.Retirement) :=
  query (fun d => Ok (option_map (fun r => mkRetirement id (r_reason r) (r_actor r) (fromNanos (r_at r))
    (option_map fromNanos (r_restored r)) (r_restored_actor r)) (retirements d !! id))).

(** ** attestations.go *)

(** A signature is stored as JSON, which refuses a time outside the years
    0..9999. *)
Definition marshal_signature (sig : Signature) : res unit :=
  match time_json (si_SignedAt sig) with Ok _ => Ok tt | Err e => Err e end.

Definition SaveAgentCard (a : Agent) (agentSig : option Signature) (marketSig : Signature) (at_ : time) : io World unit :=
  _ <~ refuse (match agentSig with Some s => negb (String.eqb (si_KeyID s) (agent_ID a)) | None => false end)
       [attest_ErrInvalid];;
  _ <~ lift (marshal_signature marketSig);;
  _ <~ lift (match agentSig with Some s => marshal_signature s | None => Ok tt end);;
  write (fun d =>
    let created := match agents d !! agent_ID a with
      | Some r => a_created r
      | None => nanos (agent_CreatedAt a)
      end in
    let d1 := with_agents d (<[agent_ID a := mkAgentRow (agent_Card a) (agent_Status a) created (nanos at_)]> (agents d)) in
    Ok (tt, with_agent_attestations d1
      (<[agent_ID a := mkAttestationRow agentSig marketSig (nanos at_)]> (agent_attestations d1)))).

Definition CreateOfferWithAttestation (o : Offer) (idempotencyKey : string) (sig : option Signature) : io World unit :=
  match sig with
  | None => CreateOffer o idempotencyKey
  | Some s =>
      _ <~ refuse (negb (String.eqb (si_KeyID s) (offer_AgentID o))) [attest_ErrInvalid];;
      _ <~ lift (marshal_signature s);;
      write (fun d =>
        match insert_offer o idempotencyKey d with
        | Err e => Err e
        | Ok d1 => Ok (tt, with_offer_attestations d1
            (<[offer_ID o := mkOfferAttestationRow (offer_AgentID o) s]> (offer_attestations d1)))
        end)
  end.

Definition CardAttestation (agentID : string) : io World (option CardAttestations) :=
  query (fun d => Ok (option_map (fun r => mkCardAttestations (at_market r) (at_card r)) (agent_attestations d !! agentID))).

Definition OfferAttestation (offerID : string) : io World (option Signature) :=
  query (fun d => Ok (option_map oa_signature (offer_attestations d !! offerID))).

Definition MarketplaceSignatureFor (agentID : string) : io World (option Signature) :=
  query (fun d => Ok (option_map at_market (agent_attestations d !! agentID))).

(** A result as the JSON column gives it back. *)
Definition stored_result (r : Result) : Result :=
  mkResult (json_text (re_Capability r)) (json_text (re_Status r)) (json_text (re_Detail r)).

Definition SaveProbe (report : Report) (sig : Signature) (at_ : time) : io World unit :=
  _ <~ lift (marshal_signature sig);;
  write (fun d =>
    if bool_decide (agents d !! rp_AgentID report = None) then Err [ESQL]
    else Ok (tt, with_probes d (<[rp_AgentID report := mkProbeRow (rp_Target report)
      (map stored_result (rp_Results report)) (Passed report) sig (nanos (rp_CheckedAt report)) (nanos at_)]> (probes d)))).

(** A row whose [passed] column its results do not bear out is refused. *)
Definition Probe (agentID : string) : io World (option Report) :=
  query (fun d =>
    match probes d !! agentID with
    | None => Ok None
    | Some r =>
        let report := mkReport agentID (v_target r) (v_results r) (fromNanos (v_checked r)) (Some (v_signature r)) in
        if negb (eqb (v_passed r) (Passed report)) then Err [] else Ok (Some report)
    end).
