(* ===== verification/Endpoint.v ===== *)
(** * [cluster.CheckEndpoint]: where a localnet endpoint may be

    A local validator has no genesis pin, so its endpoint is bound to this host
    instead.  What a host name stands for is the environment's answer
    ([Resolver]). *)
From S2P Require Import Prelude GoText Domain Cluster Json Attest Probe.

Definition ErrEndpointNotAllowed : sentinel := "cluster.ErrEndpointNotAllowed".

(** [net.ParseIP] and [net.LookupIP] of a host. *)
Class Resolver := { resolve_host : string → Resolved }.

(** [ip.IsLoopback()], of any form of address. *)
Definition ip_IsLoopback (ip : IP) : bool := IsLoopback (default ip (To4 ip)).

Section Endpoint.
Context `{IN : NetURL} `{IO : Folding} `{IR : Resolver}.

Definition allowed_host (allowHosts : list string) (host : string) : bool :=
  existsb (fun allowed => EqualFold (TrimSpace allowed) host) allowHosts.

(** The judgement of an address, or of every address a name has. *)
Definition loopback_only (host : Resolved) : res unit :=
  match host with
  | Literal ip => if ip_IsLoopback ip then Ok tt else Err [ErrEndpointNotAllowed]
  | Names None => Err [ErrEndpointNotAllowed]
  | Names (Some addrs) =>
      if Nat.eqb (length addrs) 0 then Err [ErrEndpointNotAllowed]
      else if forallb ip_IsLoopback addrs then Ok tt else Err [ErrEndpointNotAllowed]
  end.

Definition CheckEndpoint (c : Cluster) (endpoint : string) (allowHosts : list string) : res unit :=
  if negb (RequiresLoopback c) then Ok tt
  else match url_parse (TrimSpace endpoint) with
  | None => Err [ErrEndpointNotAllowed]
  | Some parsed =>
      if negb (String.eqb (url_Scheme parsed) "http") && negb (String.eqb (url_Scheme parsed) "https")
      then Err [ErrEndpointNotAllowed]
      else
        let host := url_Hostname parsed in
        if String.eqb host "" then Err [ErrEndpointNotAllowed]
        else if allowed_host allowHosts host then Ok tt
        else loopback_only (resolve_host host)
  end.

(** Every address the host has is a loopback address, and it has one. *)
Definition all_loopback (host : Resolved) : Prop :=
  addresses host ≠ [] ∧ ∀ ip, ip ∈ addresses host → ip_IsLoopback ip = true.

Lemma loopback_only_spec host : loopback_only host = Ok tt ↔ all_loopback host.
Proof.
  unfold all_loopback. destruct host as [ip|[l|]]; cbn.
  - destruct (ip_IsLoopback ip) eqn:Ei; split; try done.
    + intros _. split; [done|]. by intros x ->%list_elem_of_singleton.
    + intros [_ H]. rewrite (H ip ltac:(left)) in Ei. done.
  - destruct l as [|x l]; [by split; [|intros [? _]]|]. cbn [length Nat.eqb].
    destruct (forallb ip_IsLoopback (x :: l)) eqn:Ef; split; try done.
    + intros _. split; [done|]. intros y Hy. rewrite forallb_forall in Ef. by apply Ef, list_elem_of_In.
    + intros [_ H]. exfalso. revert Ef. apply not_false_iff_true, forallb_forall. intros y Hy. by apply H, list_elem_of_In.
  - by split; [|intros [? _]].
Qed.

(** A localnet endpoint is accepted exactly when it is an http or https URL whose
    host is named in the exemptions or has only loopback addresses. *)
Theorem CheckEndpoint_exact endpoint allowHosts :
  CheckEndpoint Localnet endpoint allowHosts = Ok tt ↔
  ∃ u, url_parse (TrimSpace endpoint) = Some u ∧ (url_Scheme u = "http" ∨ url_Scheme u = "https") ∧ url_Hostname u ≠ "" ∧
    (allowed_host allowHosts (url_Hostname u) = true ∨ all_loopback (resolve_host (url_Hostname u))).
Proof.
  unfold CheckEndpoint. change (negb (RequiresLoopback Localnet)) with false. cbv iota.
  destruct (url_parse (TrimSpace endpoint)) as [u|]; [|by split; [|intros (? & ? & _)]].
  transitivity ((url_Scheme u = "http" ∨ url_Scheme u = "https") ∧ url_Hostname u ≠ "" ∧
    (allowed_host allowHosts (url_Hostname u) = true ∨ all_loopback (resolve_host (url_Hostname u))));
    [|split; [intros H; by exists u|intros (v & E & H); by simplify_eq]].
  assert (negb (String.eqb (url_Scheme u) "http") && negb (String.eqb (url_Scheme u) "https") = false ↔
    url_Scheme u = "http" ∨ url_Scheme u = "https") as Hs.
  { rewrite andb_false_iff, !negb_false_iff, !String.eqb_eq. done. }
  destruct (_ && _); [split; [done|]; intros (H%Hs & _); done|].
  destruct (String.eqb_spec (url_Hostname u) "") as [|Hh]; [by split; [|intros (_ & ? & _)]|].
  rewrite <-loopback_only_spec. destruct (allowed_host _ _); split.
  - intros _. split; [by apply Hs|]. split; [done|]. by left.
  - done.
  - intros H. split; [by apply Hs|]. split; [done|]. by right.
  - by intros (_ & _ & [?|?]).
Qed.
End Endpoint.
