(* ===== verification/Auth.v ===== *)
(** * [internal/auth]: login by signed challenge

    [auth.go]: a challenge is issued for an agent's key, redeemed once with a
    signature by that key, and answered with a bearer token that names the agent
    until it expires.  The token library is the parameter [SessionJWT]; the
    random nonce and the signature are arguments. *)
From S2P Require Import Prelude Prog Money Domain Sha256 Json Keys Attest World Store.

Definition ErrInvalidSignature : sentinel := "auth.ErrInvalidSignature".
Definition ErrSessionInvalid : sentinel := "auth.ErrSessionInvalid".
Definition ErrSecretTooShort : sentinel := "auth.ErrSecretTooShort".

Definition authDomain : string := "vtessera/auth/v1".
Definition nonceBytes : nat := 32.
Definition defaultTTL : duration := 5 * minute.
Definition sessionSubject : string := "vtessera-agent".

(** The registered claims of a session; times in whole seconds. *)
Record SessionClaims := mkSessionClaims {
  sc_iss : string; sc_sub : string; sc_aud : string;
  sc_iat : Z; sc_nbf : Z; sc_exp : Z; sc_jti : string }.

(** [golang-jwt]: [SignedString] with HS256, and [ParseWithClaims] restricted to
    HS256 at a given time, followed by [GetAudience] on the parsed claims. *)
Class SessionJWT := {
  hs_sign : string → SessionClaims → res string;
  hs_parse : string → time → string → res (res (list string));
}.

(** Documented behaviour: signing with a byte key succeeds with a token free of
    white space; the token parses under the same secret, to an audience that is an
    agent's key, from its not-before time until its expiry, and no longer after that.
    An expiry of 0 is read as none. *)
Class SessionJWTLaws `{Base58} `{SessionJWT} : Prop := {
  hs_signs secret c : ∃ tok, hs_sign secret c = Ok tok ∧ tok ≠ "" ∧ TrimSpace tok = tok;
  hs_accepts secret c tok t : hs_sign secret c = Ok tok → is_ok (ParsePublicKey (sc_aud c)) = true →
    sc_nbf c * second ≤ t < sc_exp c * second → hs_parse secret t tok = Ok (Ok [sc_aud c]);
  hs_expires secret c tok t : hs_sign secret c = Ok tok → sc_exp c ≠ 0 →
    sc_exp c * second ≤ t → is_ok (hs_parse secret t tok) = false;
}.

(** The service; [au_secret] is the session secret. *)
Record Authority := mkAuthority {
  au_secret : string; au_challengeTTL : duration; au_sessionTTL : duration }.

Inductive AuthOption := WithChallengeTTL (d : duration) | WithSessionTTL (d : duration).
Definition apply_option (s : Authority) (o : AuthOption) : Authority :=
  match o with
  | WithChallengeTTL d => mkAuthority (au_secret s) d (au_sessionTTL s)
  | WithSessionTTL d => mkAuthority (au_secret s) (au_challengeTTL s) d
  end.

Definition auth_New (secret : string) (opts : list AuthOption) : res Authority :=
  if (slen secret <? 32)%nat then Err [ErrSecretTooShort]
  else Ok (foldl apply_option (mkAuthority secret defaultTTL hour) opts).

Definition Message (challengeID agentID nonce : string) : string :=
  authDomain +:+ nl +:+ "challenge:" +:+ challengeID +:+ nl +:+ "agent:" +:+ agentID +:+ nl +:+ "nonce:" +:+ nonce.

Record Session := mkSession { se_Token : string; se_AgentID : string; se_ExpiresAt : time }.

Section Auth.
Context `{Base58} `{Ed25519} `{SessionJWT} (s : Authority).

(** [nonce] is what [rand.Read] put into the buffer. *)
Definition IssueChallenge (agentID nonce : string) : io World Challenge :=
  _ <~ lift (ParsePublicKey agentID);;
  at_ <~ now;;
  id <~ NewString;;
  let challenge := mkChallenge id agentID (base64 nonce) (at_ + au_challengeTTL s) None in
  _ <~ CreateChallenge challenge;;
  ok challenge.

Definition issueSession (agentID : string) : io World Session :=
  at_ <~ now;;
  let expires := at_ + au_sessionTTL s in
  jti <~ NewString;;
  signed <~ lift (hs_sign (au_secret s) (mkSessionClaims "vtessera" sessionSubject agentID
    (at_ / second) (at_ / second) (expires / second) jti));;
  ok (mkSession signed agentID expires).

(** [ed25519.Verify], which panics on a public key of another length. *)
Definition ed25519_Verify (key : edpub) (message sig : string) : res bool :=
  if negb (Nat.eqb (length key) PublicKeySize) then Err [EPanic]
  else Ok (Nat.eqb (slen sig) SignatureSize && ed_verify key message sig).

Definition Redeem (challengeID signature : string) : io World Session :=
  match base64_decode signature with
  | None => fail [ErrInvalidSignature]
  | Some signatureBytes =>
      at_ <~ now;;
      challenge <~ ConsumeChallenge challengeID at_;;
      publicKey <~ lift (match b58_decode (ch_AgentID challenge) with None => Err [] | Some k => Ok k end);;
      valid <~ lift (ed25519_Verify publicKey
        (Message (ch_ID challenge) (ch_AgentID challenge) (ch_Nonce challenge)) signatureBytes);;
      _ <~ refuse (negb valid) [ErrInvalidSignature];;
      issueSession (ch_AgentID challenge)
  end.

Definition bearer : string := "Bearer ".

(** [Authenticate] at time [at_]; the clock is only read by the parser. *)
Definition authenticate (at_ : time) (header : string) : res string :=
  if negb (has_prefix header bearer) then Err [ErrSessionInvalid]
  else
    let raw := TrimSpace (sdrop (slen bearer) header) in
    if String.eqb raw "" then Err [ErrSessionInvalid]
    else
      audience ← rewrap ErrSessionInvalid (hs_parse (au_secret s) at_ raw);
      aud ← rewrap ErrSessionInvalid audience;
      match aud with
      | [agent] => _ ← rewrap ErrSessionInvalid (ParsePublicKey agent); Ok agent
      | _ => Err [ErrSessionInvalid]
      end.

Definition Authenticate (header : string) : io World string :=
  at_ <~ now;; lift (authenticate at_ header).
End Auth.

(** ** What a login signature commits to *)

Definition no_newline : string → bool := all_chars (fun c => negb (ord c =? 10)).

(** Text without a line break is delimited by the next line break. *)
Lemma line_delimited p q x y : no_newline p = true → no_newline q = true →
  p +:+ nl +:+ x = q +:+ nl +:+ y → p = q ∧ x = y.
Proof.
  unfold no_newline. revert q. induction p as [|c p IH]; intros [|d q] Hp Hq; cbn [String.append all_chars nl] in *.
  - by intros [= ->].
  - intros [= <- _]. discriminate Hq.
  - intros [= -> _]. discriminate Hp.
  - intros [= -> E]. apply andb_true_iff in Hp as [_ Hp], Hq as [_ Hq].
    destruct (IH q Hp Hq E) as [-> ->]. done.
Qed.

Lemma Message_inj c a n c' a' n' :
  no_newline c = true → no_newline a = true → no_newline c' = true → no_newline a' = true →
  Message c a n = Message c' a' n' → c = c' ∧ a = a' ∧ n = n'.
Proof.
  unfold Message. intros Hc Ha Hc' Ha' E. do 3 apply sapp_inj_l in E.
  apply line_delimited in E as [-> E]; [|done..]. apply sapp_inj_l in E.
  apply line_delimited in E as [-> E]; [|done..]. by apply sapp_inj_l in E.
Qed.

(** A login message is no statement of [Attest]. *)
Lemma Message_no_statement c a n kind t r : Message c a n ≠ header kind t +:+ r.
Proof.
  unfold Message, header, newEncoder, authDomain, CanonicalForm. cbn [String.append]. discriminate.
Qed.

(** ** The login protocol *)
Section Login.
Context `{IB : Base58} `{IE : Ed25519} `{IS : SessionJWT} (s : Authority).

(** The row of an open challenge: not yet redeemed, not yet expired. *)
Definition open_challenge (w : World) (id : string) (c : ChallengeRow) : Prop :=
  challenges (w_db w) !! id = Some c ∧ c_consumed c = None ∧ w_now w < c_expires c.

(** The row once redeemed at the world's time. *)
Definition redeemed (w : World) (c : ChallengeRow) : ChallengeRow :=
  mkChallengeRow (c_agent c) (c_nonce c) (c_expires c) (Some (nanos (w_now w))).
Definition consume (w : World) (id : string) (c : ChallengeRow) : World :=
  with_db w (with_challenges (w_db w) (<[id := redeemed w c]> (challenges (w_db w)))).

Lemma run_ConsumeChallenge w id c : open_challenge w id c →
  run (ConsumeChallenge id (w_now w)) w =
    Some (Ok (mkChallenge id (c_agent c) (c_nonce c) (c_expires c) (Some (w_now w))), consume w id c).
Proof.
  intros (Hc & Hn & Ht). unfold ConsumeChallenge, write. cbn [run]. rewrite Hc, Hn, bool_decide_false.
  2: intros [? ?]; discriminate.
  unfold after, fromNanos. destruct (Z.ltb_spec (w_now w) (c_expires c)); [done|lia].
Qed.

(** Not open: the attempt fails and leaves the world as it is. *)
Lemma run_ConsumeChallenge_closed w id : (∀ c, ¬ open_challenge w id c) →
  ∃ e, run (ConsumeChallenge id (w_now w)) w = Some (Err e, w).
Proof.
  intros Ho. unfold ConsumeChallenge, write. cbn [run].
  destruct (challenges (w_db w) !! id) as [c|] eqn:Hc; [|by eexists].
  case_bool_decide as Hn; [by eexists|]. unfold after, fromNanos.
  destruct (Z.ltb_spec (w_now w) (c_expires c)); [|by eexists].
  exfalso. apply (Ho c). split_and!; [done| |done]. by apply eq_None_not_Some.
Qed.

(** The check of the signature, once the challenge is consumed. *)
Definition proves (id : string) (c : ChallengeRow) (value : string) : Prop :=
  ∃ key, b58_decode (c_agent c) = Some key ∧ slen value = SignatureSize ∧
    ed_verify key (Message id (c_agent c) (c_nonce c)) value = true.

Lemma run_Redeem_open w id c signature value key :
  base64_decode signature = Some value → open_challenge w id c →
  b58_decode (c_agent c) = Some key → length key = PublicKeySize →
  run (Redeem s id signature) w =
    if Nat.eqb (slen value) SignatureSize && ed_verify key (Message id (c_agent c) (c_nonce c)) value
    then run (issueSession s (c_agent c)) (consume w id c)
    else Some (Err [ErrInvalidSignature], consume w id c).
Proof.
  intros Hv Ho Hk Hl. unfold Redeem. rewrite Hv, run_io_bind. cbn [now run].
  rewrite run_io_bind, (run_ConsumeChallenge _ _ _ Ho). cbn [ch_AgentID ch_ID ch_Nonce].
  rewrite run_io_bind, Hk. cbn [lift run]. rewrite run_io_bind. unfold ed25519_Verify. rewrite Hl.
  cbn [Nat.eqb PublicKeySize negb lift run]. rewrite run_io_bind.
  destruct (_ && _); cbn [negb]; unfold refuse, guard_err; cbn [run]; reflexivity.
Qed.

Lemma run_issueSession `{!SessionJWTLaws} w agent : ∃ tok w',
  run (issueSession s agent) w = Some (Ok (mkSession tok agent (w_now w + au_sessionTTL s)), w') ∧
  w_db w' = w_db w ∧ w_now w' = w_now w ∧
  hs_sign (au_secret s) (mkSessionClaims "vtessera" sessionSubject agent (w_now w / second) (w_now w / second)
    ((w_now w + au_sessionTTL s) / second) (w_uuid w (w_next w))) = Ok tok.
Proof.
  unfold issueSession. rewrite run_io_bind. cbn [now run]. cbv zeta. rewrite run_io_bind. cbn [NewString run].
  rewrite run_io_bind. edestruct (hs_signs (au_secret s)) as (tok & Ht & _). rewrite Ht. cbn [lift run ok].
  by eexists _, _.
Qed.

(** What [ParsePublicKey] accepts. *)
Lemma ParsePublicKey_ok a k : ParsePublicKey a = Ok k ↔
  k = a ∧ a ≠ "" ∧ ∃ key, b58_decode a = Some key ∧ length key = PublicKeySize.
Proof.
  unfold ParsePublicKey, PublicKeySize. destruct (String.eqb_spec a ""); [naive_solver|].
  destruct (b58_decode a) as [key|]; [|naive_solver].
  destruct (Nat.eqb_spec (length key) 32); naive_solver.
Qed.

(** A session token is good for its agent alone, until it expires. *)
Lemma authenticate_session `{!SessionJWTLaws} agent iat exp jti tok t :
  hs_sign (au_secret s) (mkSessionClaims "vtessera" sessionSubject agent iat iat exp jti) = Ok tok →
  is_ok (ParsePublicKey agent) = true →
  (iat * second ≤ t < exp * second → authenticate s t (bearer +:+ tok) = Ok agent) ∧
  (exp ≠ 0 → exp * second ≤ t → authenticate s t (bearer +:+ tok) = Err [ErrSessionInvalid]).
Proof.
  intros Ht Hp. edestruct (hs_signs (au_secret s)) as (tok' & Ht' & Hne & Htrim). rewrite Ht in Ht'.
  injection Ht' as <-. unfold authenticate.
  assert (has_prefix (bearer +:+ tok) bearer = true) as -> by (by destruct tok).
  assert (sdrop (slen bearer) (bearer +:+ tok) = tok) as -> by reflexivity.
  rewrite Htrim. apply String.eqb_neq in Hne as ->. cbn [negb]. split; [intros Hr|intros Hz Hr].
  - rewrite (hs_accepts _ _ _ _ Ht Hp Hr). cbn [rewrap mbind res_bind sc_aud].
    destruct (ParsePublicKey agent); [done|discriminate].
  - pose proof (hs_expires _ _ _ t Ht Hz Hr) as He. by destruct (hs_parse _ _ _).
Qed.

(** Every stored challenge names a well-formed key; [System] proves it of every
    reachable world. *)
Definition keys_valid (d : DB) : Prop :=
  ∀ id c, challenges d !! id = Some c → is_ok (ParsePublicKey (c_agent c)) = true.

Lemma keys_valid_key w id c : keys_valid (w_db w) → challenges (w_db w) !! id = Some c →
  ∃ key, b58_decode (c_agent c) = Some key ∧ length key = PublicKeySize.
Proof.
  intros Hw Hc. specialize (Hw id c Hc). destruct (ParsePublicKey (c_agent c)) as [k|] eqn:E; [|discriminate].
  apply ParsePublicKey_ok in E as (_ & _ & ?). done.
Qed.

Lemma run_Redeem_valid w id c signature value :
  keys_valid (w_db w) → open_challenge w id c → base64_decode signature = Some value → ∃ key,
    b58_decode (c_agent c) = Some key ∧ run (Redeem s id signature) w =
      if Nat.eqb (slen value) SignatureSize && ed_verify key (Message id (c_agent c) (c_nonce c)) value
      then run (issueSession s (c_agent c)) (consume w id c)
      else Some (Err [ErrInvalidSignature], consume w id c).
Proof.
  intros Hkeys Ho Hv. destruct (keys_valid_key w id c Hkeys (proj1 Ho)) as (key & Hk & Hl).
  exists key. split; [done|]. by eapply run_Redeem_open.
Qed.

Lemma open_or_closed w id : (∃ c, open_challenge w id c) ∨ ∀ c, ¬ open_challenge w id c.
Proof.
  destruct (challenges (w_db w) !! id) as [c|] eqn:Hc; [|right; intros c [? _]; congruence].
  destruct (decide (c_consumed c = None ∧ w_now w < c_expires c)) as [Ho|Hno]; [left; by exists c|right].
  intros c' (Hc' & Ho). rewrite Hc in Hc'. by injection Hc' as <-.
Qed.

(** Only an open challenge is redeemed. *)
Lemma Redeem_opened w id signature se w' : run (Redeem s id signature) w = Some (Ok se, w') →
  ∃ c value, open_challenge w id c ∧ base64_decode signature = Some value.
Proof.
  unfold Redeem. destruct (base64_decode signature) as [value|]; [|discriminate].
  destruct (open_or_closed w id) as [[c Ho]|Hno]; [by exists c, value|].
  rewrite run_io_bind. cbn [now run]. rewrite run_io_bind.
  by destruct (run_ConsumeChallenge_closed w id Hno) as [e ->].
Qed.

(** C39: a session is issued exactly for a signature, by the challenged agent's
  key, over this very challenge while it is open; the session names that agent;
  and any attempt with a decodable signature uses the challenge up, be the
  signature right or wrong. *)
Theorem Redeem_needs_signature `{!SessionJWTLaws} w id signature :
  keys_valid (w_db w) →
  ((∃ se w', run (Redeem s id signature) w = Some (Ok se, w')) ↔
   ∃ c value, open_challenge w id c ∧ base64_decode signature = Some value ∧ proves id c value) ∧
  (∀ se w', run (Redeem s id signature) w = Some (Ok se, w') →
     ∃ c, challenges (w_db w) !! id = Some c ∧ se_AgentID se = c_agent c ∧
       se_ExpiresAt se = w_now w + au_sessionTTL s) ∧
  (∀ c value, open_challenge w id c → base64_decode signature = Some value →
     ∃ r w', run (Redeem s id signature) w = Some (r, w') ∧
       challenges (w_db w') !! id = Some (redeemed w c)).
Proof.
  intros Hkeys.
  split_and!.
  - split.
    + intros (se & w' & Hr). destruct (Redeem_opened _ _ _ _ _ Hr) as (c & value & Ho & Hv).
      destruct (run_Redeem_valid w id c signature value Hkeys Ho Hv) as (key & Hk & He). rewrite He in Hr. exists c, value. split_and!; [done..|].
      exists key. destruct (Nat.eqb_spec (slen value) SignatureSize), (ed_verify _ _ _); done.
    + intros (c & value & Ho & Hv & key & Hk & Hl & Hed). destruct (run_Redeem_valid w id c signature value Hkeys Ho Hv) as (key' & Hk' & ->).
      rewrite Hk in Hk'. injection Hk' as <-. rewrite Hl, Hed, Nat.eqb_refl. cbn [andb].
      destruct (run_issueSession (consume w id c) (c_agent c)) as (tok & w' & Hr & _). eauto.
  - intros se w' Hr. destruct (Redeem_opened _ _ _ _ _ Hr) as (c & value & Ho & Hv).
    destruct (run_Redeem_valid w id c signature value Hkeys Ho Hv) as (key & _ & He). rewrite He in Hr. exists c. split; [apply Ho|].
    destruct (_ && _); [|discriminate].
    destruct (run_issueSession (consume w id c) (c_agent c)) as (tok & w2 & Hr' & _). rewrite Hr' in Hr.
    by injection Hr as <- <-.
  - intros c value Ho Hv. destruct (run_Redeem_valid w id c signature value Hkeys Ho Hv) as (key & _ & ->).
    destruct (_ && _).
    + destruct (run_issueSession (consume w id c) (c_agent c)) as (tok & w2 & Hr & Hdb & _).
      eexists _, w2. split; [exact Hr|]. rewrite Hdb. apply lookup_insert_eq.
    + eexists _, _. split; [done|]. apply lookup_insert_eq.
Qed.

Lemma run_IssueChallenge w agent nonce ch w1 : run (IssueChallenge s agent nonce) w = Some (Ok ch, w1) →
  is_ok (ParsePublicKey agent) = true ∧ ch_AgentID ch = agent ∧ w_now w1 = w_now w ∧
  challenges (w_db w1) !! ch_ID ch =
    Some (mkChallengeRow agent (ch_Nonce ch) (nanos (w_now w + au_challengeTTL s)) None).
Proof.
  unfold IssueChallenge. rewrite run_io_bind. destruct (ParsePublicKey agent) as [k|]; [|discriminate].
  cbn [lift run]. rewrite run_io_bind. cbn [now run]. rewrite run_io_bind. cbn [NewString run]. cbv zeta.
  rewrite run_io_bind. unfold CreateChallenge, write. cbn [run]. db_simpl.
  destruct (bool_decide _); [discriminate|]. unfold ok. cbn [run]. intros [= <- <-]. cbn [ch_ID ch_AgentID ch_Nonce ch_ExpiresAt w_now]. split_and!; [done..|].
  apply lookup_insert_eq.
Qed.

(** C36: the login protocol works.  A challenge issued for a key's agent, signed by
  that key and redeemed in time, yields a session; its token authenticates that
  agent and no other until its expiry (in whole seconds), nobody from then on
  (an expiry in second 0 of 1970 counts as none); and redeeming the challenge again fails as stale, whatever the signature. *)
Theorem login_roundtrip `{!SessionJWTLaws} `{!Base58Laws} `{!Ed25519Laws} k nonce w ch w1 w2 :
  length k = PrivateKeySize → Forall (fun b => 0 ≤ b < 256) k →
  run (IssueChallenge s (PublicKeyBase58 k) nonce) w = Some (Ok ch, w1) →
  challenges (w_db w2) = challenges (w_db w1) → w_now w2 < nanos (w_now w1 + au_challengeTTL s) →
  let signature := base64 (ed_sign k (Message (ch_ID ch) (PublicKeyBase58 k) (ch_Nonce ch))) in
  ∃ se w3, run (Redeem s (ch_ID ch) signature) w2 = Some (Ok se, w3) ∧
    se_AgentID se = PublicKeyBase58 k ∧ se_ExpiresAt se = w_now w2 + au_sessionTTL s ∧
    (∀ t, w_now w2 ≤ t → t / second < se_ExpiresAt se / second →
       authenticate s t (bearer +:+ se_Token se) = Ok (PublicKeyBase58 k)) ∧
    (se_ExpiresAt se / second ≠ 0 → ∀ t, se_ExpiresAt se ≤ t → authenticate s t (bearer +:+ se_Token se) = Err [ErrSessionInvalid]) ∧
    (∀ w4 sig' value, challenges (w_db w4) = challenges (w_db w3) → base64_decode sig' = Some value →
       run (Redeem s (ch_ID ch) sig') w4 = Some (Err [ErrStale], w4)).
Proof.
  intros Hl Hb Hi Hch Ht signature. apply run_IssueChallenge in Hi as (Hp & Ha & Hn & Hc).
  set (row := mkChallengeRow _ _ _ _) in Hc. rewrite <-Hch in Hc.
  assert (open_challenge w2 (ch_ID ch) row) as Ho by (split_and!; cbn [c_consumed c_expires row]; [done|done|]; by rewrite <-Hn).
  assert (b58_decode (PublicKeyBase58 k) = Some (ed_public k)) as Hk by (apply b58_roundtrip; by apply Forall_drop).
  assert (run (Redeem s (ch_ID ch) signature) w2 =
    run (issueSession s (PublicKeyBase58 k)) (consume w2 (ch_ID ch) row)) as Hr.
  { unfold signature. rewrite (run_Redeem_open w2 (ch_ID ch) row _ _ (ed_public k) (base64_roundtrip _) Ho Hk);
      [|unfold ed_public; rewrite length_drop, Hl; reflexivity].
    rewrite ed_sign_length, Nat.eqb_refl. cbn [c_agent c_nonce row andb]. by rewrite ed_sign_verify. }
  destruct (run_issueSession (consume w2 (ch_ID ch) row) (PublicKeyBase58 k)) as (tok & w3 & Hs & Hdb & Hnow & Hsig).
  rewrite Hr, Hs. eexists (mkSession tok _ _), w3. cbn [se_AgentID se_ExpiresAt se_Token].
  change (w_now (consume w2 (ch_ID ch) row)) with (w_now w2) in *.
  unfold second. split_and!; [done..| | |].
  - intros t Hfrom Huntil. apply (authenticate_session _ _ _ _ _ t Hsig Hp). unfold second.
    split; Z.to_euclidean_division_equations; lia.
  - intros Hz t Hfrom. apply (authenticate_session _ _ _ _ _ t Hsig Hp); unfold second; [exact Hz|].
    Z.to_euclidean_division_equations; lia.
  - intros w4 sig' value Hw4 Hv. unfold Redeem. rewrite Hv, run_io_bind. cbn [now run].
    rewrite run_io_bind. unfold ConsumeChallenge, write. cbn [run]. rewrite Hw4, Hdb. db_simpl.
    cbn [consume with_db w_db with_challenges challenges]. rewrite lookup_insert_eq, bool_decide_true; [done|by eexists].
Qed.
End Login.

(** ** Witnesses *)

(** A token format that spells its claims out. *)
Definition itoz (z : Z) : string := if z <? 0 then String "-" (format_uint (- z)) else format_uint z.
Definition ztoi (s : string) : Z :=
  match s with String "-" s' => - dec s' | _ => dec s end.
Definition spelled (c : SessionClaims) : string :=
  String "(" (itoz (sc_nbf c) +:+ String ":" (itoz (sc_exp c) +:+ String ":" (sc_aud c +:+ ")))"))).

Lemma ztoi_itoz z : ztoi (itoz z) = z.
Proof.
  unfold itoz. destruct (Z.ltb_spec z 0).
  - cbn [ztoi]. rewrite dec_format_uint; lia.
  - rewrite <-(dec_format_uint z) at 2 by done. pose proof (format_uint_digits z H) as Hd.
    destruct (format_uint z) as [|c s] eqn:E; [done|]. cbn in Hd. apply andb_true_iff in Hd as [Hc _].
    assert (c ≠ "-"%char) as Hne by (intros ->; discriminate). unfold ztoi.
    destruct c as [[] [] [] [] [] [] [] []]; try reflexivity; by destruct Hne.
Qed.

Lemma itoz_no_colon z : all_chars (fun c => negb (ceqb c ":")) (itoz z) = true.
Proof.
  assert (∀ n, 0 ≤ n → all_chars (fun c => negb (ceqb c ":")) (format_uint n) = true) as Hd.
  { intros n Hn. eapply all_chars_impl; [|by apply format_uint_digits]. intros c Hc.
    destruct (Stdlib.Strings.Ascii.eqb_spec c ":") as [->|]; [discriminate|done]. }
  unfold itoz. destruct (Z.ltb_spec z 0); [|by apply Hd]. cbn [all_chars]. rewrite Hd by lia. done.
Qed.

Definition demoSessionJWT : SessionJWT := {|
  hs_sign _ c := Ok (spelled c);
  hs_parse _ t tok :=
    let '(nbf, rest, _) := cut ":" (sdrop 1 tok) in
    let '(exp, aud, _) := cut ":" rest in
    if (t <? ztoi nbf * second) || (ztoi exp * second <=? t) then Err []
    else Ok (Ok [stake (slen aud - 3) aud]) |}.

Lemma sdrop_app n x y : sdrop (slen x + n) (x +:+ y) = sdrop n y.
Proof. by induction x. Qed.
Lemma stake_app x y : stake (slen x) (x +:+ y) = x.
Proof. induction x as [|c x IH]; [by destruct y|]. cbn. by rewrite IH. Qed.

Lemma TrimSpace_bracketed x : TrimSpace (String "(" (x +:+ ")))")) = String "(" (x +:+ ")))").
Proof.
  unfold TrimSpace. cbn [slen trim_space_left]. change (space_len (String "(" (x +:+ ")))"))) with 0%nat. cbv iota zeta.
  assert (space_len_end (String "(" (x +:+ ")))")) = 0%nat) as E.
  { change (String "(" (x +:+ ")))")) with ((String "(" x) +:+ ")))"). unfold space_len_end.
    set (y := String "(" x). cbv zeta. rewrite slen_app. cbn [slen].
    replace (slen y + 3 - 1)%nat with (slen y + 2)%nat by lia.
    replace (slen y + 3 - 2)%nat with (slen y + 1)%nat by lia.
    replace (slen y + 3 - 3)%nat with (slen y + 0)%nat by lia. by rewrite !sdrop_app. }
  cbn [slen trim_space_right]. by rewrite E.
Qed.

Lemma demoSessionJWT_parse secret c t : @hs_parse demoSessionJWT secret t (spelled c) =
  if (t <? sc_nbf c * second) || (sc_exp c * second <=? t) then Err [] else Ok (Ok [sc_aud c]).
Proof.
  unfold hs_parse, demoSessionJWT, spelled. cbn [sdrop].
  assert (∀ s, match s with EmptyString => s | _ => s end = s) as Hm by (by intros []).
  change (sdrop 0 ?s) with s. rewrite cut_app by apply itoz_no_colon. rewrite cut_app by apply itoz_no_colon.
  rewrite !ztoi_itoz, slen_app. cbn [slen]. replace (slen (sc_aud c) + 3 - 3)%nat with (slen (sc_aud c)) by lia.
  by rewrite stake_app.
Qed.

Lemma demoSessionJWT_laws : @SessionJWTLaws demoBase58 demoSessionJWT.
Proof.
  split.
  - intros secret c. exists (spelled c). split_and!; [done|done|]. unfold spelled.
    set (m := itoz (sc_nbf c)). set (x := itoz (sc_exp c)).
    replace (m +:+ String ":" (x +:+ String ":" (sc_aud c +:+ ")))")))
      with ((m +:+ String ":" (x +:+ String ":" (sc_aud c))) +:+ ")))"); [apply TrimSpace_bracketed|].
    rewrite sapp_assoc. cbn [String.append]. rewrite sapp_assoc. cbn [String.append]. done.
  - intros secret c tok t [= <-] _ Ht. rewrite demoSessionJWT_parse.
    destruct (Z.ltb_spec t (sc_nbf c * second)), (Z.leb_spec (sc_exp c * second) t); [lia..|done].
  - intros secret c tok t [= <-] _ Ht. rewrite demoSessionJWT_parse.
    destruct (Z.leb_spec (sc_exp c * second) t); [|lia]. by rewrite orb_true_r.
Qed.

Definition demoAuthority : Authority := mkAuthority "0123456789abcdef0123456789abcdef" defaultTTL hour.
Definition demoAgent (b : Z) : string := @PublicKeyBase58 demoBase58 (demoKey b).
Definition demoMorning : World := demoWorld emptyDB (5 * second).
(** The challenge issued in it, and the world after. *)
Definition demoChallenge : Challenge := mkChallenge "uuid-0" (demoAgent 66) "bm9uY2U=" (305 * second) None.
Definition demoIssued : World :=
  match run (@IssueChallenge demoBase58 demoAuthority (demoAgent 66) "nonce") demoMorning with
  | Some (_, w) => w
  | None => demoMorning
  end.
Definition demoAnswer : string :=
  base64 (@ed_sign demoEd25519 (demoKey 66) (Message "uuid-0" (demoAgent 66) "bm9uY2U=")).

Lemma login_roundtrip_witness :
  run (@IssueChallenge demoBase58 demoAuthority (demoAgent 66) "nonce") demoMorning = Some (Ok demoChallenge, demoIssued) ∧
  ∃ se w3, run (@Redeem demoBase58 demoEd25519 demoSessionJWT demoAuthority "uuid-0" demoAnswer) demoIssued = Some (Ok se, w3) ∧
    @authenticate demoBase58 demoSessionJWT demoAuthority (9 * second) (bearer +:+ se_Token se) = Ok (demoAgent 66).
Proof.
  assert (run (@IssueChallenge demoBase58 demoAuthority (demoAgent 66) "nonce") demoMorning =
    Some (Ok demoChallenge, demoIssued)) as Hi by (vm_compute; reflexivity).
  split; [exact Hi|].
  destruct (@login_roundtrip demoBase58 demoEd25519 demoSessionJWT demoAuthority demoSessionJWT_laws demoBase58_laws
    demoEd25519_laws (demoKey 66) "nonce" demoMorning demoChallenge demoIssued demoIssued)
    as (se & w3 & Hr & _ & He & Ha & _).
  - reflexivity.
  - vm_compute. repeat constructor; discriminate.
  - exact Hi.
  - reflexivity.
  - vm_compute. reflexivity.
  - exists se, w3. split; [exact Hr|]. apply Ha; [vm_compute; discriminate|rewrite He; vm_compute; reflexivity].
Defined.

Lemma Redeem_needs_signature_witness :
  keys_valid (IB := demoBase58) (w_db demoIssued) ∧
  ¬ (∃ se w', run (@Redeem demoBase58 demoEd25519 demoSessionJWT demoAuthority "uuid-0" "AAAA") demoIssued = Some (Ok se, w')).
Proof.
  assert (keys_valid (IB := demoBase58) (w_db demoIssued)) as Hk.
  { intros id c Hc. unfold demoIssued in Hc. vm_compute in Hc.
    destruct (decide (id = "uuid-0")) as [->|Hne].
    - vm_compute in Hc. injection Hc as <-. vm_compute. reflexivity.
    - change (({["uuid-0" := mkChallengeRow (demoAgent 66) "bm9uY2U=" (305 * second) None]} : gmap string ChallengeRow) !! id = Some c) in Hc.
      rewrite lookup_singleton_ne in Hc by congruence. discriminate. }
  split; [exact Hk|].
  destruct (@Redeem_needs_signature demoBase58 demoEd25519 demoSessionJWT demoAuthority demoSessionJWT_laws
    demoIssued "uuid-0" "AAAA" Hk) as [[Hfwd _] _].
  intros Hs. destruct (Hfwd Hs) as (c & value & _ & Hv & key & _ & Hl & _).
  vm_compute in Hv. injection Hv as <-. vm_compute in Hl. discriminate.
Defined.
