(* ===== verification/Market.v ===== *)
(** * [internal/registry]: agents, cards and offers

    [registry.go]: publishing cards and offers with their signatures, closing and
    expiring offers, probing agents, retiring and restoring them.  [Registrar] is
    the service's configuration; every operation is a program over [World]. *)
From S2P Require Import Prelude Prog Money Domain Tokens Keys Attest Probe World Store.

Definition ErrAgentSuspended : sentinel := "registry.ErrAgentSuspended".
Definition ErrNotOwner : sentinel := "registry.ErrNotOwner".
Definition ErrCurrencyNotAccepted : sentinel := "registry.ErrCurrencyNotAccepted".
Definition ErrAmountTooPrecise : sentinel := "registry.ErrAmountTooPrecise".
Definition registry_ErrMintUnpriced : sentinel := "registry.ErrMintUnpriced".
Definition ErrRetirementReasonRequired : sentinel := "registry.ErrRetirementReasonRequired".
Definition ErrOfferAttestationRequired : sentinel := "registry.ErrOfferAttestationRequired".
Definition ErrNoProbeTarget : sentinel := "registry.ErrNoProbeTarget".
Definition ErrAttestationRefused : sentinel := "registry.ErrAttestationRefused".

(** [rg_mints] is nil without on-chain settlement, [rg_priced] is the optional
    price table, [rg_market] the marketplace's signing key and [rg_retired] the
    public keys it signed with before. *)
Record Registrar := mkRegistrar {
  rg_mints : option Registry; rg_priced : option (string → bool); rg_requireOfferSig : bool;
  rg_prober : option ProbeLimits; rg_offerTTL : duration;
  rg_market : option privkey; rg_retired : list string }.

Record NewOffer := mkNewOffer {
  no_Direction : OfferDirection; no_Description : string; no_Capabilities : list string;
  no_PriceAmount : string; no_PriceMint : string; no_SettlementModes : list SettlementMode }.

(** ** Projections to the signed statements *)
Definition attestSkill (k : AgentSkill) : Skill :=
  mkSkill (skill_ID k) (skill_Name k) (skill_Tags k) (skill_Input k) (skill_Output k).

Definition attestCard (c : AgentCard) : Card :=
  mkCard (card_PublicKey c) (card_Name c) (card_Description c) (card_Version c) (card_URL c)
    (card_Capabilities c) (map attestSkill (card_Skills c)) (card_Currencies c) (card_SettlementModes c)
    (card_ProbeTarget c).

Section Market.
Context `{IB : Base58} `{IE : Ed25519} `{IN : NetURL} (s : Registrar).

Definition mintInfo (address : string) : MintInfo :=
  match rg_mints s with
  | None => mkMintInfo address "" 0 false
  | Some r => match Lookup r address with
              | Some entry => Token_MintInfo entry
              | None => mkMintInfo address "" 0 false
              end
  end.

Definition attestOffer (o : Offer) : AttestOffer :=
  let mint := mintInfo (offer_PriceMint o) in
  let '(scale, units) :=
    if mi_Known mint
    then (format_uint (mi_Decimals mint),
          match BaseUnits (offer_PriceAmount o) (mi_Decimals mint) with Ok base => format_uint base | Err _ => "" end)
    else ("", "") in
  mkAttestOffer (offer_ID o) (offer_AgentID o) (offer_Description o) (offer_Direction o) (offer_Capabilities o)
    (offer_PriceMint o) scale units (amount_String (offer_PriceAmount o)) (offer_SettlementModes o).

Definition MarketplaceKeyID : string := match rg_market s with Some k => PublicKeyBase58 k | None => "" end.
Definition marketKeys : list string :=
  match rg_market s with Some k => PublicKeyBase58 k :: rg_retired s | None => [] end.

(** A method of the marketplace key, which panics when there is none. *)
Definition with_market {A} (f : privkey → res A) : res A :=
  match rg_market s with Some k => f k | None => Err [EPanic] end.

(** ** Cards *)
Definition with_card_key (c : AgentCard) (key : string) : AgentCard :=
  mkAgentCard (card_Name c) (card_Description c) (card_Version c) (card_URL c) key (card_Capabilities c)
    (card_Skills c) (card_Currencies c) (card_SettlementModes c) (card_ProbeTarget c).

Definition Register (agentID : string) (card0 : AgentCard) (sig : option Signature) : io World (Agent * bool) :=
  _ <~ lift (wrap ErrInvalid (ParsePublicKey agentID));;
  let card := if String.eqb (card_PublicKey card0) "" then with_card_key card0 agentID else card0 in
  _ <~ refuse (negb (String.eqb (card_PublicKey card) agentID)) [ErrInvalid];;
  _ <~ lift (card_Validate card);;
  _ <~ lift (match sig with Some g => wrap ErrAttestationRefused (VerifyCard (attestCard card) g) | None => Ok tt end);;
  at_ <~ now;;
  marketSig <~ lift (with_market (fun k => wrap ErrAttestationRefused (AttestCard k (attestCard card) at_)));;
  on_result (GetAgent agentID) (fun r =>
    match r with
    | Ok existing =>
        let agent := mkAgent (agent_ID existing) card (agent_Status existing) (agent_CreatedAt existing) at_ in
        _ <~ SaveAgentCard agent sig marketSig at_;; ok (agent, false)
    | Err e =>
        if negb (errorIs e ErrNotFound) then fail e
        else
          let agent := mkAgent agentID card AgentActive at_ at_ in
          _ <~ SaveAgentCard agent sig marketSig at_;; ok (agent, true)
    end).

Definition market_Agent (id : string) : io World Agent := GetAgent id.
Definition Agents (status : AgentStatus) : io World (list Agent) :=
  ListAgents (if String.eqb status "" then AgentActive else status).

(** ** Offers *)
Definition sameListing (a b : AttestOffer) (at_ : time) : bool :=
  String.eqb (Digest (OfferBytes a at_)) (Digest (OfferBytes b at_)).

Definition checkCurrencyAccepted (agent : Agent) (mint : string) : res unit :=
  let l := card_Currencies (agent_Card agent) in
  if Nat.eqb (length l) 0 || bool_decide (mint ∈ l) then Ok tt else Err [ErrCurrencyNotAccepted].

Definition checkSettleable (o : Offer) : res unit :=
  let mint := mintInfo (offer_PriceMint o) in
  if negb (mi_Known mint) then Ok tt
  else match BaseUnits (offer_PriceAmount o) (mi_Decimals mint) with
       | Ok _ => Ok tt
       | Err e => if errorIs e ErrTooPrecise then Err [ErrAmountTooPrecise] else Err e
       end.

(** The checks of a new offer before it is stored. *)
Definition check_offer (agent : Agent) (o : Offer) (sig : option Signature) : res unit :=
  _ ← offer_Validate o;
  _ ← checkCurrencyAccepted agent (offer_PriceMint o);
  _ ← guard_err (match rg_priced s with Some p => negb (p (offer_PriceMint o)) | None => false end) [registry_ErrMintUnpriced];
  _ ← (if AcceptsMode o SettlementOnchain then checkSettleable o else Ok tt);
  match sig with
  | Some g => wrap ErrAttestationRefused (VerifyOffer (attestOffer o) g)
  | None => Ok tt
  end.

Definition store_offer (o : Offer) (idempotencyKey : string) (sig : option Signature) : io World (Offer * bool) :=
  _ <~ CreateOfferWithAttestation o idempotencyKey sig;; ok (o, true).

(** The offer the request describes. *)
Definition new_offer (id agentID : string) (inp : NewOffer) (amount : Amount) (at_ : time) : Offer :=
  mkOffer id agentID (no_Direction inp) (no_Description inp) (no_Capabilities inp) amount (no_PriceMint inp)
    (no_SettlementModes inp) OfferOpen at_ at_ (if rg_offerTTL s >? 0 then at_ + rg_offerTTL s else zeroTime).

Definition publish_new (agentID : string) (inp : NewOffer) (idempotencyKey offerID : string) (sig : option Signature)
    : io World (Offer * bool) :=
  _ <~ refuse (rg_requireOfferSig s && negb (bool_decide (is_Some sig))) [ErrOfferAttestationRequired];;
  agent <~ GetAgent agentID;;
  _ <~ refuse (negb (String.eqb (agent_Status agent) AgentActive)) [ErrAgentSuspended];;
  amount <~ lift (Money.Parse (no_PriceAmount inp));;
  at_ <~ now;;
  let callerSuppliedID := negb (String.eqb offerID "") in
  id <~ (if callerSuppliedID then ok offerID else NewString);;
  let o := new_offer id agentID inp amount at_ in
  _ <~ lift (check_offer agent o sig);;
  if callerSuppliedID then
    on_result (GetOffer id) (fun r =>
      match r with
      | Ok existing =>
          if negb (sameListing (attestOffer o) (attestOffer existing) (offer_CreatedAt existing))
          then fail [ErrConflict] else ok (existing, false)
      | Err e => if errorIs e ErrNotFound then store_offer o idempotencyKey sig else fail e
      end)
  else store_offer o idempotencyKey sig.

Definition PublishOffer (agentID : string) (inp : NewOffer) (idempotencyKey offerID : string) (sig : option Signature)
    : io World (Offer * bool) :=
  _ <~ refuse (bool_decide (is_Some sig) && String.eqb offerID "") [ErrInvalid];;
  if String.eqb idempotencyKey "" then publish_new agentID inp idempotencyKey offerID sig
  else on_result (GetOfferByIdempotencyKey idempotencyKey) (fun r =>
    match r with
    | Ok existing => ok (existing, false)
    | Err e => if errorIs e ErrNotFound then publish_new agentID inp idempotencyKey offerID sig else fail e
    end).

Definition with_offer_status (o : Offer) (st : OfferStatus) (at_ : time) : Offer :=
  mkOffer (offer_ID o) (offer_AgentID o) (offer_Direction o) (offer_Description o) (offer_Capabilities o)
    (offer_PriceAmount o) (offer_PriceMint o) (offer_SettlementModes o) st (offer_CreatedAt o) at_ (offer_ExpiresAt o).

Definition CloseOffer (agentID offerID : string) : io World Offer :=
  o <~ GetOffer offerID;;
  _ <~ refuse (negb (String.eqb (offer_AgentID o) agentID)) [ErrNotOwner];;
  if negb (String.eqb (offer_Status o) OfferOpen) then ok o
  else
    at_ <~ now;;
    _ <~ SetOfferStatus offerID OfferClosed at_;;
    ok (with_offer_status o OfferClosed at_).

Definition market_Offer (id : string) : io World Offer := GetOffer id.
Definition Search (q : OfferQuery) : io World (list Offer) := SearchOffers q.

(** One offer of the sweep. *)
Definition expire_one (cutoff : time) (expired : Z) (o : Offer) : io World Z :=
  on_result (GetOffer (offer_ID o)) (fun r =>
    match r with
    | Err e => if errorIs e ErrNotFound then ok expired else fail e
    | Ok current =>
        if negb (String.eqb (offer_Status current) OfferOpen) || time_IsZero (offer_ExpiresAt current) ||
           after (offer_ExpiresAt current) cutoff
        then ok expired
        else _ <~ SetOfferStatus (offer_ID o) OfferClosed cutoff;; ok (expired + 1)
    end).

Definition ExpireOffers (limit : Z) : io World Z :=
  if rg_offerTTL s <=? 0 then ok 0
  else
    cutoff <~ now;;
    offers <~ OpenOffersBefore cutoff limit;;
    io_fold (expire_one cutoff) 0 offers.

(** [VerifyOfferAttestation]: the stored signature and whether it verifies. *)
Definition VerifyOfferAttestation (o : Offer) : io World (option (Signature * bool)) :=
  on_result (OfferAttestation (offer_ID o)) (fun r =>
    match r with
    | Ok (Some sig) => ok (Some (sig, is_ok (VerifyOffer (attestOffer o) sig)))
    | _ => ok None
    end).

(** ** Probes.  [challenge] is the random nonce, [reply] what the exchange with the
    agent's endpoint brings. *)
Definition ProbeCapabilities (challenge : string) (reply : Reply) (agentID : string) : io World Report :=
  match rg_prober s with
  | None => fail []
  | Some limits =>
      agent <~ GetAgent agentID;;
      _ <~ refuse (negb (String.eqb (agent_Status agent) AgentActive)) [ErrAgentSuspended];;
      let target := TrimSpace (card_ProbeTarget (agent_Card agent)) in
      _ <~ refuse (String.eqb target "") [ErrNoProbeTarget];;
      checked <~ now;;
      report <~ lift (Run limits target agentID (card_Capabilities (agent_Card agent)) challenge checked reply);;
      signed <~ now;;
      sig <~ lift (with_market (fun k => SignProbe k (Statement report) signed));;
      saved <~ now;;
      _ <~ SaveProbe report sig saved;;
      ok (mkReport (rp_AgentID report) (rp_Target report) (rp_Results report) (rp_CheckedAt report) (Some sig))
  end.

Definition ProbeResult_ (agentID : string) : io World (option Report) := Store.Probe agentID.

Definition VerifyProbe (report : Report) : res unit :=
  match rp_Signature report with
  | None => Err [ErrAttestationRefused]
  | Some sig => VerifyProbeAttestedByAny (Statement report) sig marketKeys
  end.

(** ** Retirement *)
Definition Retire (agentID reason actor : string) : io World Agent :=
  _ <~ refuse (String.eqb reason "") [ErrRetirementReasonRequired];;
  at_ <~ now;;
  RetireAgent agentID reason actor at_.

Definition Restore (agentID actor : string) : io World Agent :=
  _ <~ GetAgent agentID;;
  at_ <~ now;;
  RestoreAgent agentID actor at_.

(** ** What the stored listings say of themselves *)

(** The terms of a stored offer, whatever its status and age. *)
Definition row_offer (id : string) (r : OfferRow) (amount : Amount) : Offer :=
  mkOffer id (o_agent r) (o_direction r) (o_description r) (o_caps r) amount (o_mint r) (o_modes r)
    (o_status r) 0 0 0.

(** Every stored offer signature verifies against the terms as they are stored,
    under the seller's key. *)
Definition offers_signed (d : DB) : Prop := ∀ id a, offer_attestations d !! id = Some a → ∃ r amount,
  offers d !! id = Some r ∧ Money.Parse (o_price r) = Ok amount ∧ oa_agent a = o_agent r ∧
  VerifyOffer (attestOffer (row_offer id r amount)) (oa_signature a) = Ok tt.

(** Every card with an attestation is the card its signatures were made over. *)
Definition cards_signed (d : DB) : Prop := ∀ id a, agent_attestations d !! id = Some a → ∃ r,
  agents d !! id = Some r ∧ card_PublicKey (a_card r) = id ∧
  (∃ k t, rg_market s = Some k ∧ AttestCard k (attestCard (a_card r)) t = Ok (at_market a)) ∧
  (∀ g, at_card a = Some g → VerifyCard (attestCard (a_card r)) g = Ok tt).

(** A probe's verdict is that of its results. *)
Definition probes_agree (d : DB) : Prop := ∀ id v, probes d !! id = Some v →
  v_passed v = Passed (mkReport id (v_target v) (v_results v) 0 None).

(** Every stored listing is one its validation accepts, and every stored card is
    filed under its own key. *)
Definition offer_typed (id : string) (r : OfferRow) : Prop := ∃ o, scanOffer id r = Ok o ∧ offer_Validate o = Ok tt.
Definition agent_typed (id : string) (c : AgentCard) (st : AgentStatus) : Prop :=
  card_Validate c = Ok tt ∧ card_PublicKey c = id ∧ AgentStatus_Valid st = true.
Definition rows_typed (d : DB) : Prop :=
  (∀ id r, offers d !! id = Some r → offer_typed id r) ∧ (∀ id r, agents d !! id = Some r → agent_typed id (a_card r) (a_status r)).

Lemma attestOffer_row id r o : scanOffer id r = Ok o → ∃ amount, Money.Parse (o_price r) = Ok amount ∧
  attestOffer o = attestOffer (row_offer id r amount) ∧ offer_AgentID o = o_agent r.
Proof.
  unfold scanOffer. destruct (Money.Parse (o_price r)) as [a|]; [|done]. intros [= <-]. by exists a.
Qed.
End Market.
