(* ===== verification/Agp.v ===== *)
(** * internal/agp: routing an intent to the cheapest compliant offer

    Open offers are announced under capabilities ([AnnouncementsForOffer]), the
    announcements make a routing table ([BuildTable]), an intent is routed to the
    first entry, in cost order, whose policy meets its constraints ([Route]).
    binary64 arithmetic and its printing are the parameter [Float64], the
    Unicode tables behind [strings.EqualFold] the parameter [Folding]. *)
From S2P Require Import Prelude GoText Prog Sha256 Json Money Domain Tokens World Store Limits Cluster Settlement Keys Attest Probe Auth Market.

Definition ErrRouteNotFound : sentinel := "agp.ErrRouteNotFound".
Definition ErrPolicyViolation : sentinel := "agp.ErrPolicyViolation".
Definition ErrTableStale : sentinel := "agp.ErrTableStale".
Definition ErrInvalidIntent : sentinel := "agp.ErrInvalidIntent".

Definition MaxRoutes : Z := 128.
Definition CodeRouteNotFound : Z := -32200.
Definition CodePolicyViolation : Z := -32201.
Definition CodeTableStale : Z := -32202.

(** The [*Error] values of the package among the sentinels of an error, and their
    codes: [errors.As] takes the first. *)
Definition code (s : sentinel) : option Z :=
  if String.eqb s ErrRouteNotFound then Some CodeRouteNotFound
  else if String.eqb s ErrPolicyViolation then Some CodePolicyViolation
  else if String.eqb s ErrTableStale then Some CodeTableStale
  else None.
Definition CodeOf (e : error) : option Z := head (omap code e).
Definition IsRouteNotFound (e : error) : bool := bool_decide (CodeOf e = Some CodeRouteNotFound).
Definition IsPolicyViolation (e : error) : bool := bool_decide (CodeOf e = Some CodePolicyViolation).

(** ** Numbers and policy values *)
Class Float64 := {
  float64 : Type;
  float_lt : float64 → float64 → bool;
  float_eq : float64 → float64 → bool;
  ParseFloat : string → option float64;  (* [strconv.ParseFloat(s, 64)] *)
  float_of_int : Z → float64;
  float_zero : float64;
  float_text : float64 → string          (* [%v] *)
}.
Record CostFacts := mkCostFacts { cf_Amount : string; cf_Mint : string; cf_Decimals : Z; cf_Units : Z }.

Section Agp.
Context `{IU : Unicode} `{IB : Base58} `{IF : Float64} `{IO : Folding}.

(** The dynamic types a policy value has: those of decoded JSON, and those that
    [AnnouncementsForOffer] puts in. *)
Inductive PolicyValue :=
  | VNull | VBool (b : bool) | VFloat (f : float64) | VInt (z : Z) | VNumber (s : string) (* json.Number *)
  | VString (s : string) | VStrings (l : list string) | VList (l : list PolicyValue)
  | VObject (l : list (string * PolicyValue)) | VMint (m : MintInfo) | VCost (c : CostFacts).
Definition policy : Type := gmap string PolicyValue.

(** [strings.Join] *)
Fixpoint joined (sep : string) (l : list string) : string :=
  match l with [] => "" | [x] => x | x :: l' => x +:+ sep +:+ joined sep l' end.

Definition bool_text (b : bool) : string := if b then "true" else "false".
Definition int_text (z : Z) : string := if z <? 0 then "-" +:+ format_uint (- z) else format_uint z.
Definition str_sort (l : list string) : list string := stable_sort str_lt l.

(** [fmt.Sprint] of one value. *)
Fixpoint Sprint (v : PolicyValue) : string :=
  match v with
  | VNull => "<nil>"
  | VBool b => bool_text b
  | VFloat f => float_text f
  | VInt z => int_text z
  | VNumber s | VString s => s
  | VStrings l => "[" +:+ joined " " l +:+ "]"
  | VList l => "[" +:+ joined " " (map Sprint l) +:+ "]"
  | VObject l => "map[" +:+ joined " " (map snd (stable_sort (fun x y => str_lt x.1 y.1)
      (map (fun '(k, x) => (k, k +:+ ":" +:+ Sprint x)) l))) +:+ "]"
  | VMint m => "{" +:+ joined " " [mi_Address m; mi_Symbol m; int_text (mi_Decimals m); bool_text (mi_Known m)] +:+ "}"
  | VCost c => "{" +:+ joined " " [cf_Amount c; cf_Mint c; int_text (cf_Decimals c); int_text (cf_Units c)] +:+ "}"
  end.

Definition normalizeValue (v : PolicyValue) : PolicyValue :=
  match v with
  | VNumber s => match ParseFloat s with Some f => VFloat f | None => VString s end
  | _ => v
  end.

(** [strconv.ParseBool] *)
Definition ParseBool (s : string) : option bool :=
  if bool_decide (s ∈ ["1"; "t"; "T"; "true"; "TRUE"; "True"]) then Some true
  else if bool_decide (s ∈ ["0"; "f"; "F"; "false"; "FALSE"; "False"]) then Some false
  else None.

Definition toBool (v : PolicyValue) : option bool :=
  match v with VBool b => Some b | VString s => ParseBool s | _ => None end.
Definition toNumber (v : PolicyValue) : option float64 :=
  match v with
  | VFloat f => Some f
  | VInt z => Some (float_of_int z)
  | VNumber s | VString s => ParseFloat s
  | _ => None
  end.
Definition toStringList (v : PolicyValue) : option (list string) :=
  match v with
  | VStrings l => Some l
  | VList l => Some (map (fun x => Sprint (normalizeValue x)) l)
  | VString s => Some [s]
  | _ => None
  end.

(** ** Policies *)
Definition PolicySettlementModes : string := "settlement_modes".
Definition PolicyRequiresPII : string := "requires_pii".
Definition PolicySecurityLevel : string := "security_level".
Definition PolicyCurrencies : string := "currencies".
Definition PolicyDirection : string := "direction".
Definition PolicyCost : string := "cost".
Definition PolicyMint : string := "mint".

Definition matchAnyOf (want have : PolicyValue) : bool :=
  match toStringList want, toStringList have with
  | Some wants, Some haves => existsb (fun w => existsb (EqualFold w) haves) wants
  | _, _ => false
  end.

(** Whether [matchPolicy] returns no error; the texts are not modelled. *)
Definition matchPolicy (key : string) (want have : PolicyValue) : bool :=
  if String.eqb key PolicyRequiresPII then
    match toBool want, toBool have with Some w, Some h => negb (w && negb h) | _, _ => false end
  else if String.eqb key PolicySecurityLevel then
    match toNumber want, toNumber have with Some w, Some h => negb (float_lt h w) | _, _ => false end
  else if String.eqb key PolicySettlementModes || String.eqb key PolicyCurrencies then matchAnyOf want have
  else String.eqb (Sprint (normalizeValue want)) (Sprint (normalizeValue have)).

Definition sortedKeys (m : policy) : list string := str_sort (map fst (map_to_list m)).

Definition checkPolicy (announced constraints : policy) (keys : list string) : bool :=
  forallb (fun key =>
    match constraints !! key, announced !! key with
    | Some want, Some have => matchPolicy key want have
    | _, _ => false
    end) keys.
Definition CheckPolicy (announced constraints : policy) : bool :=
  checkPolicy announced constraints (sortedKeys constraints).

(** ** Capabilities *)
Definition CapabilitySeparator : ascii := ":"%char.

Definition NormalizeCapability (capability : string) : string := ToLower (TrimSpace capability).

Definition ValidateCapability (capability : string) : res unit :=
  let normalized := NormalizeCapability capability in
  if String.eqb normalized "" then Err [ErrInvalidIntent]
  else if len capability >? 200 then Err [ErrInvalidIntent]
  else
    let parts := split CapabilitySeparator normalized in
    if (length parts <? 2)%nat then Err [ErrInvalidIntent]
    else if existsb (fun part => String.eqb part "") parts then Err [ErrInvalidIntent]
    else Ok tt.

(** A decoded intent; [None] is a missing payload. *)
Record Intent := mkIntent {
  in_TargetCapability : string; in_Payload : option (list (string * PolicyValue)); in_PolicyConstraints : policy }.
Definition Intent_Validate (i : Intent) : res unit :=
  _ ← ValidateCapability (in_TargetCapability i);
  match in_Payload i with None => Err [ErrInvalidIntent] | Some _ => Ok tt end.

(** ** Announcements *)
Definition defaultCapabilityDomain : string := "general".
Definition squadPrefix : string := "Squad_Marketplace".

Record CapabilityAnnouncement := mkAnnouncement {
  ca_Capability : string; ca_Version : string; ca_Cost : float64; ca_Policy : policy;
  ca_CostAmount : string; ca_CostMint : string; ca_CostDecimals : Z; ca_SquadPath : string;
  ca_OfferID : string; ca_AgentID : string; ca_AnnouncedAt : string; ca_AnnouncementID : string }.

Definition Announcement_Validate (a : CapabilityAnnouncement) : res unit :=
  _ ← ValidateCapability (ca_Capability a);
  if String.eqb (TrimSpace (ca_Version a)) "" then Err [ErrInvalidIntent]
  else if String.eqb (TrimSpace (ca_SquadPath a)) "" then Err [ErrInvalidIntent]
  else if negb (String.eqb (ca_CostAmount a) "") then
    _ ← rewrap ErrInvalidIntent (Money.Parse (ca_CostAmount a));
    if String.eqb (ca_CostMint a) "" then Err [ErrInvalidIntent] else Ok tt
  else Ok tt.

(** A route; [en_parsedCost] is [parsedCost] when [hasParsedCost]. *)
Record RouteEntry := mkEntry {
  en_Path : string; en_Cost : float64; en_Policy : policy; en_CostAmount : string; en_CostMint : string;
  en_OfferID : string; en_AgentID : string; en_Direction : string; en_Announcement : CapabilityAnnouncement;
  en_parsedCost : option Amount }.

Definition directionOf (p : policy) : string :=
  match p !! PolicyDirection with Some v => Sprint v | None => "" end.

Definition EntryFor (a : CapabilityAnnouncement) : res RouteEntry :=
  _ ← Announcement_Validate a;
  cost ← (if String.eqb (ca_CostAmount a) "" then Ok (ca_Cost a)
          else match ParseFloat (ca_CostAmount a) with Some f => Ok f | None => Err [ErrInvalidIntent] end);
  Ok (mkEntry (ca_SquadPath a) cost (ca_Policy a) (ca_CostAmount a) (ca_CostMint a) (ca_OfferID a) (ca_AgentID a)
    (directionOf (ca_Policy a)) a
    (if String.eqb (ca_CostAmount a) "" then None
     else match Money.Parse (ca_CostAmount a) with Ok x => Some x | Err _ => None end)).

Definition SquadPath (agentID offerID : string) : string :=
  squadPrefix +:+ "/" +:+ agentID +:+ "/offer/" +:+ offerID.

Definition latestAnnouncement (l : list CapabilityAnnouncement) : string :=
  foldl (fun latest a => if str_lt latest (ca_AnnouncedAt a) then ca_AnnouncedAt a else latest) "" l.

Definition is_slug_char (c : ascii) : bool := ((97 <=? ord c) && (ord c <=? 122)) || is_digit c.
Definition dash : ascii := "-"%char.

(** [slug]: the loop over the lower-cased runes, with what has been written so
    far and whether it ends in a dash.  A rune that is no ASCII letter or digit
    is several bytes that are none, and they too make one dash. *)
Fixpoint slug_go (s : string) (written : bool) (previousDash : bool) : string :=
  match s with
  | "" => ""
  | String c s' =>
      if is_slug_char c then String c (slug_go s' true false)
      else if negb previousDash && written then String dash (slug_go s' true true)
      else slug_go s' written previousDash
  end.
Definition slug (s : string) : string := trim (fun c => ceqb c dash) (slug_go (ToLower s) false false).

(** [strings.FieldsFunc] on the same characters. *)
Fixpoint fields_go (s : string) (word : string) : list string :=
  match s with
  | "" => if String.eqb word "" then [] else [word]
  | String c s' =>
      if is_slug_char c then fields_go s' (word +:+ String c "")
      else if String.eqb word "" then fields_go s' "" else word :: fields_go s' ""
  end.
Definition maxWords : nat := 4.
Definition actionSlug (description : string) : string :=
  let action := slug (joined "-" (take maxWords (fields_go (ToLower description) ""))) in
  if String.eqb action "" then "offer" else action.

(** One capability an offer declares, if it makes one. *)
Definition declared_capability (description declared : string) : option string :=
  let declared := TrimSpace declared in
  if String.eqb declared "" then None
  else if has_char (fun c => ceqb c CapabilitySeparator) declared then Some declared
  else
    let domainSlug := slug declared in
    if String.eqb domainSlug "" then None
    else Some (domainSlug +:+ String CapabilitySeparator (actionSlug description)).

(** The closure [add]. *)
Definition add_capability (out : list string) (capability : string) : list string :=
  let normalized := NormalizeCapability capability in
  if String.eqb normalized "" || bool_decide (normalized ∈ out) then out else out ++ [normalized].

Definition CapabilitiesForOffer (o : Offer) : list string :=
  let out := foldl add_capability [] (omap (declared_capability (offer_Description o)) (offer_Capabilities o)) in
  match out with
  | [] => add_capability [] (defaultCapabilityDomain +:+ String CapabilitySeparator (actionSlug (offer_Description o)))
  | _ => out
  end.

Definition cardVersion (a : Agent) : string :=
  if String.eqb (TrimSpace (card_Version (agent_Card a))) "" then "1.0" else card_Version (agent_Card a).
Definition costAsFloat (a : Amount) : float64 := default float_zero (ParseFloat (amount_String a)).
Definition announcementID (capability agentID offerID : string) : string :=
  "ann_" +:+ stake 16 (sha256_hex (joined "|" [capability; agentID; offerID])).

(** [t.Format(time.RFC3339)] of a UTC time: no fraction of a second. *)
Definition rfc3339 (t : time) : string := rfc3339nano (t / second * second).

Definition offer_policy (o : Offer) (a : Agent) (mint : MintInfo) : policy * Z :=
  let base : policy :=
    <[PolicySettlementModes := VStrings (offer_SettlementModes o)]>
    (<[PolicyCurrencies := VStrings [offer_PriceMint o]]>
    (<[PolicyDirection := VString (offer_Direction o)]> {["agent" := VString (agent_ID a)]})) in
  if mi_Known mint then
    match BaseUnits (offer_PriceAmount o) (mi_Decimals mint) with
    | Ok units =>
        (<[PolicyCost := VCost (mkCostFacts (amount_String (offer_PriceAmount o)) (offer_PriceMint o) (mi_Decimals mint) units)]>
          (<[PolicyMint := VMint mint]> base), mi_Decimals mint)
    | Err _ => (base, 0)
    end
  else (base, 0).

Definition announcement (o : Offer) (a : Agent) (mint : MintInfo) (at_ : time) (capability : string)
    : CapabilityAnnouncement :=
  mkAnnouncement capability (cardVersion a) (costAsFloat (offer_PriceAmount o)) (offer_policy o a mint).1
    (amount_String (offer_PriceAmount o)) (offer_PriceMint o) (offer_policy o a mint).2
    (SquadPath (agent_ID a) (offer_ID o)) (offer_ID o) (agent_ID a) (rfc3339 at_)
    (announcementID capability (agent_ID a) (offer_ID o)).

Definition AnnouncementsForOffer (o : Offer) (a : Agent) (mint : MintInfo) (at_ : time)
    : list CapabilityAnnouncement :=
  map (announcement o a mint at_) (CapabilitiesForOffer o).

(** *** [registry.AnnouncementSource.Announcements] *)
Definition seen_agents (l : list Offer) : list string :=
  foldl (fun ids o => if bool_decide (offer_AgentID o ∈ ids) then ids else ids ++ [offer_AgentID o]) [] l.

Definition announced (rg : Registrar) (agents : gmap string Agent) (at_ : time) (o : Offer) : list CapabilityAnnouncement :=
  match agents !! offer_AgentID o with
  | Some agent =>
      if String.eqb (agent_Status agent) AgentActive
      then AnnouncementsForOffer o agent (mintInfo rg (offer_PriceMint o)) at_ else []
  | None => []
  end.

Definition Announcements (rg : Registrar) : io World (list CapabilityAnnouncement) :=
  offers <~ ListOpenOffers;;
  at_ <~ now;;
  agents <~ ListAgentsByIDs (seen_agents offers);;
  ok (concat (map (announced rg agents at_) offers)).

(** ** The table *)
Record Table := mkTable {
  tb_Entries : gmap string (list RouteEntry); tb_AsOf : string; tb_Announcements : list CapabilityAnnouncement }.

Definition lessCost (a b : RouteEntry) : bool :=
  match en_parsedCost a, en_parsedCost b with
  | Some x, Some y =>
      let cmp := Cmp x y in
      if negb (cmp =? 0) then cmp <? 0 else str_lt (en_Path a) (en_Path b)
  | _, _ =>
      if negb (float_eq (en_Cost a) (en_Cost b)) then float_lt (en_Cost a) (en_Cost b)
      else str_lt (en_Path a) (en_Path b)
  end.

(** The loop over the announcements, appending each entry to its capability. *)
Fixpoint enter_all (entries : gmap string (list RouteEntry)) (l : list CapabilityAnnouncement)
    : res (gmap string (list RouteEntry)) :=
  match l with
  | [] => Ok entries
  | a :: l' =>
      entry ← EntryFor a;
      let capability := NormalizeCapability (ca_Capability a) in
      enter_all (<[capability := default [] (entries !! capability) ++ [entry]]> entries) l'
  end.

Definition table_of (announcements : list CapabilityAnnouncement) : res Table :=
  if Z.of_nat (length announcements) >? MaxRoutes then Err [ErrInvalidIntent]
  else
    entries ← enter_all ∅ announcements;
    Ok (mkTable (stable_sort lessCost <$> entries) (latestAnnouncement announcements) announcements).

Definition BuildTable (source : io World (list CapabilityAnnouncement)) : io World Table :=
  announcements <~ source;; lift (table_of announcements).

Definition Capabilities (t : Table) : list string := str_sort (map fst (map_to_list (tb_Entries t))).

Definition Fingerprint (t : Table) : string :=
  "sha256:" +:+ sha256_hex (joined (String (ascii_of_N 10) "")
    (concat (map (fun capability =>
      map (fun e => joined "|" [capability; en_Path e; en_CostAmount e; en_CostMint e])
        (default [] (tb_Entries t !! capability))) (Capabilities t)))).

Record TaskMessage := mkTaskMessage {
  tm_Role : string; tm_Kind : string; tm_TaskID : string; tm_ContextID : string;
  tm_TargetCapability : string; tm_Payload : option (list (string * PolicyValue)) }.
Record TaskEnvelope := mkTaskEnvelope {
  te_JSONRPC : string; te_ID : string; te_Method : string; te_Message : TaskMessage }.

Record RouteResult := mkRouteResult {
  rr_TargetCapability : string; rr_Route : RouteEntry; rr_Considered : Z; rr_Rejected : gmap string Z;
  rr_TableFingerprint : string; rr_TableAsOf : string; rr_Task : option TaskEnvelope }.

Definition count_rejected (l : list RouteEntry) : gmap string Z :=
  foldl (fun m e => if String.eqb (en_OfferID e) "" then m
                    else <[en_OfferID e := default 0 (m !! en_OfferID e) + 1]> m) ∅ l.

Definition complies (i : Intent) (e : RouteEntry) : bool :=
  checkPolicy (en_Policy e) (in_PolicyConstraints i) (sortedKeys (in_PolicyConstraints i)).

Definition Route (t : Table) (i : Intent) : res RouteResult :=
  _ ← Intent_Validate i;
  let capability := NormalizeCapability (in_TargetCapability i) in
  match tb_Entries t !! capability with
  | None | Some [] => Err [ErrRouteNotFound]
  | Some candidates =>
      match List.filter (complies i) candidates with
      | [] => Err [ErrPolicyViolation]
      | best :: _ =>
          Ok (mkRouteResult capability best (Z.of_nat (length candidates))
            (count_rejected (List.filter (fun e => negb (complies i e)) candidates))
            (Fingerprint t) (tb_AsOf t) None)
      end
  end.

(** [RenderTask]: three fresh identifiers, in the order of the literal. *)
Definition RenderTask (i : Intent) (route : RouteEntry) : io World TaskEnvelope :=
  id <~ NewString;;
  task <~ NewString;;
  context <~ NewString;;
  ok (mkTaskEnvelope "2.0" id "message" (mkTaskMessage "agent" "task" task context
    (NormalizeCapability (in_TargetCapability i)) (in_Payload i))).

Definition with_task (r : RouteResult) (t : TaskEnvelope) : RouteResult :=
  mkRouteResult (rr_TargetCapability r) (rr_Route r) (rr_Considered r) (rr_Rejected r)
    (rr_TableFingerprint r) (rr_TableAsOf r) (Some t).

Definition RouteTask (t : Table) (i : Intent) : io World RouteResult :=
  result <~ lift (Route t i);;
  task <~ RenderTask i (rr_Route result);;
  ok (with_task result task).
End Agp.
