(* ===== verification/Preflight.v ===== *)
(** * [internal/preflight] and [settlement/client.go]: what is asked of the node

    The start-up check in its order: the endpoint's host, the chain's identity,
    every governed mint, the fee wallet.  The node is reached through [RPC], a
    record of programs over any world, which [RPCClient] builds from the replies
    of [solana-go]'s client.  Decoding a mint account is [solana-go]'s
    ([MintDecoder]). *)
From S2P Require Import Prelude GoText Prog Money Domain Cluster Tokens Json Attest Probe Settlement Endpoint Agp.

Definition ErrClusterIdentity : sentinel := "preflight.ErrClusterIdentity".
Definition ErrMintMissing : sentinel := "preflight.ErrMintMissing".
Definition ErrMintOwner : sentinel := "preflight.ErrMintOwner".
Definition ErrMintDecimals : sentinel := "preflight.ErrMintDecimals".
Definition ErrMintUninitialized : sentinel := "preflight.ErrMintUninitialized".
Definition ErrAuthorityDrift : sentinel := "preflight.ErrAuthorityDrift".
Definition preflight_ErrEndpointNotAllowed : sentinel := "preflight.ErrEndpointNotAllowed".
Definition ErrFeeWalletUnderfunded : sentinel := "preflight.ErrFeeWalletUnderfunded".
Definition ErrChainUnreachable : sentinel := "preflight.ErrChainUnreachable".

(** ** rpc.go *)
Record AccountInfo := mkAccountInfo { ai_Owner : pubkey; ai_Data : string; ai_Exists : bool }.

Record RPC (W : Type) := mkRPC {
  GetGenesisHash : io W string;
  GetAccountInfo : pubkey → io W AccountInfo;
  GetBalance : pubkey → io W Z;
  GetMinimumBalanceForRentExemption : Z → io W Z }.
Arguments GetGenesisHash {W}. Arguments GetAccountInfo {W}. Arguments GetBalance {W}.
Arguments GetMinimumBalanceForRentExemption {W}.

Record Mint := mkMint {
  mint_Decimals : Z; mint_IsInitialized : bool;
  mint_MintAuthority : option pubkey; mint_FreezeAuthority : option pubkey }.

(** [bin.NewBinDecoder(data).Decode] into a [token.Mint]. *)
Class MintDecoder := { decode_mint : string → option Mint }.

Definition DecodeMint `{MintDecoder} (data : string) : res Mint :=
  if Nat.eqb (slen data) 0 then Err []
  else match decode_mint data with Some m => Ok m | None => Err [] end.

(** A call whose error the caller turns into an answer of its own. *)
Definition call {W A B} (m : io W A) (bad : error → prog W B) (k : A → prog W B) : prog W B :=
  prog_bind (fun r => match r with Ok a => k a | Err e => bad e end) m.

(** ** [settlement.RPCClient] *)
Definition rpc_ErrNotFound : sentinel := "rpc.ErrNotFound".
Record AccountValue := mkAccountValue { av_Owner : pubkey; av_Data : string }.
(** A transaction result: the transaction if it decodes, and whether the
    metadata carry an execution error. *)
Record TransactionResult := mkTransactionResult { tr_decoded : option Transaction; tr_meta_err : bool }.

(** [rpc.Client]: each call fails, or answers nothing ([nil]), or answers. *)
Record rpcClient (W : Type) := mkRpcClient {
  rpc_blockhash : io W (option (string * Z));
  rpc_account : pubkey → io W (option AccountValue);
  rpc_transaction : string → io W (option TransactionResult);
  rpc_genesis : io W string;
  rpc_balance : pubkey → io W (option Z);
  rpc_rent : Z → io W Z }.
Arguments rpc_blockhash {W}. Arguments rpc_account {W}. Arguments rpc_transaction {W}.
Arguments rpc_genesis {W}. Arguments rpc_balance {W}. Arguments rpc_rent {W}.

Section Client.
Context {W : Type} (inner : rpcClient W).

Definition client_LatestBlockhash : io W (string * Z) :=
  res <~ rpc_blockhash inner;;
  match res with None => fail [] | Some v => ok v end.

Definition client_AccountExists (account : pubkey) : io W bool :=
  call (rpc_account inner account)
    (fun e => if errorIs e rpc_ErrNotFound then ok false else fail e)
    (fun res => ok (bool_decide (is_Some res))).

Definition client_Transaction (sig : string) : io W Fetched :=
  call (rpc_transaction inner sig)
    (fun e => if errorIs e rpc_ErrNotFound then fail [ErrTransactionNotFound] else fail e)
    (fun res => match res with
     | None => fail [ErrTransactionNotFound]
     | Some r =>
         match tr_decoded r with
         | None => fail []
         | Some t => ok (mkFetched (Some t) (tr_meta_err r))
         end
     end).

Definition client_GetGenesisHash : io W string := rpc_genesis inner.

Definition client_GetAccountInfo (account : pubkey) : io W AccountInfo :=
  call (rpc_account inner account)
    (fun e => if errorIs e rpc_ErrNotFound then ok (mkAccountInfo zeroHash "" false) else fail e)
    (fun res => match res with
     | None => ok (mkAccountInfo zeroHash "" false)
     | Some v => ok (mkAccountInfo (av_Owner v) (av_Data v) true)
     end).

Definition client_GetBalance (account : pubkey) : io W Z :=
  res <~ rpc_balance inner account;;
  match res with None => fail [] | Some v => ok v end.

Definition client_GetMinimumBalanceForRentExemption (dataLen : Z) : io W Z := rpc_rent inner dataLen.

(** One endpoint, one client, also for the start-up check. *)
Definition RPCClient : RPC W :=
  mkRPC W client_GetGenesisHash client_GetAccountInfo client_GetBalance client_GetMinimumBalanceForRentExemption.
End Client.

(** ** preflight.go *)
Record Deps := mkDeps {
  pd_Cluster : Cluster; pd_Endpoint : string; pd_Mints : list Token;
  pd_FeePolicy : FeePolicy; pd_AllowHosts : list string }.

Record MintCheck := mkMintCheck {
  mc_Address : string; mc_Symbol : string; mc_Decimals : Z;
  mc_Verified : bool; mc_AuthoritiesMatch : bool; mc_Drift : string }.

Record Report := mkReport {
  rp_Cluster : Cluster; rp_GenesisHash : string; rp_Endpoint : string; rp_Mints : list MintCheck;
  rp_FeeWallet : string; rp_FeeBalance : Z; rp_RentMinimum : Z }.

Section Preflight.
Context `{IK : SolanaKeys} `{IM : MintDecoder} `{IN : NetURL} `{IO : Folding} `{IR : Resolver}.

Definition optionalKey (address : string) : option pubkey :=
  if String.eqb address "" then None else pk_parse address.
Definition MintAuthorityKey (t : Token) : option pubkey := optionalKey (tok_MintAuthority t).
Definition FreezeAuthorityKey (t : Token) : option pubkey := optionalKey (tok_FreezeAuthority t).

(** [MustPublicKeyFromBase58] at start-up; a constant that did not parse would
    stop the process there. *)
Definition tokenProgramKey : pubkey := default zeroHash (pk_parse TokenProgram).

Definition sameAuthority (pinned observed : option pubkey) : bool :=
  match pinned, observed with
  | None, None => true
  | Some p, Some o => String.eqb p o
  | _, _ => false
  end.

Definition describe (key : option pubkey) : string :=
  match key with None => "none" | Some k => pk_print k end.

Definition AuthorityDrift (mint : Token) (decoded : Mint) : string :=
  if negb (sameAuthority (MintAuthorityKey mint) (mint_MintAuthority decoded)) then
    "mint authority is " +:+ describe (mint_MintAuthority decoded) +:+ ", pinned to " +:+ describe (MintAuthorityKey mint)
  else if negb (sameAuthority (FreezeAuthorityKey mint) (mint_FreezeAuthority decoded)) then
    "freeze authority is " +:+ describe (mint_FreezeAuthority decoded) +:+ ", pinned to " +:+ describe (FreezeAuthorityKey mint)
  else "".

(** What the account read off the chain says of a governed mint. *)
Definition judgeMint (mint : Token) (info : AccountInfo) : MintCheck * res unit :=
  let check := mkMintCheck (tok_Address mint) (tok_Symbol mint) (tok_Decimals mint) false false "" in
  if negb (ai_Exists info) then (check, Err [ErrMintMissing])
  else if negb (String.eqb (ai_Owner info) tokenProgramKey) then (check, Err [ErrMintOwner])
  else match DecodeMint (ai_Data info) with
  | Err _ => (check, Err [ErrMintMissing])
  | Ok decoded =>
      if negb (mint_IsInitialized decoded) then (check, Err [ErrMintUninitialized])
      else if negb (mint_Decimals decoded =? tok_Decimals mint) then (check, Err [ErrMintDecimals])
      else
        let drift := AuthorityDrift mint decoded in
        (mkMintCheck (tok_Address mint) (tok_Symbol mint) (tok_Decimals mint) true (String.eqb drift "") drift, Ok tt)
  end.

Section Node.
Context {W : Type} (node : RPC W).

Definition checkMint (mint : Token) : prog W (MintCheck * res unit) :=
  let check := mkMintCheck (tok_Address mint) (tok_Symbol mint) (tok_Decimals mint) false false "" in
  match pk_parse (tok_Address mint) with
  | None => Ret (check, Err [ErrMintMissing])
  | Some addr =>
      call (GetAccountInfo node addr) (fun _ => Ret (check, Err [ErrChainUnreachable]))
        (fun info => Ret (judgeMint mint info))
  end.

Definition with_mints (r : Report) (l : list MintCheck) : Report :=
  mkReport (rp_Cluster r) (rp_GenesisHash r) (rp_Endpoint r) l (rp_FeeWallet r) (rp_FeeBalance r) (rp_RentMinimum r).

(** The loop over the mints; [k] is what follows it. *)
Fixpoint check_mints (report : Report) (drift : list string) (mints : list Token)
    (k : Report → list string → prog W (Report * res unit)) : prog W (Report * res unit) :=
  match mints with
  | [] => k report drift
  | mint :: rest =>
      prog_bind (fun '(check, r) =>
        let report := with_mints report (rp_Mints report ++ [check]) in
        match r with
        | Err e => Ret (report, Err e)
        | Ok _ =>
            let drift := if String.eqb (mc_Drift check) "" then drift
                         else drift ++ [mc_Symbol check +:+ " (" +:+ mc_Address check +:+ "): " +:+ mc_Drift check] in
            check_mints report drift rest k
        end) (checkMint mint)
  end.

(** [PublicKeyFromBase58] reads back what [String] printed. *)
Definition check_fee_wallet (policy : FeePolicy) (report : Report) : prog W (Report * res unit) :=
  let with_fee w b m := mkReport (rp_Cluster report) (rp_GenesisHash report) (rp_Endpoint report) (rp_Mints report) w b m in
  call (GetMinimumBalanceForRentExemption node 0) (fun _ => Ret (with_fee "" 0 0, Err [ErrChainUnreachable])) (fun rent =>
  match pk_parse (pk_print (fee_wallet policy)) with
  | None => Ret (with_fee "" 0 rent, Err [ErrChainUnreachable])
  | Some wallet =>
      call (GetBalance node wallet) (fun _ => Ret (with_fee (pk_print wallet) 0 rent, Err [ErrChainUnreachable])) (fun balance =>
      Ret (with_fee (pk_print wallet) balance rent,
           if balance <? rent then Err [ErrFeeWalletUnderfunded] else Ok tt))
  end).

Definition preflight_Check (d : Deps) : prog W (Report * res unit) :=
  let report genesis := mkReport (pd_Cluster d) genesis (pd_Endpoint d) [] "" 0 0 in
  match CheckEndpoint (pd_Cluster d) (pd_Endpoint d) (pd_AllowHosts d) with
  | Err _ => Ret (report "", Err [preflight_ErrEndpointNotAllowed])
  | Ok _ =>
      call (GetGenesisHash node) (fun _ => Ret (report "", Err [ErrChainUnreachable])) (fun genesis =>
      match Cluster.Verify (pd_Cluster d) genesis with
      | Err _ => Ret (report genesis, Err [ErrClusterIdentity])
      | Ok _ =>
          check_mints (report genesis) [] (pd_Mints d) (fun report drift =>
            if (0 <? length drift)%nat then Ret (report, Err [ErrAuthorityDrift])
            else check_fee_wallet (pd_FeePolicy d) report)
      end)
  end.
End Node.

(** ** What the check means

    The node as it stands, and the checks in the order of their importance. *)
Record Node := mkNode {
  nd_genesis : res string; nd_account : pubkey → res AccountInfo;
  nd_rent : res Z; nd_balance : pubkey → res Z }.

Definition ask {A} (f : Node → res A) : io Node A := Atomic (fun n => Some (f n, n)) (Some (Err [])) Ret.
Definition snapshot : RPC Node :=
  mkRPC Node (ask nd_genesis) (fun a => ask (fun n => nd_account n a)) (fun a => ask (fun n => nd_balance n a))
    (fun _ => ask nd_rent).

(** A governed mint is what the registry says it is. *)
Definition decoded_of (info : AccountInfo) : Mint :=
  match DecodeMint (ai_Data info) with Ok m => m | Err _ => mkMint 0 false None None end.
Definition pinned (mint : Token) (m : Mint) : Prop :=
  mint_MintAuthority m = MintAuthorityKey mint ∧ mint_FreezeAuthority m = FreezeAuthorityKey mint.
Definition governed_as (n : Node) (mint : Token) (m : Mint) : Prop :=
  ∃ addr info, pk_parse (tok_Address mint) = Some addr ∧ nd_account n addr = Ok info ∧
    ai_Exists info = true ∧ ai_Owner info = tokenProgramKey ∧ DecodeMint (ai_Data info) = Ok m ∧
    mint_IsInitialized m = true ∧ mint_Decimals m = tok_Decimals mint.

Definition mint_checks (n : Node) (mint : Token) : list (bool * sentinel) :=
  match pk_parse (tok_Address mint) with
  | None => [(false, ErrMintMissing)]
  | Some addr =>
      match nd_account n addr with
      | Err _ => [(false, ErrChainUnreachable)]
      | Ok info =>
          [(ai_Exists info, ErrMintMissing); (String.eqb (ai_Owner info) tokenProgramKey, ErrMintOwner);
           (is_ok (DecodeMint (ai_Data info)), ErrMintMissing);
           (mint_IsInitialized (decoded_of info), ErrMintUninitialized);
           (mint_Decimals (decoded_of info) =? tok_Decimals mint, ErrMintDecimals)]
      end
  end.

Definition mint_drift (n : Node) (mint : Token) : string :=
  match pk_parse (tok_Address mint) with
  | Some addr => match nd_account n addr with Ok info => AuthorityDrift mint (decoded_of info) | Err _ => "" end
  | None => ""
  end.

Definition fee_checks (n : Node) (policy : FeePolicy) : list (bool * sentinel) :=
  let wallet := pk_parse (pk_print (fee_wallet policy)) in
  let balance := match wallet with Some w => nd_balance n w | None => Err [] end in
  [(is_ok (nd_rent n), ErrChainUnreachable); (bool_decide (is_Some wallet), ErrChainUnreachable);
   (is_ok balance, ErrChainUnreachable);
   (match nd_rent n, balance with Ok m, Ok b => m <=? b | _, _ => true end, ErrFeeWalletUnderfunded)].

Definition checks (d : Deps) (n : Node) : list (bool * sentinel) :=
  [(is_ok (CheckEndpoint (pd_Cluster d) (pd_Endpoint d) (pd_AllowHosts d)), preflight_ErrEndpointNotAllowed);
   (is_ok (nd_genesis n), ErrChainUnreachable);
   (match nd_genesis n with Ok g => is_ok (Cluster.Verify (pd_Cluster d) g) | Err _ => true end, ErrClusterIdentity)]
  ++ concat (map (mint_checks n) (pd_Mints d))
  ++ [(forallb (fun t => String.eqb (mint_drift n t) "") (pd_Mints d), ErrAuthorityDrift)]
  ++ fee_checks n (pd_FeePolicy d).

Fixpoint first_failure (l : list (bool * sentinel)) : res unit :=
  match l with [] => Ok tt | (b, s) :: l' => if b then first_failure l' else Err [s] end.

Definition mint_report (n : Node) (mint : Token) : MintCheck :=
  mkMintCheck (tok_Address mint) (tok_Symbol mint) (tok_Decimals mint) true (String.eqb (mint_drift n mint) "") (mint_drift n mint).

Lemma first_failure_app l1 l2 :
  first_failure (l1 ++ l2) = match first_failure l1 with Ok _ => first_failure l2 | Err e => Err e end.
Proof. induction l1 as [|[[] s] l1 IH]; cbn; [done..|by rewrite IH|done]. Qed.

Lemma first_failure_ok l : first_failure l = Ok tt ↔ Forall (fun c => c.1 = true) l.
Proof.
  induction l as [|[b s] l IH]; cbn; [by split; [constructor|]|].
  destruct b; [rewrite IH|]; split; try done; [by constructor|by inversion 1|by inversion 1].
Qed.

Lemma sameAuthority_spec a b : sameAuthority a b = true ↔ a = b.
Proof.
  destruct a as [a|], b as [b|]; cbn; split; try done; [|by intros [= ->]; apply String.eqb_refl].
  by intros ->%String.eqb_eq.
Qed.

Lemma AuthorityDrift_spec mint m : AuthorityDrift mint m = "" ↔ pinned mint m.
Proof.
  unfold AuthorityDrift, pinned.
  destruct (sameAuthority (MintAuthorityKey mint) _) eqn:E1; cbn; [apply sameAuthority_spec in E1|].
  - destruct (sameAuthority (FreezeAuthorityKey mint) _) eqn:E2; cbn; [apply sameAuthority_spec in E2|].
    + by split.
    + split; [done|]. intros [_ H]. rewrite (proj2 (sameAuthority_spec _ _) (eq_sym H)) in E2. done.
  - split; [done|]. intros [H _]. rewrite (proj2 (sameAuthority_spec _ _) (eq_sym H)) in E1. done.
Qed.

Lemma judgeMint_spec n mint addr info : pk_parse (tok_Address mint) = Some addr → nd_account n addr = Ok info →
  (judgeMint mint info).2 = first_failure (mint_checks n mint) ∧
  ((judgeMint mint info).2 = Ok tt → (judgeMint mint info).1 = mint_report n mint).
Proof.
  intros Ha Hi. unfold mint_checks, mint_report, mint_drift, judgeMint, decoded_of. rewrite Ha, Hi. cbn.
  destruct (ai_Exists info); [|done]. destruct (String.eqb _ _); [|done]. cbn.
  destruct (DecodeMint (ai_Data info)) as [m|]; [|done]. cbn.
  destruct (mint_IsInitialized m); [|done]. cbn. by destruct (_ =? _).
Qed.

Lemma run_checkMint n mint :
  ∃ c, run (checkMint snapshot mint) n = Some ((c, first_failure (mint_checks n mint)), n) ∧
    (first_failure (mint_checks n mint) = Ok tt → c = mint_report n mint).
Proof.
  unfold checkMint. destruct (pk_parse (tok_Address mint)) as [addr|] eqn:Ha; cbn.
  - destruct (nd_account n addr) as [info|e] eqn:Hi; cbn.
    + destruct (judgeMint_spec n mint addr info Ha Hi) as [H1 H2]. exists (judgeMint mint info).1.
      rewrite <-H1. split; [by destruct (judgeMint mint info)|exact H2].
    + eexists. unfold mint_checks. rewrite Ha, Hi. by split.
  - eexists. unfold mint_checks. rewrite Ha. by split.
Qed.

Lemma run_check_mints n mints : ∀ report drift k,
  match first_failure (concat (map (mint_checks n) mints)) with
  | Err e => ∃ r', run (check_mints snapshot report drift mints k) n = Some ((r', Err e), n)
  | Ok _ => ∃ drift', run (check_mints snapshot report drift mints k) n =
      run (k (with_mints report (rp_Mints report ++ map (mint_report n) mints)) (drift ++ drift')) n ∧
      (drift' = [] ↔ forallb (fun t => String.eqb (mint_drift n t) "") mints = true)
  end.
Proof.
  induction mints as [|mint rest IH]; intros report drift k; cbn [map concat first_failure check_mints].
  - exists []. rewrite !app_nil_r. by destruct report.
  - rewrite first_failure_app, run_bind.
    destruct (run_checkMint n mint) as (c & -> & Hc). destruct (first_failure (mint_checks n mint)) as [[]|e]; [|by eexists].
    rewrite (Hc eq_refl). cbn [mint_report mc_Drift mc_Symbol mc_Address forallb]. clear c Hc.
    set (drift1 := if String.eqb (mint_drift n mint) "" then _ else _).
    specialize (IH (with_mints report (rp_Mints report ++ [mint_report n mint])) drift1 k).
    destruct (first_failure (concat _)); [|done]. destruct IH as (drift' & -> & Hd).
    assert (∃ x, drift1 = drift ++ x ∧ (x = [] ↔ String.eqb (mint_drift n mint) "" = true)) as (x & -> & Hx).
    { subst drift1. destruct (String.eqb (mint_drift n mint) ""); [exists []; by rewrite app_nil_r|by eexists]. }
    exists (x ++ drift'). rewrite <-(assoc_L (++) drift). split; [destruct report; unfold with_mints; cbn; by rewrite <-(assoc_L (++))|].
    rewrite andb_true_iff, <-Hd, <-Hx. split; [apply app_nil|by intros [-> ->]].
Qed.

Definition passed_report (d : Deps) (n : Node) : Report :=
  mkReport (pd_Cluster d) (default "" (match nd_genesis n with Ok g => Some g | Err _ => None end)) (pd_Endpoint d)
    (map (mint_report n) (pd_Mints d)) (pk_print (default "" (pk_parse (pk_print (fee_wallet (pd_FeePolicy d))))))
    (match nd_balance n (default "" (pk_parse (pk_print (fee_wallet (pd_FeePolicy d))))) with Ok b => b | Err _ => 0 end)
    (match nd_rent n with Ok m => m | Err _ => 0 end).

Lemma run_check_fee_wallet n policy report :
  ∃ r, run (check_fee_wallet snapshot policy report) n = Some ((r, first_failure (fee_checks n policy)), n) ∧
    (first_failure (fee_checks n policy) = Ok tt →
     r = mkReport (rp_Cluster report) (rp_GenesisHash report) (rp_Endpoint report) (rp_Mints report)
       (pk_print (default "" (pk_parse (pk_print (fee_wallet policy)))))
       (match nd_balance n (default "" (pk_parse (pk_print (fee_wallet policy)))) with Ok b => b | Err _ => 0 end)
       (match nd_rent n with Ok m => m | Err _ => 0 end)).
Proof.
  unfold check_fee_wallet, fee_checks. cbn. destruct (nd_rent n) as [m|]; cbn; [|by eexists].
  destruct (pk_parse _) as [w|]; cbn; [|by eexists]. destruct (nd_balance n w) as [b|] eqn:Hb; cbn; [|by eexists].
  eexists. split; [|done]. rewrite Z.ltb_antisym. by destruct (m <=? b).
Qed.

(** The whole check against the table of checks. *)
Lemma run_Check d n :
  ∃ r, run (preflight_Check snapshot d) n = Some ((r, first_failure (checks d n)), n) ∧
    (first_failure (checks d n) = Ok tt → r = passed_report d n).
Proof.
  unfold preflight_Check, checks. cbn [app first_failure].
  destruct (CheckEndpoint _ _ _) as [[]|e]; cbn [is_ok]; [|by eexists].
  cbn. destruct (nd_genesis n) as [g|e] eqn:Hg; cbn [is_ok]; [|by eexists].
  destruct (Cluster.Verify (pd_Cluster d) g) as [[]|e] eqn:Hv; cbn [is_ok]; [|by eexists].
  rewrite first_failure_app.
  match goal with |- context [check_mints snapshot ?rep ?dr ?ms ?k] => pose proof (run_check_mints n ms rep dr k) as Hm end.
  destruct (first_failure (concat _)) as [[]|e]; [|destruct Hm as (r' & ->); by eexists].
  destruct Hm as (drift' & -> & Hd). cbn [app].
  destruct (forallb _ (pd_Mints d)) eqn:Hf; cbn [first_failure].
  - rewrite (proj2 Hd eq_refl). cbn [length Nat.ltb Nat.leb].
    cbn [length Nat.ltb Nat.leb]. edestruct (run_check_fee_wallet n (pd_FeePolicy d)) as (r & Hrun & Hr).
    exists r. split; [exact Hrun|]. intros E. rewrite (Hr E). unfold passed_report. by rewrite Hg.
  - destruct drift' as [|x drift']; [by pose proof (proj1 Hd eq_refl)|]. cbn. by eexists.
Qed.

Lemma mint_checks_ok n mint :
  first_failure (mint_checks n mint) = Ok tt ↔ ∃ m, governed_as n mint m.
Proof.
  unfold mint_checks, governed_as. destruct (pk_parse _) as [addr|]; [|split; [done|by intros (? & ? & ? & ? & _)]].
  destruct (nd_account n addr) as [info|e] eqn:Hi; [|split; [done|intros (? & ? & ? & [= <-] & Hi' & _); by rewrite Hi in Hi']].
  rewrite first_failure_ok, !Forall_cons. cbn. unfold decoded_of. split.
  - intros (H1 & H2%String.eqb_eq & H3 & H4 & H5 & _). destruct (DecodeMint (ai_Data info)) as [m|] eqn:Hd; [|done].
    exists m, addr, info. split_and!; try done. by apply Z.eqb_eq.
  - intros (m & ? & ? & [= <-] & Hi' & H). rewrite Hi in Hi'. injection Hi' as <-. destruct H as (-> & -> & -> & -> & ->).
    by rewrite String.eqb_refl, Z.eqb_refl.
Qed.

(** Fit to settle against: the endpoint may be used, it is the declared chain,
    every governed mint is on it as pinned, and the fee wallet can exist. *)
Definition fit (d : Deps) (n : Node) : Prop :=
  CheckEndpoint (pd_Cluster d) (pd_Endpoint d) (pd_AllowHosts d) = Ok tt ∧
  (∃ g, nd_genesis n = Ok g ∧ Cluster.Verify (pd_Cluster d) g = Ok tt) ∧
  (∀ t, t ∈ pd_Mints d → ∃ m, governed_as n t m ∧ pinned t m) ∧
  ∃ rent w b, nd_rent n = Ok rent ∧ pk_parse (pk_print (fee_wallet (pd_FeePolicy d))) = Some w ∧
    nd_balance n w = Ok b ∧ rent ≤ b.

Lemma mint_drift_spec n t m : governed_as n t m → (mint_drift n t = "" ↔ pinned t m).
Proof.
  intros (addr & info & Ha & Hi & _ & _ & Hd & _). unfold mint_drift, decoded_of. rewrite Ha, Hi, Hd. apply AuthorityDrift_spec.
Qed.

Lemma is_ok_unit (r : res unit) : is_ok r = true ↔ r = Ok tt.
Proof. by destruct r as [[]|]. Qed.

Lemma checks_fit d n : first_failure (checks d n) = Ok tt ↔ fit d n.
Proof.
  rewrite first_failure_ok. unfold checks, fee_checks, fit.
  rewrite !Forall_app, !Forall_cons, Forall_concat, Forall_map. cbn. rewrite is_ok_unit, forallb_forall, Forall_forall.
  assert ((∀ t, t ∈ pd_Mints d → Forall (fun c => c.1 = true) (mint_checks n t)) ∧
    (∀ t, In t (pd_Mints d) → String.eqb (mint_drift n t) "" = true) ↔
    ∀ t, t ∈ pd_Mints d → ∃ m, governed_as n t m ∧ pinned t m) as Hm.
  { setoid_rewrite <-first_failure_ok. setoid_rewrite mint_checks_ok. setoid_rewrite String.eqb_eq. split.
    - intros [H1 H2] t Ht. destruct (H1 t Ht) as [m Hg]. exists m. split; [done|].
      by apply (mint_drift_spec n), H2, list_elem_of_In.
    - intros H. split; intros t Ht; [|apply list_elem_of_In in Ht]; destruct (H t Ht) as (m & Hg & Hp); [by exists m|].
      by apply (mint_drift_spec n t m). }
  rewrite <-Hm. clear Hm. destruct (nd_genesis n) as [g|]; cbn; [|naive_solver].
  rewrite is_ok_unit. destruct (nd_rent n) as [rent|]; cbn; [|naive_solver].
  destruct (pk_parse _) as [w|]; cbn; [|naive_solver].
  destruct (nd_balance n w) as [b|e] eqn:Hb; cbn.
  - rewrite Z.leb_le. rewrite Forall_forall. assert (∀ P : bool * sentinel → Prop, ∀ x, x ∈ [] → P x) by (intros ? ? ?%not_elem_of_nil; done).
    naive_solver congruence.
  - split; [by intros (_ & _ & _ & _ & _ & ? & _)|]. intros (_ & _ & _ & ? & ? & ? & _ & [= <-] & Hb' & _). by rewrite Hb in Hb'.
Qed.

(** C28: the start-up check fails closed and says which check failed.  Against any
    node it ends; it succeeds exactly when the endpoint is allowed, the node's
    genesis hash is the declared cluster's, every governed mint's account exists,
    belongs to the token program and reports the pinned scale and authorities, and
    the fee wallet can exist; the report then names every mint as verified.
    Otherwise the error is that of the first failing check, in the order of the
    table [checks], and an endpoint that is not allowed is refused before any
    request is made. *)
Theorem preflight_exact d n : ∃ report,
  run (preflight_Check snapshot d) n = Some ((report, first_failure (checks d n)), n) ∧
  (first_failure (checks d n) = Ok tt ↔ fit d n) ∧
  (fit d n → report = passed_report d n ∧
    map mc_Address (rp_Mints report) = map tok_Address (pd_Mints d) ∧
    Forall (fun c => mc_Verified c = true ∧ mc_AuthoritiesMatch c = true) (rp_Mints report)) ∧
  (CheckEndpoint (pd_Cluster d) (pd_Endpoint d) (pd_AllowHosts d) ≠ Ok tt →
    preflight_Check snapshot d = Ret (report, Err [preflight_ErrEndpointNotAllowed])).
Proof.
  destruct (run_Check d n) as (r & Hrun & Hr). exists r. split; [done|]. split; [apply checks_fit|]. split.
  - intros Hf. specialize (Hr (proj2 (checks_fit d n) Hf)). subst r. split; [done|]. cbn. rewrite map_map. split; [done|].
    destruct Hf as (_ & _ & Hm & _). apply Forall_map, Forall_forall. intros t Ht. cbn. split; [done|].
    destruct (Hm t Ht) as (m & Hg & Hp). apply String.eqb_eq. by apply (mint_drift_spec n t m).
  - unfold preflight_Check in *. destruct (CheckEndpoint _ _ _) as [[]|]; [done|]. intros _. cbn in Hrun. by injection Hrun as <-.
Qed.
End Preflight.

(** A node on devnet with one governed mint, and the same with a rotated authority. *)
Definition demoMintDecoder : MintDecoder :=
  {| decode_mint s := if String.eqb s "mint" then Some (mkMint 6 true (Some "auth") None) else None |}.
Definition demoGoverned (authority : string) : Token := mkToken "USDC" "USDC" 6 true Devnet authority "".
Definition demoPreflight (authority : string) : Deps :=
  mkDeps Devnet "https://api.devnet.solana.com" [demoGoverned authority] (mkFeePolicy 1000 "WALLET") [].
Definition demoNode : Node := mkNode (Ok (GenesisHash Devnet)) (fun _ => Ok (mkAccountInfo TokenProgram "mint" true)) (Ok 650240)
  (fun _ => Ok 700000).

Section Demo.
#[local] Existing Instances demoKeys demoMintDecoder demoNetURL demoFolding.
#[local] Instance demoLookup : Resolver := {| resolve_host _ := Names None |}.
Example preflight_passes : (fun x => (rp_FeeBalance x.1.1, x.1.2)) <$> run (preflight_Check snapshot (demoPreflight "auth")) demoNode = Some (700000, Ok tt).
Proof. vm_compute. reflexivity. Qed.
Example preflight_drift : snd ∘ fst <$> run (preflight_Check snapshot (demoPreflight "old")) demoNode = Some (Err [ErrAuthorityDrift]).
Proof. vm_compute. reflexivity. Qed.
End Demo.
