(* ===== verification/Ledger.v ===== *)
(** * [internal/ledger]: the hash chain, tesserae, the signing keyring

    [ledger.go] and [signer.go].  The JWS library is the parameter [JWT].  The key
    file is [Keyring]'s; what rotation puts in it is [RotateSigner]. *)
From S2P Require Import Prelude Prog Money Domain Keys World Store Sha256 Json.

Definition chainDomain : string := "vtessera/ledger/v1".
Definition tesseraVersion : Z := 1.
Definition appendAttempts : nat := 3.
Definition ErrNotSettled : sentinel := "ledger.ErrNotSettled".
Definition ErrAlreadyIssued : sentinel := "ledger.ErrAlreadyIssued".

(** ** Hashes *)
Definition entry_text (seq : Z) (prevHash payloadHash : string) : string :=
  chainDomain +:+ "|" +:+ format_uint seq +:+ "|" +:+ prevHash +:+ "|" +:+ payloadHash.
Definition EntryHash (seq : Z) (prevHash payloadHash : string) : string :=
  sha256_hex (entry_text seq prevHash payloadHash).
Definition PayloadHash (payload : string) : string := sha256_hex payload.
#[global] Arguments EntryHash : simpl never.
#[global] Arguments PayloadHash : simpl never.

(** ** Keys *)
Record Signer := mkSigner {
  sg_current : privkey; sg_currentBase58 : string;
  sg_retiredBase58 : list string; sg_retiredPublic : list edpub }.

Section Signers.
Context `{Base58}.

(** The loop over the retired ids, which are unseen so far. *)
Fixpoint add_retired (s : Signer) (seen : list string) (retired : list string) : res Signer :=
  match retired with
  | [] => Ok s
  | id :: rest =>
  if String.eqb id "" then Err []
  else if bool_decide (id ∈ seen) then Err []
  else match b58_decode id with
  | None => Err []
  | Some raw =>
      if negb (Nat.eqb (length raw) PublicKeySize) then Err []
      else add_retired (mkSigner (sg_current s) (sg_currentBase58 s)
             (sg_retiredBase58 s ++ [id]) (sg_retiredPublic s ++ [raw])) (id :: seen) rest
  end
  end.

Definition NewSignerWithRetired (private : privkey) (retired : list string) : res Signer :=
  if negb (Nat.eqb (length private) PrivateKeySize) then Err []
  else
  let currentBase58 := b58_encode (ed_public private) in
  add_retired (mkSigner private currentBase58 [] []) [currentBase58] retired.

Definition NewSigner (private : privkey) : res Signer := NewSignerWithRetired private [].

Definition VerificationKeyIDs (s : Signer) : list string := sg_currentBase58 s :: sg_retiredBase58 s.
Definition RetiredKeyIDs (s : Signer) : list string := sg_retiredBase58 s.
Definition PublicKey (s : Signer) : edpub := ed_public (sg_current s).
Definition PublicKeys (s : Signer) : list edpub := PublicKey s :: sg_retiredPublic s.
Definition KeyID (k : edpub) : string := b58_encode k.

Definition PublicKeyForID (s : Signer) (id : string) : option edpub :=
  if String.eqb id (sg_currentBase58 s) then Some (PublicKey s)
  else match list_find (fun r => r = id) (sg_retiredBase58 s) with
   | Some (i, _) => sg_retiredPublic s !! i
   | None => None
   end.

(** The keyring [RotateSigner] writes, for the key it generated. *)
Definition RotateSigner (current : Signer) (fresh : privkey) : res Signer :=
  next ← NewSigner fresh;
  NewSignerWithRetired (sg_current next) (VerificationKeyIDs current).
End Signers.

(** ** Tesserae *)
Record TradeRecord := mkTradeRecord {
  rec_TradeID : string; rec_OfferID : string; rec_Buyer : string; rec_Seller : string;
  rec_Description : string; rec_Amount : string; rec_Mint : string;
  rec_Mode : SettlementMode; rec_State : string; rec_RecordedAt : time }.

Record SettlementRecord := mkSettlementRecord {
  srec_Mode : SettlementMode; srec_Signature : string; srec_LedgerSequence : Z;
  srec_LedgerEntryHash : string; srec_Cluster : string }.

(** The registered claims are truncated to seconds ([jwt.NewNumericDate]). *)
Record TesseraClaims := mkTesseraClaims {
  tc_ID : string; tc_Issuer : string; tc_Subject : string; tc_IssuedAt : time; tc_NotBefore : time;
  tc_Version : Z; tc_Trade : TradeRecord; tc_Settlement : SettlementRecord }.

(** [golang-jwt] with EdDSA: signing claims under a key with a [kid] header;
    reading the [kid] of a token without verifying it ([None]: not a token, the
    empty string: no such header); verifying at an instant under a key, with the tessera claims decoded
    ([jwt.ParseWithClaims]) or with untyped claims ([jwt.Parse]). *)
Class JWT := {
    jwt_sign : privkey → string → TesseraClaims → res string;
    jwt_kid : string → option string;
    jwt_verify : time → string → edpub → res TesseraClaims;
    jwt_valid : time → string → edpub → bool;
  }.

Definition tradeRecord (t : Trade) (at_ : time) : TradeRecord :=
  mkTradeRecord (tr_ID t) (tr_OfferID t) (tr_Buyer t) (tr_Seller t) (tr_Description t)
    (amount_String (tr_Amount t)) (tr_Mint t) (tr_Mode t) (TradeState_string (tr_State t)) at_.

(** [json.Marshal(record)] *)
Definition TradeRecord_json (r : TradeRecord) : res string :=
  at_ ← time_json (rec_RecordedAt r);
  Ok (json_object [("tradeId", json_string (rec_TradeID r)); ("offerId", json_string (rec_OfferID r));
    ("buyer", json_string (rec_Buyer r)); ("seller", json_string (rec_Seller r));
    ("description", json_string (rec_Description r)); ("amount", json_string (rec_Amount r));
    ("mint", json_string (rec_Mint r)); ("mode", json_string (rec_Mode r));
    ("state", json_string (rec_State r)); ("recordedAt", at_)]).

Definition NewNumericDate (t : time) : time := t / second * second.

Section Ledger.
Context `{Base58} `{JWT} (signer : Signer).

Definition signClaims (c : TesseraClaims) : res string :=
  jwt_sign (sg_current signer) (sg_currentBase58 signer) c.

Definition with_prev (a : LedgerAppend) (prev : string) : LedgerAppend :=
  mkLedgerAppend (la_TradeID a) (la_Payload a) (la_PayloadHash a) prev (la_CreatedAt a).

Fixpoint append_loop (attempts : nat) (lastErr : error) (a : LedgerAppend) : io World LedgerEntry :=
  match attempts with
  | O => fail lastErr
  | S n =>
  head <~ HeadLedgerEntry;;
  let prev := match head with Some h => le_Hash h | None => Domain.GenesisHash end in
  prog_bind (fun r =>
    match r with
    | Ok entry => ok entry
    | Err e => if errorIs e ErrStale then append_loop n e a else fail e
    end) (AppendLedgerEntry (with_prev a prev) EntryHash)
  end.

Definition append (a : LedgerAppend) : io World LedgerEntry := append_loop appendAttempts [] a.

Definition claims_for (t : Trade) (id : string) (at_ : time) (record : TradeRecord)
  (solanaSignature clusterName : string) (entry : LedgerEntry) : TesseraClaims :=
  mkTesseraClaims id "vtessera" (tr_ID t) (NewNumericDate at_) (NewNumericDate at_) tesseraVersion record
  (mkSettlementRecord (tr_Mode t) solanaSignature (le_Seq entry) (le_Hash entry) clusterName).

Definition Record_ (t : Trade) (solanaSignature clusterName : string) : io World Receipt :=
  _ <~ refuse (negb (bool_decide (tr_State t = TradeRecorded)) && negb (bool_decide (tr_State t = TradeSettled)))
     [ErrNotSettled];;
  _ <~ prog_bind (fun r =>
     match r with
     | Ok _ => fail [ErrAlreadyIssued]
     | Err e => if errorIs e ErrNotFound then ok tt else fail e
     end) (GetReceiptByTrade (tr_ID t));;
  at_ <~ now;;
  let record := tradeRecord t at_ in
  payload <~ lift (TradeRecord_json record);;
  entry <~ append (mkLedgerAppend (tr_ID t) payload (PayloadHash payload) "" at_);;
  id <~ NewString;;
  signed <~ lift (signClaims (claims_for t id at_ record solanaSignature clusterName entry));;
  let receipt := mkReceipt id (tr_ID t) signed at_ in
  _ <~ SaveReceipt receipt;;
  ok receipt.

Definition Receipt_ (tradeID : string) : io World Receipt := GetReceiptByTrade tradeID.
Definition Entries : io World (list LedgerEntry) := ListLedgerEntries.
Definition Head : io World (option LedgerEntry) := HeadLedgerEntry.

(** *** Verification *)
Definition candidateKeys (jws : string) : res (list edpub) :=
  match jwt_kid jws with
  | None => Err []
  | Some kid =>
  if String.eqb kid "" then Ok (PublicKeys signer)
  else match PublicKeyForID signer kid with
       | None => Err []
       | Some key => Ok [key]
       end
  end.

Definition verifyTesseraUnder (at_ : time) (jws : string) (key : edpub) : res TesseraClaims :=
  claims ← jwt_verify at_ jws key;
  if String.eqb (rec_TradeID (tc_Trade claims)) "" then Err []
  else if String.eqb (rec_Buyer (tc_Trade claims)) "" || String.eqb (rec_Seller (tc_Trade claims)) "" then Err []
  else if String.eqb (tc_Subject claims) "" then Err []
  else if negb (SettlementMode_Valid (rec_Mode (tc_Trade claims))) then Err []
  else Ok claims.

Fixpoint first_verifying (at_ : time) (jws : string) (keys : list edpub) : res (TesseraClaims * edpub) :=
  match keys with
  | [] => Err []
  | key :: rest =>
  match verifyTesseraUnder at_ jws key with
  | Ok claims => Ok (claims, key)
  | Err _ => first_verifying at_ jws rest
  end
  end.

Definition verifyWithKey (at_ : time) (jws : string) : res (TesseraClaims * edpub) :=
  keys ← candidateKeys jws;
  first_verifying at_ jws keys.

Definition Verify (at_ : time) (jws : string) : res TesseraClaims :=
  p ← verifyWithKey at_ jws; Ok p.1.

Definition VerificationKey : string := sg_currentBase58 signer.

Definition SignerKeyID (at_ : time) (jws : string) : string :=
  let fallback := match find (jwt_valid at_ jws) (PublicKeys signer) with
              | Some key => KeyID key
              | None => VerificationKey
              end in
  match jwt_kid jws with
  | Some kid => if negb (String.eqb kid "") && bool_decide (is_Some (PublicKeyForID signer kid))
            then kid else fallback
  | None => fallback
  end.

Definition VerifyAndKeyID (at_ : time) (jws : string) : option TesseraClaims * string :=
  match verifyWithKey at_ jws with
  | Ok (claims, key) => (Some claims, KeyID key)
  | Err _ => (None, SignerKeyID at_ jws)
  end.

Record PublishedReceipt := mkPublished {
  pr_TradeID : string; pr_JWS : string; pr_VerificationKey : string; pr_Valid : bool;
  pr_Claims : option TesseraClaims; pr_IssuedAt : time }.

Definition publish (at_ : time) (r : Receipt) : PublishedReceipt :=
  let '(claims, keyID) := VerifyAndKeyID at_ (rc_JWS r) in
  mkPublished (rc_TradeID r) (rc_JWS r) keyID (bool_decide (is_Some claims)) claims (rc_IssuedAt r).

Definition RecentReceipts (limit : nat) : io World (list PublishedReceipt) :=
  receipts <~ ListReceipts limit;;
  at_ <~ now;;
  ok (map (publish at_) receipts).
End Ledger.

(** ** The hash chain *)

(** Entry [e] follows [prev] at sequence [seq]. *)
Definition entry_ok (seq : Z) (prev : string) (e : LedgerEntry) : Prop :=
  le_Seq e = seq ∧ le_PrevHash e = prev ∧ le_PayloadHash e = PayloadHash (le_Payload e) ∧
  le_Hash e = EntryHash seq prev (le_PayloadHash e).

Fixpoint chain_from (seq : Z) (prev : string) (l : list LedgerEntry) : Prop :=
  match l with
  | [] => True
  | e :: rest => entry_ok seq prev e ∧ chain_from (seq + 1) (le_Hash e) rest
  end.

(** The whole ledger links back to the genesis hash. *)
Definition chain_ok (l : list LedgerEntry) : Prop := chain_from 1 Domain.GenesisHash l.

(** The hash a ledger commits to. *)
Definition head_hash (prev : string) (l : list LedgerEntry) : string :=
  match last l with Some e => le_Hash e | None => prev end.

Lemma head_hash_cons prev e l : head_hash prev (e :: l) = head_hash (le_Hash e) l.
Proof. unfold head_hash. rewrite last_cons. by destruct (last l). Qed.

Lemma chain_from_app seq prev l e :
  chain_from seq prev (l ++ [e]) ↔
  chain_from seq prev l ∧ entry_ok (seq + Z.of_nat (length l)) (head_hash prev l) e.
Proof.
  revert seq prev. induction l as [|x l IH]; intros seq prev.
  - cbn. rewrite Z.add_0_r. unfold head_hash; cbn. naive_solver.
  - cbn [app chain_from]. rewrite IH, head_hash_cons. cbn [length].
    replace (seq + 1 + Z.of_nat (length l)) with (seq + Z.of_nat (S (length l))) by lia. naive_solver.
Qed.

Lemma entry_text_inj seq p p' h h' :
  slen p = 64%nat → slen p' = 64%nat → entry_text seq p h = entry_text seq p' h' → p = p' ∧ h = h'.
Proof.
  unfold entry_text. intros Hp Hp' H. do 3 apply sapp_inj_l in H. apply sapp_inj_l in H.
  apply sapp_inj in H as [-> H]; [|congruence]. split; [done|]. by apply sapp_inj_l in H.
Qed.

(** The strings the chain hashes: payloads and entry texts. *)
Definition hashed (l : list LedgerEntry) : list string :=
  map le_Payload l ++ map (fun e => entry_text (le_Seq e) (le_PrevHash e) (le_PayloadHash e)) l.

Definition collision_between (l m : list LedgerEntry) : Prop :=
  ∃ a b, a ∈ hashed l ∧ b ∈ hashed m ∧ collides a b.

Lemma collision_snoc l m e e' :
  collision_between l m → collision_between (l ++ [e]) (m ++ [e']).
Proof.
  intros (a & b & Ha & Hb & Hc). exists a, b. split_and!; [| |done].
  - unfold hashed in *. rewrite !map_app. set_solver.
  - unfold hashed in *. rewrite !map_app. set_solver.
Qed.

Lemma head_hash_length prev l seq : chain_from seq prev l → slen prev = 64%nat → slen (head_hash prev l) = 64%nat.
Proof.
  revert seq prev. induction l as [|e l IH]; intros seq prev Hl Hp; [done|].
  rewrite head_hash_cons. destruct Hl as [(_ & _ & _ & He) Hl]. apply (IH _ _ Hl).
  rewrite He. apply sha256_hex_length.
Qed.

(** What an entry of the chain commits to. *)
Definition committed (e : LedgerEntry) : Z * string * string * string * string :=
  (le_Seq e, le_Payload e, le_PayloadHash e, le_PrevHash e, le_Hash e).

Lemma chain_binding l m :
  chain_ok l → chain_ok m → length l = length m →
  head_hash Domain.GenesisHash l = head_hash Domain.GenesisHash m →
  map committed l = map committed m ∨ collision_between l m.
Proof.
  revert m. induction l as [|e l IH] using rev_ind; intros m Hl Hm Hlen Hh.
  { destruct m; [by left|done]. }
  destruct m as [|e' m _] using rev_ind; [rewrite length_app in Hlen; cbn in Hlen; lia|].
  rewrite !length_app in Hlen. cbn in Hlen.
  apply chain_from_app in Hl as [Hl He]. apply chain_from_app in Hm as [Hm He'].
  unfold head_hash in Hh. rewrite !last_snoc in Hh.
  replace (length m) with (length l) in He' by lia.
  assert (∀ x k, x ∈ hashed [k] → ∀ q, x ∈ hashed (q ++ [k])) as Hin.
  { unfold hashed. intros x k Hx q. rewrite !map_app. set_solver. }
  destruct He as (Hs & Hp & Hph & Hhash), He' as (Hs' & Hp' & Hph' & Hhash').
  assert (slen (head_hash Domain.GenesisHash l) = 64%nat) as L1 by by eapply head_hash_length.
  assert (slen (head_hash Domain.GenesisHash m) = 64%nat) as L2 by by eapply head_hash_length.
  destruct (decide (entry_text (le_Seq e) (le_PrevHash e) (le_PayloadHash e) =
                    entry_text (le_Seq e') (le_PrevHash e') (le_PayloadHash e'))) as [Ht|Ht].
  - rewrite Hs, Hs', Hp, Hp' in Ht. apply entry_text_inj in Ht as [Hprev Hpay]; [|done..].
    destruct (decide (le_Payload e = le_Payload e')) as [Hpl|Hpl].
    + destruct (IH m Hl Hm ltac:(lia) Hprev) as [Heq|Hc]; [left|right; by apply collision_snoc].
      rewrite !map_app, Heq. cbn. unfold committed. congruence.
    + right. exists (le_Payload e), (le_Payload e'). split_and!.
      * apply Hin. unfold hashed; cbn. set_solver.
      * apply Hin. unfold hashed; cbn. set_solver.
      * split; [done|]. unfold PayloadHash in *. congruence.
  - right. eexists _, _. split_and!; [apply Hin|apply Hin|split; [exact Ht|]].
    + unfold hashed; cbn. set_solver.
    + unfold hashed; cbn. set_solver.
    + unfold EntryHash in *. congruence.
Qed.

(** C8: the ledger's head binds its whole history: two chains of the same length
    that link back to the genesis hash and end in the same hash hold the same
    payloads at the same positions, or the two chains exhibit a SHA-256
    collision among the strings they hash. *)
Theorem head_binds_history l m :
  chain_ok l → chain_ok m → length l = length m →
  head_hash Domain.GenesisHash l = head_hash Domain.GenesisHash m →
  map le_Payload l = map le_Payload m ∨ collision_between l m.
Proof.
  intros Hl Hm Hlen Hh. destruct (chain_binding l m Hl Hm Hlen Hh) as [H|H]; [left|by right].
  apply (f_equal (map (fun x => x.1.1.1.2))) in H. rewrite !map_map in H. exact H.
Qed.

(** ** The keyring *)
Section Keyring.
Context `{Base58}.

(** An id that spells a key of the right size. *)
Definition trusted_key (id : string) (k : edpub) : Prop := b58_decode id = Some k ∧ length k = PublicKeySize.

(** What [NewSignerWithRetired] establishes: key sizes, ids that name their
    keys, and no id twice. *)
Definition signer_ok (s : Signer) : Prop :=
  length (sg_current s) = PrivateKeySize ∧
  sg_currentBase58 s = b58_encode (ed_public (sg_current s)) ∧
  Forall2 (fun id k => b58_decode id = Some k ∧ length k = PublicKeySize)
  (sg_retiredBase58 s) (sg_retiredPublic s) ∧
  NoDup (VerificationKeyIDs s).

Lemma add_retired_spec s seen retired s' :
  add_retired s seen retired = Ok s' →
  sg_current s' = sg_current s ∧ sg_currentBase58 s' = sg_currentBase58 s ∧
  sg_retiredBase58 s' = sg_retiredBase58 s ++ retired ∧
  (∃ ks, sg_retiredPublic s' = sg_retiredPublic s ++ ks ∧ Forall2 trusted_key retired ks) ∧
  NoDup retired ∧ (∀ id, id ∈ retired → id ∉ seen).
Proof.
  revert s seen. induction retired as [|id rest IH]; cbn; intros s seen.
  - intros [= <-]. rewrite !app_nil_r. split_and!; try done.
  + exists []. by rewrite app_nil_r.
  + constructor.
  + set_solver.
  - destruct (String.eqb id ""); [done|]. case_bool_decide as Hseen; [done|].
  destruct (b58_decode id) as [raw|] eqn:Hraw; [|done].
  destruct (Nat.eqb_spec (length raw) PublicKeySize) as [Hl|]; [cbn|done].
  intros (H1 & H2 & H3 & (ks & H4 & H5) & H6 & H7)%IH. cbn in *.
  split_and!; [done|done|by rewrite H3, <-app_assoc| | |].
  + exists (raw :: ks). rewrite H4, <-app_assoc. split; [done|]. by constructor.
  + constructor; [|done]. intros Hin. apply (H7 id Hin). set_solver.
  + intros x [->|Hx]%elem_of_cons; [done|]. pose proof (H7 x Hx). set_solver.
Qed.

Lemma add_retired_total s seen retired :
  Forall (fun id => id ≠ "" ∧ ∃ k, trusted_key id k) retired → NoDup retired →
  (∀ id, id ∈ retired → id ∉ seen) → is_ok (add_retired s seen retired) = true.
Proof.
  revert s seen. induction retired as [|id rest IH]; cbn; intros s seen; [done|].
  intros [[Hne (k & Hk & Hl)] Hf]%Forall_cons [Hnin Hnd]%NoDup_cons Hseen.
  apply String.eqb_neq in Hne as ->. rewrite bool_decide_false by (apply Hseen; set_solver).
  rewrite Hk, Hl. cbn. apply IH; [done|done|]. intros x Hx.
  assert (x ≠ id) by congruence. assert (x ∉ seen) by (apply Hseen; set_solver). set_solver.
Qed.

Lemma NewSignerWithRetired_spec private retired s : NewSignerWithRetired private retired = Ok s →
  signer_ok s ∧ sg_current s = private ∧
  VerificationKeyIDs s = b58_encode (ed_public private) :: retired.
Proof.
  unfold NewSignerWithRetired. destruct (Nat.eqb_spec (length private) PrivateKeySize) as [Hl|]; [cbn -[PrivateKeySize]|done].
  intros (H1 & H2 & H3 & (ks & H4 & H5) & H6 & H7)%add_retired_spec. cbn in *.
  unfold signer_ok, VerificationKeyIDs. rewrite H1, H2, H3, H4. split_and!; try done.
  constructor; [|done]. intros Hin. apply (H7 _ Hin). set_solver.
Qed.

(** A trusted id resolves to the key it spells, and to nothing else. *)
Lemma PublicKeyForID_spec `{!Base58Laws} s id k :
  signer_ok s → Forall (fun b => 0 ≤ b < 256) (sg_current s) →
  PublicKeyForID s id = Some k ↔ id ∈ VerificationKeyIDs s ∧ b58_decode id = Some k.
Proof.
  intros (Hl & Hcur & Hret & Hnd) Hb. unfold PublicKeyForID, VerificationKeyIDs, PublicKey.
  assert (b58_decode (sg_currentBase58 s) = Some (ed_public (sg_current s))) as Hdec.
  { rewrite Hcur. apply b58_roundtrip. by apply Forall_drop. }
  destruct (String.eqb_spec id (sg_currentBase58 s)) as [->|Hne].
  { rewrite Hdec. set_solver. }
  destruct (list_find (fun r => r = id) (sg_retiredBase58 s)) as [[i x]|] eqn:Hf.
  - apply list_find_Some in Hf as (Hi & -> & _).
  eapply Forall2_lookup_l in Hret as (k' & Hk' & Hd & _); [|exact Hi]. rewrite Hk', Hd.
  split; [intros [= <-]; split; [|done]; constructor; by eapply list_elem_of_lookup_2|naive_solver].
  - apply list_find_None in Hf. split; [done|]. intros [[->|Hin]%elem_of_cons _]; [done|].
  rewrite Forall_forall in Hf. by apply Hf in Hin.
Qed.

Lemma RotateSigner_spec s fresh s' : RotateSigner s fresh = Ok s' →
  signer_ok s' ∧ sg_current s' = fresh ∧
  VerificationKeyIDs s' = b58_encode (ed_public fresh) :: VerificationKeyIDs s.
Proof.
  unfold RotateSigner. destruct (NewSigner fresh) as [next|] eqn:Hn; [cbn|done].
  apply NewSignerWithRetired_spec in Hn as (_ & Hc & _).
  intros (? & ? & ?)%NewSignerWithRetired_spec. by rewrite <-Hc.
Qed.
End Keyring.

(** Rotation keeps every key this marketplace ever signed with: the rotated
    keyring holds only the fresh private key, lists the fresh id first and every
    id trusted before after it, resolves each of those to the same public key,
    and still verifies, with the same claims, every tessera that names its key;
    and rotation succeeds whenever the fresh key was not already trusted. *)
Theorem rotation_keeps_trust `{Base58} `{!Base58Laws} `{JWT} s fresh :
  signer_ok s → Forall (fun b => 0 ≤ b < 256) (sg_current s) →
  length fresh = PrivateKeySize → Forall (fun b => 0 ≤ b < 256) fresh →
  "" ∉ VerificationKeyIDs s → b58_encode (ed_public fresh) ∉ VerificationKeyIDs s →
  ∃ s', RotateSigner s fresh = Ok s' ∧ signer_ok s' ∧ sg_current s' = fresh ∧
    VerificationKeyIDs s' = b58_encode (ed_public fresh) :: VerificationKeyIDs s ∧
    (∀ id k, PublicKeyForID s id = Some k → PublicKeyForID s' id = Some k) ∧
    (∀ at_ jws kid c, jwt_kid jws = Some kid → kid ≠ "" →
       Verify s at_ jws = Ok c → Verify s' at_ jws = Ok c).
Proof.
  intros Hs Hb Hlen Hbf Hempty Hfresh.
  assert (is_ok (RotateSigner s fresh) = true) as Hok.
  { unfold RotateSigner, NewSigner, NewSignerWithRetired. rewrite Hlen. cbn -[VerificationKeyIDs].
    rewrite Hlen. cbn -[VerificationKeyIDs]. destruct Hs as (Hl & Hcur & Hret & Hnd).
    apply add_retired_total; [|done|set_solver]. apply Forall_forall. intros id Hid.
    split; [congruence|]. apply elem_of_cons in Hid as [->|Hid].
    - exists (ed_public (sg_current s)). split.
      + rewrite Hcur. apply b58_roundtrip. by apply Forall_drop.
      + unfold ed_public. rewrite length_drop, Hl. done.
    - apply list_elem_of_lookup in Hid as [i Hi].
      eapply Forall2_lookup_l in Hret as (k & _ & Hk & Hlk); [|exact Hi]. by exists k. }
  destruct (RotateSigner s fresh) as [s'|] eqn:Hr; [|done]. exists s'.
  destruct (RotateSigner_spec _ _ _ Hr) as (Hs' & Hc' & Hids).
  assert (∀ id k, PublicKeyForID s id = Some k → PublicKeyForID s' id = Some k) as Hkeys.
  { intros id k [Hid Hk]%PublicKeyForID_spec; [|done..].
    apply PublicKeyForID_spec; [done|by rewrite Hc'|]. rewrite Hids. set_solver. }
  split_and!; try done. intros at_ jws kid c Hkid Hne.
  unfold Verify, verifyWithKey, candidateKeys. rewrite Hkid. apply String.eqb_neq in Hne as ->.
  destruct (PublicKeyForID s kid) as [k|] eqn:Hk; [|done]. by rewrite (Hkeys _ _ Hk).
Qed.

(** ** Issuing a tessera, alone *)
Section Issuing.
Context `{Base58} `{JWT} (signer : Signer).

(** Whether the ledger, and the receipts, already hold the trade. *)
Definition in_ledger (d : DB) (tradeID : string) : bool :=
  existsb (fun e => String.eqb (le_TradeID e) tradeID) (ledger d).
Definition has_receipt (d : DB) (tradeID : string) : bool :=
  bool_decide (map_Exists (fun _ r => rc_TradeID r = tradeID) (receipts d)).

(** The entry that would be appended now. *)
Definition next_entry (d : DB) (tradeID payload : string) (at_ : time) : LedgerEntry :=
  let seq := Z.of_nat (length (ledger d)) + 1 in
  let prev := head_hash Domain.GenesisHash (ledger d) in
  mkLedgerEntry seq tradeID payload (PayloadHash payload) prev
    (EntryHash seq prev (PayloadHash payload)) (nanos at_).

Lemma chain_head_seq seq prev l e : chain_from seq prev (l ++ [e]) → le_Seq e = seq + Z.of_nat (length l).
Proof. by intros [_ (-> & _)]%chain_from_app. Qed.

Lemma headLedgerEntry_next d : chain_ok (ledger d) →
  match headLedgerEntry d with
  | Some head => (le_Hash head, le_Seq head + 1)
  | None => (Domain.GenesisHash, 1)
  end = (head_hash Domain.GenesisHash (ledger d), Z.of_nat (length (ledger d)) + 1).
Proof.
  unfold headLedgerEntry, head_hash. intros Hc.
  destruct (ledger d) as [|e l _] using rev_ind; [done|]. rewrite last_snoc, length_app.
  rewrite (chain_head_seq _ _ _ _ Hc). cbn [length]. f_equal. lia.
Qed.

Lemma run_append w a : chain_ok (ledger (w_db w)) → la_PayloadHash a = PayloadHash (la_Payload a) →
  nanos (la_CreatedAt a) = la_CreatedAt a →
  run (append a) w =
    if in_ledger (w_db w) (la_TradeID a) then Some (Err [ESQL], w)
    else let e := next_entry (w_db w) (la_TradeID a) (la_Payload a) (la_CreatedAt a) in
         Some (Ok e, with_db w (with_ledger (w_db w) (ledger (w_db w) ++ [e]))).
Proof.
  intros Hc Hp Hn. pose proof (headLedgerEntry_next _ Hc) as Hh.
  unfold append, appendAttempts. cbn [append_loop]. rewrite run_io_bind.
  cbn [HeadLedgerEntry query run]. rewrite run_bind.
  cbn [AppendLedgerEntry write run with_prev la_PrevHash la_TradeID la_Payload la_PayloadHash la_CreatedAt].
  assert (match headLedgerEntry (w_db w) with Some h => le_Hash h | None => Domain.GenesisHash end =
    head_hash Domain.GenesisHash (ledger (w_db w))) as ->.
  { reflexivity. }
  rewrite Hh. cbn beta iota. rewrite String.eqb_refl. cbn [negb].
  unfold in_ledger. destruct (existsb _ _) eqn:He; cbn beta iota.
  - reflexivity.
  - cbn [ok run le_Seq le_TradeID le_Payload le_PayloadHash le_PrevHash le_Hash le_CreatedAt].
    unfold next_entry. by rewrite Hp, Hn.
Qed.

(** Issuing a tessera, on every branch: a trade that is not recorded or
    settled, or that already has a receipt, is refused and changes nothing; a
    trade the ledger already holds is refused by the unique index; otherwise
    exactly one entry, linked to the head and holding the trade's record at this
    instant, is appended, and exactly one receipt is stored, whose claims name
    that entry's sequence and hash.  A failure after the append leaves the entry
    without a receipt. *)
Theorem Record_effect w t sig cl :
  chain_ok (ledger (w_db w)) → nanos (w_now w) = w_now w →
  run (Record_ signer t sig cl) w =
    if negb (bool_decide (tr_State t = TradeRecorded)) && negb (bool_decide (tr_State t = TradeSettled))
    then Some (Err [ErrNotSettled], w)
    else if has_receipt (w_db w) (tr_ID t) then Some (Err [ErrAlreadyIssued], w)
    else match TradeRecord_json (tradeRecord t (w_now w)) with
    | Err e => Some (Err e, w)
    | Ok payload =>
      if in_ledger (w_db w) (tr_ID t) then Some (Err [ESQL], w)
      else
        let e := next_entry (w_db w) (tr_ID t) payload (w_now w) in
        let d := with_ledger (w_db w) (ledger (w_db w) ++ [e]) in
        let id := w_uuid w (w_next w) in
        let w' d' := mkWorld d' (w_now w) (w_uuid w) (S (w_next w)) (w_locked w) (w_chain w) in
        match signClaims signer (claims_for t id (w_now w) (tradeRecord t (w_now w)) sig cl e) with
        | Err x => Some (Err x, w' d)
        | Ok jws =>
            if bool_decide (is_Some (receipts d !! id)) then Some (Err [ESQL], w' d)
            else Some (Ok (mkReceipt id (tr_ID t) jws (w_now w)),
                       w' (with_receipts d (<[id := mkReceipt id (tr_ID t) jws (w_now w)]> (receipts d))))
        end
    end.
Proof.
  intros Hc Hn. unfold Record_. rewrite run_io_bind. cbn [refuse run].
  destruct (negb _ && negb _); cbn [guard_err]; [done|].
  rewrite run_io_bind, run_bind. cbn [GetReceiptByTrade query run]. unfold has_receipt.
  destruct (list_find _ (map_to_list (receipts (w_db w)))) as [[i [k r]]|] eqn:Hf.
  { apply list_find_Some in Hf as (Hi & Hr & _). rewrite bool_decide_true; [done|].
    exists k, r. split; [|done]. apply elem_of_map_to_list. by eapply list_elem_of_lookup_2. }
  rewrite bool_decide_false.
  2: { intros (k & r & Hk & Hr). apply list_find_None in Hf. rewrite Forall_forall in Hf.
       apply elem_of_map_to_list in Hk. by apply (Hf _ Hk). }
  cbn [errorIs]. replace (errorIs [ErrNotFound] ErrNotFound) with true by reflexivity. cbn [ok run].
  rewrite run_io_bind. cbn [now run]. rewrite run_io_bind. cbn [lift run].
  destruct (TradeRecord_json _) as [payload|e]; [|done].
  rewrite run_io_bind, run_append by done. cbn [la_TradeID la_Payload la_CreatedAt].
  destruct (in_ledger (w_db w) (tr_ID t)); [done|]. cbv zeta.
  rewrite run_io_bind. cbn [NewString run]. rewrite run_io_bind. cbn [lift run].
  unfold with_db. cbn [w_db w_uuid w_next w_now w_locked w_chain].
  destruct (signClaims _ _) as [jws|x]; [|done].
  rewrite run_io_bind. cbn [SaveReceipt write run w_db rc_ID rc_TradeID rc_JWS rc_IssuedAt].
  destruct (bool_decide (is_Some _)); [done|].
  rewrite bool_decide_false.
  2: { intros (k & r & Hk & Hr). apply list_find_None in Hf. rewrite Forall_forall in Hf.
       apply elem_of_map_to_list in Hk. by apply (Hf _ Hk). }
  by rewrite Hn.
Qed.
End Issuing.

(** ** Witnesses *)

(** Tokens that name no key and verify under none. *)
Definition demoJWT : JWT := {|
  jwt_sign _ kid c := Ok (kid +:+ "." +:+ tc_ID c);
  jwt_kid _ := Some "";
  jwt_verify _ _ _ := Err [];
  jwt_valid _ _ _ := false |}.

Definition demoSigner : Signer := mkSigner (demoKey 1) (@b58_encode demoBase58 (replicate 32 1)) [] [].

Lemma demoSigner_ok : @signer_ok demoBase58 demoSigner.
Proof. split_and!; [done|done|constructor|]. constructor; [set_solver|constructor]. Qed.

Lemma rotation_keeps_trust_witness :
  ∃ s', @RotateSigner demoBase58 demoSigner (demoKey 2) = Ok s' ∧
        @PublicKeyForID s' (sg_currentBase58 demoSigner) = Some (replicate 32 1).
Proof.
  destruct (@rotation_keeps_trust demoBase58 demoBase58_laws demoJWT demoSigner (demoKey 2))
    as (s' & Hr & _ & _ & _ & Hk & _).
  - exact demoSigner_ok.
  - vm_compute. repeat constructor; discriminate.
  - reflexivity.
  - vm_compute. repeat constructor; discriminate.
  - vm_compute. intros H. inversion H as [|? ? ? H']. inversion H'.
  - vm_compute. intros H. inversion H as [|? ? ? H']. inversion H'.
  - exists s'. split; [exact Hr|]. apply Hk. reflexivity.
Defined.

(** A ledger of one entry. *)
Definition demoLedger : list LedgerEntry := [next_entry emptyDB "trade-1" "{}" 0].

Lemma demoLedger_ok : chain_ok demoLedger.
Proof. vm_compute. repeat split. Qed.

Lemma head_binds_history_witness :
  chain_ok demoLedger ∧
  (map le_Payload demoLedger = map le_Payload demoLedger ∨ collision_between demoLedger demoLedger).
Proof.
  split; [exact demoLedger_ok|].
  apply (head_binds_history demoLedger demoLedger demoLedger_ok demoLedger_ok); reflexivity.
Defined.

Definition demoRecorded : Trade :=
  mkTrade "trade-1" "offer-1" "BUYER" "SELLER" "" (mkAmount "2.5") "MINT" SettlementOffchain
    TradeRecorded "" 0 0 [] [].

Lemma Record_effect_witness :
  match run (@Record_ demoJWT demoSigner demoRecorded "" "") (demoWorld emptyDB (5 * second)) with
  | Some (Ok r, w') => rc_TradeID r = "trade-1" ∧ length (ledger (w_db w')) = 1%nat
  | _ => False
  end.
Proof.
  rewrite (@Record_effect demoJWT demoSigner (demoWorld emptyDB (5 * second)) demoRecorded "" "");
    [vm_compute; split; reflexivity|exact I|reflexivity].
Defined.
