(* ===== verification/Keyring.v ===== *)
(** * The signing key file ([ledger/signer.go])

    Reading either shape of the file, writing the keyring, creating it on first
    boot and rotating it in place, over the file system of [Files].  Reading back
    what was written is proved for base58 as documented ([Base58Text]). *)
From S2P Require Import Prelude GoText Prog Sha256 Json Money Domain Keys Attest World Ledger GoJson Files.

(** Documented behaviour of [mr-tron/base58]: only alphanumerics decode. *)
Class Base58Text `{Base58} : Prop := { b58_text s l : b58_decode s = Some l → plain s = true }.

Definition keyringVersion : Z := 1.
Record keyringFile := mkKeyringFile { kf_Version : Z; kf_Current : string; kf_Retired : list string }.

(** [json.MarshalIndent(file, "", "  ")]; an empty list is omitted. *)
Definition newline : string := String (ascii_of_N 10) "".
Definition marshal_keyring (f : keyringFile) : string :=
  "{" +:+ newline +:+ "  " +:+ json_string "version" +:+ ": " +:+ format_uint (kf_Version f) +:+ "," +:+
  newline +:+ "  " +:+ json_string "current" +:+ ": " +:+ json_string (kf_Current f) +:+
  match kf_Retired f with
  | [] => ""
  | l => "," +:+ newline +:+ "  " +:+ json_string "retired" +:+ ": [" +:+ newline +:+ "    " +:+
         string_list (newline +:+ "    ") l +:+ newline +:+ "  " +:+ "]"
  end +:+ newline +:+ "}".

Section Signers.
Context `{IB : Base58} `{IO : Folding}.

Definition keyring_fields : list (string * (keyringFile → json → option keyringFile)) := [
  ("version", fun f v => x ← as_int (kf_Version f) v; Some (mkKeyringFile x (kf_Current f) (kf_Retired f)));
  ("current", fun f v => x ← as_string (kf_Current f) v; Some (mkKeyringFile (kf_Version f) x (kf_Retired f)));
  ("retired", fun f v => x ← as_slice "" as_string (kf_Retired f) v; Some (mkKeyringFile (kf_Version f) (kf_Current f) x))].

Definition unmarshal_keyring (raw : string) : option keyringFile :=
  json_parse raw ≫= as_struct keyring_fields (mkKeyringFile 0 "" []).

Definition HasPrefix (prefix s : string) : bool := String.eqb (stake (slen prefix) s) prefix.

Definition parseSignerFile (raw : string) : res Signer :=
  if negb (HasPrefix "{" (TrimSpace raw)) then
    match base64_decode (TrimSpace raw) with
    | None => Err []
    | Some private => NewSigner (bytes_of private)
    end
  else match unmarshal_keyring raw with
  | None => Err []
  | Some file =>
      if String.eqb (kf_Current file) "" then Err []
      else match base64_decode (kf_Current file) with
      | None => Err []
      | Some private => NewSignerWithRetired (bytes_of private) (kf_Retired file)
      end
  end.

Definition file_of (s : Signer) : keyringFile :=
  mkKeyringFile keyringVersion (base64 (string_of (sg_current s))) (sg_retiredBase58 s).
Definition writeKeyring (path : string) (s : Signer) : io FS unit :=
  replace_file path ".signer.key." true (marshal_keyring (file_of s) +:+ newline).

(** [ed25519.GenerateKey(rand.Reader)] *)
Definition GenerateSigner : io FS Signer := sys (fun s => (NewSigner (map (fun b => b mod 256) (fs_entropy s)), s)).

Definition LoadOrCreateSigner (path : string) : io FS (Signer * bool) :=
  on_result (ReadFile path) (fun r => match r with
  | Ok raw => signer <~ lift (parseSignerFile raw);; ok (signer, false)
  | Err e =>
      if errorIs e ENotExist then
        signer <~ GenerateSigner;;
        _ <~ writeKeyring path signer;;
        ok (signer, true)
      else fail e
  end).

(** [RotateSigner(path)]; [Ledger.RotateSigner] is the keyring it writes. *)
Definition rotate_file (path : string) : io FS string :=
  raw <~ ReadFile path;;
  current <~ lift (parseSignerFile raw);;
  next <~ GenerateSigner;;
  next <~ lift (NewSignerWithRetired (sg_current next) (VerificationKeyIDs current));;
  _ <~ writeKeyring path next;;
  ok (sg_currentBase58 next).

(** ** A keyring reads back *)
Definition key_bytes (k : privkey) : Prop := Forall (fun b => 0 ≤ b < 256) k.

Lemma bytes_of_string_of k : key_bytes k → bytes_of (string_of k) = k.
Proof.
  induction 1 as [|b k Hb _ IH]; [done|]. cbn [string_of bytes_of]. rewrite IH. f_equal.
  unfold byte_char, ord. rewrite Z.mod_small, N_ascii_embedding, Z2N.id by lia. done.
Qed.

Lemma base64_char_plain n : 0 ≤ n < 64 → plain_char (base64_char n) = true.
Proof.
  intros Hn. assert (forallb (fun k => plain_char (base64_char (Z.of_nat k))) (seq 0 64) = true) as H by (vm_compute; reflexivity).
  rewrite forallb_forall in H. specialize (H (Z.to_nat n)). rewrite in_seq, Z2Nat.id in H by lia. apply H. lia.
Qed.

Lemma base64_plain s : plain (base64 s) = true.
Proof.
  induction s as [|a|a b|a b c s IH] using string_ind3; [done| | |].
  - unfold base64, plain. cbn [slen base64_go]. cbv zeta. cbn [all_chars].
    rewrite !(base64_char_plain _ (sextet_range _ _)). done.
  - unfold base64, plain. cbn [slen base64_go]. cbv zeta. cbn [all_chars].
    rewrite !(base64_char_plain _ (sextet_range _ _)). done.
  - unfold plain in *. rewrite base64_cons3. cbv zeta. cbn [all_chars]. rewrite !(base64_char_plain _ (sextet_range _ _)), IH. done.
Qed.

(** Trimming keeps a visible first character. *)
Lemma space_len_le s : (space_len s ≤ 3)%nat.
Proof. unfold space_len. repeat case_match; lia. Qed.

Lemma trim_right_head c s fuel : (∀ t, space_len (String c t) = 0%nat) →
  ∃ t, trim_space_right fuel (String c s) = String c t.
Proof.
  intros Hc. revert s. induction fuel as [|fuel IH]; intros s; [by exists s|]. cbn [trim_space_right].
  destruct (space_len_end (String c s)) as [|n] eqn:E; [by exists s|].
  assert (S n < slen (String c s))%nat as Hlt.
  { unfold space_len_end in E. cbn [slen] in *.
    assert (∀ k, (slen s < k)%nat → (S (slen s) - k = 0)%nat) as Hsub by lia.
    destruct (space_len (sdrop (S (slen s) - 1) (String c s)) =? 1)%nat eqn:E1; [|destruct (space_len (sdrop (S (slen s) - 2) (String c s)) =? 2)%nat eqn:E2;
      [|destruct (space_len (sdrop (S (slen s) - 3) (String c s)) =? 3)%nat eqn:E3; [|done]]]; injection E as <-.
    - destruct (decide (slen s = 0)%nat) as [E0|]; [|lia]. rewrite E0 in E1. cbn [sdrop Nat.sub] in E1. by rewrite Hc in E1.
    - destruct (decide (slen s < 2)%nat) as [E0|]; [|lia]. rewrite Hsub in E2 by lia. cbn [sdrop] in E2. by rewrite Hc in E2.
    - destruct (decide (slen s < 3)%nat) as [E0|]; [|lia]. rewrite Hsub in E3 by lia. cbn [sdrop] in E3. by rewrite Hc in E3. }
  destruct (slen (String c s) - S n)%nat as [|m] eqn:Em; [lia|]. cbn [stake]. apply IH.
Qed.

Lemma TrimSpace_head c s : (∀ t, space_len (String c t) = 0%nat) → ∃ t, TrimSpace (String c s) = String c t.
Proof.
  intros Hc. unfold TrimSpace. cbn [slen trim_space_left]. rewrite Hc. cbv zeta. by apply trim_right_head.
Qed.

Lemma value_object depth n X M l r : (depth <? maxNestingDepth) = true → skip_space X = String dquote M →
  json_members n (depth + 1) (String dquote M) = Some (l, r) → json_value (S n) depth (String "{" X) = Some (JObject l, r).
Proof.
  intros Hd HX Hm. cbn [json_value]. change (ceqb "{" "{") with true. cbv iota. rewrite Z.geb_leb, Z.leb_antisym, Hd. cbn [negb].
  rewrite HX. change (ceqb dquote "}") with false. cbv iota. by rewrite Hm.
Qed.

Lemma value_array depth n X Y l r : (depth <? maxNestingDepth) = true → skip_space X = String dquote Y →
  json_elements n (depth + 1) (String dquote Y) = Some (l, r) → json_value (S n) depth (String "[" X) = Some (JArray l, r).
Proof.
  intros Hd HX Hm. cbn [json_value]. change (ceqb "[" "{") with false. change (ceqb "[" "[") with true. cbv iota.
  rewrite Z.geb_leb, Z.leb_antisym, Hd. cbn [negb]. rewrite HX. change (ceqb dquote "]") with false. cbv iota. by rewrite Hm.
Qed.

Definition indented (s : string) : string := newline +:+ "  " +:+ s.
Lemma skip_indented s : skip_space (indented s) = skip_space s.
Proof. reflexivity. Qed.

(** The last line of a keyring, after the member before it. *)
Definition closing : string := newline +:+ "}" +:+ newline.

Lemma members_retired n l : Forall (fun x => plain x = true) l → l ≠ [] → (length l + 3 ≤ n)%nat →
  json_members n 1 (json_string "retired" +:+ String ":" (" [" +:+ newline +:+ "    " +:+ string_list (newline +:+ "    ") l +:+ newline +:+ "  " +:+ "]" +:+ closing)) =
  Some ([("retired", JArray (map JString l))], newline).
Proof.
  intros Hp Hl Hn. destruct n as [|[|n]]; [lia..|]. destruct l as [|x l]; [done|]. set (text := string_list _ _).
  assert (∀ s, skip_space (text +:+ s) = text +:+ s) as Hskip by (intros s; by apply string_list_head).
  assert (∃ y, text = String dquote y) as [y Ey].
  { apply Forall_cons in Hp as [Hx _]. subst text. destruct l; cbn [string_list]; rewrite (json_string_plain x Hx); by eexists. }
  rewrite (member_read 1 "retired" (" [" +:+ newline +:+ "    " +:+ text +:+ newline +:+ "  " +:+ "]" +:+ closing) (JArray (map JString (x :: l))) _ (S n) closing "}" newline);
    [reflexivity|reflexivity| |reflexivity|reflexivity].
  change (skip_space (" [" +:+ newline +:+ "    " +:+ text +:+ newline +:+ "  " +:+ "]" +:+ closing))
    with (String "[" (newline +:+ "    " +:+ text +:+ newline +:+ "  " +:+ "]" +:+ closing)).
  apply (value_array 1 n _ (y +:+ newline +:+ "  " +:+ "]" +:+ closing)); [reflexivity| |].
  - change (skip_space (newline +:+ "    " +:+ ?s)) with (skip_space s). rewrite Hskip, Ey. reflexivity.
  - change (String dquote (y +:+ newline +:+ "  " +:+ "]" +:+ closing)) with (String dquote y +:+ (newline +:+ "  ") +:+ String "]" closing).
    rewrite <-Ey. apply elements_strings; [done|done|reflexivity|reflexivity|]. cbn in Hn |- *. lia.
Qed.

Lemma members_keyring n (f : keyringFile) : plain (kf_Current f) = true → Forall (fun x => plain x = true) (kf_Retired f) →
  (length (kf_Retired f) + 5 ≤ n)%nat →
  json_members n 1 (json_string "version" +:+ String ":" (" 1," +:+ indented (json_string "current" +:+ String ":" (" " +:+ json_string (kf_Current f) +:+
    match kf_Retired f with
    | [] => closing
    | l => "," +:+ indented (json_string "retired" +:+ String ":" (" [" +:+ newline +:+ "    " +:+ string_list (newline +:+ "    ") l +:+ newline +:+ "  " +:+ "]" +:+ closing))
    end)))) =
  Some ([("version", JNumber "1"); ("current", JString (kf_Current f))] ++
        match kf_Retired f with [] => [] | l => [("retired", JArray (map JString l))] end, newline).
Proof.
  intros Hc Hr Hn. destruct n as [|[|n]]; [lia..|].
  set (rest := match kf_Retired f with [] => closing | _ => _ end).
  set (more := indented (json_string "current" +:+ _)).
  rewrite (member_read 1 "version" (" 1," +:+ more) (JNumber "1") _ (S n) (String "," more) "," more); [|reflexivity..].
  change (ceqb "," "}") with false. change (ceqb "," ",") with true. cbv iota. subst more. rewrite skip_indented, skip_string by done.
  assert (json_value n 1 (skip_space (" " +:+ json_string (kf_Current f) +:+ rest)) = Some (JString (kf_Current f), rest)) as Hv.
  { change (skip_space (" " +:+ ?s)) with (skip_space s). rewrite skip_string by done. destruct n as [|n]; [lia|]. by apply value_string. }
  destruct (kf_Retired f) as [|x l] eqn:Er; subst rest.
  - rewrite (member_read 1 "current" (" " +:+ json_string (kf_Current f) +:+ closing) (JString (kf_Current f)) _ n closing "}" newline); [reflexivity|reflexivity|exact Hv|reflexivity..].
  - set (more := indented _) in *.
    rewrite (member_read 1 "current" (" " +:+ json_string (kf_Current f) +:+ "," +:+ more) (JString (kf_Current f)) _ n (String "," more) "," more);
      [subst more|reflexivity|exact Hv|reflexivity..].
    change (ceqb "," "}") with false. change (ceqb "," ",") with true. cbv iota.
    rewrite skip_indented, skip_string by done. rewrite members_retired; [done|done|done|cbn in *; lia].
Qed.

Definition keyring_members (f : keyringFile) : string :=
  json_string "version" +:+ String ":" (" 1," +:+ indented (json_string "current" +:+ String ":" (" " +:+ json_string (kf_Current f) +:+
    match kf_Retired f with
    | [] => closing
    | l => "," +:+ indented (json_string "retired" +:+ String ":" (" [" +:+ newline +:+ "    " +:+ string_list (newline +:+ "    ") l +:+ newline +:+ "  " +:+ "]" +:+ closing))
    end))).
Lemma keyring_text f : kf_Version f = 1 → marshal_keyring f +:+ newline = String "{" (indented (keyring_members f)).
Proof.
  intros Hv. unfold marshal_keyring, keyring_members. rewrite Hv. change (format_uint 1) with "1".
  destruct (kf_Retired f) as [|x l]; unfold indented; rewrite ?sapp_assoc; reflexivity.
Qed.

Lemma string_list_length sep l : (length l ≤ slen (string_list sep l))%nat.
Proof.
  induction l as [|x l IH]; [cbn; lia|]. destruct l as [|y l]; [cbn; lia|].
  change (string_list sep (x :: y :: l)) with (json_string x +:+ "," +:+ sep +:+ string_list sep (y :: l)).
  rewrite !slen_app. cbn [length] in *. cbn [slen] in *. unfold json_string. cbn [slen]. lia.
Qed.

Lemma keyring_members_length f : (length (kf_Retired f) + 5 ≤ slen (keyring_members f))%nat.
Proof.
  unfold keyring_members. rewrite slen_app. change (slen (json_string "version")) with 9%nat.
  destruct (kf_Retired f) as [|x l]; [cbn [length]; lia|]. set (all := x :: l).
  pose proof (string_list_length (newline +:+ "    ") all) as Hl. unfold indented.
  enough (slen (string_list (newline +:+ "    ") all) ≤ slen (String ":" (" 1," +:+ newline +:+ "  " +:+ json_string "current" +:+
    String ":" (" " +:+ json_string (kf_Current f) +:+ "," +:+ newline +:+ "  " +:+ json_string "retired" +:+ String ":" (" [" +:+ newline +:+ "    " +:+
    string_list (newline +:+ "    ") all +:+ newline +:+ "  " +:+ "]" +:+ closing)))))%nat by lia.
  generalize (string_list (newline +:+ "    ") all) as x1, (json_string (kf_Current f)) as x2, (json_string "current") as x3, (json_string "retired") as x4.
  intros x1 x2 x3 x4. generalize ("  " +:+ "]" +:+ closing) as x5. intros x5.
  repeat (rewrite slen_app || rewrite slen_cons). lia.
Qed.

Lemma unmarshal_marshal f : kf_Version f = 1 → plain (kf_Current f) = true → Forall (fun x => plain x = true) (kf_Retired f) →
  unmarshal_keyring (marshal_keyring f +:+ newline) = Some f.
Proof.
  intros Hv Hc Hr. unfold unmarshal_keyring, json_parse. rewrite keyring_text by done.
  change (skip_space (String "{" (indented (keyring_members f)))) with (String "{" (indented (keyring_members f))).
  set (fuel := (2 * slen _)%nat).
  assert (length (kf_Retired f) + 5 ≤ fuel)%nat as Hf.
  { subst fuel. pose proof (keyring_members_length f). change (slen (String ?c ?x)) with (S (slen x)). unfold indented. rewrite !slen_app. lia. }
  pose proof (members_keyring fuel f Hc Hr Hf) as Hm. fold (keyring_members f) in Hm.
  assert (∃ M, keyring_members f = String dquote M) as [M EM] by (by eexists).
  rewrite EM in Hm |- *. erewrite (value_object 0 fuel _ M _ newline); [|reflexivity|reflexivity|exact Hm].
  cbn [mbind option_bind]. change (String.eqb (skip_space newline) "") with true. cbv iota.
  unfold as_struct. destruct f as [v cur ret]. cbn in Hv. subst v. cbn [kf_Current kf_Retired] in *.
  destruct ret as [|x l]; [vm_compute; reflexivity|]. set (l' := x :: l) in *. cbn [app].
  transitivity ((x ← as_list "" as_string [] (map JString l'); Some (mkKeyringFile 1 cur x)) ≫= Some); [reflexivity|].
  by rewrite as_strings.
Qed.

(** What [NewSignerWithRetired] accepts is written and read back as it is. *)
Lemma parse_written `{!Base58Text} k retired s : NewSignerWithRetired k retired = Ok s → key_bytes k →
  parseSignerFile (marshal_keyring (file_of s) +:+ newline) = Ok s.
Proof.
  intros Hs Hk. pose proof (NewSignerWithRetired_spec _ _ _ Hs) as (Hok & Hcur & Hids).
  assert (sg_retiredBase58 s = retired) as Hret by (unfold VerificationKeyIDs in Hids; by injection Hids).
  unfold parseSignerFile.
  assert (kf_Version (file_of s) = 1) as Hv by done.
  assert (HasPrefix "{" (TrimSpace (marshal_keyring (file_of s) +:+ newline)) = true) as ->.
  { rewrite keyring_text by done. destruct (TrimSpace_head "{" (indented (keyring_members (file_of s)))) as [t ->]; [reflexivity|].
    unfold HasPrefix. by destruct t. }
  cbn [negb]. rewrite unmarshal_marshal; [|done|apply base64_plain|].
  - cbn [file_of kf_Current kf_Retired]. rewrite Hcur.
    destruct (String.eqb_spec (base64 (string_of k)) "") as [E|_].
    + exfalso. pose proof (base64_roundtrip (string_of k)) as Hb. rewrite E in Hb. injection Hb as Hb.
      pose proof (bytes_of_string_of k Hk) as Hback. rewrite <-Hb in Hback. destruct Hok as (Hl & _). rewrite Hcur, <-Hback in Hl. done.
    + rewrite base64_roundtrip, bytes_of_string_of by done. by rewrite Hret.
  - cbn. destruct Hok as (_ & _ & Hf & _). revert Hf. clear Hret Hids Hv Hcur Hs. generalize (sg_retiredPublic s).
    induction (sg_retiredBase58 s) as [|id l IH]; intros ks Hf; [done|]. inversion Hf as [|? ? ? ? [Hd _]]; subst.
    constructor; [by eapply b58_text|by eapply IH].
Qed.

Lemma parse_constructed raw s : parseSignerFile raw = Ok s → ∃ k retired, NewSignerWithRetired k retired = Ok s ∧ key_bytes k.
Proof.
  assert (∀ x, key_bytes (bytes_of x)) as Hb.
  { intros x. induction x as [|c x IH]; constructor; [apply ord_byte|exact IH]. }
  unfold parseSignerFile. destruct (negb _).
  - destruct (base64_decode _) as [x|]; [|done]. intros Hs. by exists (bytes_of x), [].
  - destruct (unmarshal_keyring raw) as [f|]; [|done]. destruct (String.eqb _ _); [done|].
    destruct (base64_decode _) as [x|]; [|done]. intros Hs. by exists (bytes_of x), (kf_Retired f).
Qed.

(** [s'] is [s], or a keyring that has retired the keys of [s]; either way it still
    resolves every key id that [s] resolves. *)
Definition succeeds (s s' : Signer) : Prop :=
  (s' = s ∨ sg_retiredBase58 s' = VerificationKeyIDs s) ∧
  ∀ id k, PublicKeyForID s id = Some k → PublicKeyForID s' id = Some k.

Definition trusts_on (cur : Signer) (raw : string) : Prop := ∃ s, parseSignerFile raw = Ok s ∧ succeeds cur s.

Lemma rotated_succeeds `{!Base58Laws} cur fresh next : signer_ok cur → key_bytes (sg_current cur) → key_bytes fresh →
  NewSignerWithRetired fresh (VerificationKeyIDs cur) = Ok next → succeeds cur next.
Proof.
  intros Hok Hb Hf Hn. pose proof (NewSignerWithRetired_spec _ _ _ Hn) as (Hok' & Hcur & Hids). unfold VerificationKeyIDs in Hids.
  injection Hids as Hid Hret. split; [by right|]. intros id k [Hin Hd]%PublicKeyForID_spec; [|done..].
  apply PublicKeyForID_spec; [done|by rewrite Hcur|]. split; [|done]. unfold VerificationKeyIDs. rewrite Hret. by right.
Qed.

Lemma random_key_bytes l : key_bytes (map (fun b => b mod 256) l).
Proof. apply Forall_map, Forall_forall. intros b _. apply Z.mod_pos_bound. lia. Qed.

Section Rotation.
Context `{!Base58Laws} `{!Base58Text} (path : string) (cur : Signer).
Abbreviation trusted := (holds_always path (there (trusts_on cur))).
Abbreviation triple := (safe chance (into trusted)).

Lemma read_safe s : trusted s → triple (fun r s' => trusted s' ∧ ∀ raw, r = Ok raw → read s path = Some raw) (ReadFile path) s.
Proof.
  intros Hs. apply (safe_sys path). intros s1 Hc. pose proof (keeps_chance _ _ _ _ Hc Hs). cbn. split; [done|]. split; split; try done.
  intros raw E. rewrite (read_chance s s1) in E by done. destruct (read s path); [by injection E as <-|done].
Qed.

Lemma generate_safe s : trusted s → triple (fun r s' => trusted s' ∧ ∀ x, r = Ok x → key_bytes (sg_current x)) GenerateSigner s.
Proof.
  intros Hs. apply (safe_sys path). intros s1 Hc. pose proof (keeps_chance _ _ _ _ Hc Hs). split; [done|]. split; split; try done.
  intros x Hx. apply NewSignerWithRetired_spec in Hx as (_ & -> & _). apply random_key_bytes.
Qed.

Definition rotated (r : res string) (s : FS) : Prop :=
  trusted s ∧ ∀ id, r = Ok id → ∃ raw next, read s path = Some raw ∧ parseSignerFile raw = Ok next ∧
    sg_currentBase58 next = id ∧ sg_retiredBase58 next = VerificationKeyIDs cur.

Lemma rotate_file_safe s : trusted s → (∀ raw, read s path = Some raw → parseSignerFile raw = Ok cur) →
  triple rotated (rotate_file path) s.
Proof.
  intros Hs Hcur. apply safe_io_bind. eapply safe_mono; [|by apply read_safe]. intros [raw|e] s1 [H1 Hr]; [|by split].
  specialize (Hcur raw (Hr raw eq_refl)). apply safe_io_bind. change (triple (fun r w' => match r with Ok a => triple rotated (
    next <~ GenerateSigner;; next <~ lift (NewSignerWithRetired (sg_current next) (VerificationKeyIDs a));;
    _ <~ writeKeyring path next;; ok (sg_currentBase58 next)) w' | Err e => rotated (Err e) w' end) (Ret (parseSignerFile raw)) s1).
  destruct (parse_constructed _ _ Hcur) as (k0 & ret0 & Hn0 & Hk0). rewrite Hcur.
  pose proof (NewSignerWithRetired_spec _ _ _ Hn0) as (Hok & Hc0 & _).
  apply (safe_io_bind chance (into trusted) rotated GenerateSigner). eapply safe_mono; [|by apply generate_safe].
  intros [fresh|e] s2 [H2 Hf]; [|by split]. specialize (Hf fresh eq_refl).
  apply (safe_io_bind chance (into trusted) rotated (lift _)).
  change (match NewSignerWithRetired (sg_current fresh) (VerificationKeyIDs cur) with
    | Ok next => triple rotated (io_bind (writeKeyring path next) (fun _ => ok (sg_currentBase58 next))) s2 | Err e => rotated (Err e) s2 end).
  destruct (NewSignerWithRetired (sg_current fresh) (VerificationKeyIDs cur)) as [next|e] eqn:En; [|by split].
  pose proof (NewSignerWithRetired_spec _ _ _ En) as (_ & _ & Hids).
  assert (parseSignerFile (marshal_keyring (file_of next) +:+ newline) = Ok next) as Hback by (by eapply parse_written).
  assert (trusts_on cur (marshal_keyring (file_of next) +:+ newline)) as HK.
  { exists next. split; [done|]. eapply rotated_succeeds; [done|by rewrite Hc0|exact Hf|exact En]. }
  apply safe_io_bind. eapply safe_mono; [|apply replace_file_safe; [done|exact HK|left; intros []]]. intros [[]|e] s3 [H3 Hread]; [|by split]. split; [done|].
  intros id [= <-]. exists (marshal_keyring (file_of next) +:+ newline), next. split_and!; [by apply Hread|done|done|].
  unfold VerificationKeyIDs in Hids. by injection Hids.
Qed.

Lemma rotated_chance r s s' : chance s s' → rotated r s → rotated r s'.
Proof.
  intros Hc [H1 H2]. split; [by eapply keeps_chance|]. setoid_rewrite (read_chance _ _ path Hc). exact H2.
Qed.
End Rotation.
End Signers.

(** *** Loading or creating: the key file is absent or a whole keyring *)
Section Loading.
Context `{IB : Base58} `{IO : Folding} `{!Base58Text} (path : string).
Definition is_keyring (raw : string) : Prop := is_ok (parseSignerFile raw) = true.
Abbreviation whole := (holds_always path (if_there is_keyring)).
Abbreviation triple := (safe chance (into whole)).

(** What an answer leaves: the signer returned is the one the file holds. *)
Definition loaded (r : res (Signer * bool)) (s : FS) : Prop :=
  whole s ∧ ∀ signer created, r = Ok (signer, created) → ∃ raw, read s path = Some raw ∧ parseSignerFile raw = Ok signer.
Lemma loaded_chance r s s' : chance s s' → loaded r s → loaded r s'.
Proof. intros Hc [H1 H2]. split; [by eapply keeps_chance|]. setoid_rewrite (read_chance _ _ path Hc). exact H2. Qed.

Lemma LoadOrCreateSigner_safe s : (∀ suffix, (Dir path +:+ "/" +:+ ".signer.key.") +:+ suffix ≠ path) → whole s →
  triple loaded (LoadOrCreateSigner path) s.
Proof.
  intros Hname Hs. apply safe_bind, (safe_sys path). intros s1 Hc. pose proof (keeps_chance _ _ _ _ Hc Hs) as H1. cbn -[safe GenerateSigner writeKeyring io_bind].
  assert (∀ e, loaded (Err e) s1) as Herr by (intros e; by split). split_and!; [done| |by apply Herr].
  destruct (read s1 path) as [raw|] eqn:Hr.
  - cbn. destruct (parseSignerFile raw) as [signer|e] eqn:Hp; cbn; [|by apply Herr]. split; [done|]. intros ? ? [= <- <-]. by exists raw.
  - change (errorIs [ENotExist] ENotExist) with true. apply safe_io_bind.
    eapply (safe_mono _ _ (fun r s => whole s ∧ ∀ x, r = Ok x → NewSigner (sg_current x) = Ok x ∧ key_bytes (sg_current x))).
    2:{ apply (safe_sys path). intros s2 Hc2. pose proof (keeps_chance _ _ _ _ Hc2 H1). split; [done|]. split; split; try done.
      cbn. intros x Hx. pose proof Hx as (_ & E & _)%NewSignerWithRetired_spec. rewrite E. split; [done|apply random_key_bytes]. }
    intros [signer|e] s2 [H2 Hg]; [|by split]. destruct (Hg signer eq_refl) as [Hn Hb].
    assert (parseSignerFile (marshal_keyring (file_of signer) +:+ newline) = Ok signer) as Hback by (by eapply parse_written).
    apply safe_io_bind. eapply safe_mono; [|apply replace_file_safe; [done| |by right]].
    + intros [[]|e] s3 [H3 Hread]; [|by split]. split; [done|]. intros ? ? [= <- <-]. eexists. split; [by apply Hread|done].
    + change (is_keyring (marshal_keyring (file_of signer) +:+ newline)). unfold is_keyring. by rewrite Hback.
Qed.
End Loading.

(** C31: rotating the signing key never loses a key.  Let the file at [path] hold the
    keyring [cur], durably.  At whatever point the rotation fails, is killed, or the
    machine loses power, the file is there, parses, and holds either [cur] or a
    keyring whose retired keys are exactly the keys of [cur]; in both cases every
    key id trusted before is still resolved to the same key.  A rotation that
    reports success has written the latter. *)
Theorem rotation_survives `{IB : Base58} `{IO : Folding} `{!Base58Laws} `{!Base58Text} path cur s s1 :
  holds_always path (there (fun raw => parseSignerFile raw = Ok cur)) s → runs_to (rotate_file path) s s1 →
  there (trusts_on cur) (read s1 path) ∧
  (∀ s2, survives s1 s2 → there (trusts_on cur) (read s2 path)) ∧
  ∀ id s', run (rotate_file path) s = Some (Ok id, s') →
    ∃ raw next, read s' path = Some raw ∧ parseSignerFile raw = Ok next ∧
      sg_currentBase58 next = id ∧ sg_retiredBase58 next = VerificationKeyIDs cur.
Proof.
  intros Hs Hrun. pose proof (holds_always_read _ _ _ Hs) as Hnow.
  assert (∀ raw, read s path = Some raw → parseSignerFile raw = Ok cur) as Hread by (intros raw E; by rewrite E in Hnow).
  assert (holds_always path (there (trusts_on cur)) s) as Ht.
  { eapply holds_always_mono, Hs. intros [raw|]; [|done]. intros Hp. exists cur. split; [done|]. split; [by left|done]. }
  pose proof (rotate_file_safe path cur s Ht Hread) as Hsafe.
  assert (holds_always path (there (trusts_on cur)) s1) as H1.
  { eapply safe_runs_to; [|apply keeps_chance|exact Hrun|exact Hsafe|done]. intros r a b. apply rotated_chance. }
  split_and!; [by apply (holds_always_read _ _ _ H1)|intros s2 Hs2; by apply (holds_always_survives _ _ _ _ H1 Hs2)|].
  intros id s' Hr. destruct (safe_run _ _ _ _ _ _ Hsafe Hr) as [_ Hid]. by apply Hid.
Qed.

(** *** Witness: keys spelled in hexadecimal, a disk with one key file *)
Definition demoHex58 : Base58 := {| b58_decode s := bytes_of <$> hex_decode s; b58_encode := hex |}.

Lemma hex_char_val n : 0 ≤ n < 16 → hex_val (hex_digit n) = Some n.
Proof.
  intros Hn. assert (forallb (fun k => bool_decide (hex_val (hex_digit (Z.of_nat k)) = Some (Z.of_nat k))) (seq 0 16) = true) as H by (vm_compute; reflexivity).
  rewrite forallb_forall in H. specialize (H (Z.to_nat n)). rewrite in_seq, Z2Nat.id in H by lia. apply bool_decide_eq_true in H; [done|lia].
Qed.

Lemma demoHex58_laws : @Base58Laws demoHex58.
Proof.
  split. intros l. cbn. induction 1 as [|b l Hb _ IH]; [done|]. cbn [hex hex_decode].
  change (Z.land b 15) with (Z.land b (Z.ones 4)). rewrite Z.shiftr_div_pow2, Z.land_ones by lia.
  rewrite !hex_char_val by (Z.to_euclidean_division_equations; lia). cbn [mbind option_bind].
  destruct (hex_decode (hex l)) as [r|]; [|done]. cbn in *. injection IH as ->. f_equal. f_equal.
  unfold ord. rewrite N_ascii_embedding by (Z.to_euclidean_division_equations; lia). Z.to_euclidean_division_equations; lia.
Qed.

Lemma demoHex58_text : @Base58Text demoHex58.
Proof.
  assert (∀ c n, hex_val c = Some n → plain_char c = true) as Hc.
  { intros c. destruct c as [[] [] [] [] [] [] [] []]; intros n Hn; (reflexivity || discriminate Hn). }
  split. intros s l. cbn. destruct (hex_decode s) as [r|] eqn:E; [|done]. intros _. revert r E.
  assert (∀ n s, (slen s ≤ n)%nat → ∀ r, hex_decode s = Some r → plain s = true) as H; [|by intros r; apply (H (slen s))].
  clear s l. induction n as [|n IH]; intros [|a [|b s]] Hl r Hr; cbn in Hl; try lia; try done.
  cbn in Hr. destruct (hex_val a) eqn:Ea; [|done]. destruct (hex_val b) eqn:Eb; [|done]. cbn in Hr.
  destruct (hex_decode s) as [r'|] eqn:Es; [|done]. unfold plain. cbn. rewrite (Hc _ _ Ea), (Hc _ _ Eb). apply (IH s ltac:(lia) r' Es).
Qed.

#[local] Existing Instances demoHex58 demoHex58_laws demoHex58_text demoFolding.
Definition demoKeyFile : string := "data/signer.key".
Definition demoCurrent : Signer := mkSigner (demoKey 1) (hex (replicate 32 1)) [] [].
Definition demoText : string := marshal_keyring (file_of demoCurrent) +:+ newline.
Definition demoDisk : FS :=
  mkFS {[0%nat := mkInode demoText true]} [{[demoKeyFile := 0%nat]}] 1 "1" None (demoKey 2).
Definition demoRotated : option (res string * FS) := run (rotate_file demoKeyFile) demoDisk.

Lemma demoDisk_holds : holds_always demoKeyFile (there (fun raw => parseSignerFile raw = Ok demoCurrent)) demoDisk.
Proof.
  split_and!; [done| |].
  - intros i [n Hn]. unfold demoDisk in Hn. cbn [fs_inodes] in Hn. apply lookup_singleton_Some in Hn as [<- _]. apply Nat.lt_0_1.
  - intros d ->%list_elem_of_singleton. unfold held. rewrite lookup_singleton_eq. exists (mkInode demoText true).
    split; [apply lookup_singleton_eq|]. split; [reflexivity|vm_compute; reflexivity].
Qed.

Lemma rotation_survives_witness :
  ∃ s1, (∃ raw next, read s1 demoKeyFile = Some raw ∧ parseSignerFile raw = Ok next ∧
    sg_currentBase58 next = hex (replicate 32 2) ∧ sg_retiredBase58 next = [hex (replicate 32 1)]) ∧
    ∀ s2, survives s1 s2 → there (trusts_on demoCurrent) (read s2 demoKeyFile).
Proof.
  destruct demoRotated as [[r s1]|] eqn:Hr; [|exfalso; revert Hr; vm_compute; discriminate]. exists s1.
  destruct (rotation_survives demoKeyFile demoCurrent demoDisk s1 demoDisk_holds (run_runs_to _ _ _ _ Hr)) as (_ & H2 & H3).
  split; [|exact H2]. assert (fst <$> demoRotated = Some (Ok (hex (replicate 32 2)))) as E by (vm_compute; reflexivity).
  rewrite Hr in E. apply (inj Some) in E. cbn [fst] in E. rewrite E in Hr. destruct (H3 _ _ Hr) as (raw & next & A & B & C & D).
  exists raw, next. split; [exact A|]. split; [exact B|]. split; [exact C|exact D].
Defined.
