(* ===== verification/Trade.v ===== *)
(** * [internal/trade]: the trade service

    [trade.go], and the parts of [settlement.go] it calls.  Every exported
    operation is a program over [World]: the store calls it makes, in order,
    with its guards and early returns between them.  The spending-cap check and
    the reservation that follows it in [Create] run under [reserveMu]. *)
From S2P Require Import Prelude Prog Money Domain Cluster Limits Tokens Settlement World Store Ledger.

Definition ErrNotParty : sentinel := "trade.ErrNotParty".
Definition ErrIllegalState : sentinel := "trade.ErrIllegalState".
Definition ErrOfferUnavailable : sentinel := "trade.ErrOfferUnavailable".
Definition ErrSettlementUnconfigured : sentinel := "trade.ErrSettlementUnconfigured".
Definition ErrOnchainUnavailable : sentinel := "trade.ErrOnchainUnavailable".
Definition ErrModeNotAccepted : sentinel := "trade.ErrModeNotAccepted".
Definition ErrAgentUnavailable : sentinel := "trade.ErrAgentUnavailable".
Definition ErrNoCardPublished : sentinel := "trade.ErrNoCardPublished".
Definition ErrMintUngoverned : sentinel := "trade.ErrMintUngoverned".
Definition ErrSpendCapExceeded : sentinel := "trade.ErrSpendCapExceeded".
Definition ErrNotExpiredYet : sentinel := "trade.ErrNotExpiredYet".
Definition ErrMintUnpriced : sentinel := "trade.ErrMintUnpriced".
Definition ErrSettlementLive : sentinel := "trade.ErrSettlementLive".

(** ** The state machine *)
Definition transitions (from to : TradeState) : option TradeEventType :=
  match from, to with
  | TradeProposed, TradeNegotiating => Some EventNegotiating
  | TradeProposed, TradeCancelled => Some EventCancelled
  | TradeNegotiating, TradeAccepted => Some EventAccepted
  | TradeNegotiating, TradeCancelled => Some EventCancelled
  | TradeAccepted, TradeSettlementPending => Some EventSettlementPending
  | TradeAccepted, TradeRecorded => Some EventRecorded
  | TradeAccepted, TradeDisputed => Some EventDisputed
  | TradeAccepted, TradeCancelled => Some EventCancelled
  | TradeSettlementPending, TradeSettled => Some EventSettled
  | TradeSettlementPending, TradeDisputed => Some EventDisputed
  | TradeSettlementPending, TradeCancelled => Some EventCancelled
  | TradeDisputed, TradeResolved => Some EventResolved
  | _, _ => None
  end.

Definition canTransition (from to : TradeState) : option TradeEventType := transitions from to.

(** ** Configuration *)
Record ConfirmPolicy := mkConfirmPolicy {
  cp_Attempts : Z; cp_Backoff : duration; cp_MaxDelay : duration }.

(** The wired on-chain capabilities.  [sd_Genesis], [sd_Mints] and
    [sd_TradeList] say whether the optional readers are present. *)
Record SettlementDeps := mkSettlementDeps {
  sd_Registry : Registry; sd_Policy : FeePolicy; sd_Cluster : Cluster;
  sd_Genesis : bool; sd_Mints : bool; sd_TradeList : bool;
  sd_Confirm : ConfirmPolicy; sd_BlockhashTTL : duration }.

(** [sv_settlement] is [None] when nothing is wired; [sv_limitsStore] says
    whether [WithLimits] was given a store. *)
Record Service := mkService {
  sv_limits : option Policy; sv_limitsStore : bool;
  sv_acceptTTL : duration; sv_openTTL : duration;
  sv_signer : Signer; sv_settlement : option SettlementDeps }.

Definition Enabled (sv : Service) : option SettlementDeps :=
  match sv_settlement sv with
  | Some d => if String.eqb (sd_Cluster d) "" then None else Some d
  | None => None
  end.

(** ** Event details: the JSON objects *)
Definition reasonDetail (reason : string) : option json :=
  if String.eqb reason "" then None else Some [("reason", JString reason)].
Definition resolutionDetail (outcome : Resolution) (reason : string) : option json :=
  Some [("outcome", JString outcome); ("reason", JString reason)].
Definition acceptanceDetail (t : Trade) : option json := Some [("acceptedBy", JStrings (tr_Acceptances t))].

Section Service.
Context `{Unicode} `{Solana} `{JWT} (sv : Service).

(** ** settlement.go: what the trade operations need *)
Definition CheckCluster : io World unit :=
  match Enabled sv with
  | None => fail [ErrSettlementUnconfigured]
  | Some d =>
      if negb (sd_Genesis d) then ok tt
      else on_result GetGenesisHash (fun r =>
        match r with
        | Err _ => fail [ErrOnchainUnavailable]
        | Ok hash => lift (rewrap ErrOnchainUnavailable (Cluster.Verify (sd_Cluster d) hash))
        end)
  end.

Definition requireSettlement : io World unit :=
  match Enabled sv with None => fail [ErrSettlementUnconfigured] | Some _ => CheckCluster end.

Definition liveSettlement (tradeID : string) : io World bool :=
  match Enabled sv with
  | None => ok false
  | Some _ =>
      at_ <~ now;;
      on_result (LiveSettlementRequest tradeID at_) (fun r =>
        match r with
        | Ok _ => ok true
        | Err e => if errorIs e ErrNotFound then ok false else fail e
        end)
  end.

Definition checkSettleable (buyer seller mint : string) : io World unit :=
  match sv_settlement sv with
  | None => ok tt
  | Some d =>
      _ <~ lift (rewrap ErrMintUngoverned (Tokens.Enabled (sd_Registry d) mint));;
      _ <~ refuse (bool_decide (pk_parse buyer = None)) [ErrModeNotAccepted];;
      refuse (bool_decide (pk_parse seller = None)) [ErrModeNotAccepted]
  end.

(** ** Spending caps *)
Definition effective (p : Policy) (agentID : string) : io World Limits :=
  if sv_limitsStore sv then
    on_result (GetAgentLimits agentID) (fun r =>
      match r with
      | Ok stored => ok (Effective p (Some (al_PerTradeUSD stored, al_PerDayUSD stored)))
      | Err _ => ok (Effective p None)
      end)
  else ok (Effective p None).

(** The error of a failed pricing, as [checkSpend] reports it. *)
Definition price_err {A} (r : res A) : res A :=
  match r with
  | Ok a => Ok a
  | Err e => if errorIs e ErrNoRate then Err [ErrMintUnpriced] else Err e
  end.

(** [committed += rowValue] over the rows, refusing on overflow. *)
Fixpoint add_rows (prices : PriceCache) (committed : Z) (rows : list SpendRow) : res Z :=
  match rows with
  | [] => Ok committed
  | row :: rest =>
      let '(r, prices') := PriceCache_USDValue prices (sp_Amount row) (sp_Mint row) in
      rowValue ← price_err r;
      let total := wrap64 (committed + rowValue) in
      if total <? rowValue then Err [ErrSpendCapExceeded] else add_rows prices' total rest
  end.

Definition committedSpend (buyer : string) (window : duration) (exclude : string) : io World (list SpendRow) :=
  if sv_limitsStore sv then
    at_ <~ now;;
    CommittedSpendSince buyer (at_ - window) exclude
  else ok [].

Definition checkSpend (buyer : string) (amount : Amount) (mint : string) (exclude : string) : io World unit :=
  match sv_limits sv with
  | None => ok tt
  | Some policy =>
      eff <~ effective policy buyer;;
      let '(r, prices) := PriceCache_USDValue (NewPriceCache policy) amount mint in
      value <~ lift (price_err r);;
      perTradeCap <~ lift (CapMicro (lim_PerTrade eff));;
      _ <~ refuse (value >? perTradeCap) [ErrSpendCapExceeded];;
      rows <~ committedSpend buyer (Window policy) exclude;;
      committed <~ lift (add_rows prices value rows);;
      perDayCap <~ lift (CapMicro (lim_PerDay eff));;
      refuse (committed >? perDayCap) [ErrSpendCapExceeded]
  end.

Definition CommittedSpendUSD (buyer : string) : io World Z :=
  match sv_limits sv with
  | None => ok 0
  | Some policy =>
      rows <~ committedSpend buyer (Window policy) "";;
      lift (add_rows (NewPriceCache policy) 0 rows)
  end.

Definition EffectiveLimits (agentID : string) : io World Limits :=
  match sv_limits sv with None => fail [] | Some p => effective p agentID end.

Definition RaiseLimits (agentID : string) (perTrade perDay : Amount) : io World Limits :=
  match sv_limits sv with
  | None => fail []
  | Some policy =>
      if negb (sv_limitsStore sv) then fail []
      else
        let perTrade' := if IsZero perTrade || (Cmp perTrade (PerTrade policy) <? 0) then PerTrade policy else perTrade in
        let perDay' := if IsZero perDay || (Cmp perDay (PerDay policy) <? 0) then PerDay policy else perDay in
        _ <~ lift (Policy_Check policy perTrade' perDay');;
        at_ <~ now;;
        _ <~ SetAgentLimits (mkAgentLimits agentID perTrade' perDay' at_);;
        effective policy agentID
  end.

(** ** State changes *)
Definition appendEvent (tradeID actorID : string) (eventType : TradeEventType)
    (from : option TradeState) (to : TradeState) (detail : option json) : io World unit :=
  at_ <~ now;;
  _ <~ AppendTradeEvent (mkTradeEvent 0 tradeID actorID eventType from to detail at_);;
  ok tt.

Definition applyAs (tr : Trade) (actorID : string) (to : TradeState) (detail : option json)
    (event : option TradeEventType) : io World Trade :=
  match canTransition (tr_State tr) to with
  | None => fail [ErrIllegalState]
  | Some kind =>
      at_ <~ now;;
      changed <~ SetTradeState (tr_ID tr) (tr_State tr) to at_;;
      if negb changed then GetTrade (tr_ID tr)
      else
        _ <~ appendEvent (tr_ID tr) actorID (default kind event) (Some (tr_State tr)) to detail;;
        GetTrade (tr_ID tr)
  end.

Definition apply (tr : Trade) (actorID : string) (to : TradeState) (detail : option json) : io World Trade :=
  applyAs tr actorID to detail None.

Definition partyTrade (actorID tradeID : string) : io World Trade :=
  tr <~ GetTrade tradeID;;
  _ <~ refuse (negb (Party tr actorID)) [ErrNotParty];;
  ok tr.

Definition transition (actorID tradeID : string) (from to : TradeState) (detail : option json) : io World Trade :=
  tr <~ partyTrade actorID tradeID;;
  if bool_decide (tr_State tr = to) then ok tr
  else if negb (bool_decide (tr_State tr = from)) then fail [ErrIllegalState]
  else apply tr actorID to detail.

(** ** Deadlines *)
Definition acceptanceDeadline (tr : Trade) : io World time :=
  if (sv_acceptTTL sv <=? 0) || negb (bool_decide (tr_State tr = TradeAccepted)) then ok zeroTime
  else
    found <~ TradeAcceptance (tr_ID tr);;
    match found with None => ok zeroTime | Some acceptedAt => ok (acceptedAt + sv_acceptTTL sv) end.

Definition Expired (tr : Trade) : io World bool :=
  deadline <~ acceptanceDeadline tr;;
  if time_IsZero deadline then ok false
  else at_ <~ now;; ok (negb (before at_ deadline)).

(** One trade of a sweep: [applyAs] to cancelled, a lost race skipped. *)
Definition sweep_one (expired : Z) (tr : Trade) (reason : string) : io World Z :=
  on_result (applyAs tr "" TradeCancelled (reasonDetail reason) (Some EventExpired)) (fun r =>
    match r with
    | Ok _ => ok (expired + 1)
    | Err e => if errorIs e ErrIllegalState then ok expired else fail e
    end).

Definition acceptance_reason : string := "the acceptance deadline passed before this trade was committed".
Definition open_reason : string := "the open-trade deadline passed before anyone answered this trade".

Definition ExpireAccepted (limit : Z) : io World Z :=
  if sv_acceptTTL sv <=? 0 then ok 0
  else
    deadline <~ now;;
    trades <~ AcceptedBefore deadline limit;;
    io_fold (fun expired tr =>
      past <~ Expired tr;;
      if negb past || negb (bool_decide (tr_State tr = TradeAccepted)) then ok expired
      else sweep_one expired tr acceptance_reason) 0 trades.

Definition ExpireOpen (limit : Z) : io World Z :=
  if sv_openTTL sv <=? 0 then ok 0
  else
    at_ <~ now;;
    let cutoff := at_ - sv_openTTL sv in
    trades <~ OpenTradesBefore cutoff limit;;
    io_fold (fun expired tr =>
      if negb (bool_decide (tr_State tr = TradeProposed)) && negb (bool_decide (tr_State tr = TradeNegotiating))
      then ok expired
      else if after (tr_UpdatedAt tr) cutoff then ok expired
      else sweep_one expired tr open_reason) 0 trades.

(** ** Create *)
Definition check_party (actorID party : string) : io World unit :=
  on_result (GetAgent party) (fun r =>
    match r with
    | Err e => if errorIs e ErrNotFound && String.eqb party actorID then fail [ErrNoCardPublished] else fail e
    | Ok agent => refuse (negb (String.eqb (agent_Status agent) AgentActive)) [ErrAgentUnavailable]
    end).

(** The insert, its event and the returned trade. *)
Definition reserve (actorID buyer seller : string) (offer : Offer) (mode : SettlementMode)
    (idempotencyKey : string) : io World (Trade * bool) :=
  at_ <~ now;;
  id <~ NewString;;
  let tr := mkTrade id (offer_ID offer) buyer seller (offer_Description offer) (offer_PriceAmount offer)
    (offer_PriceMint offer) mode TradeProposed "" at_ at_ [] [] in
  _ <~ CreateTrade tr idempotencyKey;;
  _ <~ appendEvent id actorID EventProposed None TradeProposed None;;
  ok (tr, true).

(** [mu.Lock(); defer mu.Unlock()] around the rest of a function. *)
Definition locked {A} (body : io World A) : io World A :=
  _ <~ lock;;
  on_result body (fun r => on_result unlock (fun _ => lift r)).

Definition create_new (actorID offerID : string) (mode : SettlementMode) (idempotencyKey : string)
    : io World (Trade * bool) :=
  offer <~ GetOffer offerID;;
  _ <~ refuse (negb (String.eqb (offer_Status offer) OfferOpen)) [ErrOfferUnavailable];;
  _ <~ refuse (negb (AcceptsMode offer mode)) [ErrModeNotAccepted];;
  _ <~ refuse (String.eqb (offer_AgentID offer) actorID) [ErrOfferUnavailable];;
  let '(buyer, seller) :=
    if String.eqb (offer_Direction offer) DirectionBid
    then (offer_AgentID offer, actorID) else (actorID, offer_AgentID offer) in
  _ <~ check_party actorID buyer;;
  _ <~ check_party actorID seller;;
  _ <~ (if String.eqb mode SettlementOnchain
        then checkSettleable buyer seller (offer_PriceMint offer) else ok tt);;
  match sv_limits sv with
  | None => reserve actorID buyer seller offer mode idempotencyKey
  | Some _ =>
      locked (
        _ <~ checkSpend buyer (offer_PriceAmount offer) (offer_PriceMint offer) "";;
        reserve actorID buyer seller offer mode idempotencyKey)
  end.

Definition Create (actorID offerID : string) (mode0 : SettlementMode) (idempotencyKey : string)
    : io World (Trade * bool) :=
  let mode := if String.eqb mode0 "" then SettlementOffchain else mode0 in
  _ <~ refuse (negb (SettlementMode_Valid mode)) [ErrModeNotAccepted];;
  _ <~ (if String.eqb mode SettlementOnchain then requireSettlement else ok tt);;
  if String.eqb idempotencyKey "" then create_new actorID offerID mode idempotencyKey
  else on_result (GetTradeByIdempotencyKey idempotencyKey) (fun r =>
    match r with
    | Ok existing => ok (existing, false)
    | Err e => if errorIs e ErrNotFound then create_new actorID offerID mode idempotencyKey else fail e
    end).

(** ** The parties' operations *)
Definition BeginNegotiation (actorID tradeID : string) : io World Trade :=
  transition actorID tradeID TradeProposed TradeNegotiating None.

Definition Cancel (actorID tradeID reason : string) : io World Trade :=
  tr <~ partyTrade actorID tradeID;;
  if bool_decide (tr_State tr = TradeCancelled) then ok tr
  else
    live <~ liveSettlement tradeID;;
    _ <~ refuse live [ErrSettlementLive];;
    _ <~ (if bool_decide (tr_State tr = TradeAccepted) then
            deadline <~ acceptanceDeadline tr;;
            _ <~ refuse (time_IsZero deadline) [ErrIllegalState];;
            at_ <~ now;;
            refuse (before at_ deadline) [ErrNotExpiredYet]
          else ok tt);;
    apply tr actorID TradeCancelled (reasonDetail reason).

Definition Dispute (actorID tradeID reason : string) : io World Trade :=
  tr <~ partyTrade actorID tradeID;;
  if bool_decide (tr_State tr = TradeDisputed) then ok tr
  else apply tr actorID TradeDisputed (reasonDetail reason).

Definition Resolve (operatorID tradeID : string) (outcome : Resolution) (reason : string) : io World Trade :=
  _ <~ refuse (negb (Resolution_Valid outcome)) [ErrInvalid];;
  tr <~ GetTrade tradeID;;
  if bool_decide (tr_State tr = TradeResolved) then ok tr
  else if negb (bool_decide (tr_State tr = TradeDisputed)) then fail [ErrIllegalState]
  else applyAs tr operatorID TradeResolved (resolutionDetail outcome reason) (Some EventResolved).

Definition Accept (actorID tradeID : string) : io World Trade :=
  tr <~ partyTrade actorID tradeID;;
  if bool_decide (tr_State tr = TradeAccepted) || bool_decide (tr_State tr = TradeRecorded) then ok tr
  else if negb (bool_decide (tr_State tr = TradeNegotiating)) then fail [ErrIllegalState]
  else
    at_ <~ now;;
    inserted <~ AddTradeAcceptance tradeID actorID at_;;
    if negb inserted then GetTrade tradeID
    else
      updated <~ GetTrade tradeID;;
      if (length (tr_Acceptances updated) <? 2)%nat then ok updated
      else apply updated actorID TradeAccepted (acceptanceDetail updated).

Definition Record_trade (actorID tradeID : string) : io World (Trade * Receipt) :=
  tr <~ partyTrade actorID tradeID;;
  if bool_decide (tr_State tr = TradeRecorded)
  then receipt <~ Receipt_ tradeID;; ok (tr, receipt)
  else
    _ <~ checkSpend (tr_Buyer tr) (tr_Amount tr) (tr_Mint tr) (tr_ID tr);;
    recorded <~ apply tr actorID TradeRecorded None;;
    receipt <~ Record_ (sv_signer sv) recorded "" "";;
    at_ <~ now;;
    _ <~ SetOfferStatus (tr_OfferID recorded) OfferClosed at_;;
    ok (recorded, receipt).

Definition Get (actorID tradeID : string) : io World Trade :=
  tr <~ partyTrade actorID tradeID;;
  evs <~ ListTradeEvents tradeID;;
  ok (with_trade_events tr evs).

Definition Tessera (actorID tradeID : string) : io World Receipt :=
  _ <~ partyTrade actorID tradeID;;
  Receipt_ tradeID.

Definition AdminTrade (tradeID : string) : io World Trade :=
  tr <~ GetTrade tradeID;;
  evs <~ ListTradeEvents tradeID;;
  ok (with_trade_events tr evs).
End Service.
