(* ===== verification/TradeSettlement.v ===== *)
(** * [internal/trade]: on-chain settlement and reconciliation

    [settlement.go] and [reconcile.go] of the trade package, with
    [settlement.Builder.Build].  Building a request, confirming a signature and
    the background reconciler are programs over [World]; both of the last two
    reach a verdict through [settleFetched]. *)
From S2P Require Import Prelude Prog Money Domain Cluster Limits Tokens Settlement World Store Ledger Trade Json.

Definition ErrNotBuyer : sentinel := "trade.ErrNotBuyer".
Definition ErrNotOnchain : sentinel := "trade.ErrNotOnchain".
Definition ErrSettlementPending : sentinel := "trade.ErrSettlementPending".
Definition ErrSettlementFailed : sentinel := "trade.ErrSettlementFailed".
Definition ErrInvalidSignature : sentinel := "trade.ErrInvalidSignature".
Definition ErrClusterMismatch : sentinel := "trade.ErrClusterMismatch".
Definition ErrMintUnverified : sentinel := "settlement.ErrMintUnverified".
Definition ErrMintUnreachable : sentinel := "settlement.ErrMintUnreachable".

(** ** Confirm policy *)
Definition DefaultConfirmPolicy : ConfirmPolicy := mkConfirmPolicy 3 500000000 (2 * second).
Definition attempts (p : ConfirmPolicy) : Z := if cp_Attempts p <? 1 then 1 else cp_Attempts p.

(** [for i := 1; i < attempt && delay > 0; i++ { delay *= 2 }] *)
Fixpoint double (n : nat) (delay : duration) : duration :=
  match n with
  | O => delay
  | S n' => if delay >? 0 then double n' (int64 (delay * 2)) else delay
  end.

Definition delayFor (p : ConfirmPolicy) (attempt : nat) : duration :=
  let delay := double (attempt - 1) (cp_Backoff p) in
  if (cp_MaxDelay p >? 0) && (delay >? cp_MaxDelay p) then cp_MaxDelay p else delay.

(** ** settlement/build.go *)
Record Build := mkBuild {
  b_Blockhash : string; b_LastValid : Z; b_UnsignedTx : string; b_SellerATA : string;
  b_BuyerATA : string; b_CreatedATA : bool; b_ExpiresAt : time; b_Unsigned : Transaction }.

Definition DefaultBlockhashTTL : duration := 90 * second.

Definition settlementDetail (b : Build) : option json :=
  Some [("blockhash", JString (b_Blockhash b)); ("blockhashTtl", JString "1m30s");
        ("createdAta", JBool (b_CreatedATA b)); ("lastValid", JNumber (b_LastValid b));
        ("unsignedTx", JString (b_UnsignedTx b))].
Definition confirmedDetail (signature : string) : option json := Some [("solanaSignature", JString signature)].
(** The reason is the verifier's error text, which is not modelled. *)
Definition disputeDetail (signature : string) : option json := Some [("solanaSignature", JString signature)].

(** ** reconcile.go: policy, outcomes, statistics *)
Record ReconcilePolicy := mkReconcilePolicy { rp_Interval : duration; rp_Batch : Z }.
Definition batch (p : ReconcilePolicy) : Z := if rp_Batch p <? 1 then 1 else rp_Batch p.

Inductive reconcileOutcome :=
  | reconcilePending | reconcileSettled | reconcileDisputed | reconcileExpired
  | reconcileExpiredClusterMismatch.

Record ReconcileStats := mkStats {
  st_Examined : Z; st_Settled : Z; st_Disputed : Z; st_Expired : Z; st_Pending : Z;
  st_ExpiredClusterMismatch : Z }.

Definition count (s : ReconcileStats) (o : reconcileOutcome) : ReconcileStats :=
  let 'mkStats e se d ex p m := s in
  match o with
  | reconcileSettled => mkStats e (se + 1) d ex p m
  | reconcileDisputed => mkStats e se (d + 1) ex p m
  | reconcileExpired => mkStats e se d (ex + 1) p m
  | reconcileExpiredClusterMismatch => mkStats e se d (ex + 1) p (m + 1)
  | reconcilePending => mkStats e se d ex (p + 1) m
  end.

Definition examine (s : ReconcileStats) : ReconcileStats :=
  mkStats (st_Examined s + 1) (st_Settled s) (st_Disputed s) (st_Expired s) (st_Pending s)
    (st_ExpiredClusterMismatch s).

Definition latestSignedRequest (requests : list SettlementRequest) : option SettlementRequest :=
  last (List.filter (fun r => negb (String.eqb (sr_Signature r) "")) requests).
Definition latestRequest (requests : list SettlementRequest) : option SettlementRequest := last requests.

Section TradeSettlement.
Context `{Unicode} `{Solana} `{JWT} (sv : Service).

Definition Build_ (d : SettlementDeps) (t : Terms) : io World Build :=
  sellerATA <~ lift (SellerATA t);;
  buyerATA <~ lift (BuyerATA t);;
  sellerATAExists <~ AccountExists sellerATA;;
  instructions <~ lift (expectedInstructions t sellerATAExists);;
  ' (blockhash, lastValid) <~ LatestBlockhash;;
  built <~ lift (assemble instructions blockhash (te_Buyer t));;
  raw <~ lift (sol_marshal built);;
  at_ <~ now;;
  ok (mkBuild blockhash lastValid (base64 raw) (pk_print sellerATA) (pk_print buyerATA)
        (negb sellerATAExists) (at_ + sd_BlockhashTTL d) built).

Definition verifyMint (d : SettlementDeps) (address : string) : io World unit :=
  if negb (sd_Mints d) then ok tt
  else match Tokens.Enabled (sd_Registry d) address with
  | Err _ => fail [ErrMintUngoverned]
  | Ok mint =>
      on_result (MintVerify mint) (fun r =>
        match r with
        | Ok _ => ok tt
        | Err e =>
            if errorIs e ErrMintUnverified then fail [ErrMintUngoverned]
            else if errorIs e ErrMintUnreachable then fail [ErrOnchainUnavailable]
            else fail e
        end)
  end.

(** The capabilities, once [requireSettlement] has passed. *)
Definition deps {A} (k : SettlementDeps → io World A) : io World A :=
  match Enabled sv with None => fail [ErrSettlementUnconfigured] | Some d => k d end.

Definition SettlementRequestFor (actorID tradeID : string) : io World SettlementRequest :=
  _ <~ partyTrade actorID tradeID;;
  _ <~ requireSettlement sv;;
  GetSettlementRequest tradeID.

Definition settling (s : TradeState) : bool :=
  bool_decide (s = TradeAccepted) || bool_decide (s = TradeSettlementPending).

Definition BuildSettlement (actorID tradeID : string) : io World SettlementRequest :=
  tr <~ partyTrade actorID tradeID;;
  _ <~ requireSettlement sv;;
  _ <~ refuse (negb (String.eqb (tr_Buyer tr) actorID)) [ErrNotBuyer];;
  _ <~ refuse (negb (String.eqb (tr_Mode tr) SettlementOnchain)) [ErrNotOnchain];;
  _ <~ refuse (negb (settling (tr_State tr))) [ErrIllegalState];;
  _ <~ checkSpend sv (tr_Buyer tr) (tr_Amount tr) (tr_Mint tr) (tr_ID tr);;
  deps (fun d =>
    terms <~ lift (NewTerms tr (sd_Registry d) (sd_Policy d));;
    _ <~ verifyMint d (tr_Mint tr);;
    built <~ Build_ d terms;;
    at_ <~ now;;
    id <~ NewString;;
    request <~ CreateSettlementRequest (mkSettlementRequest id (tr_ID tr) (b_UnsignedTx built)
      (b_Blockhash built) (b_LastValid built) (b_BuyerATA built) (b_SellerATA built)
      (b_CreatedATA built) (fee_lamports (sd_Policy d)) (pk_print (fee_wallet (sd_Policy d)))
      SettlementIssued "" (sd_Cluster d) at_ at_ (b_ExpiresAt built));;
    _ <~ (if bool_decide (tr_State tr = TradeAccepted)
          then _ <~ apply tr actorID TradeSettlementPending (settlementDetail built);; ok tt
          else ok tt);;
    ok request).

(** [s.sleep]: a timer, which a cancelled context interrupts. *)
Definition sleep (d : duration) : io World unit :=
  if d <=? 0 then ok tt else Atomic (fun w => Some (Ok tt, w)) (Some (Err [EIO])) Ret.

Fixpoint await (p : ConfirmPolicy) (left : nat) (attempt : nat) (sig : string) : io World Fetched :=
  match left with
  | O => fail [ErrSettlementPending]
  | S left' =>
      on_result (ChainTransaction sig) (fun r =>
        match r with
        | Ok fetched => ok fetched
        | Err e =>
            if negb (errorIs e ErrTransactionNotFound) then fail e
            else match left' with
                 | O => fail [ErrSettlementPending]
                 | S _ => _ <~ sleep (delayFor p attempt);; await p left' (S attempt) sig
                 end
        end)
  end.

Definition awaitTransaction (d : SettlementDeps) (sig : string) : io World Fetched :=
  await (sd_Confirm d) (Z.to_nat (attempts (sd_Confirm d))) 1 sig.

Definition checkRequestCluster (d : SettlementDeps) (requests : list SettlementRequest)
    (currentID : string) : res unit :=
  if String.eqb (sd_Cluster d) "" then Ok tt
  else if String.eqb currentID "" then Ok tt
  else match find (fun r => String.eqb (sr_ID r) currentID) requests with
  | None => Ok tt
  | Some request =>
      if String.eqb (sr_Cluster request) PrePhase3Cluster then Err [ErrClusterMismatch]
      else if negb (String.eqb (sr_Cluster request) (sd_Cluster d)) then Err [ErrClusterMismatch]
      else Ok tt
  end.

Definition confirmRequests (requests : list SettlementRequest) (currentID signature : string)
    (at_ : time) : io World unit :=
  if String.eqb currentID "" then ok tt
  else match find (fun r => String.eqb (sr_ID r) currentID) requests with
  | None => ConfirmSettlementRequest currentID signature at_
  | Some request =>
      _ <~ ConfirmSettlementRequest (sr_ID request) signature at_;;
      if (1 <? length requests)%nat
      then match requests with r0 :: _ => ExpireSettlementRequests (sr_TradeID r0) at_ | [] => ok tt end
      else ok tt
  end.

Definition settleFetched (d : SettlementDeps) (tr : Trade) (requests : list SettlementRequest)
    (currentID : string) (sig : string) (fetched : Fetched) : io World (Trade * Receipt) :=
  let actor := tr_Buyer tr in
  _ <~ lift (checkRequestCluster d requests currentID);;
  if fe_ExecErr fetched then
    at_ <~ now;;
    _ <~ ExpireSettlementRequests (tr_ID tr) at_;;
    fail [ErrSettlementFailed]
  else
    terms <~ lift (NewTerms tr (sd_Registry d) (sd_Policy d));;
    match Settlement.Verify terms (fe_Transaction fetched) with
    | Err e =>
        if negb (errorIs e ErrMismatch) then fail e
        else
          _ <~ apply tr actor TradeDisputed (disputeDetail (sig_print sig));;
          fail e
    | Ok _ =>
        at_ <~ now;;
        _ <~ confirmRequests requests currentID (sig_print sig) at_;;
        settled <~ apply tr actor TradeSettled (confirmedDetail (sig_print sig));;
        receipt <~ Record_ (sv_signer sv) settled (sig_print sig) (sd_Cluster d);;
        at2 <~ now;;
        _ <~ SetOfferStatus (tr_OfferID settled) OfferClosed at2;;
        ok (settled, receipt)
    end.

(** Recording the reported signature, before the chain is consulted; returns
    the id of the request that now carries it. *)
Definition record_signature (d : SettlementDeps) (tradeID : string) (requests : list SettlementRequest)
    (sig : string) : io World string :=
  on_result (GetSettlementRequest tradeID) (fun r =>
    match r with
    | Ok request =>
        _ <~ lift (checkRequestCluster d requests (sr_ID request));;
        at_ <~ now;;
        _ <~ SetSettlementSignature (sr_ID request) (sig_print sig) at_;;
        ok (sr_ID request)
    | Err e => if errorIs e ErrNotFound then ok "" else fail e
    end).

Definition ConfirmSettlement (actorID tradeID signature : string) : io World (Trade * Receipt) :=
  tr <~ partyTrade actorID tradeID;;
  _ <~ requireSettlement sv;;
  _ <~ refuse (negb (String.eqb (tr_Mode tr) SettlementOnchain)) [ErrNotOnchain];;
  match sig_parse signature with
  | None => fail [ErrInvalidSignature]
  | Some sig =>
      match tr_State tr with
      | TradeSettled | TradeRecorded => receipt <~ Receipt_ tradeID;; ok (tr, receipt)
      | TradeSettlementPending =>
          deps (fun d =>
            requests <~ ListSettlementRequests tradeID;;
            currentID <~ record_signature d tradeID requests sig;;
            fetched <~ awaitTransaction d sig;;
            settleFetched d tr requests currentID sig fetched)
      | _ => fail [ErrIllegalState]
      end
  end.

(** ** The reconciler *)
Definition lapsed_reason : string := "the settlement transaction's blockhash lapsed before it landed".

Definition reconcileLapsed (tr : Trade) (at_ : time) : io World reconcileOutcome :=
  _ <~ ExpireSettlementRequests (tr_ID tr) at_;;
  on_result (applyAs tr "" TradeCancelled (reasonDetail lapsed_reason) (Some EventExpired)) (fun r =>
    match r with
    | Ok _ => ok reconcileExpired
    | Err e => if errorIs e ErrIllegalState then ok reconcilePending else fail e
    end).

(** Whether a request is still issued although its lifetime is over. *)
Definition lapsed (r : SettlementRequest) (at_ : time) : bool :=
  bool_decide (sr_Status r = SettlementIssued) && negb (before at_ (sr_ExpiresAt r)).

Definition reconcileTrade (d : SettlementDeps) (tr : Trade) : io World reconcileOutcome :=
  if negb (String.eqb (tr_Mode tr) SettlementOnchain) then ok reconcilePending
  else
    requests <~ ListSettlementRequests (tr_ID tr);;
    at_ <~ now;;
    match latestSignedRequest requests with
    | None =>
        match latestRequest requests with
        | Some l => if lapsed l at_ then reconcileLapsed tr at_ else ok reconcilePending
        | None => ok reconcilePending
        end
    | Some signed =>
        match checkRequestCluster d requests (sr_ID signed) with
        | Err e =>
            if negb (errorIs e ErrClusterMismatch) then fail e
            else _ <~ ExpireSettlementRequests (tr_ID tr) at_;; ok reconcileExpiredClusterMismatch
        | Ok _ =>
            match sig_parse (sr_Signature signed) with
            | None => fail []
            | Some sig =>
                on_result (ChainTransaction sig) (fun r =>
                  match r with
                  | Err e =>
                      if errorIs e ErrTransactionNotFound then
                        if lapsed signed at_ then reconcileLapsed tr at_ else ok reconcilePending
                      else fail e
                  | Ok fetched =>
                      on_result (settleFetched d tr requests (sr_ID signed) sig fetched) (fun r =>
                        match r with
                        | Ok _ => ok reconcileSettled
                        | Err e =>
                            if errorIs e ErrMismatch then ok reconcileDisputed
                            else if errorIs e ErrSettlementFailed then ok reconcileExpired
                            else if errorIs e ErrIllegalState then ok reconcilePending
                            else fail e
                        end)
                  end)
            end
        end
    end.

Definition ReconcileOutstanding (policy : ReconcilePolicy) : io World ReconcileStats :=
  match Enabled sv with
  | Some d =>
      if negb (sd_TradeList d && sd_Genesis d) then ok (mkStats 0 0 0 0 0 0)
      else
        trades <~ TradesInState TradeSettlementPending;;
        _ <~ CheckCluster sv;;
        io_fold (fun stats tr =>
          on_result (reconcileTrade d tr) (fun r =>
            match r with
            | Ok outcome => ok (count (examine stats) outcome)
            | Err _ => ok (examine stats)
            end)) (mkStats 0 0 0 0 0 0) (take (Z.to_nat (batch policy)) trades)
  | None => ok (mkStats 0 0 0 0 0 0)
  end.
End TradeSettlement.
