(* ===== verification/Mints.v ===== *)
(** * [settlement/mints.go]: mints checked again on use

    A settlement is only built for a mint that the node was seen to hold as the
    registry pins it, less than the TTL ago; buyers who ask at once share one
    request to the node.  The verifier's state is a world of its own: its maps and
    counter behind the mutex, the calls in progress, the clock and the node.  What
    the mutex protects is one action; the request to the node is two, its sending
    and its answer. *)
From S2P Require Import Prelude GoText Prog Money Domain Cluster Tokens Json Attest Probe Settlement Endpoint Agp Preflight World TradeSettlement.

Definition ErrAuthorityDrifted : sentinel := "settlement.ErrAuthorityDrifted".
(** [ctx.Err()] of a cancelled or expired context. *)
Definition ECancelled : sentinel := "context".
Definition DefaultMintVerificationTTL : duration := 30 * second.

Record observation := mkObservation { ob_mint : Mint; ob_drift : string; ob_fault : string; ob_at : time }.
Definition no_mint : Mint := mkMint 0 false None None.
Definition no_observation : observation := mkObservation no_mint "" "" zeroTime.
Definition holds (o : observation) : bool := String.eqb (ob_fault o) "".

(** What a call in progress answers to those who wait for it. *)
Definition answer_ : Type := res observation.

(** [mv_calls] maps a call to its answer once its channel is closed, [mv_next]
    names the next one.  Three histories, read by nothing: the requests the node
    has not answered yet, its answers, and the observations put in the cache, the
    latest first. *)
Record State := mkState {
  mv_cache : gmap string observation; mv_inflight : gmap string nat;
  mv_calls : gmap nat answer_; mv_next : nat; mv_driftCounter : Z; mv_drifts : list string;
  mv_now : time; mv_node : pubkey → res AccountInfo;
  mv_reading : gmap nat string; mv_replies : list (time * string * AccountInfo);
  mv_recorded : list (time * string * observation) }.

Definition with_maps (s : State) c i d h : State :=
  mkState c i (mv_calls s) (mv_next s) d (mv_drifts s) (mv_now s) (mv_node s) (mv_reading s) (mv_replies s) h.
Definition with_reading (s : State) r l : State :=
  mkState (mv_cache s) (mv_inflight s) (mv_calls s) (mv_next s) (mv_driftCounter s) (mv_drifts s) (mv_now s) (mv_node s) r l (mv_recorded s).
Definition with_calls (s : State) c : State :=
  mkState (mv_cache s) (mv_inflight s) c (mv_next s) (mv_driftCounter s) (mv_drifts s) (mv_now s) (mv_node s) (mv_reading s) (mv_replies s) (mv_recorded s).
Definition with_drifts (s : State) l : State :=
  mkState (mv_cache s) (mv_inflight s) (mv_calls s) (mv_next s) (mv_driftCounter s) l (mv_now s) (mv_node s) (mv_reading s) (mv_replies s) (mv_recorded s).
Definition with_new_call (s : State) i : State :=
  mkState (mv_cache s) i (mv_calls s) (S (mv_next s)) (mv_driftCounter s) (mv_drifts s) (mv_now s) (mv_node s) (mv_reading s) (mv_replies s) (mv_recorded s).

(** An action under the mutex, or of the clock. *)
Definition act {A} (f : State → A * State) : prog State A := Atomic (fun s => Some (f s)) None Ret.

Section Verifier.
Context `{IK : SolanaKeys} `{IM : MintDecoder}.
Context (cluster : Cluster) (ttl : duration).

Definition v_now : prog State time := act (fun s => (mv_now s, s)).

(** What the account says, as [fetch] judges it at [at_].  Of the decoder's error
    text only that there is one matters. *)
Definition judge (mint : Token) (at_ : time) (info : AccountInfo) : observation :=
  let fault f := mkObservation no_mint "" f at_ in
  if negb (ai_Exists info) then fault ("has no account on " +:+ cluster)
  else if negb (String.eqb (ai_Owner info) tokenProgramKey)
  then fault ("is owned by " +:+ pk_print (ai_Owner info) +:+ ", not " +:+ TokenProgram)
  else match DecodeMint (ai_Data info) with
  | Err _ => fault "decode mint account"
  | Ok decoded =>
      if negb (mint_IsInitialized decoded) then fault "is not initialized"
      else if negb (mint_Decimals decoded =? tok_Decimals mint)
      then fault ("reports " +:+ format_uint (mint_Decimals decoded) +:+ " decimals, governed set pins " +:+ int_text (tok_Decimals mint))
      else mkObservation decoded (AuthorityDrift mint decoded) "" at_
  end.

Definition mint_key (mint : Token) : string := cluster +:+ "/" +:+ tok_Address mint.

(** [GetAccountInfo] under a context that outlives the caller: [call] tells the
    request from the others. *)
Definition send (call : nat) (key : string) : prog State unit :=
  act (fun s => (tt, with_reading s (<[call := key]> (mv_reading s)) (mv_replies s))).
Definition receive (call : nat) (key : string) (addr : pubkey) : prog State (res AccountInfo) :=
  act (fun s => (mv_node s addr,
    with_reading s (delete call (mv_reading s))
      (match mv_node s addr with Ok info => (mv_now s, key, info) :: mv_replies s | Err _ => mv_replies s end))).

Definition fetch (call : nat) (mint : Token) : io State observation :=
  match pk_parse (tok_Address mint) with
  | None => ok (mkObservation no_mint "" "is not a Solana address" zeroTime)
  | Some addr =>
      prog_bind (fun _ => prog_bind (fun r =>
        match r with
        | Err _ => fail [ErrMintUnreachable]
        | Ok info => prog_bind (fun at_ => ok (judge mint at_ info)) v_now
        end) (receive call (mint_key mint) addr)) (send call (mint_key mint))
  end.

(** The first critical section: a fresh reading, a call to join, or a new call. *)
Inductive look := Fresh (o : observation) | Join (call : nat) | Lead (call : nat).
Definition decide_look (mint : Token) (now : time) (s : State) : look * State :=
  let key := mint_key mint in
  let join :=
    match mv_inflight s !! key with
    | Some call => (Join call, s)
    | None => (Lead (mv_next s), with_new_call s (<[key := mv_next s]> (mv_inflight s)))
    end in
  match mv_cache s !! key with
  | Some cached => if now - ob_at cached <? ttl then (Fresh cached, s) else join
  | None => join
  end.

(** Waiting on [call.done] or [ctx.Done()]. *)
Definition wait (call : nat) : prog State answer_ :=
  Atomic (fun s => match mv_calls s !! call with Some r => Some (r, s) | None => None end) (Some (Err [ECancelled])) Ret.

(** The second critical section. *)
Definition record_observation (key : string) (r : answer_) : prog State unit :=
  act (fun s => (tt, match r with
    | Ok obs => with_maps s (<[key := obs]> (mv_cache s)) (delete key (mv_inflight s))
                  (if String.eqb (ob_drift obs) "" then mv_driftCounter s else mv_driftCounter s + 1)
                  ((mv_now s, key, obs) :: mv_recorded s)
    | Err _ => with_maps s (mv_cache s) (delete key (mv_inflight s)) (mv_driftCounter s) (mv_recorded s)
    end)).

Definition onDrift (r : answer_) : prog State unit :=
  match r with
  | Ok obs => if String.eqb (ob_drift obs) "" then Ret tt
              else act (fun s => (tt, with_drifts s (ob_drift obs :: mv_drifts s)))
  | Err _ => Ret tt
  end.

Definition publish (call : nat) (r : answer_) : prog State unit :=
  act (fun s => (tt, with_calls s (<[call := r]> (mv_calls s)))).

(** [ctx.Err()] of the leader's own context. *)
Definition ctx_err : io State unit := Atomic (fun s => Some (Ok tt, s)) (Some (Err [ECancelled])) Ret.

Definition lead (mint : Token) (call : nat) : io State observation :=
  prog_bind (fun r =>
    prog_bind (fun _ => prog_bind (fun _ => prog_bind (fun _ =>
      prog_bind (fun c => match c with Err e => fail e | Ok _ => Ret r end) ctx_err)
      (publish call r)) (onDrift r)) (record_observation (mint_key mint) r))
  (fetch call mint).

Definition observe (mint : Token) : io State observation :=
  prog_bind (fun now => prog_bind (fun l =>
    match l with
    | Fresh cached => ok cached
    | Join call => wait call
    | Lead call => lead mint call
    end) (act (decide_look mint now))) v_now.

Definition mints_Verify (mint : Token) : io State unit :=
  obs <~ observe mint;;
  if negb (holds obs) then fail [ErrMintUnverified] else ok tt.

Definition AuthorityDrifts (s : State) : Z := mv_driftCounter s.
End Verifier.
