(* ===== verification/Flights.v ===== *)
(** * The mint verifier under concurrency

    [point] names where a request to the verifier stands and [code] is the program
    it still has to run, so a pool of requests is a list of points ([at_points]) and
    every step of the pool is a step of one of them ([point_step]).  [flights] is
    the invariant that ties the points to the maps: who leads the call of a key,
    who owes its waiters an answer, which requests the node has not answered. *)
From S2P Require Import Prelude GoText Prog Money Domain Cluster Tokens Json Attest Probe Settlement Endpoint Agp Preflight World TradeSettlement Mints.

Section Flights.
Context `{IK : SolanaKeys} `{IM : MintDecoder}.
Context (cluster : Cluster) (ttl : duration) (registry : gmap string Token).

(** The tokens asked about are those of one registry. *)
Definition governs (t : Token) : Prop := registry !! tok_Address t = Some t.
Definition request (p : prog State (res unit)) : Prop := ∃ t, governs t ∧ p = mints_Verify cluster ttl t.

(** The clock goes forward, the node changes at will, a crash forgets the maps. *)
Definition env_step (s s' : State) : Prop :=
  ∃ now node, mv_now s ≤ now ∧
    s' = mkState (mv_cache s) (mv_inflight s) (mv_calls s) (mv_next s) (mv_driftCounter s) (mv_drifts s) now node
           (mv_reading s) (mv_replies s) (mv_recorded s).
Definition restart (s : State) : State :=
  mkState ∅ ∅ ∅ (mv_next s) 0 [] (mv_now s) (mv_node s) ∅ (mv_replies s) (mv_recorded s).
Definition config : Type := State * list (prog State (res unit)).
Definition mint_step : config → config → Prop := step env_step restart request.

(** ** Points of a request *)
Inductive point :=
  | AtStart (t : Token)
  | AtLook (t : Token) (now : time)
  | AtSend (call : nat) (t : Token) (addr : pubkey)
  | AtReceive (call : nat) (t : Token) (addr : pubkey)
  | AtStamp (call : nat) (t : Token) (info : AccountInfo)
  | AtRecord (call : nat) (t : Token) (r : answer_)
  | AtDrift (call : nat) (t : Token) (obs : observation)
  | AtPublish (call : nat) (t : Token) (r : answer_)
  | AtContext (t : Token) (r : answer_)
  | AtWait (t : Token) (call : nat)
  | Answered (t : Token) (r : answer_).

Definition conclude (p : io State observation) : io State unit :=
  obs <~ p;; if negb (holds obs) then fail [ErrMintUnverified] else ok tt.

Definition after_publish (r : answer_) : io State observation :=
  prog_bind (fun c => match c with Err e => fail e | Ok _ => Ret r end) ctx_err.
Definition after_drift (call : nat) (r : answer_) : io State observation := prog_bind (fun _ => after_publish r) (publish call r).
Definition after_record (call : nat) (r : answer_) : io State observation := prog_bind (fun _ => after_drift call r) (onDrift r).
Definition after_fetch (call : nat) (t : Token) (r : answer_) : io State observation :=
  prog_bind (fun _ => after_record call r) (record_observation (mint_key cluster t) r).
Definition after_receive (call : nat) (t : Token) (r : res AccountInfo) : io State observation :=
  prog_bind (after_fetch call t)
    (match r with
     | Err _ => fail [ErrMintUnreachable]
     | Ok info => prog_bind (fun at_ => ok (judge cluster t at_ info)) v_now
     end).
Definition after_send (call : nat) (t : Token) (addr : pubkey) : io State observation :=
  prog_bind (after_receive call t) (receive call (mint_key cluster t) addr).
Definition after_look (t : Token) (l : look) : io State observation :=
  match l with Fresh cached => ok cached | Join call => wait call | Lead call => lead cluster t call end.

Definition code (p : point) : io State unit :=
  match p with
  | AtStart t => mints_Verify cluster ttl t
  | AtLook t now => conclude (prog_bind (after_look t) (act (decide_look cluster ttl t now)))
  | AtSend call t addr => conclude (prog_bind (fun _ => after_send call t addr) (send call (mint_key cluster t)))
  | AtReceive call t addr => conclude (after_send call t addr)
  | AtStamp call t info => conclude (after_receive call t (Ok info))
  | AtRecord call t r => conclude (after_fetch call t r)
  | AtDrift call t obs =>
      conclude (prog_bind (fun _ => after_drift call (Ok obs)) (act (fun s => (tt, with_drifts s (ob_drift obs :: mv_drifts s)))))
  | AtPublish call t r => conclude (after_drift call r)
  | AtContext t r => conclude (after_publish r)
  | AtWait t call => conclude (wait call)
  | Answered t r => conclude (Ret r)
  end.

Definition at_points (ps : list (prog State (res unit))) (pts : list point) : Prop := ps = map code pts.

Definition recorded_point (call : nat) (t : Token) (r : answer_) : point :=
  match r with Ok obs => if String.eqb (ob_drift obs) "" then AtPublish call t r else AtDrift call t obs | Err _ => AtPublish call t r end.
Definition led_point (call : nat) (t : Token) : point :=
  match pk_parse (tok_Address t) with
  | None => AtRecord call t (Ok (mkObservation no_mint "" "is not a Solana address" zeroTime))
  | Some addr => AtSend call t addr
  end.

(** One action of a request. *)
Definition point_step (p : point) (s : State) : option (point * State) :=
  let key t := mint_key cluster t in
  match p with
  | AtStart t => Some (AtLook t (mv_now s), s)
  | AtLook t now =>
      let '(l, s') := decide_look cluster ttl t now s in
      Some (match l with Fresh cached => Answered t (Ok cached) | Join call => AtWait t call | Lead call => led_point call t end, s')
  | AtSend call t addr => Some (AtReceive call t addr, with_reading s (<[call := key t]> (mv_reading s)) (mv_replies s))
  | AtReceive call t addr =>
      Some (match mv_node s addr with Ok info => AtStamp call t info | Err _ => AtRecord call t (Err [ErrMintUnreachable]) end,
            with_reading s (delete call (mv_reading s))
              (match mv_node s addr with Ok info => (mv_now s, key t, info) :: mv_replies s | Err _ => mv_replies s end))
  | AtStamp call t info => Some (AtRecord call t (Ok (judge cluster t (mv_now s) info)), s)
  | AtRecord call t r =>
      Some (recorded_point call t r, match r with
        | Ok obs => with_maps s (<[key t := obs]> (mv_cache s)) (delete (key t) (mv_inflight s))
                      (if String.eqb (ob_drift obs) "" then mv_driftCounter s else mv_driftCounter s + 1)
                      ((mv_now s, key t, obs) :: mv_recorded s)
        | Err _ => with_maps s (mv_cache s) (delete (key t) (mv_inflight s)) (mv_driftCounter s) (mv_recorded s)
        end)
  | AtDrift call t obs => Some (AtPublish call t (Ok obs), with_drifts s (ob_drift obs :: mv_drifts s))
  | AtPublish call t r => Some (AtContext t r, with_calls s (<[call := r]> (mv_calls s)))
  | AtContext t r => Some (Answered t r, s)
  | AtWait t call => match mv_calls s !! call with Some r => Some (Answered t r, s) | None => None end
  | Answered _ _ => None
  end.

Definition point_fail (p : point) : option point :=
  match p with
  | AtContext t _ | AtWait t _ => Some (Answered t (Err [ECancelled]))
  | _ => None
  end.

Lemma next_of_code p s : next_of (code p) s = (fun x => (code x.1, x.2)) <$> point_step p s.
Proof.
  destruct p as [t|t now|call t addr|call t addr|call t info|call t r|call t obs|call t r|t r|t call|t r]; try reflexivity.
  - cbn. destruct (decide_look cluster ttl t now s) as [l s']. cbn. f_equal. f_equal.
    destruct l as [o|call|call]; cbn; try done. unfold led_point, lead, fetch.
    destruct (pk_parse (tok_Address t)); reflexivity.
  - cbn. f_equal. f_equal. destruct (mv_node s addr); reflexivity.
  - cbn. f_equal. f_equal. destruct r as [obs|e]; [|done]. cbn. destruct (String.eqb (ob_drift obs) ""); reflexivity.
  - cbn. by destruct (mv_calls s !! call).
  - cbn. by destruct r as [o|e]; cbn; [destruct (holds o)|].
Qed.

Lemma failed_of_code p : failed_of (code p) = code <$> point_fail p.
Proof.
  destruct p as [t|t now|call t addr|call t addr|call t info|call t r|call t obs|call t r|t r|t call|t r]; try reflexivity.
  by destruct r as [o|e]; cbn; [destruct (holds o)|].
Qed.

(** ** Who leads a call, owes its waiters an answer, waits, asks the node *)
Definition leads (p : point) : option (nat * string) :=
  match p with
  | AtSend call t _ | AtReceive call t _ | AtStamp call t _ | AtRecord call t _ => Some (call, mint_key cluster t)
  | _ => None
  end.
Definition owes (p : point) : option nat :=
  match p with
  | AtSend call _ _ | AtReceive call _ _ | AtStamp call _ _ | AtRecord call _ _
  | AtDrift call _ _ | AtPublish call _ _ => Some call
  | _ => None
  end.
Definition waits (p : point) : option nat := match p with AtWait _ call => Some call | _ => None end.
Definition asks (p : point) : option (nat * string) :=
  match p with AtReceive call t _ => Some (call, mint_key cluster t) | _ => None end.

Record flights (s : State) (pts : list point) : Prop := mkFlights {
  fl_inflight : ∀ key id, mv_inflight s !! key = Some id ↔ ∃ i p, pts !! i = Some p ∧ leads p = Some (id, key);
  fl_owner : ∀ i j p q id, pts !! i = Some p → pts !! j = Some q → owes p = Some id → owes q = Some id → i = j;
  fl_open : ∀ i p id, pts !! i = Some p → owes p = Some id → (id < mv_next s)%nat ∧ mv_calls s !! id = None;
  fl_waits : ∀ i p id, pts !! i = Some p → waits p = Some id →
    is_Some (mv_calls s !! id) ∨ ∃ j q, pts !! j = Some q ∧ owes q = Some id;
  fl_calls : ∀ id, is_Some (mv_calls s !! id) → (id < mv_next s)%nat }.
(** The requests the node has not answered are those of the points that ask. *)
Definition reads (s : State) (pts : list point) : Prop :=
  ∀ id key, mv_reading s !! id = Some key ↔ ∃ i p, pts !! i = Some p ∧ asks p = Some (id, key).

Lemma leads_owes p id key : leads p = Some (id, key) → owes p = Some id.
Proof. by destruct p; cbn; intros [= <- <-]. Qed.
Lemma asks_leads p id key : asks p = Some (id, key) → leads p = Some (id, key).
Proof. by destruct p; cbn; intros [= <- <-]. Qed.

(** Some point of the pool after one of them has moved. *)
Lemma somewhere_insert (P : point → Prop) (pts : list point) (i : nat) p q : pts !! i = Some p →
  ((∃ (j : nat) x, <[i:=q]> pts !! j = Some x ∧ P x) ↔ P q ∨ ∃ (j : nat) x, j ≠ i ∧ pts !! j = Some x ∧ P x).
Proof.
  intros Hi. split.
  - intros (j & x & Hj & HP). apply list_lookup_insert_Some in Hj as [(-> & -> & _)|(Hn & Hj)]; [by left|right].
    by exists j, x.
  - intros [HP|(j & x & Hn & Hj & HP)].
    + exists i, q. split; [|done]. apply list_lookup_insert_eq. by eapply lookup_lt_Some.
    + exists j, x. split; [|done]. by rewrite list_lookup_insert_ne.
Qed.
Lemma somewhere_split (P : point → Prop) (pts : list point) (i : nat) p : pts !! i = Some p →
  ((∃ (j : nat) x, pts !! j = Some x ∧ P x) ↔ P p ∨ ∃ (j : nat) x, j ≠ i ∧ pts !! j = Some x ∧ P x).
Proof. intros Hi. rewrite <-(somewhere_insert P pts i p p Hi). by rewrite list_insert_id. Qed.

(** One call has one leader. *)
Lemma sole_leader s pts i j p q id id' key : flights s pts → pts !! i = Some p → pts !! j = Some q →
  leads p = Some (id, key) → leads q = Some (id', key) → i = j ∧ id = id'.
Proof.
  intros HI Hi Hj Hp Hq.
  assert (mv_inflight s !! key = Some id) as H1 by (apply (fl_inflight _ _ HI); by exists i, p).
  assert (mv_inflight s !! key = Some id') as H2 by (apply (fl_inflight _ _ HI); by exists j, q).
  rewrite H1 in H2. injection H2 as <-. split; [|done].
  eapply (fl_owner _ _ HI); [exact Hi|exact Hj| |]; by eapply leads_owes.
Qed.

(** A point that keeps what it owes, and waits for what somebody owes. *)
Lemma flights_quiet s s' pts i p q : flights s pts → pts !! i = Some p →
  leads q = leads p → owes q = owes p →
  (∀ id, waits q = Some id → waits p = Some id ∨ ∃ key, mv_inflight s !! key = Some id) →
  mv_inflight s' = mv_inflight s → mv_calls s' = mv_calls s → mv_next s' = mv_next s →
  flights s' (<[i := q]> pts).
Proof.
  intros HI Hi Hl Ho Hw E1 E2 E3. constructor; rewrite ?E1, ?E2, ?E3.
  - intros key id. rewrite (fl_inflight _ _ HI), (somewhere_split _ pts i p Hi), (somewhere_insert _ pts i p q Hi). by rewrite Hl.
  - intros j1 j2 p1 p2 id H1 H2 O1 O2.
    apply list_lookup_insert_Some in H1 as [(-> & -> & _)|(Hn1 & H1)]; apply list_lookup_insert_Some in H2 as [(-> & -> & _)|(Hn2 & H2)];
      rewrite ?Ho in *; [done|..]; by eapply (fl_owner _ _ HI).
  - intros j x id Hj Hx. apply list_lookup_insert_Some in Hj as [(-> & -> & _)|(Hn & Hj)].
    + rewrite Ho in Hx. by eapply (fl_open _ _ HI).
    + by eapply (fl_open _ _ HI).
  - intros j x id Hj Hx.
    assert (is_Some (mv_calls s !! id) ∨ ∃ j q, pts !! j = Some q ∧ owes q = Some id) as [H|H].
    { apply list_lookup_insert_Some in Hj as [(-> & -> & _)|(Hn & Hj)]; [|by eapply (fl_waits _ _ HI)].
      destruct (Hw id Hx) as [Hp|[key Hk]]; [by eapply (fl_waits _ _ HI)|right].
      apply (fl_inflight _ _ HI) in Hk as (k & y & Hk & Hy). exists k, y. split; [done|]. by eapply leads_owes. }
    + by left.
    + right. apply (somewhere_insert (fun x => owes x = Some id) pts i p q Hi). rewrite Ho.
      by apply (somewhere_split (fun x => owes x = Some id) pts i p Hi).
  - apply (fl_calls _ _ HI).
Qed.

(** The four moves that change the maps. *)
Lemma flights_lead s pts i t now q : flights s pts → pts !! i = Some (AtLook t now) →
  mv_inflight s !! mint_key cluster t = None →
  leads q = Some (mv_next s, mint_key cluster t) → waits q = None →
  flights (with_new_call s (<[mint_key cluster t := mv_next s]> (mv_inflight s))) (<[i := q]> pts).
Proof.
  intros HI Hi Hf Hl Hw. pose proof (leads_owes _ _ _ Hl) as Ho.
  assert (∀ j x, pts !! j = Some x → owes x ≠ Some (mv_next s)) as Hnew.
  { intros j x Hj Hx. destruct (fl_open _ _ HI _ _ _ Hj Hx). lia. }
  constructor; cbn.
  - intros key id. rewrite (somewhere_insert _ pts i _ q Hi), Hl. rewrite lookup_insert_Some, (fl_inflight _ _ HI). split.
    + intros [(<- & <-)|(Hn & H)]; [by left|right]. by apply (somewhere_split (fun x => leads x = Some (id, key)) pts i _ Hi) in H as [|].
    + intros [[= <- <-]|(j & x & Hn & Hj & Hx)]; [by left|right]. split; [|by exists j, x].
      intros <-. assert (mv_inflight s !! mint_key cluster t = Some id) by (apply (fl_inflight _ _ HI); by exists j, x). congruence.
  - intros j1 j2 p1 p2 id H1 H2 O1 O2.
    apply list_lookup_insert_Some in H1 as [(-> & -> & _)|(Hn1 & H1)]; apply list_lookup_insert_Some in H2 as [(-> & -> & _)|(Hn2 & H2)].
    + done.
    + rewrite Ho in O1. injection O1 as <-. by destruct (Hnew _ _ H2).
    + rewrite Ho in O2. injection O2 as <-. by destruct (Hnew _ _ H1).
    + by eapply (fl_owner _ _ HI).
  - intros j x id Hj Hx. apply list_lookup_insert_Some in Hj as [(-> & -> & _)|(Hn & Hj)].
    + rewrite Ho in Hx. injection Hx as <-. split; [lia|]. apply eq_None_not_Some. intros Hc%(fl_calls _ _ HI). lia.
    + destruct (fl_open _ _ HI _ _ _ Hj Hx). split; [lia|done].
  - intros j x id Hj Hx. apply list_lookup_insert_Some in Hj as [(-> & -> & _)|(Hn & Hj)]; [by rewrite Hw in Hx|].
    destruct (fl_waits _ _ HI _ _ _ Hj Hx) as [H|H]; [by left|right].
    apply (somewhere_insert (fun x => owes x = Some id) pts i _ q Hi).
    by apply (somewhere_split (fun x => owes x = Some id) pts i _ Hi) in H as [|H]; [|right].
  - intros id Hc%(fl_calls _ _ HI). lia.
Qed.

(** The observation is recorded: the call leaves the map of calls in progress. *)
Lemma flights_record s pts i call t r q c d h : flights s pts → pts !! i = Some (AtRecord call t r) →
  leads q = None → owes q = Some call → waits q = None →
  flights (with_maps s c (delete (mint_key cluster t) (mv_inflight s)) d h) (<[i := q]> pts).
Proof.
  intros HI Hi Hl Ho Hw.
  assert (owes q = owes (AtRecord call t r)) as Ho' by done.
  constructor; cbn.
  - intros key id. rewrite (somewhere_insert _ pts i _ q Hi), Hl, lookup_delete_Some, (fl_inflight _ _ HI). split.
    + intros [Hn H]. right. apply (somewhere_split (fun x => leads x = Some (id, key)) pts i _ Hi) in H as [[= _ E]|H]; [done|exact H].
    + intros [|(j & x & Hn & Hj & Hx)]; [done|]. split; [|by exists j, x]. intros <-.
      apply Hn. by destruct (sole_leader s pts j i x _ id call _ HI Hj Hi Hx eq_refl).
  - intros j1 j2 p1 p2 id H1 H2 O1 O2.
    apply list_lookup_insert_Some in H1 as [(-> & -> & _)|(Hn1 & H1)]; apply list_lookup_insert_Some in H2 as [(-> & -> & _)|(Hn2 & H2)];
      rewrite ?Ho' in *; [done|..]; by eapply (fl_owner _ _ HI).
  - intros j x id Hj Hx. apply list_lookup_insert_Some in Hj as [(-> & -> & _)|(Hn & Hj)]; [rewrite Ho' in Hx|]; by eapply (fl_open _ _ HI).
  - intros j x id Hj Hx. apply list_lookup_insert_Some in Hj as [(-> & -> & _)|(Hn & Hj)]; [by rewrite Hw in Hx|].
    destruct (fl_waits _ _ HI _ _ _ Hj Hx) as [H|H]; [by left|right].
    apply (somewhere_insert (fun x => owes x = Some id) pts i _ q Hi). rewrite Ho'.
    by apply (somewhere_split (fun x => owes x = Some id) pts i _ Hi) in H.
  - apply (fl_calls _ _ HI).
Qed.

(** The answer is published: the leader owes nothing any more. *)
Lemma flights_publish s pts i call t r : flights s pts → pts !! i = Some (AtPublish call t r) →
  flights (with_calls s (<[call := r]> (mv_calls s))) (<[i := AtContext t r]> pts).
Proof.
  intros HI Hi. constructor; cbn.
  - intros key id. rewrite (somewhere_insert (fun x => leads x = Some (id, key)) pts i _ (AtContext t r) Hi), (fl_inflight _ _ HI).
    by rewrite (somewhere_split (fun x => leads x = Some (id, key)) pts i _ Hi).
  - intros j1 j2 p1 p2 id H1 H2 O1 O2.
    apply list_lookup_insert_Some in H1 as [(-> & <- & _)|(Hn1 & H1)]; apply list_lookup_insert_Some in H2 as [(-> & <- & _)|(Hn2 & H2)];
      [done..|]. by eapply (fl_owner _ _ HI).
  - intros j x id Hj Hx. apply list_lookup_insert_Some in Hj as [(-> & <- & _)|(Hn & Hj)]; [done|].
    destruct (fl_open _ _ HI _ _ _ Hj Hx) as [H1 H2]. split; [done|]. rewrite lookup_insert_ne; [done|]. intros ->.
    apply Hn. by eapply (fl_owner _ _ HI).
  - intros j x id Hj Hx. destruct (decide (id = call)) as [->|Hc]; [left; by rewrite lookup_insert_eq|].
    rewrite lookup_insert_ne by done. apply list_lookup_insert_Some in Hj as [(-> & <- & _)|(Hn & Hj)]; [done|].
    destruct (fl_waits _ _ HI _ _ _ Hj Hx) as [H|H]; [by left|right].
    apply (somewhere_insert (fun x => owes x = Some id) pts i _ (AtContext t r) Hi). right.
    apply (somewhere_split (fun x => owes x = Some id) pts i _ Hi) in H as [[= H]|H]; [done|exact H].
  - intros id. destruct (decide (id = call)) as [->|Hc].
    + intros _. by eapply (fl_open _ _ HI _ _ _ Hi).
    + rewrite lookup_insert_ne by done. apply (fl_calls _ _ HI).
Qed.

Lemma reads_quiet s s' pts i p q : reads s pts → pts !! i = Some p → asks q = asks p → mv_reading s' = mv_reading s →
  reads s' (<[i := q]> pts).
Proof.
  intros HR Hi Ha E id key. rewrite E, (HR id key), (somewhere_insert _ pts i p q Hi), (somewhere_split _ pts i p Hi). by rewrite Ha.
Qed.

Lemma reads_send s pts i call t addr l : flights s pts → reads s pts → pts !! i = Some (AtSend call t addr) →
  reads (with_reading s (<[call := mint_key cluster t]> (mv_reading s)) l) (<[i := AtReceive call t addr]> pts).
Proof.
  intros HI HR Hi id key. cbn. rewrite (somewhere_insert (fun x => asks x = Some (id, key)) pts i _ (AtReceive call t addr) Hi), lookup_insert_Some, (HR id key).
  rewrite (somewhere_split _ pts i _ Hi). cbn. split.
  - intros [(<- & <-)|(Hn & [|H])]; [by left|done|by right].
  - intros [[= <- <-]|H]; [by left|right]. split; [|by right]. intros ->.
    destruct H as (j & x & Hn & Hj & Hx). apply Hn. eapply (fl_owner _ _ HI); [exact Hj|exact Hi| |done].
    by eapply leads_owes, asks_leads.
Qed.

Lemma reads_receive s pts i call t addr q l : flights s pts → reads s pts → pts !! i = Some (AtReceive call t addr) → asks q = None →
  reads (with_reading s (delete call (mv_reading s)) l) (<[i := q]> pts).
Proof.
  intros HI HR Hi Hq id key. cbn. rewrite (somewhere_insert _ pts i _ q Hi), lookup_delete_Some, (HR id key), Hq.
  rewrite (somewhere_split _ pts i _ Hi). cbn. split.
  - intros [Hn [[= E _]|H]]; [done|by right].
  - intros [|H]; [done|]. split; [|by right]. intros <-.
    destruct H as (j & x & Hn & Hj & Hx). apply Hn. eapply (fl_owner _ _ HI); [exact Hj|exact Hi| |done].
    by eapply leads_owes, asks_leads.
Qed.

Lemma led_point_shape call t : leads (led_point call t) = Some (call, mint_key cluster t) ∧ asks (led_point call t) = None ∧
  waits (led_point call t) = None.
Proof. unfold led_point. by destruct (pk_parse _). Qed.
Lemma recorded_point_shape call t r : leads (recorded_point call t r) = None ∧ owes (recorded_point call t r) = Some call ∧
  asks (recorded_point call t r) = None ∧ waits (recorded_point call t r) = None.
Proof. unfold recorded_point. destruct r as [o|e]; [|done]. by destruct (String.eqb _ _). Qed.

Lemma flights_look s pts i t now q s' : flights s pts → reads s pts → pts !! i = Some (AtLook t now) →
  point_step (AtLook t now) s = Some (q, s') → flights s' (<[i := q]> pts) ∧ reads s' (<[i := q]> pts).
Proof.
  intros HI HR Hi. cbn. destruct (decide_look cluster ttl t now s) as [l s1] eqn:El. intros [= <- <-].
  assert ((∃ o, l = Fresh o ∧ s1 = s) ∨ (∃ call, l = Join call ∧ s1 = s ∧ mv_inflight s !! mint_key cluster t = Some call) ∨
    (l = Lead (mv_next s) ∧ mv_inflight s !! mint_key cluster t = None ∧
     s1 = with_new_call s (<[mint_key cluster t := mv_next s]> (mv_inflight s)))) as Hl.
  { unfold decide_look in El. destruct (mv_cache s !! _) as [o|]; [destruct (_ <? _)|]; [injection El as <- <-; left; by exists o|..];
      right; (destruct (mv_inflight s !! _) as [call|] eqn:E; injection El as <- <-; [left; by exists call|by right]). }
  destruct Hl as [(o & -> & ->)|[(call & -> & -> & Hc)|(-> & Hn & ->)]].
  - split; [by eapply flights_quiet|by eapply reads_quiet].
  - split; [|by eapply reads_quiet]. eapply flights_quiet; try done. cbn. intros id [= <-]. right. by eexists.
  - destruct (led_point_shape (mv_next s) t) as (A & B & C).
    split; [by eapply flights_lead|]. by eapply reads_quiet.
Qed.

Lemma flights_step s pts i p q s' : flights s pts → reads s pts → pts !! i = Some p →
  point_step p s = Some (q, s') → flights s' (<[i := q]> pts) ∧ reads s' (<[i := q]> pts).
Proof.
  intros HI HR Hi Hs. destruct p as [t|t now|call t addr|call t addr|call t info|call t r|call t obs|call t r|t r|t call|t r]; cbn in Hs; simplify_eq.
  - split; [by eapply flights_quiet|by eapply reads_quiet].
  - by eapply flights_look.
  - split; [by eapply flights_quiet|by eapply reads_send].
  - split; [eapply flights_quiet; try done; by destruct (mv_node s addr)|eapply reads_receive; try done; by destruct (mv_node s addr)].
  - split; [by eapply flights_quiet|by eapply reads_quiet].
  - destruct (recorded_point_shape call t r) as (A & B & C & D).
    destruct r as [obs|e]; (split; [by eapply flights_record|by eapply reads_quiet]).
  - split; [by eapply flights_quiet|by eapply reads_quiet].
  - split; [by eapply flights_publish|by eapply reads_quiet].
  - split; [by eapply flights_quiet|by eapply reads_quiet].
  - destruct (mv_calls s !! call) as [r|]; [|done]. injection Hs as <- <-. split; [by eapply flights_quiet|by eapply reads_quiet].
Qed.

(** ** Pools of requests as lists of points *)
Inductive points_step : State * list point → State * list point → Prop :=
  | points_act s pts i p q s' : pts !! i = Some p → point_step p s = Some (q, s') → points_step (s, pts) (s', <[i := q]> pts)
  | points_fail s pts i p q : pts !! i = Some p → point_fail p = Some q → points_step (s, pts) (s, <[i := q]> pts)
  | points_spawn s pts t : governs t → points_step (s, pts) (s, pts ++ [AtStart t])
  | points_env s s' pts : env_step s s' → points_step (s, pts) (s', pts)
  | points_crash s pts : points_step (s, pts) (restart s, []).

Lemma mint_step_points s pts c' : mint_step (s, map code pts) c' →
  ∃ pts', points_step (s, pts) (c'.1, pts') ∧ c'.2 = map code pts'.
Proof.
  destruct c' as [s' ps']. intros [(i & p & q & Hi & Hn & ->)|[(i & p & q & Hi & Hn & -> & ->)|[(p & (t & Ht & ->) & -> & ->)|[(He & ->)|(-> & ->)]]]]%step_cases; cbn.
  - apply list_lookup_fmap_Some in Hi as (x & -> & Hx). rewrite next_of_code in Hn.
    destruct (point_step x s) as [[y s1]|] eqn:E; [|done]. injection Hn as <- <-.
    exists (<[i := y]> pts). split; [by eapply points_act|]. symmetry. apply list_fmap_insert.
  - apply list_lookup_fmap_Some in Hi as (x & -> & Hx). rewrite failed_of_code in Hn.
    destruct (point_fail x) as [y|] eqn:E; [|done]. injection Hn as <-.
    exists (<[i := y]> pts). split; [by eapply points_fail|]. symmetry. apply list_fmap_insert.
  - exists (pts ++ [AtStart t]). split; [by apply points_spawn|]. by rewrite map_app.
  - exists pts. split; [by apply points_env|done].
  - exists []. split; [apply points_crash|done].
Qed.

(** A point whose failure is a step: it owes and asks nothing, and waits no more. *)
Lemma point_fail_shape p q : point_fail p = Some q →
  ∃ t, q = Answered t (Err [ECancelled]) ∧ leads p = None ∧ owes p = None ∧ asks p = None.
Proof. by destruct p; cbn; intros [= <-]; eexists. Qed.

Lemma lookup_snoc_point pts i (x y : point) : (pts ++ [x]) !! i = Some y →
  (i = length pts ∧ y = x) ∨ pts !! i = Some y.
Proof.
  intros [H|[Hl H]]%lookup_app_Some; [by right|left]. apply list_lookup_singleton_Some in H as [H <-].
  split; [lia|done].
Qed.

Lemma flights_points_step c c' : points_step c c' → flights c.1 c.2 → reads c.1 c.2 → flights c'.1 c'.2 ∧ reads c'.1 c'.2.
Proof.
  intros Hs HI HR. destruct Hs as [s pts i p q s' Hi Hp|s pts i p q Hi Hp|s pts t Ht|s s' pts (n & node & Hn & ->)|s pts]; cbn in *.
  - by eapply flights_step.
  - apply point_fail_shape in Hp as (t & -> & A & B & C).
    split; [by eapply flights_quiet|by eapply reads_quiet].
  - assert (∀ P : point → Prop, ¬ P (AtStart t) → (∃ (j : nat) x, (pts ++ [AtStart t]) !! j = Some x ∧ P x) ↔ ∃ (j : nat) x, pts !! j = Some x ∧ P x) as Hsome.
    { intros P HP. split; intros (j & x & Hj & Hx).
      - apply lookup_snoc_point in Hj as [[_ ->]|Hj]; [done|]. by exists j, x.
      - exists j, x. split; [|done]. by apply lookup_app_l_Some. }
    split; [constructor|].
    + intros key id. rewrite (fl_inflight _ _ HI). symmetry. by apply (Hsome (fun x => leads x = Some (id, key))).
    + intros i j p q id [[_ ->]|Hi]%lookup_snoc_point [[_ ->]|Hj]%lookup_snoc_point Hp Hq; try done. by eapply (fl_owner _ _ HI).
    + intros i p id [[_ ->]|Hi]%lookup_snoc_point Hp; [done|]. by eapply (fl_open _ _ HI).
    + intros i p id [[_ ->]|Hi]%lookup_snoc_point Hp; [done|].
      destruct (fl_waits _ _ HI _ _ _ Hi Hp) as [H|H]; [by left|right]. by apply (Hsome (fun x => owes x = Some id)).
    + apply (fl_calls _ _ HI).
    + intros id key. rewrite (HR id key). symmetry. by apply (Hsome (fun x => asks x = Some (id, key))).
  - split; [destruct HI; by constructor|done].
  - split; [constructor|]; cbn; try done.
    + intros key id. split; [done|]. by intros (? & ? & ? & _).
    + by intros id [? ?].
    + intros id key. split; [done|]. by intros (? & ? & ? & _).
Qed.

(** At rest: nothing asked yet, whatever the node and the clock say. *)
Definition rested (c : config) : Prop :=
  c.2 = [] ∧ mv_cache c.1 = ∅ ∧ mv_inflight c.1 = ∅ ∧ mv_calls c.1 = ∅ ∧ mv_reading c.1 = ∅.
Definition mint_reachable (c : config) : Prop := ∃ c0, rested c0 ∧ rtc mint_step c0 c.

Lemma mint_reachable_points (I : State → list point → Prop) :
  (∀ s, rested (s, []) → I s []) →
  (∀ c c', points_step c c' → I c.1 c.2 → I c'.1 c'.2) →
  ∀ c, mint_reachable c → ∃ pts, c.2 = map code pts ∧ I c.1 pts.
Proof.
  intros H0 Hstep c (c0 & Hr & Hs).
  assert (∃ pts, c0.2 = map code pts ∧ I c0.1 pts) as Hc.
  { destruct c0 as [s0 ps0]. pose proof Hr as [Hps _]. cbn in Hps. subst ps0. exists []. split; [done|by apply H0]. }
  clear H0 Hr. induction Hs as [|[s ps] c2 c3 H12 _ IH]; [done|]. apply IH. destruct Hc as (pts & Hps & HI). cbn in *. subst ps.
  destruct (mint_step_points s pts c2 H12) as (pts' & Hp & ->). exists pts'. split; [done|]. by apply (Hstep _ _ Hp).
Qed.

Lemma rested_flights s : rested (s, []) → flights s [] ∧ reads s [].
Proof.
  intros (_ & _ & E1 & E2 & E3). cbn in *. split; [constructor|]; rewrite ?E1, ?E2, ?E3; try done.
  - intros key id. split; [done|]. by intros (? & ? & ? & _).
  - by intros id [? ?].
  - intros id key. rewrite E3. split; [done|]. by intros (? & ? & ? & _).
Qed.

Lemma reachable_flights c : mint_reachable c → ∃ pts, c.2 = map code pts ∧ flights c.1 pts ∧ reads c.1 pts.
Proof.
  apply (mint_reachable_points (fun s pts => flights s pts ∧ reads s pts)); [apply rested_flights|].
  intros c1 c2 Hs [H1 H2]. by apply (flights_points_step c1 c2).
Qed.
End Flights.
