(* ===== verification/MintsSpec.v ===== *)
(** * What the mint verifier promises

    Over all interleavings of any number of requests, with cancellations, a node
    that answers as it likes and crashes: one request to the node per mint at a
    time; every caller can be answered; and an answer of success rests on a reading
    of the node in which the mint is as pinned, recorded after the caller asked or
    stamped less than the TTL before. *)
From S2P Require Import Prelude GoText Prog Money Domain Cluster Tokens Json Attest Probe Settlement Endpoint Agp Preflight World TradeSettlement Mints Flights.

Section Truth.
Context `{IK : SolanaKeys} `{IM : MintDecoder}.
Context (cluster : Cluster) (ttl : duration) (registry : gmap string Token).
#[local] Abbreviation governs := (governs registry).
#[local] Abbreviation key := (mint_key cluster).
#[local] Abbreviation points_step := (points_step cluster ttl registry).
#[local] Abbreviation point_step := (point_step cluster ttl).

(** A sound observation is the judgement of a reply of the node. *)
Definition observed (s : State) (t : Token) (obs : observation) : Prop :=
  ob_fault obs = "" → ∃ τ info, (τ, key t, info) ∈ mv_replies s ∧ τ ≤ ob_at obs ∧ obs = judge cluster t (ob_at obs) info.
Definition cached_of (s : State) (t : Token) (obs : observation) : Prop :=
  observed s t obs ∧ ∃ ρ, (ρ, key t, obs) ∈ mv_recorded s.
Definition when_ok (P : observation → Prop) (r : answer_) : Prop := match r with Ok obs => P obs | Err _ => True end.

Definition token_of (p : point) : Token :=
  match p with
  | AtStart t | AtLook t _ | AtSend _ t _ | AtReceive _ t _ | AtStamp _ t _ | AtRecord _ t _ | AtDrift _ t _
  | AtPublish _ t _ | AtContext t _ | AtWait t _ | Answered t _ => t
  end.

(** What each point knows. *)
Definition knows (s : State) (p : point) : Prop :=
  match p with
  | AtStamp _ t info => ∃ τ, (τ, key t, info) ∈ mv_replies s ∧ τ ≤ mv_now s
  | AtRecord _ t r => when_ok (observed s t) r
  | AtDrift _ t obs => cached_of s t obs
  | AtPublish _ t r | AtContext t r | Answered t r => when_ok (cached_of s t) r
  | AtWait t call => ∀ r, mv_calls s !! call = Some r → when_ok (cached_of s t) r
  | _ => True
  end.

Record truthful (s : State) (pts : list point) : Prop := mkTruthful {
  tr_governs : ∀ i p, pts !! i = Some p → governs (token_of p);
  tr_knows : ∀ i p, pts !! i = Some p → knows s p;
  tr_cache : ∀ t obs, governs t → mv_cache s !! key t = Some obs → cached_of s t obs;
  tr_joined : ∀ i j t call q, pts !! i = Some (AtWait t call) → pts !! j = Some q → owes q = Some call → token_of q = t }.

(** What is learnt is not forgotten, except by a crash. *)
Definition extends (s s' : State) : Prop :=
  mv_now s ≤ mv_now s' ∧ mv_replies s ⊆ mv_replies s' ∧ mv_recorded s ⊆ mv_recorded s'.
#[export] Instance extends_refl : Reflexive extends.
Proof. intros s. unfold extends. split_and!; [lia|done|done]. Qed.

Lemma observed_mono s s' t obs : extends s s' → observed s t obs → observed s' t obs.
Proof. intros (_ & H & _) Ho Hf. destruct (Ho Hf) as (τ & info & Hin & Hr). exists τ, info. split; [by apply H|done]. Qed.
Lemma cached_of_mono s s' t obs : extends s s' → cached_of s t obs → cached_of s' t obs.
Proof.
  intros He [Ho [ρ Hr]]. split; [by eapply observed_mono|]. exists ρ. by apply He.
Qed.
Lemma when_ok_mono (P Q : observation → Prop) r : (∀ o, P o → Q o) → when_ok P r → when_ok Q r.
Proof. destruct r; cbn; auto. Qed.

Lemma governs_key t t' : governs t → governs t' → key t = key t' → t = t'.
Proof.
  unfold Flights.governs, mint_key. intros Ht Ht' E.
  assert (tok_Address t = tok_Address t') as Ea.
  { revert E. induction cluster as [|c cl IH]; cbn; intros [= E]; [done|by apply IH]. }
  rewrite Ea in Ht. rewrite Ht in Ht'. by injection Ht'.
Qed.

Lemma knows_mono s s' p : extends s s' → (∀ call, waits p = Some call → mv_calls s' !! call = mv_calls s !! call) →
  knows s p → knows s' p.
Proof.
  intros He Hw. destruct p as [t|t now|call t addr|call t addr|call t info|call t r|call t obs|call t r|t r|t call|t r]; cbn in *; try done.
  - intros (τ & Hin & Hτ). exists τ. split; [by apply He|]. destruct He. lia.
  - apply when_ok_mono. intros o. by apply observed_mono.
  - by apply cached_of_mono.
  - apply when_ok_mono. intros o. by apply cached_of_mono.
  - apply when_ok_mono. intros o. by apply cached_of_mono.
  - rewrite (Hw call eq_refl). intros H r Hr. eapply when_ok_mono, H, Hr. intros o. by apply cached_of_mono.
  - apply when_ok_mono. intros o. by apply cached_of_mono.
Qed.

Lemma token_of_step p s q s' : point_step p s = Some (q, s') → token_of q = token_of p.
Proof.
  destruct p as [t|t now|call t addr|call t addr|call t info|call t r|call t obs|call t r|t r|t call|t r]; cbn; intros Hs; simplify_eq; try done.
  - destruct (decide_look cluster ttl t now s) as [[o|c|c] s1]; injection Hs as <- <-; [done..|]. unfold led_point. by destruct (pk_parse _).
  - by destruct (mv_node s addr).
  - unfold recorded_point. destruct r as [o|e]; [|done]. by destruct (String.eqb _ _).
  - destruct (mv_calls s !! call); by simplify_eq.
Qed.

Lemma step_extends p s q s' : point_step p s = Some (q, s') → extends s s'.
Proof.
  destruct p as [t|t now|call t addr|call t addr|call t info|call t r|call t obs|call t r|t r|t call|t r]; cbn; intros Hs; simplify_eq; try done;
    try (unfold extends; cbn; split_and!; [lia|done|done]).
  - unfold decide_look in Hs. repeat case_match; simplify_eq; try done; unfold extends; cbn; (split_and!; [lia|done|done]).
  - unfold extends; cbn. split_and!; [lia| |done]. destruct (mv_node s addr); [set_solver|done].
  - destruct r; unfold extends; cbn; (split_and!; [lia|done|set_solver]).
  - by destruct (mv_calls s !! call); simplify_eq.
Qed.

(** Only publishing changes a call, and nobody waiting for it loses an answer. *)
Lemma step_calls p s q s' call : point_step p s = Some (q, s') →
  mv_calls s' !! call = mv_calls s !! call ∨ ∃ t r, p = AtPublish call t r ∧ mv_calls s' !! call = Some r.
Proof.
  destruct p as [t|t now|c t addr|c t addr|c t info|c t r|c t obs|c t r|t r|t c|t r]; cbn; intros Hs; simplify_eq; try by left.
  - unfold decide_look in Hs. repeat case_match; simplify_eq; by left.
  - by destruct r; left.
  - cbn. destruct (decide (c = call)) as [->|]; [right|left; by rewrite lookup_insert_ne].
    exists t, r. by rewrite lookup_insert_eq.
  - destruct (mv_calls s !! c); simplify_eq; by left.
Qed.

Lemma look_cases t now s l s' : decide_look cluster ttl t now s = (l, s') →
  (∃ o, l = Fresh o ∧ s' = s ∧ mv_cache s !! key t = Some o ∧ now - ob_at o < ttl) ∨
  (∃ call, l = Join call ∧ s' = s ∧ mv_inflight s !! key t = Some call) ∨
  (l = Lead (mv_next s) ∧ mv_inflight s !! key t = None ∧ s' = with_new_call s (<[key t := mv_next s]> (mv_inflight s))).
Proof.
  unfold decide_look. intros E.
  destruct (mv_cache s !! _) as [o|] eqn:Ec; [destruct (_ <? _) eqn:Ed|].
  - injection E as <- <-. left. exists o. by apply Z.ltb_lt in Ed.
  - right. destruct (mv_inflight s !! _) as [call|] eqn:Ei; injection E as <- <-; [left; by exists call|by right].
  - right. destruct (mv_inflight s !! _) as [call|] eqn:Ei; injection E as <- <-; [left; by exists call|by right].
Qed.

(** What the point that has moved knows. *)
Lemma step_knows s pts i p q s' : flights cluster s pts → truthful s pts → pts !! i = Some p → point_step p s = Some (q, s') → knows s' q.
Proof.
  intros HI HT Hi Hs. pose proof (tr_knows _ _ HT _ _ Hi) as Hk. pose proof (tr_governs _ _ HT _ _ Hi) as Hg.
  destruct p as [t|t now|call t addr|call t addr|call t info|call t r|call t obs|call t r|t r|t call|t r]; cbn in Hs; simplify_eq; try exact Hk; try exact I.
  - destruct (decide_look cluster ttl t now s) as [l s1] eqn:El. injection Hs as <- <-.
    apply look_cases in El as [(o & -> & -> & Hc & _)|[(call & -> & -> & Hc)|(-> & _ & ->)]].
    + by apply (tr_cache _ _ HT).
    + intros r Hr. apply (fl_inflight _ _ _ HI) in Hc as (j & x & Hj & Hx). destruct (fl_open _ _ _ HI _ _ _ Hj (leads_owes _ _ _ _ Hx)). congruence.
    + unfold led_point. by destruct (pk_parse _).
  - destruct (mv_node s addr) as [info|e]; [|done]. exists (mv_now s). split; [left|cbn; lia].
  - intros _. destruct Hk as (τ & Hin & Hτ). exists τ, info. split; [done|]. cbn.
    assert (ob_at (judge cluster t (mv_now s') info) = mv_now s') as -> by (unfold judge; repeat case_match; done). done.
  - destruct r as [obs|e]; [|done]. cbn in Hk.
    assert (cached_of (with_maps s (<[key t := obs]> (mv_cache s)) (delete (key t) (mv_inflight s))
      (if String.eqb (ob_drift obs) "" then mv_driftCounter s else mv_driftCounter s + 1) ((mv_now s, key t, obs) :: mv_recorded s)) t obs) as Hc.
    { split; [exact Hk|]. exists (mv_now s). left. }
    cbn. by destruct (String.eqb (ob_drift obs) "").
  - destruct (mv_calls s !! call) as [r|] eqn:Ec; [|done]. injection Hs as <- <-. by apply Hk.
Qed.

Lemma owes_step p s q s' id : point_step p s = Some (q, s') → owes q = Some id →
  owes p = Some id ∨ (id = mv_next s ∧ ∃ t now, p = AtLook t now).
Proof.
  destruct p as [t|t now|call t addr|call t addr|call t info|call t r|call t obs|call t r|t r|t call|t r]; cbn; intros Hs Hq; simplify_eq; try done; try by left.
  - right. destruct (decide_look cluster ttl t now s) as [l s1] eqn:El. injection Hs as <- <-.
    apply look_cases in El as [(o & -> & _)|[(call & -> & _)|(-> & _)]]; [done..|]. split; [|by eexists _, _].
    unfold led_point in Hq. destruct (pk_parse _); cbn in Hq; congruence.
  - left. by destruct (mv_node s addr).
  - left. unfold recorded_point in Hq. destruct r as [o|e]; [|done]. by destruct (String.eqb _ _).
  - destruct (mv_calls s !! call); by simplify_eq.
Qed.

Lemma waits_step p s q s' t call : point_step p s = Some (q, s') → q = AtWait t call →
  ∃ now, p = AtLook t now ∧ mv_inflight s !! key t = Some call.
Proof.
  destruct p as [t1|t1 now|c t1 addr|c t1 addr|c t1 info|c t1 r|c t1 obs|c t1 r|t1 r|t1 c|t1 r]; cbn; intros Hs ->; simplify_eq.
  - destruct (decide_look cluster ttl t1 now s) as [l s1] eqn:El. injection Hs as E <-.
    apply look_cases in El as [(o & -> & _)|[(c & -> & _ & Hc)|(-> & _)]]; [done| |].
    + injection E as -> ->. by exists now.
    + unfold led_point in E. by destruct (pk_parse _).
  - by destruct (mv_node s addr).
  - unfold recorded_point in *. by repeat case_match.
  - by repeat case_match; simplify_eq.
Qed.

Lemma step_joined s pts i p q s' : flights cluster s pts → truthful s pts → pts !! i = Some p → point_step p s = Some (q, s') →
  ∀ a b t call x, <[i:=q]> pts !! a = Some (AtWait t call) → <[i:=q]> pts !! b = Some x → owes x = Some call → token_of x = t.
Proof.
  intros HI HT Hi Hs a b t call x Ha Hb Hx.
  assert (∀ id, owes q = Some id → owes p = Some id ∨ (id = mv_next s ∧ ∃ t now, p = AtLook t now)) as Ho by (intros id; by eapply owes_step).
  assert (∀ j y, pts !! j = Some y → owes y = Some call → mv_inflight s !! key t = Some call → governs t → token_of y = t) as Hlead.
  { intros j y Hj Hy Hc Hg. apply (fl_inflight _ _ _ HI) in Hc as (k & z & Hk & Hz).
    assert (k = j) as -> by (eapply (fl_owner _ _ _ HI); [exact Hk|exact Hj|by eapply leads_owes|done]).
    rewrite Hk in Hj. injection Hj as <-. apply governs_key; [by eapply (tr_governs _ _ HT)|done|].
    by destruct z; cbn in *; simplify_eq. }
  apply list_lookup_insert_Some in Ha as [(-> & Eq & _)|(Hna & Ha)]; apply list_lookup_insert_Some in Hb as [(-> & <- & _)|(Hnb & Hb)].
  - by subst q.
  - destruct (waits_step _ _ _ _ _ _ Hs Eq) as (now & -> & Hc). eapply Hlead; try done. by apply (tr_governs _ _ HT _ _ Hi).
  - rewrite (token_of_step _ _ _ _ Hs). destruct (Ho _ Hx) as [H|(-> & t' & now & ->)]; [by eapply (tr_joined _ _ HT)|].
    exfalso. destruct (fl_waits _ _ _ HI _ _ _ Ha eq_refl) as [H%(fl_calls _ _ _ HI)|(j & y & Hj & Hy)]; [lia|].
    destruct (fl_open _ _ _ HI _ _ _ Hj Hy). lia.
  - by eapply (tr_joined _ _ HT).
Qed.

Lemma step_cache s pts i p q s' : truthful s pts → pts !! i = Some p → point_step p s = Some (q, s') →
  ∀ t obs, governs t → mv_cache s' !! key t = Some obs → cached_of s' t obs.
Proof.
  intros HT Hi Hs t obs Hg Hc.
  assert (mv_cache s' = mv_cache s ∨ ∃ call t' o, p = AtRecord call t' (Ok o) ∧ mv_cache s' = <[key t' := o]> (mv_cache s) ∧
    (mv_now s, key t', o) ∈ mv_recorded s') as [E|(call & t' & o & -> & E & Hr)].
  { destruct p as [t1|t1 now|c t1 addr|c t1 addr|c t1 info|c t1 r|c t1 ob|c t1 r|t1 r|t1 c|t1 r]; cbn in Hs; simplify_eq; try by left.
    - unfold decide_look in Hs. repeat case_match; simplify_eq; by left.
    - destruct r as [o|e]; [right|by left]. exists c, t1, o. split_and!; [done..|left].
    - destruct (mv_calls s !! c); simplify_eq; by left. }
  - rewrite E in Hc. eapply cached_of_mono, (tr_cache _ _ HT); [by eapply step_extends|done..].
  - rewrite E in Hc. destruct (decide (key t' = key t)) as [Ek|Hn].
    + rewrite Ek, lookup_insert_eq in Hc. injection Hc as <-.
      assert (t' = t) as <- by (apply governs_key; [by apply (tr_governs _ _ HT _ _ Hi)|done..]).
      split; [|by eexists]. eapply observed_mono; [by eapply step_extends|]. exact (tr_knows _ _ HT _ _ Hi).
    + rewrite lookup_insert_ne in Hc by done. eapply cached_of_mono, (tr_cache _ _ HT); [by eapply step_extends|done..].
Qed.

Lemma truthful_step s pts i p q s' : flights cluster s pts → truthful s pts → pts !! i = Some p → point_step p s = Some (q, s') →
  truthful s' (<[i := q]> pts).
Proof.
  intros HI HT Hi Hs. constructor.
  - intros j x Hj. apply list_lookup_insert_Some in Hj as [(-> & <- & _)|(Hn & Hj)]; [|by eapply (tr_governs _ _ HT)].
    rewrite (token_of_step _ _ _ _ Hs). by eapply (tr_governs _ _ HT).
  - intros j x Hj. apply list_lookup_insert_Some in Hj as [(-> & <- & _)|(Hn & Hj)]; [by eapply step_knows|].
    pose proof (tr_knows _ _ HT _ _ Hj) as Hk. pose proof (step_extends _ _ _ _ Hs) as He.
    destruct (waits x) as [call|] eqn:Hw.
    + destruct (step_calls _ _ _ _ call Hs) as [E|(t & r & -> & E)].
      * eapply knows_mono, Hk; [done|]. intros c Hc. rewrite Hw in Hc. by injection Hc as <-.
      * destruct x as [| | | | | | | | |t' c|]; try discriminate Hw. injection Hw as ->.
        assert (t = t') as <- by (by eapply (tr_joined _ _ HT _ _ _ _ _ Hj Hi)).
        cbn. intros r' Hr'. rewrite E in Hr'. injection Hr' as <-.
        eapply when_ok_mono, (tr_knows _ _ HT _ _ Hi). intros o. by apply cached_of_mono.
    + eapply knows_mono, Hk; [done|]. intros c Hc. by rewrite Hw in Hc.
  - by eapply step_cache.
  - by eapply step_joined.
Qed.

(** ** Every interleaving *)
Lemma truthful_points_step c c' : points_step c c' → flights cluster c.1 c.2 → truthful c.1 c.2 → truthful c'.1 c'.2.
Proof.
  intros Hs HI HT. destruct Hs as [s pts i p q s' Hi Hp|s pts i p q Hi Hp|s pts t Ht|s s' pts (n & node & Hn & ->)|s pts]; cbn in *.
  - by eapply truthful_step.
  - assert (q = Answered (token_of p) (Err [ECancelled])) as -> by (destruct p; cbn in Hp; by simplify_eq).
    pose proof (tr_governs _ _ HT _ _ Hi) as Hg. constructor.
    + intros j x [(-> & <- & _)|(Hj & Hx)]%list_lookup_insert_Some; [done|by eapply (tr_governs _ _ HT)].
    + intros j x [(-> & <- & _)|(Hj & Hx)]%list_lookup_insert_Some; [done|by eapply (tr_knows _ _ HT)].
    + apply (tr_cache _ _ HT).
    + intros a b t call x [(-> & [=] & _)|(Ha & Hwa)]%list_lookup_insert_Some [(-> & <- & _)|(Hb & Hxb)]%list_lookup_insert_Some Ho; [done|].
      by eapply (tr_joined _ _ HT).
  - constructor.
    + intros j x [[_ ->]|Hx]%lookup_snoc_point; [done|by eapply (tr_governs _ _ HT)].
    + intros j x [[_ ->]|Hx]%lookup_snoc_point; [done|by eapply (tr_knows _ _ HT)].
    + apply (tr_cache _ _ HT).
    + intros a b t' call x [[_ [=]]|Ha]%lookup_snoc_point [[_ ->]|Hb]%lookup_snoc_point Ho; [done|]. by eapply (tr_joined _ _ HT).
  - match goal with |- truthful ?s' _ => assert (extends s s') as He by (unfold extends; cbn; split_and!; [lia|done|done]) end.
    constructor; cbn.
    + apply (tr_governs _ _ HT).
    + intros j x Hx. eapply knows_mono, (tr_knows _ _ HT _ _ Hx); [done|by cbn].
    + intros t obs Hg Hc. eapply cached_of_mono, (tr_cache _ _ HT); done.
    + apply (tr_joined _ _ HT).
  - by constructor.
Qed.

(** ** A request followed from its arrival at [T] *)
Definition fresh (s : State) (t : Token) (T : time) (obs : observation) : Prop :=
  ob_fault obs = "" → ∃ ρ, (ρ, key t, obs) ∈ mv_recorded s ∧ (T - ttl < ob_at obs ∨ T ≤ ρ).
Definition promised (s : State) (t : Token) (T : time) (p : point) : Prop :=
  match p with
  | AtDrift _ _ obs => fresh s t T obs
  | AtPublish _ _ r | AtContext _ r | Answered _ r => when_ok (fresh s t T) r
  | _ => True
  end.
Definition since (s : State) (pts : list point) (t : Token) (T : time) (p : point) : Prop :=
  promised s t T p ∧
  match p with
  | AtLook _ now => T ≤ now
  | AtWait _ call => (∀ r, mv_calls s !! call = Some r → when_ok (fresh s t T) r) ∧
      ∀ j q, pts !! j = Some q → owes q = Some call → promised s t T q
  | _ => True
  end.
Definition followed (i : nat) (t : Token) (T : time) (s : State) (pts : list point) : Prop :=
  T ≤ mv_now s ∧ ∃ p, pts !! i = Some p ∧ token_of p = t ∧ since s pts t T p.

Lemma fresh_mono s s' t T obs : extends s s' → fresh s t T obs → fresh s' t T obs.
Proof. intros (_ & _ & H) Hf E. destruct (Hf E) as (ρ & Hin & Hr). exists ρ. split; [by apply H|done]. Qed.
Lemma promised_mono s s' t T p : extends s s' → promised s t T p → promised s' t T p.
Proof.
  intros He. destruct p; cbn; try done; try (by apply fresh_mono); apply when_ok_mono; intros o; by apply fresh_mono.
Qed.

Lemma promised_step s p q s' t T : T ≤ mv_now s → token_of p = t →
  (∀ l now, p = AtLook l now → ∀ o, mv_cache s !! key t = Some o → now - ob_at o < ttl → fresh s t T o) →
  (∀ l call, p = AtWait l call → ∀ r, mv_calls s !! call = Some r → when_ok (fresh s t T) r) →
  promised s t T p → point_step p s = Some (q, s') → promised s' t T q.
Proof.
  intros HT <- Hlook Hwait Hp Hs. pose proof (step_extends _ _ _ _ Hs) as He.
  destruct p as [l|l now|call l addr|call l addr|call l info|call l r|call l obs|call l r|l r|l call|l r]; cbn in Hs; simplify_eq; try done.
  - destruct (decide_look cluster ttl l now s) as [lk s1] eqn:El. injection Hs as <- <-.
    apply look_cases in El as [(o & -> & -> & Hc & Hd)|[(call & -> & -> & _)|(-> & _ & ->)]]; [by apply (Hlook l now)|done|].
    unfold led_point. by destruct (pk_parse _).
  - by destruct (mv_node s addr).
  - destruct r as [obs|e]; [|done].
    assert (∀ s1, mv_recorded s1 = (mv_now s, key l, obs) :: mv_recorded s → fresh s1 l T obs) as Hf.
    { intros s1 E _. exists (mv_now s). rewrite E. split; [left|by right]. }
    unfold recorded_point. destruct (String.eqb (ob_drift obs) ""); by apply Hf.
  - destruct (mv_calls s !! call) as [r|] eqn:Ec; [|done]. injection Hs as <- <-. by apply (Hwait l call).
Qed.

Lemma since_step s pts i p q s' t T : flights cluster s pts → truthful s pts → T ≤ mv_now s →
  pts !! i = Some p → token_of p = t → since s pts t T p → point_step p s = Some (q, s') → since s' (<[i:=q]> pts) t T q.
Proof.
  intros HI HT Hn Hi Ht [Hp Hw] Hs. split.
  - eapply promised_step; try done.
    + intros l now -> o Hc Hd Hf. cbn in Ht. subst l.
      destruct (tr_cache _ _ HT t o (tr_governs _ _ HT _ _ Hi) Hc) as [_ [ρ Hr]]. exists ρ. split; [done|left; lia].
    + intros l call ->. apply Hw.
  - destruct q as [l|l now|call l addr|call l addr|call l info|call l r|call l obs|call l r|l r|l call|l r]; try done.
    + destruct p as [l1|l1 now1|c l1 addr|c l1 addr|c l1 info|c l1 r|c l1 obs|c l1 r|l1 r|l1 c|l1 r]; cbn in Hs; simplify_eq; try done.
      * destruct (decide_look cluster ttl l1 now1 s) as [[o|c|c] s1]; try done. unfold led_point in Hs. by destruct (pk_parse _).
      * by destruct (mv_node s addr).
      * unfold recorded_point in *. by repeat case_match.
      * by repeat case_match; simplify_eq.
    + destruct (waits_step _ _ _ _ _ _ Hs eq_refl) as (now & -> & Hc).
      assert (s' = s) as ->.
      { cbn in Hs. destruct (decide_look cluster ttl l now s) as [lk s1] eqn:El. injection Hs as E <-.
        apply look_cases in El as [(o & -> & -> & _)|[(c & -> & -> & _)|(-> & _ & ->)]]; [done..|].
        unfold led_point in E. by destruct (pk_parse _). }
      apply (fl_inflight _ _ _ HI) in Hc as (k & z & Hk & Hz). split.
      * intros r Hr. destruct (fl_open _ _ _ HI _ _ _ Hk (leads_owes _ _ _ _ Hz)). congruence.
      * intros j x [(-> & <- & _)|(Hj & Hx)]%list_lookup_insert_Some Ho; [done|].
        assert (k = j) as -> by (eapply (fl_owner _ _ _ HI); [exact Hk|exact Hx|by eapply leads_owes|done]).
        rewrite Hk in Hx. injection Hx as <-. by destruct z.
Qed.

(** What another request does for one that waits. *)
Lemma since_other s pts i j p x y s' t T : flights cluster s pts → truthful s pts → T ≤ mv_now s → i ≠ j →
  pts !! i = Some p → token_of p = t → since s pts t T p →
  pts !! j = Some x → point_step x s = Some (y, s') → since s' (<[j:=y]> pts) t T p.
Proof.
  intros HI HT Hn Hij Hi Ht [Hp Hw] Hj Hs. pose proof (step_extends _ _ _ _ Hs) as He.
  split; [by eapply promised_mono|]. destruct p as [| | | | | | | | |l call|]; try done. destruct Hw as [Hc Ho]. split.
  - intros r Hr. destruct (step_calls _ _ _ _ call Hs) as [E|(t' & r' & -> & E)].
    + rewrite E in Hr. eapply when_ok_mono, Hc, Hr. intros o. by apply fresh_mono.
    + rewrite E in Hr. injection Hr as ->. eapply when_ok_mono, (Ho _ _ Hj eq_refl). intros o. by apply fresh_mono.
  - intros k z [(-> & <- & _)|(Hk & Hz)]%list_lookup_insert_Some Hoz; [|eapply promised_mono; [done|by eapply Ho]].
    destruct (owes_step _ _ _ _ _ Hs Hoz) as [Hox|(-> & _)].
    + eapply promised_step; [done| | | |by eapply Ho|done].
      * cbn in Ht. subst l. by eapply (tr_joined _ _ HT).
      * by intros l' now ->.
      * by intros l' c ->.
    + exfalso. destruct (fl_waits _ _ _ HI _ _ _ Hi eq_refl) as [H%(fl_calls _ _ _ HI)|(j' & y' & Hj' & Hy')]; [lia|].
      destruct (fl_open _ _ _ HI _ _ _ Hj' Hy'). lia.
Qed.

Lemma followed_step c c' i t T : points_step c c' → c'.2 ≠ [] → flights cluster c.1 c.2 → truthful c.1 c.2 →
  followed i t T c.1 c.2 → followed i t T c'.1 c'.2.
Proof.
  intros Hs Hne HI HT (Hn & p & Hi & Ht & Hp).
  destruct Hs as [s pts j x y s' Hj Hx|s pts j x y Hj Hx|s pts l Hl|s s' pts (n & node & Hnow & ->)|s pts]; cbn in *; [..|done].
  - pose proof (step_extends _ _ _ _ Hx) as (Hn' & _). split; [lia|]. destruct (decide (j = i)) as [->|Hij].
    + rewrite Hi in Hj. injection Hj as <-. exists y. split_and!.
      * apply list_lookup_insert_eq. by eapply lookup_lt_Some.
      * by rewrite (token_of_step _ _ _ _ Hx).
      * by eapply since_step.
    + exists p. split_and!; [by rewrite list_lookup_insert_ne|done|]. by eapply since_other.
  - split; [done|]. assert (y = Answered (token_of x) (Err [ECancelled]) ∧ owes x = None) as [-> Ho] by (destruct x; cbn in Hx; by simplify_eq).
    destruct (decide (j = i)) as [->|Hij].
    + rewrite Hi in Hj. injection Hj as <-. eexists. split_and!; [apply list_lookup_insert_eq; by eapply lookup_lt_Some|done|]. by split.
    + exists p. split_and!; [by rewrite list_lookup_insert_ne|done|]. destruct Hp as [Hp Hw]. split; [done|].
      destruct p as [| | | | | | | | |l call|]; try done. destruct Hw as [Hc Hw]. split; [done|].
      intros k z [(-> & <- & _)|(Hk & Hz)]%list_lookup_insert_Some Hoz; [done|by eapply Hw].
  - split; [done|]. exists p. split_and!; [by apply lookup_app_l_Some|done|]. destruct Hp as [Hp Hw]. split; [done|].
    destruct p as [| | | | | | | | |l' call|]; try done. destruct Hw as [Hc Hw]. split; [done|].
    intros k z [[_ ->]|Hz]%lookup_snoc_point Hoz; [done|by eapply Hw].
  - split; [cbn; lia|]. exists p. split_and!; [done..|].
    match goal with |- since ?s' _ _ _ _ => assert (extends s s') as He by (unfold extends; cbn; split_and!; [lia|done|done]) end.
    destruct Hp as [Hp Hw]. split; [by eapply promised_mono|]. destruct p as [| | | | | | | | |l' call|]; try done.
Qed.

Definition sound (s : State) (pts : list point) : Prop := flights cluster s pts ∧ reads cluster s pts ∧ truthful s pts.
Lemma reachable_sound c : mint_reachable cluster ttl registry c → ∃ pts, c.2 = map (code cluster ttl) pts ∧ sound c.1 pts.
Proof.
  apply (mint_reachable_points cluster ttl registry sound).
  - intros s Hr. destruct (rested_flights cluster s Hr). split_and!; [done..|].
    destruct Hr as (_ & Ec & _). cbn in Ec. constructor; rewrite ?Ec; done.
  - intros c1 c2 Hs (HI & HR & HT). destruct (flights_points_step _ _ _ _ _ Hs HI HR). split_and!; [done..|].
    by eapply truthful_points_step.
Qed.

Lemma judge_sound t at_ info : ob_fault (judge cluster t at_ info) = "" →
  ∃ m, ai_Exists info = true ∧ ai_Owner info = tokenProgramKey ∧ DecodeMint (ai_Data info) = Ok m ∧
    mint_IsInitialized m = true ∧ mint_Decimals m = tok_Decimals t ∧
    judge cluster t at_ info = mkObservation m (AuthorityDrift t m) "" at_.
Proof.
  unfold judge. destruct (ai_Exists info); [|done]. cbn. destruct (String.eqb_spec (ai_Owner info) tokenProgramKey) as [Eo|]; [|done].
  cbn. destruct (DecodeMint (ai_Data info)) as [m|]; [|done]. destruct (mint_IsInitialized m) eqn:Em; [|done]. cbn.
  destruct (Z.eqb_spec (mint_Decimals m) (tok_Decimals t)) as [Ed|]; [|done]. intros _. by exists m.
Qed.

(** Buyers who ask at once cost one request.  In every reachable
    configuration, whatever the interleaving, the cancellations, the node's answers
    and the crashes, no two requests for the same mint are outstanding at the node. *)
Theorem one_request_per_mint c : mint_reachable cluster ttl registry c →
  ∀ a b k, mv_reading c.1 !! a = Some k → mv_reading c.1 !! b = Some k → a = b.
Proof.
  intros (pts & _ & HI & HR & _)%reachable_sound a b k Ha Hb.
  apply HR in Ha as (i & p & Hi & Hp%asks_leads). apply HR in Hb as (j & q & Hj & Hq%asks_leads).
  by destruct (sole_leader _ _ _ _ _ _ _ _ _ _ HI Hi Hj Hp Hq).
Qed.

(** C30: nobody waits for ever.  From every reachable configuration the requests in
    progress can be answered by their own actions alone: a caller waiting for
    somebody else's reading is never left behind, whoever was cancelled. *)
Theorem callers_are_answered c : mint_reachable cluster ttl registry c →
  ∃ c', rtc acts c c' ∧ Forall replied c'.2.
Proof.
  apply (drains (env_step) restart (request cluster ttl registry)).
  - intros c1 c2 (c0 & Hr & Hs) H12. exists c0. split; [done|]. by eapply rtc_r.
  - intros [s ps] (pts & Hps & HI & _)%reachable_sound Hn. cbn in *. subst ps.
    assert (∃ i p, pts !! i = Some p ∧ is_Some (point_step p s)) as (i & p & Hi & [[q s'] Hq]).
    { apply not_Forall_Exists in Hn; [|apply _]. apply Exists_exists in Hn as (x & (p & -> & Hp)%list_elem_of_fmap & Hx).
      apply list_elem_of_lookup in Hp as [i Hi].
      destruct (point_step p s) as [[q s']|] eqn:E; [by exists i, p|].
      destruct p as [| | | | | | | | |t call|t r]; cbn in E; try done.
      - by destruct (decide_look _ _ _ _ _).
      - destruct (mv_calls s !! call) eqn:Ec; [done|].
        destruct (fl_waits _ _ _ HI _ _ _ Hi eq_refl) as [[? H]|(j & q & Hj & Hq)]; [congruence|].
        exists j, q. split; [done|]. by destruct q; cbn in *; try done; eexists.
      - exfalso. apply Hx. destruct r as [o|e]; cbn; [destruct (holds o)|]; by eexists. }
    exists (s', <[i := code cluster ttl q]> (map (code cluster ttl) pts)). apply (next_acts s _ i (code cluster ttl p)).
    + by rewrite list_lookup_fmap, Hi.
    + by rewrite next_of_code, Hq.
Qed.

(** One step of the service that does not crash it. *)
Definition proceeds (c c' : config) : Prop := mint_step cluster ttl registry c c' ∧ c'.2 ≠ [].

Lemma code_answered p v : code cluster ttl p = Ret v → ∃ r, p = Answered (token_of p) r ∧ conclude (Ret r) = Ret v.
Proof.
  intros E. assert (∀ s, next_of (code cluster ttl p) s = None ∧ failed_of (code cluster ttl p) = None) as Hn by (by rewrite E).
  setoid_rewrite next_of_code in Hn. setoid_rewrite failed_of_code in Hn.
  pose (s0 := mkState ∅ ∅ ∅ 0 0 [] 0 (fun _ => Err []) ∅ [] []).
  destruct (Hn s0) as [H1 H2]. destruct p as [| | | | | | | | | |t r]; cbn in H1, H2; try done. by exists r.
Qed.

Lemma followed_run c c' i t T : rtc proceeds c c' → ∀ pts, c.2 = map (code cluster ttl) pts → sound c.1 pts → followed i t T c.1 pts →
  ∃ pts', c'.2 = map (code cluster ttl) pts' ∧ sound c'.1 pts' ∧ followed i t T c'.1 pts'.
Proof.
  induction 1 as [c|[s ps] c2 c3 [H12 Hne] _ IH]; intros pts Hps Hs Hf; [by exists pts|]. cbn in *. subst ps.
  destruct (mint_step_points _ _ _ _ _ _ H12) as (pts2 & Hp & E2). destruct Hs as (HI & HR & HT).
  apply (IH pts2 E2).
  - destruct (flights_points_step _ _ _ _ _ Hp HI HR). split_and!; [done..|]. by apply (truthful_points_step _ _ Hp).
  - apply (followed_step _ _ _ _ _ Hp); try done. cbn. intros ->. by rewrite E2 in Hne.
Qed.

(** C29: a mint is checked on use.  If a request for the mint [t] that arrives in [c]
    is answered with success in [c'], then the node had answered, no later than the
    observation's stamp, with an account that exists, belongs to the token program
    and decodes to an initialised mint of [t]'s scale; and that observation was
    recorded after the request arrived, or stamped less than the TTL before it. *)
Theorem verified_on_use c c' t : mint_reachable cluster ttl registry c → governs t →
  rtc proceeds (c.1, c.2 ++ [mints_Verify cluster ttl t]) c' → c'.2 !! length c.2 = Some (Ret (Ok tt)) →
  ∃ τ info m at_ ρ, (τ, key t, info) ∈ mv_replies c'.1 ∧ τ ≤ at_ ∧
    ai_Exists info = true ∧ ai_Owner info = tokenProgramKey ∧ DecodeMint (ai_Data info) = Ok m ∧
    mint_IsInitialized m = true ∧ mint_Decimals m = tok_Decimals t ∧
    (ρ, key t, mkObservation m (AuthorityDrift t m) "" at_) ∈ mv_recorded c'.1 ∧
    (mv_now c.1 - ttl < at_ ∨ mv_now c.1 ≤ ρ).
Proof.
  intros (pts & Hps & HI & HR & HT)%reachable_sound Ht Hrun Hi.
  assert (points_step (c.1, pts) (c.1, pts ++ [AtStart t])) as Hsp by (by apply points_spawn).
  destruct (followed_run _ _ (length pts) t (mv_now c.1) Hrun (pts ++ [AtStart t])) as (pts' & Hps' & (_ & _ & HT') & Hf).
  - cbn. rewrite Hps, map_app. done.
  - destruct (flights_points_step _ _ _ _ _ Hsp HI HR). split_and!; [done..|]. by apply (truthful_points_step _ _ Hsp).
  - split; [cbn; lia|]. exists (AtStart t). split_and!; [|done|by split]. rewrite lookup_app_r by lia. by rewrite Nat.sub_diag.
  - destruct Hf as (_ & p & Hp & Hpt & Hsince & _).
    assert (length c.2 = length pts) as El by (rewrite Hps; apply length_map). rewrite El, Hps', list_lookup_fmap, Hp in Hi.
    injection Hi as Hc. destruct (code_answered p (Ok tt) Hc) as (r & E & Hr). rewrite Hpt in E. subst p.
    destruct r as [obs|e]; cbn in Hr; [|done]. unfold holds in Hr.
    destruct (String.eqb_spec (ob_fault obs) "") as [Ef|]; [|done].
    destruct (tr_knows _ _ HT' _ _ Hp) as [Hobs _]. destruct (Hobs Ef) as (τ & info & Hin & Hτ & Ej).
    destruct (Hsince Ef) as (ρ & Hrec & Hfresh). rewrite Ej in Ef.
    destruct (judge_sound _ _ _ Ef) as (m & A & B & C & D & F & G). rewrite G in Ej.
    exists τ, info, m, (ob_at obs), ρ. rewrite <-Ej. by split_and!.
Qed.
End Truth.
(** ** Concrete runs: two buyers of one mint on devnet *)
Section Runs.
Context `{IK : SolanaKeys} `{IM : MintDecoder} (cluster : Cluster) (ttl : duration) (registry : gmap string Token).

(** The requests named by the schedule act in turn. *)
Definition act_one (i : nat) (c : config) : option config :=
  p ← c.2 !! i; x ← next_of p c.1; Some (x.2, <[i := x.1]> c.2).
Definition schedule (l : list nat) (c : config) : option config := foldl (fun o i => c ← o; act_one i c) (Some c) l.

Lemma act_one_step i c c' : act_one i c = Some c' → mint_step cluster ttl registry c c'.
Proof.
  destruct c as [s ps]. unfold act_one. cbn. destruct (ps !! i) as [[a|R f fl k]|] eqn:Hi; cbn; [done| |done].
  destruct (f s) as [[r s']|] eqn:Hf; cbn; [|done]. intros [= <-]. by eapply step_act.
Qed.

Lemma schedule_steps l c c' : schedule l c = Some c' → rtc (mint_step cluster ttl registry) c c'.
Proof.
  unfold schedule. revert c. induction l as [|i l IH]; intros c; cbn; [by intros [= ->]|].
  destruct (act_one i c) as [c1|] eqn:E; cbn; [intros H; eapply rtc_l; [by eapply act_one_step|by apply IH]|].
  intros H. exfalso. revert H. clear. induction l as [|j l IH]; cbn; [done|exact IH].
Qed.

Lemma schedule_proceeds l c c' : c.2 ≠ [] → schedule l c = Some c' → rtc (proceeds cluster ttl registry) c c' ∧ c'.2 ≠ [].
Proof.
  unfold schedule. revert c. induction l as [|i l IH]; intros c Hc; cbn; [by intros [= <-]|].
  destruct (act_one i c) as [c1|] eqn:E; cbn.
  - assert (c1.2 ≠ []) as Hc1.
    { revert E. unfold act_one. destruct (c.2 !! i); cbn; [|done]. destruct (next_of _ _); cbn; [|done]. intros [= <-]. cbn.
      intros Hn%(f_equal length). rewrite length_insert in Hn. by destruct c.2. }
    intros H. destruct (IH c1 Hc1 H) as [Hr Hne]. split; [|done]. eapply rtc_l; [|exact Hr]. split; [by eapply act_one_step|done].
  - intros H. exfalso. revert H. clear. induction l as [|j l IH]; cbn; [done|exact IH].
Qed.

Lemma arrive c t : mint_reachable cluster ttl registry c → registry !! tok_Address t = Some t →
  mint_reachable cluster ttl registry (c.1, c.2 ++ [mints_Verify cluster ttl t]).
Proof. intros (c0 & Hr & Hs) Ht. exists c0. split; [done|]. eapply rtc_r; [done|]. destruct c. apply step_spawn. by exists t. Qed.

Lemma scheduled l c c' : mint_reachable cluster ttl registry c → schedule l c = Some c' → mint_reachable cluster ttl registry c'.
Proof. intros (c0 & Hr & Hs) Hl. exists c0. split; [done|]. etrans; [done|]. by eapply schedule_steps. Qed.
End Runs.

#[local] Existing Instances demoKeys demoMintDecoder.
Definition demoUSDC : Token := demoGoverned "auth".
Definition demoGovernedSet : gmap string Token := {["USDC" := demoUSDC]}.
Definition demoVerifierState : State :=
  mkState ∅ ∅ ∅ 0 0 [] 0 (fun _ => Ok (mkAccountInfo TokenProgram "mint" true)) ∅ [] [].
Definition demoAsked : config :=
  (demoVerifierState, [mints_Verify Devnet DefaultMintVerificationTTL demoUSDC; mints_Verify Devnet DefaultMintVerificationTTL demoUSDC]).
(** The first has asked the node, the second waits for it. *)
Definition demoInFlight : option config := schedule [0; 0; 0; 1; 1]%nat demoAsked.

Lemma demoVerifier_reachable : mint_reachable Devnet DefaultMintVerificationTTL demoGovernedSet (demoVerifierState, []).
Proof. exists (demoVerifierState, []). split; [done|constructor]. Qed.
Lemma demoAsked_reachable : mint_reachable Devnet DefaultMintVerificationTTL demoGovernedSet demoAsked.
Proof.
  apply (arrive _ _ _ (demoVerifierState, [mints_Verify Devnet DefaultMintVerificationTTL demoUSDC]) demoUSDC); [|reflexivity].
  apply (arrive _ _ _ (demoVerifierState, []) demoUSDC); [exact demoVerifier_reachable|reflexivity].
Qed.

Lemma one_request_per_mint_witness :
  ∃ c, mint_reachable Devnet DefaultMintVerificationTTL demoGovernedSet c ∧ mv_reading c.1 !! 0%nat = Some "devnet/USDC" ∧
    ∀ a b k, mv_reading c.1 !! a = Some k → mv_reading c.1 !! b = Some k → a = b.
Proof.
  destruct demoInFlight as [c|] eqn:Hc; [|exfalso; revert Hc; vm_compute; discriminate].
  assert (mint_reachable Devnet DefaultMintVerificationTTL demoGovernedSet c) as Hr by (eapply scheduled; [apply demoAsked_reachable|exact Hc]).
  exists c. split; [exact Hr|]. split; [|exact (one_request_per_mint _ _ _ c Hr)].
  assert ((fun c => mv_reading c.1 !! 0%nat) <$> demoInFlight = Some (Some "devnet/USDC")) as H by (vm_compute; reflexivity).
  rewrite Hc in H. by injection H.
Defined.

Lemma callers_are_answered_witness :
  ∃ c, mint_reachable Devnet DefaultMintVerificationTTL demoGovernedSet c ∧ mv_inflight c.1 !! "devnet/USDC" = Some 0%nat ∧
    ∃ c', rtc acts c c' ∧ Forall replied c'.2.
Proof.
  destruct demoInFlight as [c|] eqn:Hc; [|exfalso; revert Hc; vm_compute; discriminate].
  assert (mint_reachable Devnet DefaultMintVerificationTTL demoGovernedSet c) as Hr by (eapply scheduled; [apply demoAsked_reachable|exact Hc]).
  exists c. split; [exact Hr|]. split; [|exact (callers_are_answered _ _ _ c Hr)].
  assert ((fun c => mv_inflight c.1 !! "devnet/USDC") <$> demoInFlight = Some (Some 0%nat)) as H by (vm_compute; reflexivity).
  rewrite Hc in H. by injection H.
Defined.

(** One buyer asks a node that answers, and is told yes. *)
Definition demoServed : option config :=
  schedule [0; 0; 0; 0; 0; 0; 0; 0]%nat (demoVerifierState, [mints_Verify Devnet DefaultMintVerificationTTL demoUSDC]).

Lemma verified_on_use_witness :
  ∃ c', demoServed = Some c' ∧ ∃ τ info m at_ ρ, (τ, "devnet/USDC", info) ∈ mv_replies c'.1 ∧ τ ≤ at_ ∧
    DecodeMint (ai_Data info) = Ok m ∧ mint_Decimals m = 6 ∧
    (ρ, "devnet/USDC", mkObservation m (AuthorityDrift demoUSDC m) "" at_) ∈ mv_recorded c'.1.
Proof.
  destruct demoServed as [c|] eqn:Hc; [|exfalso; revert Hc; vm_compute; discriminate]. exists c. split; [reflexivity|].
  edestruct (schedule_proceeds Devnet DefaultMintVerificationTTL demoGovernedSet) as [Hr _]; [|exact Hc|]; [discriminate|].
  assert ((fun c => c.2 !! 0%nat) <$> demoServed = Some (Some (Ret (Ok tt)))) as H by (vm_compute; reflexivity).
  rewrite Hc in H. apply (inj Some) in H.
  destruct (verified_on_use Devnet DefaultMintVerificationTTL demoGovernedSet (demoVerifierState, []) c demoUSDC) as (τ & info & m & at_ & ρ & A & B & _ & _ & D & _ & F & G & _).
  - exact demoVerifier_reachable.
  - reflexivity.
  - exact Hr.
  - exact H.
  - exists τ, info, m, at_, ρ. split_and!; assumption.
Defined.
