(* ===== verification/Safety.v ===== *)
(** * Invariants of the whole service, over every interleaving

    [wf] is what holds of the world between any two actions of any requests;
    [evo] is how the world may have moved since an earlier moment.  Each
    operation of the trade, ledger, registry and settlement code is shown to
    keep both at every one of its actions, whatever the other requests do in
    between ([good]); [Prog.pool_safe] lifts this to pools of concurrent
    requests with I/O failures and crashes at any point. *)
From S2P Require Import Prelude Prog Money Domain Cluster Limits Tokens Settlement Keys Attest Probe World Store Auth Market Ledger Trade TradeSettlement.

(** What a process runs with: the configuration of its three services. *)
Record Deployment := mkDeployment {
  dp_trade :> Service; dp_registry : Registrar; dp_auth : Authority }.

(** ** Relations *)
Definition can_step (a b : TradeState) : Prop := is_Some (canTransition a b).
Definition steps : relation TradeState := rtc can_step.

(** The columns of a trade that nothing updates. *)
Definition same_terms (r r' : TradeRow) : Prop :=
  t_offer r = t_offer r' ∧ t_buyer r = t_buyer r' ∧ t_seller r = t_seller r' ∧
  t_description r = t_description r' ∧ t_amount r = t_amount r' ∧ t_mint r = t_mint r' ∧
  t_mode r = t_mode r' ∧ t_idem r = t_idem r' ∧ t_created r = t_created r'.

(** The columns of a settlement request that nothing updates, and its status. *)
Definition same_request (q q' : RequestRow) : Prop :=
  q_trade q = q_trade q' ∧ q_tx q = q_tx q' ∧ q_blockhash q = q_blockhash q' ∧
  q_last q = q_last q' ∧ q_buyer_ata q = q_buyer_ata q' ∧ q_seller_ata q = q_seller_ata q' ∧
  q_fee q = q_fee q' ∧ q_wallet q = q_wallet q' ∧ q_created q = q_created q' ∧
  q_expires q = q_expires q' ∧ q_cluster q = q_cluster q' ∧
  (q_status q = q_status q' ∨ q_status q = SettlementIssued).

Definition same_challenge (c c' : ChallengeRow) : Prop :=
  c_agent c = c_agent c' ∧ c_nonce c = c_nonce c' ∧ c_expires c = c_expires c' ∧
  (c_consumed c = c_consumed c' ∨ c_consumed c = None).

(** The columns of an offer that nothing updates, and its status. *)
Definition same_offer_row (o o' : OfferRow) : Prop :=
  o_agent o = o_agent o' ∧ o_direction o = o_direction o' ∧ o_description o = o_description o' ∧
  o_caps o = o_caps o' ∧ o_price o = o_price o' ∧ o_mint o = o_mint o' ∧ o_modes o = o_modes o' ∧
  o_idem o = o_idem o' ∧ o_created o = o_created o' ∧ o_expires o = o_expires o' ∧
  (o_status o' = o_status o ∨ o_status o' = OfferClosed).

(** Every row of the first table is still in the second, related by [P]. *)
Definition rows_evolve {A} (P : A → A → Prop) (m m' : gmap string A) : Prop :=
  ∀ k x, m !! k = Some x → ∃ x', m' !! k = Some x' ∧ P x x'.

Definition trade_evolves (r r' : TradeRow) : Prop := same_terms r r' ∧ steps (t_state r) (t_state r').

Record evo_db (d d' : DB) : Prop := mkEvo {
  evo_trades : rows_evolve trade_evolves (trades d) (trades d');
  evo_new : ∀ k r, trades d !! k = None → trades d' !! k = Some r → steps TradeProposed (t_state r);
  evo_ledger : ledger d `prefix_of` ledger d';
  evo_events : events d `prefix_of` events d';
  evo_receipts : receipts d ⊆ receipts d';
  evo_acceptances : acceptances d ⊆ acceptances d';
  evo_requests : rows_evolve same_request (requests d) (requests d');
  evo_challenges : rows_evolve same_challenge (challenges d) (challenges d');
  evo_offers : rows_evolve same_offer_row (offers d) (offers d');
  evo_signed : offer_attestations d ⊆ offer_attestations d' }.

Definition evo (w w' : World) : Prop :=
  evo_db (w_db w) (w_db w') ∧ ch_landed (w_chain w) ⊆ ch_landed (w_chain w').

(** ** What holds of every reachable world *)
Definition completed (s : TradeState) : Prop := s = TradeRecorded ∨ s = TradeSettled.

(** The states a trade can only be in after both parties accepted it. *)
Definition agreed (s : TradeState) : bool :=
  match s with
  | TradeAccepted | TradeSettlementPending | TradeRecorded | TradeSettled
  | TradeDisputed | TradeResolved => true
  | _ => false
  end.

(** The record of a stored trade, as a tessera carries it. *)
Definition row_record (id : string) (r : TradeRow) (at_ : time) : TradeRecord :=
  mkTradeRecord id (t_offer r) (t_buyer r) (t_seller r) (t_description r) (t_amount r) (t_mint r)
    (t_mode r) (TradeState_string (t_state r)) at_.

(** The stored trade as the service reads it while it awaits settlement. *)
Definition pending_trade (id : string) (r : TradeRow) (amount : Amount) : Trade :=
  mkTrade id (t_offer r) (t_buyer r) (t_seller r) (t_description r) amount (t_mint r) (t_mode r)
    TradeSettlementPending "" 0 0 [] [].

(** The stored trade has the terms of the offer and one party is its publisher. *)
Definition honours (r : TradeRow) (o : OfferRow) : Prop :=
  t_description r = o_description o ∧ t_amount r = o_price o ∧ t_mint r = o_mint o ∧ t_mode r ∈ o_modes o ∧
  (if String.eqb (o_direction o) DirectionBid then t_buyer r else t_seller r) = o_agent o.

(** The postcondition of a call whose value tells nothing. *)
Abbreviation any := (fun _ _ => True).

Section Safety.
Context `{IU : Unicode} `{IS : Solana} `{IJ : JWT} `{IB : Base58} `{IE : Ed25519} `{IN : NetURL} (sv : Deployment).

(** A transaction that settles exactly this trade has landed, without error, on
    a chain the endpoint served. *)
Definition proven (id : string) (r : TradeRow) (landed : gmap (string * string) Fetched) : Prop :=
  ∃ d amount terms h sig f,
    sv_settlement sv = Some d ∧ Money.Parse (t_amount r) = Ok amount ∧
    NewTerms (pending_trade id r amount) (sd_Registry d) (sd_Policy d) = Ok terms ∧
    landed !! (h, sig) = Some f ∧ fe_ExecErr f = false ∧
    Settlement.Verify terms (fe_Transaction f) = Ok tt.

Record wf (w : World) : Prop := mkWf {
  wf_chain : chain_ok (ledger (w_db w));
  wf_once : NoDup (map le_TradeID (ledger (w_db w)));
  wf_entry : ∀ e, e ∈ ledger (w_db w) → ∃ r at_,
    trades (w_db w) !! le_TradeID e = Some r ∧ completed (t_state r) ∧
    TradeRecord_json (row_record (le_TradeID e) r at_) = Ok (le_Payload e);
  wf_receipt : ∀ k r, receipts (w_db w) !! k = Some r →
    rc_ID r = k ∧ ∃ e, e ∈ ledger (w_db w) ∧ le_TradeID e = rc_TradeID r;
  wf_receipt_once : ∀ k1 r1 k2 r2, receipts (w_db w) !! k1 = Some r1 → receipts (w_db w) !! k2 = Some r2 →
    rc_TradeID r1 = rc_TradeID r2 → k1 = k2;
  wf_request_once : ∀ k1 q1 k2 q2, requests (w_db w) !! k1 = Some q1 → requests (w_db w) !! k2 = Some q2 →
    q_status q1 = SettlementIssued → q_status q2 = SettlementIssued → q_trade q1 = q_trade q2 → k1 = k2;
  wf_parties : ∀ k r, trades (w_db w) !! k = Some r →
    t_buyer r ≠ t_seller r ∧ is_ok (Money.Parse (t_amount r)) = true;
  wf_acceptance : ∀ t a x, acceptances (w_db w) !! (t, a) = Some x →
    ∃ r, trades (w_db w) !! t = Some r ∧ (a = t_buyer r ∨ a = t_seller r);
  wf_agreed : ∀ k r, trades (w_db w) !! k = Some r → agreed (t_state r) = true →
    is_Some (acceptances (w_db w) !! (k, t_buyer r)) ∧ is_Some (acceptances (w_db w) !! (k, t_seller r));
  wf_settled : ∀ k r, trades (w_db w) !! k = Some r → t_state r = TradeSettled →
    proven k r (ch_landed (w_chain w));
  wf_terms : ∀ k r, trades (w_db w) !! k = Some r → ∃ o, offers (w_db w) !! t_offer r = Some o ∧ honours r o;
  wf_keys : keys_valid (w_db w);
  wf_offers_signed : offers_signed (dp_registry sv) (w_db w);
  wf_cards_signed : cards_signed (dp_registry sv) (w_db w);
  wf_probes : probes_agree (w_db w);
  wf_rows : rows_typed (w_db w) }.

(** The guarantee of every action, and so also the rely. *)
Definition R (w w' : World) : Prop := wf w → wf w' ∧ evo w w'.

(** ** Order structure *)
Lemma rows_evolve_refl {A} (P : A → A → Prop) m : (∀ x, P x x) → rows_evolve P m m.
Proof. intros HP k x Hx. eauto. Qed.

Lemma rows_evolve_trans {A} (P : A → A → Prop) m1 m2 m3 :
  (∀ x y z, P x y → P y z → P x z) → rows_evolve P m1 m2 → rows_evolve P m2 m3 → rows_evolve P m1 m3.
Proof.
  intros HP H12 H23 k x Hx. destruct (H12 k x Hx) as (y & Hy & Hxy).
  destruct (H23 k y Hy) as (z & Hz & Hyz). eauto.
Qed.

Lemma trade_evolves_refl r : trade_evolves r r.
Proof. split; [by split_and!|reflexivity]. Qed.

Lemma same_request_refl q : same_request q q.
Proof. split_and!; try done. by left. Qed.

Lemma same_offer_row_refl o : same_offer_row o o.
Proof. split_and!; try done. by left. Qed.

Lemma same_offer_row_trans o1 o2 o3 : same_offer_row o1 o2 → same_offer_row o2 o3 → same_offer_row o1 o3.
Proof. unfold same_offer_row. naive_solver congruence. Qed.

Lemma same_challenge_refl c : same_challenge c c.
Proof. split_and!; try done. by left. Qed.

Lemma evo_db_refl d : evo_db d d.
Proof.
  split; try reflexivity.
  - apply rows_evolve_refl, trade_evolves_refl.
  - intros k r Hk Hr. congruence.
  - apply rows_evolve_refl, same_request_refl.
  - apply rows_evolve_refl, same_challenge_refl.
  - apply rows_evolve_refl, same_offer_row_refl.
Qed.

Lemma trade_evolves_trans r1 r2 r3 : trade_evolves r1 r2 → trade_evolves r2 r3 → trade_evolves r1 r3.
Proof.
  intros [H1 S1] [H2 S2]. split; [|by etrans]. unfold same_terms in *. naive_solver congruence.
Qed.

Lemma evo_db_trans d1 d2 d3 : evo_db d1 d2 → evo_db d2 d3 → evo_db d1 d3.
Proof.
  intros H12 H23. split.
  - eapply rows_evolve_trans; [exact trade_evolves_trans|apply H12|apply H23].
  - intros k r Hk Hr. destruct (trades d2 !! k) as [r2|] eqn:H2.
    + pose proof (evo_new _ _ H12 k r2 Hk H2). destruct (evo_trades _ _ H23 k r2 H2) as (r' & Hr' & _ & Hs).
      simplify_eq. by etrans.
    + by eapply evo_new.
  - etrans; [apply H12|apply H23].
  - etrans; [apply H12|apply H23].
  - etrans; [apply H12|apply H23].
  - etrans; [apply H12|apply H23].
  - eapply rows_evolve_trans; [|apply H12|apply H23].
    unfold same_request. naive_solver congruence.
  - eapply rows_evolve_trans; [|apply H12|apply H23].
    unfold same_challenge. naive_solver congruence.
  - eapply rows_evolve_trans; [exact same_offer_row_trans|apply H12|apply H23].
  - etrans; [apply H12|apply H23].
Qed.

#[export] Instance R_reflexive : Reflexive R.
Proof. intros w Hw. split; [done|]. split; [apply evo_db_refl|reflexivity]. Qed.

#[export] Instance evo_transitive : Transitive evo.
Proof. intros w1 w2 w3 [H1 L1] [H2 L2]. split; [by eapply evo_db_trans|by etrans]. Qed.

#[export] Instance R_transitive : Transitive R.
Proof.
  intros w1 w2 w3 H12 H23 Hw. destruct (H12 Hw) as [Hw2 E12]. destruct (H23 Hw2) as [Hw3 E23].
  split; [done|]. by etrans.
Qed.

(** ** The judgement *)

(** What a request knows about the world that no other request can falsify. *)
Definition stable (P : World → Prop) : Prop := ∀ w w', evo w w' → P w → P w'.

(** From a well-formed world that satisfies [P], and whatever the others do, every
    action of [m] is one of [R] and its result satisfies [Q]. *)
Definition spec {A} (P : World → Prop) (m : prog World A) (Q : A → World → Prop) : Prop :=
  ∀ w, wf w → P w → safe R R (fun a w' => wf w' ∧ Q a w') m w.

Definition true_ (w : World) : Prop := True.
Definition oks {A} (S : A → World → Prop) (r : res A) (w : World) : Prop :=
  match r with Ok a => S a w | Err _ => True end.

(** The judgement of an operation that needs to know nothing. *)
Definition good {A} (m : io World A) : Prop := spec true_ m (oks any).

Lemma stable_true : stable true_.
Proof. done. Qed.
Lemma stable_and P Q : stable P → stable Q → stable (fun w => P w ∧ Q w).
Proof. intros HP HQ w w' E [??]. split; [by eapply HP|by eapply HQ]. Qed.
Lemma stable_pure (φ : Prop) : stable (fun _ => φ).
Proof. by intros w w' _ Hp. Qed.

Lemma spec_conseq {A} (P P' : World → Prop) (m : prog World A) (Q Q' : A → World → Prop) :
  (∀ w, P' w → P w) → (∀ a w, Q a w → Q' a w) → spec P m Q → spec P' m Q'.
Proof.
  intros HP HQ Hm w Hw HP'. eapply safe_mono; [|by apply Hm; [|apply HP]].
  intros a w' [??]. split; [done|]. by apply HQ.
Qed.

(** Strengthen a precondition with what [wf] gives. *)
Lemma spec_pre {A} (P P' : World → Prop) (m : prog World A) Q :
  (∀ w, wf w → P' w → P w) → spec P m Q → spec P' m Q.
Proof. intros HP Hm w Hw HP'. apply Hm; [done|]. by apply HP. Qed.

(** A pure fact may be used by the program's proof. *)
Lemma spec_pure {A} (φ : Prop) (P : World → Prop) (m : prog World A) Q :
  (φ → spec P m Q) → spec (fun w => P w ∧ φ) m Q.
Proof. intros Hm w Hw [HP Hφ]. by apply Hm. Qed.

Lemma spec_ret {A} (P : World → Prop) (a : A) (Q : A → World → Prop) :
  (∀ w, P w → Q a w) → spec P (Ret a) Q.
Proof. intros HQ w Hw HP. split; [done|]. by apply HQ. Qed.

Lemma spec_atomic {A X} (P : World → Prop) f fl (k : X → prog World A) Q Q' :
  stable P →
  (∀ w r w', wf w → P w → f w = Some (r, w') → wf w' ∧ evo w w' ∧ Q' r w') →
  (∀ w r, P w → fl = Some r → Q' r w) →
  (∀ r, spec (Q' r) (k r) Q) → spec P (Atomic f fl k) Q.
Proof.
  intros HP Hact Hfl Hk w Hw HPw w1 HR. destruct (HR Hw) as [Hw1 He]. pose proof (HP _ _ He HPw) as HP1.
  split.
  - intros r w2 Hf. destruct (Hact _ _ _ Hw1 HP1 Hf) as (Hw2 & He2 & HQ). split; [by intros _|].
    by apply Hk.
  - intros r Hr. apply Hk; [done|]. by eapply Hfl.
Qed.

Lemma spec_bind {A B} (P : World → Prop) (m : prog World A) (f : A → prog World B) S Q :
  spec P m S → (∀ a, spec (S a) (f a) Q) → spec P (prog_bind f m) Q.
Proof.
  intros Hm Hf w Hw HP. apply safe_bind. eapply safe_mono; [|by apply Hm].
  intros a w' [Hw' HS]. by apply Hf.
Qed.

Lemma safe_frame {A} (F : World → Prop) (Q : A → World → Prop) (m : prog World A) w :
  stable F → wf w → F w → safe R R Q m w → safe R R (fun a w' => Q a w' ∧ F w') m w.
Proof.
  intros HF. revert w. induction m as [a|X f fl k IH]; cbn; intros w Hw HFw Hm; [done|].
  intros w1 HR. destruct (HR Hw) as [Hw1 He]. pose proof (HF _ _ He HFw) as HF1.
  destruct (Hm w1 HR) as [H1 H2]. split.
  - intros r w2 Hf. destruct (H1 r w2 Hf) as [HR2 Hs]. split; [done|].
    destruct (HR2 Hw1) as [Hw2 He2]. apply IH; [done| |done]. by eapply HF.
  - intros r Hr. apply IH; [done|done|]. by apply H2.
Qed.

Lemma spec_frame {A} (F P : World → Prop) (m : prog World A) Q :
  stable F → spec P m Q → spec (fun w => P w ∧ F w) m (fun a w => Q a w ∧ F w).
Proof.
  intros HF Hm w Hw [HP HFw]. eapply safe_mono; [|apply (safe_frame F); [done|done|done|by apply Hm]].
  intros a w' [[??]?]. done.
Qed.

(** Sequencing a call: what was known stays known, and its result adds to it. *)
Lemma spec_then {A B} (F : World → Prop) (m : io World A) (f : A → io World B) S Q :
  stable F → (∀ e w, F w → Q (Err e) w) → spec F m (oks S) →
  (∀ a, spec (fun w => F w ∧ S a w) (f a) Q) → spec F (io_bind m f) Q.
Proof.
  intros HF HQ Hm Hf. unfold io_bind.
  apply (spec_bind F m _ (fun r w => oks S r w ∧ F w)).
  - eapply spec_conseq; [|intros a w Ha; exact Ha|apply (spec_frame F _ _ _ HF Hm)]. done.
  - intros [a|e]; [eapply spec_conseq; [| |apply Hf]; cbn; naive_solver|].
    apply spec_ret. intros w [_ ?]. auto.
Qed.

(** Sequencing with inspection of the error. *)
Lemma spec_on_result {A B} (F : World → Prop) (m : io World A) (k : res A → io World B) S Q :
  stable F → spec F m S → (∀ r, spec (fun w => F w ∧ S r w) (k r) Q) → spec F (on_result m k) Q.
Proof.
  intros HF Hm Hk. unfold on_result. eapply (spec_bind F m _ (fun r w => S r w ∧ F w)).
  - eapply spec_conseq; [|intros a w Ha; exact Ha|apply (spec_frame F _ _ _ HF Hm)]. done.
  - intros r. eapply spec_conseq; [|intros a w Ha; exact Ha|apply Hk]. cbn. naive_solver.
Qed.

Lemma spec_good {A} (F : World → Prop) (m : io World A) : good m → spec F m (oks any).
Proof. apply spec_conseq; [done|naive_solver]. Qed.

Lemma good_of {A} (m : io World A) Q : spec true_ m Q → good m.
Proof. apply spec_conseq; [done|]. intros [a|e] w _; done. Qed.

Lemma good_then {A B} (m : io World A) (f : A → io World B) :
  good m → (∀ a, good (f a)) → good (io_bind m f).
Proof.
  intros Hm Hf. eapply spec_then; [apply stable_true|done|exact Hm|].
  intros a. apply spec_good, Hf.
Qed.

Lemma good_on_result {A B} (m : io World A) (k : res A → io World B) :
  good m → (∀ r, good (k r)) → good (on_result m k).
Proof.
  intros Hm Hk. eapply spec_on_result; [apply stable_true|exact Hm|]. intros r. apply spec_good, Hk.
Qed.

Lemma good_ok {A} (a : A) : good (ok a).
Proof. by apply spec_ret. Qed.
Lemma good_fail {A} e : good (@fail World A e).
Proof. by apply spec_ret. Qed.
Lemma good_lift {A} (r : res A) : good (lift r).
Proof. apply spec_ret. by destruct r. Qed.
Lemma good_refuse b e : good (refuse b e).
Proof. apply good_lift. Qed.

Lemma good_fold {A B} (f : B → A → io World B) l acc :
  (∀ b a, good (f b a)) → good (io_fold f acc l).
Proof.
  intros Hf. revert acc. induction l as [|x l IH]; intros acc; [apply good_ok|].
  apply good_then; [apply Hf|apply IH].
Qed.

Lemma spec_lift {A} (P : World → Prop) (r : res A) : spec P (lift r) (oks (fun a _ => r = Ok a)).
Proof. apply spec_ret. by destruct r. Qed.

Lemma spec_refuse (P : World → Prop) b e : spec P (refuse b e) (oks (fun _ _ => b = false)).
Proof. apply spec_ret. by destruct b. Qed.

(** A loop whose body keeps [F], which holds of the accumulator at the start. *)
Lemma spec_fold {A B} (F : World → Prop) (f : B → A → io World B) (l : list A) acc :
  stable F → (∀ x, x ∈ l → ∀ b, spec F (f b x) (oks any)) → spec F (io_fold f acc l) (oks any).
Proof.
  intros HF. revert acc. induction l as [|x l IH]; intros acc Hf; [by apply spec_ret|].
  cbn [io_fold]. eapply spec_then; [done|done|apply Hf; set_solver|]. intros b.
  eapply spec_pre; [|apply IH; intros; apply Hf; set_solver]. naive_solver.
Qed.

(** *** Primitive actions *)

(** The clock, the identifiers, the lock and the endpoint leave the database
    alone. *)
Lemma wf_same_db w w' : w_db w' = w_db w → ch_landed (w_chain w') = ch_landed (w_chain w) →
  wf w → wf w' ∧ evo w w'.
Proof.
  intros E1 E2 Hw. split; [|split; [rewrite E1; apply evo_db_refl|by rewrite E2]].
  destruct Hw as [W1 W2 W3 W4 W5 W6 W7 W8 W9 W10 W11 W12 W13 W14 W15 W16]. split; rewrite ?E1, ?E2; assumption.
Qed.

Lemma good_unchanged {A} f fl :
  (∀ w r w', f w = Some (r, w') → w_db w' = w_db w ∧ ch_landed (w_chain w') = ch_landed (w_chain w)) →
  good (Atomic f fl (@Ret World (res A))).
Proof.
  intros Hf. eapply (spec_atomic _ _ _ _ _ (oks any)); [done| | |by intros; apply spec_ret].
  - intros w r w' Hw _ Hr. destruct (Hf w r w' Hr). destruct (wf_same_db w w') as [? ?]; try done.
    split_and!; [done|done|by destruct r].
  - intros w r _ _. by destruct r.
Qed.

Lemma good_now : good now.
Proof. apply good_unchanged. by intros w r w' [= <- <-]. Qed.
Lemma good_NewString : good NewString.
Proof. apply good_unchanged. by intros w r w' [= <- <-]. Qed.
Lemma good_lock : good lock.
Proof. apply good_unchanged. intros w r w'. destruct (w_locked w); [done|]. by intros [= <- <-]. Qed.
Lemma good_unlock : good unlock.
Proof. apply good_unchanged. by intros w r w' [= <- <-]. Qed.

(** An RPC answer may be remembered when the endpoint cannot take it back. *)
Lemma spec_rpc {A} (P : World → Prop) (f : Chain → res A) S :
  stable P → (∀ w a, wf w → P w → f (w_chain w) = Ok a → S a w) → spec P (rpc f) (oks S).
Proof.
  intros HP HS. eapply (spec_atomic _ _ _ _ _ (oks S)); [done| | |by intros; apply spec_ret].
  - intros w r w' Hw HPw [= <- <-]. edestruct (wf_same_db w w) as [? ?]; [done..|].
    split_and!; [done|done|]. unfold oks. destruct (f (w_chain w)) eqn:E; [by apply HS|done].
  - by intros w r _ [= <-].
Qed.

Lemma good_rpc {A} (f : Chain → res A) : good (rpc f).
Proof. by apply spec_rpc. Qed.

(** A query learns a stable fact that the rows it read imply. *)
Lemma spec_query {A} (P : World → Prop) (f : DB → res A) S :
  stable P → (∀ w a, wf w → P w → f (w_db w) = Ok a → S a w) → spec P (query f) (oks S).
Proof.
  intros HP HS. eapply (spec_atomic _ _ _ _ _ (oks S)); [done| | |].
  - intros w r w' Hw HPw [= <- <-]. split_and!; [done|split; [apply evo_db_refl|reflexivity]|].
    unfold oks. destruct (f (w_db w)) eqn:E; [by apply HS|done].
  - by intros w r _ [= <-].
  - intros r. by apply spec_ret.
Qed.

Lemma good_query {A} (f : DB → res A) : good (query f).
Proof. by apply spec_query. Qed.

(** A transaction that keeps [wf] and moves within [evo]. *)
Lemma spec_write {A} (P : World → Prop) (f : tx A) S :
  stable P →
  (∀ w a d', wf w → P w → f (w_db w) = Ok (a, d') →
     wf (with_db w d') ∧ evo_db (w_db w) d' ∧ S a (with_db w d')) →
  spec P (write f) (oks S).
Proof.
  intros HP Hf. eapply (spec_atomic _ _ _ _ _ (oks S)); [done| | |].
  - intros w r w' Hw HPw. destruct (f (w_db w)) as [[a d']|e] eqn:E; intros [= <- <-].
    + destruct (Hf w a d' Hw HPw E) as (? & ? & ?). split_and!; [done| |done]. split; [done|reflexivity].
    + split_and!; [done|split; [apply evo_db_refl|reflexivity]|done].
  - by intros w r _ [= <-].
  - intros r. by apply spec_ret.
Qed.
End Safety.

(** ** Tactics of the proofs about programs *)

(** Take the last learnt fact, which does not mention the world, out. *)
Ltac learn H :=
  match goal with |- Safety.spec _ ?P _ _ => let P' := eval cbv beta in P in change P with P' end;
  apply spec_pure; intros H.

(** Operations that need no knowledge, composed. *)
Ltac goods := repeat first
  [ apply good_ok | apply good_fail | apply good_lift | apply good_refuse
  | apply good_now | apply good_NewString | apply good_lock | apply good_unlock
  | apply good_query | apply good_rpc
  | solve [eauto with safety]
  | apply good_then; [|intros ?] | apply good_on_result; [|intros ?] | case_match ].
