(* ===== verification/Preserve.v ===== *)
(** * Every store operation keeps the invariants

    One lemma per statement of [Store]: it preserves [Safety.wf] and moves
    within [Safety.evo], from what its callers know when they issue it. *)
From S2P Require Import Prelude Prog Money Domain Cluster Limits Tokens Settlement Keys Attest Probe World Store Auth Market Ledger Trade TradeSettlement Safety.

(** ** The state graph *)
Lemma can_step_spec a b : can_step a b ↔ is_Some (transitions a b).
Proof. done. Qed.

Lemma steps_completed s s' : completed s → steps s s' → s' = s.
Proof.
  intros Hc Hs. destruct Hs as [|s1 s2 s3 [e He] _]; [done|].
  destruct Hc as [-> | ->]; destruct s2; discriminate He.
Qed.

Section Preserve.
Context `{IU : Unicode} `{IS : Solana} `{IJ : JWT} `{IB : Base58} `{IE : Ed25519} `{IN : NetURL} (sv : Deployment).

#[local] Abbreviation wf := (Safety.wf sv).
#[local] Abbreviation spec := (Safety.spec sv).
#[local] Abbreviation good := (Safety.good sv).
#[local] Abbreviation proven := (Safety.proven sv).

(** Use one of the facts a well-formed world gives. *)
#[local] Ltac from_wf Hw :=
  first [ eapply (wf_parties _ _ Hw) | eapply (wf_agreed _ _ Hw) | eapply (wf_settled _ _ Hw)
        | eapply (wf_receipt _ _ Hw) | eapply (wf_entry _ _ Hw) | eapply (wf_acceptance _ _ Hw)
        | eapply (wf_terms _ _ Hw) ];
  eassumption.

Lemma proven_terms id r r' landed landed' :
  same_terms r r' → landed ⊆ landed' → proven id r landed → proven id r' landed'.
Proof.
  intros (E1 & E2 & E3 & E4 & E5 & E6 & E7 & _) Hl (d & a & te & h & sig & f & H1 & H2 & H3 & H4 & H5 & H6).
  exists d, a, te, h, sig, f. split_and!; try done.
  - by rewrite <-E5.
  - unfold pending_trade in *. by rewrite <-E1, <-E2, <-E3, <-E4, <-E6, <-E7.
  - by eapply lookup_weaken.
Qed.

(** *** Changing the trades table *)
Lemma wf_set_trades w m :
  wf w → rows_evolve trade_evolves (trades (w_db w)) m →
  (∀ k r, m !! k = Some r → t_buyer r ≠ t_seller r ∧ is_ok (Money.Parse (t_amount r)) = true) →
  (∀ k r, m !! k = Some r → agreed (t_state r) = true →
     is_Some (acceptances (w_db w) !! (k, t_buyer r)) ∧ is_Some (acceptances (w_db w) !! (k, t_seller r))) →
  (∀ k r, m !! k = Some r → t_state r = TradeSettled → proven k r (ch_landed (w_chain w))) →
  (∀ k r, m !! k = Some r → ∃ o, offers (w_db w) !! t_offer r = Some o ∧ honours r o) →
  wf (with_db w (with_trades (w_db w) m)).
Proof.
  intros Hw Hev Hp Ha Hs Hh. destruct Hw as [W1 W2 W3 W4 W5 W6 W7 W8 W9 W10 W11 W12 W13 W14 W15 W16]. split; db_simpl; try assumption.
  - intros e He. destruct (W3 e He) as (r & at_ & Hr & Hc & Hj).
    destruct (Hev _ _ Hr) as (r' & Hr' & Hterms & Hst). exists r', at_.
    apply steps_completed in Hst; [|done].
    split_and!; [done|by rewrite Hst|]. rewrite <-Hj. f_equal.
    destruct Hterms as (E1 & E2 & E3 & E4 & E5 & E6 & E7 & _).
    unfold row_record. by rewrite E1, E2, E3, E4, E5, E6, E7, Hst.
  - intros t a x Hx. destruct (W8 t a x Hx) as (r & Hr & Hpar).
    destruct (Hev _ _ Hr) as (r' & Hr' & (_ & E2 & E3 & _) & _). exists r'. by rewrite <-E2, <-E3.
Qed.

Lemma evo_set_trades d m :
  rows_evolve trade_evolves (trades d) m →
  (∀ k r, trades d !! k = None → m !! k = Some r → steps TradeProposed (t_state r)) →
  evo_db d (with_trades d m).
Proof.
  intros H1 H2. destruct (evo_db_refl d). by split.
Qed.

(** The stored offer a new trade is made from. *)
Definition on_offer (t : Trade) (w : World) : Prop := ∃ o, offers (w_db w) !! tr_OfferID t = Some o ∧
  tr_Description t = o_description o ∧ amount_String (tr_Amount t) = o_price o ∧ tr_Mint t = o_mint o ∧
  tr_Mode t ∈ o_modes o ∧
  (if String.eqb (o_direction o) DirectionBid then tr_Buyer t else tr_Seller t) = o_agent o.

Lemma stable_on_offer t : stable (on_offer t).
Proof.
  intros w w' [He _] (o & Ho & H). destruct (evo_offers _ _ He _ _ Ho) as (o' & Ho' & E1 & E2 & E3 & E4 & E5 & E6 & E7 & _).
  exists o'. by rewrite <-E1, <-E2, <-E3, <-E5, <-E6, <-E7.
Qed.

Lemma spec_CreateTrade t key :
  tr_Buyer t ≠ tr_Seller t → tr_State t = TradeProposed →
  is_ok (Money.Parse (amount_String (tr_Amount t))) = true →
  spec (on_offer t) (CreateTrade t key) (oks any).
Proof.
  intros Hne Hst Hpa. apply spec_write; [apply stable_on_offer|]. intros w [] d' Hw Hoffer.
  cbv zeta. case_bool_decide as Hid; [done|]. repeat (case_bool_decide; [done|]). intros [= <-].
  apply eq_None_not_Some in Hid.
  assert (rows_evolve trade_evolves (trades (w_db w)) (<[tr_ID t := mkTradeRow (tr_OfferID t) (tr_Buyer t)
    (tr_Seller t) (tr_Description t) (amount_String (tr_Amount t)) (tr_Mint t) (tr_Mode t) (tr_State t)
    (nullString key) (nanos (tr_CreatedAt t)) (nanos (tr_UpdatedAt t))]> (trades (w_db w)))) as Hev.
  { intros k r Hk. exists r. split; [|apply trade_evolves_refl]. rewrite lookup_insert_ne; congruence. }
  split_and!; [|apply evo_set_trades; [done|]|done].
  - apply wf_set_trades; [done|done| | | |];
      intros k r [[<- <-]|[_ Hk]]%lookup_insert_Some; cbn; rewrite ?Hst; first [done|intros; from_wf Hw].
  - intros k r Hk [[<- <-]|[_ Hk']]%lookup_insert_Some; [cbn; by rewrite Hst|congruence].
Qed.

(** What must be known to move a trade into a state. *)
Definition may_enter (id : string) (to : TradeState) (w : World) : Prop :=
  match to with
  | TradeAccepted => ∃ r, trades (w_db w) !! id = Some r ∧
      is_Some (acceptances (w_db w) !! (id, t_buyer r)) ∧ is_Some (acceptances (w_db w) !! (id, t_seller r))
  | TradeSettled => ∃ r, trades (w_db w) !! id = Some r ∧ proven id r (ch_landed (w_chain w))
  | _ => True
  end.

Lemma stable_may_enter id to : stable (may_enter id to).
Proof.
  intros w w' [He Hl]. destruct to; try done; cbn.
  - intros (r & Hr & [x Hb] & [y Hs]). destruct (evo_trades _ _ He _ _ Hr) as (r' & Hr' & (_ & E2 & E3 & _) & _).
    exists r'. rewrite <-E2, <-E3. split_and!; [done| |]; eexists; eapply lookup_weaken; try apply He; done.
  - intros (r & Hr & Hp). destruct (evo_trades _ _ He _ _ Hr) as (r' & Hr' & Ht & _).
    exists r'. split; [done|]. by eapply proven_terms.
Qed.

Lemma set_state_evolves r to at_ : can_step (t_state r) to → trade_evolves r (set_state r to at_).
Proof. intros Hc. split; [by split_and!|]. by apply rtc_once. Qed.

Lemma spec_SetTradeState id from to at_ :
  is_Some (canTransition from to) →
  spec (may_enter id to) (SetTradeState id from to at_) (oks any).
Proof.
  intros Hcan. apply spec_write; [apply stable_may_enter|]. intros w b d' Hw Hm.
  destruct (trades (w_db w) !! id) as [r|] eqn:Hr; [|intros [= <- <-]; split_and!; [by destruct w|apply evo_db_refl|done]].
  case_bool_decide as Hfrom; intros [= <- <-]; [|split_and!; [by destruct w|apply evo_db_refl|done]].
  assert (rows_evolve trade_evolves (trades (w_db w)) (<[id := set_state r to (nanos at_)]> (trades (w_db w)))) as Hev.
  { intros k x Hk. destruct (decide (k = id)) as [->|].
    - rewrite lookup_insert_eq. simplify_eq. eexists. split; [done|]. by apply set_state_evolves.
    - exists x. rewrite lookup_insert_ne by done. split; [done|apply trade_evolves_refl]. }
  split_and!; [|apply evo_set_trades; [done|]|done].
  - apply wf_set_trades; [done|done| | | |]; intros k x [[<- <-]|[_ Hk]]%lookup_insert_Some; cbn; try (intros; from_wf Hw).
    + intros Ha. destruct (agreed from) eqn:Haf.
      * apply (wf_agreed _ _ Hw _ _ Hr). by rewrite Hfrom.
      * assert (to = TradeAccepted) as ->.
        { destruct Hcan as [e He]. destruct from, to; try discriminate; done. }
        destruct Hm as (r' & Hr' & Hb & Hs). by simplify_eq.
    + intros ->. destruct Hm as (r' & Hr' & Hp). simplify_eq.
      eapply proven_terms; [|reflexivity|exact Hp]. by split_and!.
    + exact (wf_terms _ _ Hw _ _ Hr).
  - intros k x Hk [[<- <-]|[_ Hk']]%lookup_insert_Some; congruence.
Qed.

(** *** Acceptances, events, requests *)

(** The actor is a party to the stored trade. *)
Definition is_party (id actor : string) (w : World) : Prop :=
  ∃ r, trades (w_db w) !! id = Some r ∧ (actor = t_buyer r ∨ actor = t_seller r).

Lemma stable_is_party id a : stable (is_party id a).
Proof.
  intros w w' [He _] (r & Hr & Ha). destruct (evo_trades _ _ He _ _ Hr) as (r' & Hr' & (_ & E2 & E3 & _) & _).
  exists r'. by rewrite <-E2, <-E3.
Qed.

Lemma spec_AddTradeAcceptance id a at_ : spec (is_party id a) (AddTradeAcceptance id a at_) (oks any).
Proof.
  apply spec_write; [apply stable_is_party|]. intros w b d' Hw (r & Hr & Ha).
  case_bool_decide as Hid; [intros [= <- <-]; split_and!; [by destruct w|apply evo_db_refl|done]|].
  repeat (case_bool_decide; [done|]). intros [= <- <-]. apply eq_None_not_Some in Hid.
  assert (acceptances (w_db w) ⊆ <[(id, a) := nanos at_]> (acceptances (w_db w))) as Hsub
    by by apply insert_subseteq.
  split_and!; [| |done].
  - destruct Hw as [W1 W2 W3 W4 W5 W6 W7 W8 W9 W10 W11 W12 W13 W14 W15 W16]. split; db_simpl; try assumption.
    + intros t x y [[[= <- <-] <-]|[_ Hx]]%lookup_insert_Some; [by exists r|by eapply W8].
    + intros k r' Hk Hag. destruct (W9 k r' Hk Hag) as [[x Hx] [y Hy]].
      split; eexists; eapply lookup_weaken; eassumption.
  - destruct (evo_db_refl (w_db w)). split; db_simpl; assumption.
Qed.

Lemma good_AppendTradeEvent e : good (AppendTradeEvent e).
Proof.
  apply spec_write; [done|]. intros w s d' Hw _. cbv zeta. case_bool_decide; [done|]. intros [= <- <-].
  split_and!; [| |done].
  - destruct Hw as [W1 W2 W3 W4 W5 W6 W7 W8 W9 W10 W11 W12 W13 W14 W15 W16]. split; db_simpl; assumption.
  - destruct (evo_db_refl (w_db w)). split; db_simpl; try assumption. by eexists.
Qed.

(** A new requests table under which the old requests keep what they are and no
    two are issued for one trade. *)
Lemma requests_ok w m :
  wf w → rows_evolve same_request (requests (w_db w)) m →
  (∀ k1 q1 k2 q2, m !! k1 = Some q1 → m !! k2 = Some q2 →
    q_status q1 = SettlementIssued → q_status q2 = SettlementIssued → q_trade q1 = q_trade q2 → k1 = k2) →
  wf (with_db w (with_requests (w_db w) m)) ∧ evo_db (w_db w) (with_requests (w_db w) m) ∧ True.
Proof.
  intros Hw Hev Honce. split_and!; [| |done].
  - destruct Hw as [W1 W2 W3 W4 W5 W6 W7 W8 W9 W10 W11 W12 W13 W14 W15 W16]. split; db_simpl; assumption.
  - destruct (evo_db_refl (w_db w)). split; db_simpl; assumption.
Qed.

Lemma expire_row q sig at_ : q_status q = SettlementIssued → same_request q (set_status q SettlementExpired sig at_).
Proof. intros. split_and!; try done. by right. Qed.

Lemma expire_issued_lookup d t at_ k q' : expire_issued d t at_ !! k = Some q' →
  ∃ q, requests d !! k = Some q ∧ q_trade q' = q_trade q ∧ same_request q q' ∧
    (q_status q' = SettlementIssued → q_status q = SettlementIssued ∧ q_trade q ≠ t).
Proof.
  unfold expire_issued. rewrite lookup_fmap, fmap_Some. intros (q & Hq & ->). exists q. split; [done|].
  destruct (String.eqb_spec (q_trade q) t), (decide (q_status q = SettlementIssued)) as [Hs|Hs];
    rewrite ?(bool_decide_true _ Hs), ?(bool_decide_false _ Hs); cbn;
    split_and!; try done; first [by apply expire_row|apply same_request_refl|naive_solver].
Qed.

Lemma expire_issued_evolves d t at_ : rows_evolve same_request (requests d) (expire_issued d t at_).
Proof.
  intros k q Hq. destruct (expire_issued d t at_ !! k) as [q'|] eqn:E.
  - destruct (expire_issued_lookup _ _ _ _ _ E) as (q0 & ? & _ & ? & _). simplify_eq. eauto.
  - unfold expire_issued in E. by rewrite lookup_fmap, Hq in E.
Qed.

Lemma good_ExpireSettlementRequests t at_ : good (ExpireSettlementRequests t at_).
Proof.
  apply spec_write; [done|]. intros w [] d' Hw _ [= <-].
  apply requests_ok; [done|apply expire_issued_evolves|].
  intros k1 q1 k2 q2 (p1 & ? & E1 & _ & S1)%expire_issued_lookup (p2 & ? & E2 & _ & S2)%expire_issued_lookup I1 I2 E.
  destruct (S1 I1), (S2 I2). eapply (wf_request_once _ _ Hw); eauto. congruence.
Qed.

Lemma good_CreateSettlementRequest r : good (CreateSettlementRequest r).
Proof.
  unfold CreateSettlementRequest. destruct (String.eqb _ _); [by apply spec_ret|].
  apply spec_write; [done|]. intros w a d' Hw _. cbv zeta.
  destruct (negb _); [done|]. case_bool_decide as Hid; [done|]. case_bool_decide; [done|]. intros [= <- <-].
  apply eq_None_not_Some in Hid. set (q := mkRequestRow _ _ _ _ _ _ _ _ _ _ _ _ _ _ _).
  apply requests_ok; [done| |].
  - intros k p Hp. destruct (expire_issued_evolves _ (sr_TradeID r) (sr_CreatedAt r) _ _ Hp) as (p' & Hp' & ?).
    exists p'. rewrite lookup_insert_ne by congruence. done.
  - intros k1 q1 k2 q2 [[<- <-]|[N1 H1]]%lookup_insert_Some [[<- <-]|[N2 H2]]%lookup_insert_Some I1 I2 E; [done| | |].
    + apply expire_issued_lookup in H2 as (p2 & ? & E2 & _ & S2). destruct (S2 I2). cbn in E. congruence.
    + apply expire_issued_lookup in H1 as (p1 & ? & E1 & _ & S1). destruct (S1 I1). cbn in E. congruence.
    + apply expire_issued_lookup in H1 as (p1 & ? & E1 & _ & S1), H2 as (p2 & ? & E2 & _ & S2).
      destruct (S1 I1), (S2 I2). eapply (wf_request_once _ _ Hw); eauto. congruence.
Qed.

(** Rewriting the status and signature of one issued request. *)
Lemma update_request_ok w id q s sig at_ :
  wf w → requests (w_db w) !! id = Some q → q_status q = SettlementIssued →
  let m := <[id := set_status q s sig at_]> (requests (w_db w)) in
  wf (with_db w (with_requests (w_db w) m)) ∧ evo_db (w_db w) (with_requests (w_db w) m) ∧ True.
Proof.
  intros Hw Hq Hs m. apply requests_ok; [done| |].
  - intros k p Hp. unfold m. destruct (decide (k = id)) as [->|].
    + simplify_eq. rewrite lookup_insert_eq. eexists. split; [done|]. split_and!; try done. by right.
    + rewrite lookup_insert_ne by done. exists p. split; [done|apply same_request_refl].
  - unfold m. intros k1 q1 k2 q2 [[<- <-]|[N1 H1]]%lookup_insert_Some [[<- <-]|[N2 H2]]%lookup_insert_Some I1 I2 E;
      cbn in *; try done; eapply (wf_request_once _ _ Hw); eauto.
Qed.

Lemma good_SetSettlementSignature id sig at_ : good (SetSettlementSignature id sig at_).
Proof.
  apply spec_write; [done|]. intros w [] d' Hw _.
  destruct (requests (w_db w) !! id) as [q|] eqn:Hq; [|done].
  destruct (is_issued q) eqn:Hi; [|done]. apply bool_decide_eq_true in Hi.
  destruct (_ || _); [cbn [andb]|done]. intros [= <-]. by apply update_request_ok.
Qed.

Lemma good_ConfirmSettlementRequest id sig at_ : good (ConfirmSettlementRequest id sig at_).
Proof.
  apply spec_write; [done|]. intros w [] d' Hw _.
  destruct (requests (w_db w) !! id) as [q|] eqn:Hq; [|done].
  destruct (is_issued q) eqn:Hi; [|done]. apply bool_decide_eq_true in Hi.
  intros [= <-]. by apply update_request_ok.
Qed.

(** *** Challenges, and the tables no invariant mentions *)
Lemma challenges_ok w m :
  wf w → rows_evolve same_challenge (challenges (w_db w)) m →
  (∀ k c, m !! k = Some c → is_ok (ParsePublicKey (c_agent c)) = true) →
  wf (with_db w (with_challenges (w_db w) m)) ∧ evo_db (w_db w) (with_challenges (w_db w) m) ∧ True.
Proof.
  intros Hw Hev Hkeys. split_and!; [| |done].
  - destruct Hw as [W1 W2 W3 W4 W5 W6 W7 W8 W9 W10 W11 W12 W13 W14 W15 W16]. split; db_simpl; assumption.
  - destruct (evo_db_refl (w_db w)). split; db_simpl; assumption.
Qed.

Lemma good_CreateChallenge c : is_ok (ParsePublicKey (ch_AgentID c)) = true → good (CreateChallenge c).
Proof.
  intros Hkey. apply spec_write; [done|]. intros w [] d' Hw _. case_bool_decide as Hid; [done|]. intros [= <-].
  apply challenges_ok; [done| |].
  2: { intros k x [[<- <-]|[_ Hx]]%lookup_insert_Some; [done|by eapply (wf_keys _ _ Hw)]. }
  intros k x Hx. exists x. rewrite lookup_insert_ne; [by split; [|apply same_challenge_refl]|].
  intros E. apply Hid. rewrite E. by eexists.
Qed.

Lemma good_ConsumeChallenge id at_ : good (ConsumeChallenge id at_).
Proof.
  apply spec_write; [done|]. intros w a d' Hw _.
  destruct (challenges (w_db w) !! id) as [c|] eqn:Hc; [|done].
  case_bool_decide as Hcons; [done|]. destruct (negb _); [done|]. intros [= <- <-].
  apply challenges_ok; [done| |].
  2: { intros k x [[<- <-]|[_ Hx]]%lookup_insert_Some; [exact (wf_keys _ _ Hw _ _ Hc)|by eapply (wf_keys _ _ Hw)]. }
  intros k x Hx. destruct (decide (k = id)) as [->|].
  - simplify_eq. rewrite lookup_insert_eq. eexists. split; [done|]. split_and!; try done.
    right. by apply eq_None_not_Some.
  - rewrite lookup_insert_ne by done. exists x. split; [done|apply same_challenge_refl].
Qed.

(** *** Listings: agents, offers, their signatures, probes *)

(** A transaction on none of the tables of trades and their money. *)
Definition same_core (d d' : DB) : Prop :=
  trades d' = trades d ∧ acceptances d' = acceptances d ∧ events d' = events d ∧
  requests d' = requests d ∧ ledger d' = ledger d ∧ receipts d' = receipts d ∧ challenges d' = challenges d.

#[local] Abbreviation signed d :=
  (offers_signed (dp_registry sv) d ∧ cards_signed (dp_registry sv) d ∧ probes_agree d ∧ rows_typed d).

Lemma honours_evolves r o o' : same_offer_row o o' → honours r o → honours r o'.
Proof.
  intros (E1 & E2 & E3 & E4 & E5 & E6 & E7 & _) (H1 & H2 & H3 & H4 & H5). unfold honours.
  rewrite <-E1, <-E2, <-E3, <-E5, <-E6, <-E7. by split_and!.
Qed.

Lemma good_write_listing {A} (f : tx A) :
  (∀ d a d', signed d → f d = Ok (a, d') → same_core d d' ∧ rows_evolve same_offer_row (offers d) (offers d') ∧
     offer_attestations d ⊆ offer_attestations d' ∧ signed d') →
  good (write f).
Proof.
  intros Hf. apply spec_write; [done|]. intros w a d' Hw _ Hd.
  destruct (Hf _ _ _ (conj (wf_offers_signed _ _ Hw) (conj (wf_cards_signed _ _ Hw) (conj (wf_probes _ _ Hw) (wf_rows _ _ Hw)))) Hd)
    as ((E1 & E2 & E3 & E4 & E5 & E6 & E7) & Ho & Ha & S1 & S2 & S3 & S4).
  split_and!; [| |done].
  - destruct Hw as [W1 W2 W3 W4 W5 W6 W7 W8 W9 W10 W11 W12 W13 W14 W15 W16].
    split; db_simpl; rewrite ?E1, ?E2, ?E3, ?E4, ?E5, ?E6, ?E7; try assumption.
    + intros k r Hr. destruct (W11 k r Hr) as (o & Hk & Hh). destruct (Ho _ _ Hk) as (o' & Hk' & Hs).
      exists o'. split; [done|]. by eapply honours_evolves.
    + unfold keys_valid. by rewrite E7.
  - destruct (evo_db_refl (w_db w)). split; rewrite ?E1, ?E2, ?E3, ?E4, ?E5, ?E6, ?E7; assumption.
Qed.

(** Rows that keep their content keep the signatures made over it. *)
Lemma offers_signed_evolve d d' :
  rows_evolve same_offer_row (offers d) (offers d') → offer_attestations d' = offer_attestations d →
  offers_signed (dp_registry sv) d → offers_signed (dp_registry sv) d'.
Proof.
  intros Hev E H id a Ha. rewrite E in Ha. destruct (H id a Ha) as (r & amount & Hr & Hp & Hs & Hv).
  destruct (Hev _ _ Hr) as (r' & Hr' & E1 & E2 & E3 & E4 & E5 & E6 & E7 & _).
  exists r', amount. split_and!; [done|by rewrite <-E5|by rewrite <-E1|].
  rewrite <-Hv. unfold row_offer. by rewrite E1, E2, E3, E4, E6, E7.
Qed.

(** So do the types: closing is the only update. *)
Lemma offer_typed_evolves id r r' : same_offer_row r r' → offer_typed id r → offer_typed id r'.
Proof.
  intros (E1 & E2 & E3 & E4 & E5 & E6 & E7 & E8 & E9 & E10 & Hst) (o & Ho & Hv). unfold offer_typed, scanOffer in *.
  rewrite <-E5. destruct (Money.Parse (o_price r)) as [p|]; [|done]. cbn in Ho. injection Ho as <-.
  eexists. split; [reflexivity|]. rewrite <-Hv. unfold offer_Validate, offer_validate.
  cbn [offer_Description offer_Direction offer_Status offer_PriceAmount offer_PriceMint offer_SettlementModes offer_Capabilities].
  rewrite E2, E3, E4, E6, E7. destruct Hst as [-> | Hc]; [done|].
  destruct (OfferStatus_Valid (o_status r)) eqn:Es; [by rewrite Hc|]. exfalso. revert Hv.
  unfold offer_Validate, offer_validate. cbn [offer_Status]. rewrite Es. by repeat case_match.
Qed.

(** A table whose every row was typed before, up to closing. *)
Lemma rows_typed_offers d d' : agents d' = agents d →
  (∀ id r', offers d' !! id = Some r' → ∃ r, offers d !! id = Some r ∧ same_offer_row r r') →
  rows_typed d → rows_typed d'.
Proof.
  intros Ea Ho [H1 H2]. split; [|by rewrite Ea]. intros id r' Hr'. destruct (Ho _ _ Hr') as (r & Hr & Hs).
  eapply offer_typed_evolves; [exact Hs|by apply H1].
Qed.

Lemma rows_typed_agents d m id r : offers m = offers d → agents m = <[id := r]> (agents d) →
  agent_typed id (a_card r) (a_status r) → rows_typed d → rows_typed m.
Proof.
  intros Eo Ea Hr [H1 H2]. split; [by rewrite Eo|]. intros k x. rewrite Ea.
  intros [[<- <-]|[_ Hx]]%lookup_insert_Some; [done|by apply H2].
Qed.

Lemma offers_refl d : rows_evolve same_offer_row (offers d) (offers d).
Proof. apply rows_evolve_refl, same_offer_row_refl. Qed.

(** A transaction on none of the listing tables either. *)
Lemma good_write_other {A} (f : tx A) :
  (∀ d a d', f d = Ok (a, d') → same_core d d' ∧ offers d' = offers d ∧ offer_attestations d' = offer_attestations d ∧
     agents d' = agents d ∧ agent_attestations d' = agent_attestations d ∧ probes d' = probes d) → good (write f).
Proof.
  intros Hf. apply good_write_listing. intros d a d' (S1 & S2 & S3 & S4) Hd. destruct (Hf _ _ _ Hd) as (Hc & E1 & E2 & E3 & E4 & E5).
  split_and!; [done|rewrite E1; apply offers_refl|by rewrite E2| | | |].
  - eapply offers_signed_evolve; [|exact E2|exact S1]. rewrite E1. apply offers_refl.
  - unfold cards_signed. by rewrite E3, E4.
  - unfold probes_agree. by rewrite E5.
  - unfold rows_typed. by rewrite E1, E3.
Qed.

Lemma good_SetAgentLimits l : good (SetAgentLimits l).
Proof. apply good_write_other. intros ? ? ?. repeat case_match; intros [=]; subst; by split_and!. Qed.

(** Closing offers. *)
Lemma close_evolves o at_ : same_offer_row o (set_offer_status o OfferClosed at_).
Proof. split_and!; try done. by right. Qed.

Lemma good_SetOfferStatus id at_ : good (SetOfferStatus id OfferClosed at_).
Proof.
  apply good_write_listing. intros d a d' (S1 & S2 & S3 & S4). destruct (offers d !! id) as [o|] eqn:Ho; [|done]. intros [= <- <-].
  assert (rows_evolve same_offer_row (offers d) (<[id := set_offer_status o OfferClosed (nanos at_)]> (offers d))) as Hev.
  { intros k x Hk. destruct (decide (k = id)) as [->|].
    - rewrite lookup_insert_eq. simplify_eq. eexists. split; [done|]. apply close_evolves.
    - exists x. rewrite lookup_insert_ne by done. split; [done|apply same_offer_row_refl]. }
  split_and!; [by split_and!|done|done| |done|done|].
  - by eapply offers_signed_evolve; [exact Hev| |].
  - apply (rows_typed_offers d); [done| |done].
    intros k x. db_simpl. intros [[<- <-]|[_ Hx]]%lookup_insert_Some; [exists o|exists x]; (split; [done|]); [apply close_evolves|apply same_offer_row_refl].
Qed.

(** An agent row may change all but its card. *)
Lemma cards_signed_agents d id r r' m :
  agents d !! id = Some r → a_card r' = a_card r → cards_signed (dp_registry sv) d →
  agent_attestations m = agent_attestations d → agents m = <[id := r']> (agents d) →
  cards_signed (dp_registry sv) m.
Proof.
  intros Hr Hc H E1 E2 k a Ha. rewrite E1 in Ha. destruct (H k a Ha) as (x & Hx & Hk & Hm & Hg). rewrite E2.
  destruct (decide (k = id)) as [->|].
  - simplify_eq. exists r'. rewrite lookup_insert_eq, Hc. done.
  - exists x. rewrite lookup_insert_ne by done. done.
Qed.

Lemma agent_typed_status d id r st : rows_typed d → agents d !! id = Some r → AgentStatus_Valid st = true →
  agent_typed id (a_card r) st.
Proof. intros [_ H] Hr Hst. destruct (H _ _ Hr) as (? & ? & _). by split_and!. Qed.

Lemma close_open_evolves d id at_ : rows_evolve same_offer_row (offers d) (close_open d id at_).
Proof.
  intros k o Ho. unfold close_open. rewrite lookup_fmap, Ho. cbn. eexists. split; [done|].
  case_match; [apply close_evolves|apply same_offer_row_refl].
Qed.

Lemma good_RetireAgent id reason actor at_ : good (RetireAgent id reason actor at_).
Proof.
  apply good_then; [|intros []; apply good_query]. apply good_write_listing. intros d a d' (S1 & S2 & S3 & S4).
  destruct (_ <? _)%nat; [done|]. destruct (agents d !! id) as [r|] eqn:Hr; [|done]. cbv zeta. intros [= <- <-].
  pose proof (close_open_evolves (with_agents d (<[id := set_agent_status r AgentRetired (nanos at_)]> (agents d)))
    id (nanos at_)) as Hev.
  split_and!; [by split_and!|done|done| | |done|].
  - by eapply offers_signed_evolve; [exact Hev| |].
  - by apply (cards_signed_agents d id r (set_agent_status r AgentRetired (nanos at_))).
  - apply (rows_typed_offers (with_agents d (<[id := set_agent_status r AgentRetired (nanos at_)]> (agents d)))); [done| |].
    + intros k x Hx. db_simpl. unfold close_open in Hx. apply lookup_fmap_Some in Hx as (x0 & <- & Hx0).
      exists x0. split; [done|]. case_match; [apply close_evolves|apply same_offer_row_refl].
    + apply (rows_typed_agents d _ id (set_agent_status r AgentRetired (nanos at_))); [done|done| |done].
      by apply (agent_typed_status d id r).
Qed.

Lemma good_RestoreAgent id actor at_ : good (RestoreAgent id actor at_).
Proof.
  apply good_then; [|intros []; apply good_query]. apply good_write_listing. intros d a d' (S1 & S2 & S3 & S4).
  destruct (agents d !! id) as [r|] eqn:Hr; [|done]. cbv zeta.
  assert (∀ m, agents m = <[id := set_agent_status r AgentActive (nanos at_)]> (agents d) →
    agent_attestations m = agent_attestations d → cards_signed (dp_registry sv) m) as Hcards.
  { intros m E1 E2. by apply (cards_signed_agents d id r (set_agent_status r AgentActive (nanos at_))). }
  assert (∀ m, offers m = offers d → agents m = <[id := set_agent_status r AgentActive (nanos at_)]> (agents d) →
    rows_typed m) as Hrows.
  { intros m E1 E2. apply (rows_typed_agents d m id (set_agent_status r AgentActive (nanos at_))); [done|done| |done].
    by apply (agent_typed_status d id r). }
  repeat case_match; intros [= <- <-];
    (split_and!; [by split_and!|exact (offers_refl d)|done|done|by apply Hcards|done|by apply Hrows]).
Qed.

(** Publishing a card that its signatures cover. *)
Lemma good_SaveAgentCard a sig market at_ :
  card_PublicKey (agent_Card a) = agent_ID a →
  (∃ k t, rg_market (dp_registry sv) = Some k ∧ AttestCard k (attestCard (agent_Card a)) t = Ok market) →
  agent_typed (agent_ID a) (agent_Card a) (agent_Status a) →
  (∀ g, sig = Some g → VerifyCard (attestCard (agent_Card a)) g = Ok tt) →
  good (SaveAgentCard a sig market at_).
Proof.
  intros Hkey Hm Hty Hg. unfold SaveAgentCard. do 3 (apply good_then; [apply good_lift|intros _]).
  apply good_write_listing. intros d x d' (S1 & S2 & S3 & S4). cbv zeta. intros [= <- <-].
  split_and!; [by split_and!|exact (offers_refl d)|done|done| |done|].
  - intros k z Hz. db_simpl. apply lookup_insert_Some in Hz as [[<- <-]|[Hne Hz]].
    + eexists. split; [apply lookup_insert_eq|]. cbn. by split_and!.
    + destruct (S2 k z Hz) as (r & Hr & ?). exists r. by rewrite lookup_insert_ne.
  - match goal with |- context [<[agent_ID a := ?r]> (agents d)] => by apply (rows_typed_agents d _ (agent_ID a) r) end.
Qed.

Lemma insert_offer_inv o key d d' : insert_offer o key d = Ok d' →
  offers d !! offer_ID o = None ∧ ∃ r, d' = with_offers d (<[offer_ID o := r]> (offers d)) ∧
  (Money.Parse (amount_String (offer_PriceAmount o)) = Ok (offer_PriceAmount o) → offer_Validate o = Ok tt →
    offer_typed (offer_ID o) r) ∧
  o_price r = amount_String (offer_PriceAmount o) ∧ o_agent r = offer_AgentID o ∧
  o_description r = offer_Description o ∧ o_direction r = offer_Direction o ∧ o_caps r = offer_Capabilities o ∧
  o_mint r = offer_PriceMint o ∧ o_modes r = offer_SettlementModes o.
Proof.
  unfold insert_offer. cbv zeta. case_bool_decide as Hid; [done|]. repeat (case_bool_decide; [done|]).
  intros [= <-]. split; [by apply eq_None_not_Some|]. eexists. split; [reflexivity|]. split; [|by split_and!].
  intros Hp Hv. unfold offer_typed, scanOffer. cbn [o_price]. rewrite Hp. eexists. split; [reflexivity|]. exact Hv.
Qed.

Lemma rows_typed_offer d id r : offer_typed id r → rows_typed d → rows_typed (with_offers d (<[id := r]> (offers d))).
Proof.
  intros Hr [H1 H2]. split; [|exact H2]. intros k x. db_simpl.
  intros [[<- <-]|[_ Hx]]%lookup_insert_Some; [done|by apply H1].
Qed.

Lemma new_offer_evolves d id r : offers d !! id = None → rows_evolve same_offer_row (offers d) (<[id := r]> (offers d)).
Proof.
  intros Hid k x Hk. exists x. rewrite lookup_insert_ne by congruence. split; [done|apply same_offer_row_refl].
Qed.

(** Publishing an offer that its signature covers. *)
Lemma good_CreateOfferWithAttestation o key sig :
  Money.Parse (amount_String (offer_PriceAmount o)) = Ok (offer_PriceAmount o) → offer_Validate o = Ok tt →
  (∀ g, sig = Some g → VerifyOffer (attestOffer (dp_registry sv) o) g = Ok tt) →
  good (CreateOfferWithAttestation o key sig).
Proof.
  intros Hp Hty Hg. destruct sig as [g|].
  - do 2 (apply good_then; [apply good_lift|intros _]). apply good_write_listing. intros d a d' (S1 & S2 & S3 & S4).
    destruct (insert_offer o key d) as [d1|] eqn:Hi; [|done]. intros [= <- <-].
    apply insert_offer_inv in Hi as (Hid & r & -> & Ht & E1 & E2 & E3 & E4 & E5 & E6 & E7).
    pose proof (new_offer_evolves d (offer_ID o) r Hid) as Hev.
    assert (offer_attestations d !! offer_ID o = None) as Hna.
    { destruct (offer_attestations d !! offer_ID o) as [z|] eqn:Hz; [|done].
      destruct (S1 _ _ Hz) as (? & ? & ? & _). congruence. }
    split_and!; [by split_and!|done|by apply insert_subseteq| |done|done|by apply rows_typed_offer; [apply Ht|]].
    intros k z Hz. db_simpl. apply lookup_insert_Some in Hz as [[<- <-]|[Hne Hz]].
    + exists r, (offer_PriceAmount o). rewrite lookup_insert_eq, E1. split_and!; [done|done|by rewrite E2|].
      rewrite <-(Hg g eq_refl). unfold row_offer. by rewrite E2, E3, E4, E5, E6, E7.
    + by apply (offers_signed_evolve d (with_offers d (<[offer_ID o := r]> (offers d))) Hev).
  - apply good_write_listing. intros d a d' (S1 & S2 & S3 & S4).
    destruct (insert_offer o key d) as [d1|] eqn:Hi; [|done]. intros [= <- <-].
    apply insert_offer_inv in Hi as (Hid & r & -> & Ht & _). pose proof (new_offer_evolves d (offer_ID o) r Hid) as Hev.
    split_and!; [by split_and!|done|done| |done|done|by apply rows_typed_offer; [apply Ht|]].
    by eapply offers_signed_evolve; [exact Hev| |].
Qed.

(** A probe result survives storage with its verdict. *)
Lemma stored_pass r : recognised (re_Status r) = true →
  String.eqb (re_Status (stored_result r)) StatusPass = String.eqb (re_Status r) StatusPass.
Proof.
  unfold recognised. rewrite !orb_true_iff, !String.eqb_eq. cbn. intros [[-> | ->]| ->]; vm_compute; done.
Qed.

Lemma good_SaveProbe report sig at_ :
  (∀ x, x ∈ rp_Results report → recognised (re_Status x) = true) → good (SaveProbe report sig at_).
Proof.
  intros Hrec. unfold SaveProbe. apply good_then; [apply good_lift|intros _]. apply good_write_listing.
  intros d a d' (S1 & S2 & S3 & S4). case_bool_decide; [done|]. intros [= <- <-].
  split_and!; [by split_and!|exact (offers_refl d)|done|done|done| |done].
  intros k v Hv. db_simpl. apply lookup_insert_Some in Hv as [[<- <-]|[_ Hv]]; [|by apply S3].
  unfold Passed. cbn [v_passed v_results v_target rp_Results]. rewrite length_map. case_match; [done|].
  clear -Hrec. induction (rp_Results report) as [|x l IH]; [done|]. cbn [forallb map].
  rewrite stored_pass by (apply Hrec; set_solver). f_equal. apply IH. intros y Hy. apply Hrec. set_solver.
Qed.
End Preserve.
