(* ===== verification/Handlers.v ===== *)
(** * Every operation of the services keeps the invariants

    From the store lemmas of [Preserve], operation by operation: what a request
    learns when it reads a trade ([seen]), what it may then do with it, and that
    each exported operation is [good], so safe under any interference. *)
From S2P Require Import Prelude Prog Money Domain Cluster Limits Tokens Settlement Keys Attest Probe World Store Auth Market Ledger Trade TradeSettlement Safety Preserve.

(** ** What reading a trade tells for good *)

(** The immutable columns of the stored row are those of the trade read. *)
Definition matches (t : Trade) (r : TradeRow) : Prop :=
  t_offer r = tr_OfferID t ∧ t_buyer r = tr_Buyer t ∧ t_seller r = tr_Seller t ∧
  t_description r = tr_Description t ∧ Money.Parse (t_amount r) = Ok (tr_Amount t) ∧
  t_mint r = tr_Mint t ∧ t_mode r = tr_Mode t.

Definition seen (t : Trade) (w : World) : Prop :=
  ∃ r, trades (w_db w) !! tr_ID t = Some r ∧ matches t r ∧ steps (tr_State t) (t_state r).

Definition has_accepted (t : Trade) (w : World) : Prop :=
  ∀ a, a ∈ tr_Acceptances t → is_Some (acceptances (w_db w) !! (tr_ID t, a)).

Lemma stable_seen t : stable (seen t).
Proof.
  intros w w' [He _] (r & Hr & Hm & Hs).
  destruct (evo_trades _ _ He _ _ Hr) as (r' & Hr' & (E1 & E2 & E3 & E4 & E5 & E6 & E7 & _) & Hs').
  exists r'. split; [done|]. split; [|by etrans]. unfold matches in *.
  by rewrite <-E1, <-E2, <-E3, <-E4, <-E5, <-E6, <-E7.
Qed.

Lemma stable_has_accepted t : stable (has_accepted t).
Proof.
  intros w w' [He _] Ha a Hin. destruct (Ha a Hin) as [x Hx]. exists x.
  eapply lookup_weaken; [exact Hx|apply He].
Qed.

Lemma scanTrade_inv id r t : scanTrade id r = Ok t →
  tr_ID t = id ∧ tr_State t = t_state r ∧ matches t r ∧ tr_Acceptances t = [].
Proof.
  unfold scanTrade. destruct (Money.Parse (t_amount r)) as [a|] eqn:Ha; [|done]. by intros [= <-].
Qed.

Lemma acceptance_rows_spec d id a x : (a, x) ∈ acceptance_rows d id ↔ acceptances d !! (id, a) = Some x.
Proof.
  unfold acceptance_rows. rewrite list_elem_of_omap. split.
  - intros ([[t b] y] & Hin & He). destruct (String.eqb_spec t id) as [->|]; [|done].
    injection He as <- <-. by apply elem_of_map_to_list.
  - intros Hx. exists ((id, a), x). split; [by apply elem_of_map_to_list|]. by rewrite String.eqb_refl.
Qed.

Lemma acceptance_rows_NoDup d id : NoDup (map fst (acceptance_rows d id)).
Proof.
  unfold acceptance_rows. pose proof (NoDup_fst_map_to_list (acceptances d)) as Hnd. revert Hnd.
  induction (map_to_list (acceptances d)) as [|[[t b] y] l IH]; cbn; intros Hnd; [constructor|].
  apply NoDup_cons in Hnd as [Hnin Hnd]. destruct (String.eqb_spec t id) as [->|]; [|by apply IH].
  cbn. constructor; [|by apply IH]. intros Hb. apply Hnin.
  apply list_elem_of_fmap in Hb as ([b' z] & -> & Hz). apply list_elem_of_omap in Hz as ([[t' b''] z'] & Hin & He).
  destruct (String.eqb_spec t' id) as [->|]; [|done]. injection He as -> ->.
  apply list_elem_of_fmap. by exists ((id, b'), z).
Qed.

(** The distinct agents whose acceptances a trade carries. *)
Definition acceptors (d : DB) (id : string) : list string :=
  map fst (stable_sort (lt_Z_str snd fst) (acceptance_rows d id)).

Lemma acceptors_NoDup d id : NoDup (acceptors d id).
Proof.
  unfold acceptors. eapply NoDup_Permutation_proper; [|apply (acceptance_rows_NoDup d id)].
  apply (fmap_Permutation fst), stable_sort_perm.
Qed.

Lemma acceptors_spec d id a : a ∈ acceptors d id → is_Some (acceptances d !! (id, a)).
Proof.
  unfold acceptors. intros Ha. apply list_elem_of_fmap in Ha as ([b x] & -> & Hx).
  rewrite stable_sort_perm in Hx. exists x. by apply acceptance_rows_spec.
Qed.

(** Two distinct acceptors of a two-party trade are both of its parties. *)
Lemma two_acceptors (l : list string) b s :
  NoDup l → (2 ≤ length l)%nat → (∀ a, a ∈ l → a = b ∨ a = s) → b ∈ l ∧ s ∈ l.
Proof.
  intros Hnd Hl Hin. destruct l as [|x [|y l]]; cbn in Hl; [lia..|].
  apply NoDup_cons in Hnd as [Hx _].
  assert (x ≠ y) by set_solver.
  destruct (Hin x ltac:(set_solver)) as [-> | ->], (Hin y ltac:(set_solver)) as [-> | ->]; set_solver.
Qed.

#[export] Hint Resolve stable_true stable_and stable_pure stable_seen stable_has_accepted
  stable_may_enter stable_is_party : safety.

Section Handlers.
Context `{IU : Unicode} `{IS : Solana} `{IJ : JWT} `{IB : Base58} `{IE : Ed25519} `{IN : NetURL} (sv : Deployment).

#[local] Abbreviation wf := (Safety.wf sv).
#[local] Abbreviation spec := (Safety.spec sv).
#[local] Abbreviation good := (Safety.good sv).
#[local] Abbreviation proven := (Safety.proven sv).

#[local] Ltac stab := solve [eauto 6 with safety].

(** ** Reading *)
Lemma spec_tradeAcceptances P id : stable P →
  spec P (tradeAcceptances id) (oks (fun acc w => NoDup acc ∧
    ∀ a, a ∈ acc → is_Some (acceptances (w_db w) !! (id, a)))).
Proof.
  intros HP. apply spec_query; [done|]. intros w acc _ _ [= <-].
  split; [apply acceptors_NoDup|apply acceptors_spec].
Qed.

Lemma seen_with_acceptance t acc w : seen t w → seen (with_acceptance t acc) w.
Proof. done. Qed.

Definition read (id : string) (t : Trade) (w : World) : Prop :=
  tr_ID t = id ∧ seen t w ∧ NoDup (tr_Acceptances t) ∧ has_accepted t w.

Lemma stable_read id t : stable (read id t).
Proof. unfold read. apply stable_and; [by intros ? ? ?|]. apply stable_and; [stab|]. apply stable_and; [by intros ? ? ?|stab]. Qed.

Lemma spec_GetTrade P id : stable P → spec P (GetTrade id) (oks (read id)).
Proof.
  intros HP. unfold GetTrade. eapply (spec_then _ _ _ _ (fun t w => tr_ID t = id ∧ seen t w)); [done|done| |].
  - apply spec_query; [done|]. intros w t Hw _. unfold selectTrade.
    destruct (trades (w_db w) !! id) as [r|] eqn:Hr; [|done].
    intros (Hid & Hst & Hm & _)%scanTrade_inv. split; [done|]. exists r. rewrite Hid, Hst. done.
  - intros t. eapply spec_then; [|done| |].
    + apply stable_and; [done|]. apply stable_and; [by intros ? ? ?|stab].
    + apply spec_tradeAcceptances. apply stable_and; [done|]. apply stable_and; [by intros ? ? ?|stab].
    + intros acc. apply spec_ret. intros w ((_ & Hid & Hs) & Hnd & Hacc). split_and!; [done|done|done|].
      intros a Ha. cbn in *. rewrite Hid. by apply Hacc.
Qed.

Lemma good_GetTrade id : good (GetTrade id).
Proof. eapply good_of, spec_GetTrade, stable_true. Qed.

Lemma good_GetTradeByIdempotencyKey key : good (GetTradeByIdempotencyKey key).
Proof. unfold GetTradeByIdempotencyKey, tradeAcceptances. goods. Qed.

Lemma good_get_trades ids : good (get_trades ids).
Proof. apply good_fold. intros b a. apply good_then; [apply good_GetTrade|]. intros ?. apply good_ok. Qed.

Lemma spec_partyTrade P actor id : stable P →
  spec P (partyTrade actor id) (oks (fun t w => read id t w ∧ Party t actor = true)).
Proof.
  intros HP. unfold partyTrade. eapply spec_then; [done|done|by apply spec_GetTrade|]. intros tr.
  eapply spec_then; [apply stable_and; [done|apply stable_read]|done|apply spec_refuse|].
  intros []. apply spec_ret. intros w [[_ Hr] Hp]. split; [done|]. by apply negb_false_iff.
Qed.

Lemma read_party id t a w : read id t w → Party t a = true → is_party id a w.
Proof.
  intros (Hid & (r & Hr & (_ & E2 & E3 & _) & _) & _) Hp%Party_spec. exists r. rewrite <-Hid. split; [done|].
  rewrite E2, E3. done.
Qed.

(** ** Moving a trade *)
Lemma good_appendEvent id actor ty from to detail : good (appendEvent id actor ty from to detail).
Proof. unfold appendEvent. pose proof good_AppendTradeEvent. goods. Qed.

Lemma spec_applyAs tr actor to detail ev :
  spec (fun w => seen tr w ∧ may_enter sv (tr_ID tr) to w) (applyAs tr actor to detail ev)
    (oks (fun t w => read (tr_ID tr) t w)).
Proof.
  unfold applyAs. destruct (canTransition (tr_State tr) to) as [kind|] eqn:Hcan; [|by apply spec_ret].
  eapply spec_then; [stab|done|apply spec_good, good_now|]. intros at_.
  eapply (spec_then _ _ _ _ any); [stab|done| |].
  { eapply spec_pre; [|apply spec_SetTradeState; by eexists]. naive_solver. }
  intros changed. eapply spec_pre; [|instantiate (1 := true_)]; [done|].
  destruct (negb changed); [by apply spec_GetTrade|].
  eapply spec_then; [done|done|apply good_appendEvent|]. intros [].
  eapply spec_pre; [|apply (spec_GetTrade true_)]; done.
Qed.

(** States that need no proof to enter. *)
Definition free (to : TradeState) : Prop := to ≠ TradeAccepted ∧ to ≠ TradeSettled.

Lemma may_enter_free id to w : free to → may_enter sv id to w.
Proof. intros []. by destruct to. Qed.

Lemma spec_applyAs_free P tr actor to detail ev : free to → (∀ w, P w → seen tr w) →
  spec P (applyAs tr actor to detail ev) (oks (fun t w => read (tr_ID tr) t w)).
Proof.
  intros Hf HP. eapply spec_pre; [|apply spec_applyAs]. intros w _ Hp. split; [by apply HP|].
  by apply may_enter_free.
Qed.

(** ** The ledger *)

(** The append is justified: the payload is the record of a completed trade. *)
Definition entry_ready (a : LedgerAppend) (w : World) : Prop :=
  ∃ r at_, trades (w_db w) !! la_TradeID a = Some r ∧ completed (t_state r) ∧
    TradeRecord_json (row_record (la_TradeID a) r at_) = Ok (la_Payload a).

Lemma row_record_evolves id r r' at_ :
  trade_evolves r r' → completed (t_state r) → row_record id r' at_ = row_record id r at_ ∧ completed (t_state r').
Proof.
  intros [(E1 & E2 & E3 & E4 & E5 & E6 & E7 & _) Hs] Hc. apply steps_completed in Hs; [|done].
  unfold row_record. by rewrite E1, E2, E3, E4, E5, E6, E7, Hs.
Qed.

Lemma stable_entry_ready a : stable (entry_ready a).
Proof.
  intros w w' [He _] (r & at_ & Hr & Hc & Hj). destruct (evo_trades _ _ He _ _ Hr) as (r' & Hr' & Hev).
  destruct (row_record_evolves (la_TradeID a) r r' at_ Hev Hc) as [Hrec Hc'].
  exists r', at_. by rewrite Hrec.
Qed.

Definition in_chain (id : string) (w : World) : Prop := ∃ e, e ∈ ledger (w_db w) ∧ le_TradeID e = id.

Lemma stable_in_chain id : stable (in_chain id).
Proof.
  intros w w' [He _] (e & Hin & Hid). exists e. split; [|done].
  destruct (evo_ledger _ _ He) as [l ->]. set_solver.
Qed.

Lemma not_in_ledger d id : existsb (fun e => String.eqb (le_TradeID e) id) (ledger d) = false →
  id ∉ map le_TradeID (ledger d).
Proof.
  intros Hf Hin. apply list_elem_of_fmap in Hin as (e & -> & Hin).
  enough (existsb (fun e0 => String.eqb (le_TradeID e0) (le_TradeID e)) (ledger d) = true) by congruence.
  apply existsb_exists. exists e. split; [by apply list_elem_of_In|apply String.eqb_refl].
Qed.

Lemma spec_AppendLedgerEntry a prev : la_PayloadHash a = PayloadHash (la_Payload a) →
  spec (entry_ready a) (AppendLedgerEntry (with_prev a prev) EntryHash) (oks (fun _ => in_chain (la_TradeID a))).
Proof.
  intros Hp. apply spec_write; [apply stable_entry_ready|]. intros w e d' Hw (r & at_ & Hr & Hc & Hj).
  rewrite headLedgerEntry_next by apply Hw. destruct (String.eqb _ _); [cbn [negb]|done]. cbv zeta.
  cbn [with_prev la_TradeID la_Payload la_PayloadHash la_CreatedAt].
  destruct (existsb _ _) eqn:Hex; [done|]. apply not_in_ledger in Hex. intros [= <- <-].
  cbn [le_Seq le_TradeID le_Payload le_PayloadHash le_PrevHash le_Hash le_CreatedAt].
  set (e := mkLedgerEntry _ _ _ _ _ _ _). split_and!.
  - destruct Hw as [W1 W2 W3 W4 W5 W6 W7 W8 W9 W10 W11 W12 W13 W14 W15 W16]. split; db_simpl; try assumption.
    + apply chain_from_app. split; [exact W1|]. rewrite Z.add_comm. by split_and!.
    + rewrite map_app. apply NoDup_app. split_and!; [done| |apply NoDup_singleton].
      intros x Hx ->%list_elem_of_singleton. done.
    + intros x [Hx|Hx%list_elem_of_singleton]%elem_of_app; [by apply W3|]. subst x. by exists r, at_.
    + intros k x Hx. destruct (W4 k x Hx) as (Hk & e' & He' & Ht). split; [done|]. exists e'. set_solver.
  - destruct (evo_db_refl (w_db w)). split; db_simpl; try assumption. by eexists.
  - exists e. db_simpl. set_solver.
Qed.

Lemma spec_append a : la_PayloadHash a = PayloadHash (la_Payload a) →
  spec (entry_ready a) (append a) (oks (fun _ => in_chain (la_TradeID a))).
Proof.
  intros Hp. unfold append. generalize (@nil sentinel) as e0. generalize appendAttempts as n.
  induction n as [|n IH]; intros e0; cbn [append_loop]; [by apply spec_ret|].
  eapply (spec_then _ _ _ _ any); [apply stable_entry_ready|done|apply spec_good, good_query|]. intros head.
  eapply spec_pre; [|eapply spec_on_result; [apply stable_entry_ready|by apply spec_AppendLedgerEntry|]].
  { naive_solver. }
  intros [entry|e]; [apply spec_ret; naive_solver|].
  destruct (errorIs e ErrStale); [|by apply spec_ret]. eapply spec_pre; [|apply IH]. naive_solver.
Qed.

Lemma spec_SaveReceipt r : spec (in_chain (rc_TradeID r)) (SaveReceipt r) (oks any).
Proof.
  apply spec_write; [apply stable_in_chain|]. intros w [] d' Hw (e & He & Hid).
  case_bool_decide as Hnew; [done|]. case_bool_decide as Hone; [done|]. intros [= <-].
  apply eq_None_not_Some in Hnew. split_and!; [| |done].
  - destruct Hw as [W1 W2 W3 W4 W5 W6 W7 W8 W9 W10 W11 W12 W13 W14 W15 W16]. split; db_simpl; try assumption.
    + intros k x [[<- <-]|[_ Hk]]%lookup_insert_Some; [|by apply W4]. split; [done|]. by exists e.
    + intros k1 x1 k2 x2 [[<- <-]|[N1 K1]]%lookup_insert_Some [[<- <-]|[N2 K2]]%lookup_insert_Some E;
        cbn in E; [done| | |by eapply W5]; exfalso; apply Hone; eexists _, _; by split.
  - destruct (evo_db_refl (w_db w)). split; db_simpl; try assumption. by apply insert_subseteq.
Qed.

Lemma good_Record_ signer t sig cl : spec (seen t) (Record_ signer t sig cl) (oks any).
Proof.
  unfold Record_. eapply spec_then; [stab|done|apply spec_refuse|]. intros [].
  eapply (spec_then _ _ _ _ any); [apply stable_and; [stab|by intros ? ? ?]|done| |].
  { apply spec_good, good_on_result; [apply good_query|]. intros [x|e]; [apply good_fail|].
    destruct (errorIs e ErrNotFound); [apply good_ok|apply good_fail]. }
  intros []. eapply (spec_pre _ (fun w => seen t w ∧ completed (tr_State t))).
  { intros w _ [[Hs Hb] _]. split; [done|].
    apply andb_false_iff in Hb as [Hb|Hb]; apply negb_false_iff, bool_decide_eq_true in Hb; [by left|by right]. }
  learn Hc.
  eapply (spec_then _ _ _ _ any); [stab|done|apply spec_good, good_now|]. intros at_. cbv zeta.
  eapply spec_then; [apply stable_and; [stab|done]|done|apply spec_lift|]. intros payload.
  set (a := mkLedgerAppend _ _ _ _ _).
  eapply (spec_pre _ (entry_ready a)).
  { intros w _ [[(r & Hr & Hm & Hs) _] Hj]. destruct Hm as (M1 & M2 & M3 & M4 & M5 & M6 & M7).
    apply steps_completed in Hs; [|done]. exists r, at_. split_and!; [done|by rewrite Hs|].
    change (la_Payload a) with payload. change (la_TradeID a) with (tr_ID t).
    rewrite <-Hj. f_equal. unfold row_record, tradeRecord.
    apply Parse_iff in M5 as [_ M5]. by rewrite M1, M2, M3, M4, M6, M7, Hs, M5. }
  eapply spec_then; [apply stable_entry_ready|done|by apply spec_append|]. intros entry.
  eapply (spec_pre _ (in_chain (tr_ID t))); [naive_solver|].
  eapply (spec_then _ _ _ _ any); [apply stable_in_chain|done|apply spec_good, good_NewString|]. intros id.
  eapply (spec_pre _ (in_chain (tr_ID t))); [naive_solver|].
  eapply (spec_then _ _ _ _ any); [apply stable_in_chain|done|apply spec_good, good_lift|]. intros jws.
  eapply (spec_pre _ (in_chain (tr_ID t))); [naive_solver|].
  eapply spec_then; [apply stable_in_chain|done|apply (spec_SaveReceipt (mkReceipt id (tr_ID t) jws at_))|]. intros [].
  by apply spec_ret.
Qed.

(** ** Spending caps: reads only *)
Lemma good_effective p a : good (effective sv p a).
Proof. unfold effective. goods. Qed.

Lemma good_committedSpend b win ex : good (committedSpend sv b win ex).
Proof. unfold committedSpend. goods. Qed.

Lemma good_checkSpend b am m ex : good (checkSpend sv b am m ex).
Proof.
  unfold checkSpend. destruct (sv_limits sv) as [p|]; [|apply good_ok].
  apply good_then; [apply good_effective|]. intros eff.
  destruct (PriceCache_USDValue _ _ _) as [r prices].
  apply good_then; [apply good_lift|]. intros value.
  apply good_then; [apply good_lift|]. intros c1.
  apply good_then; [apply good_refuse|]. intros [].
  apply good_then; [apply good_committedSpend|]. intros rows.
  apply good_then; [apply good_lift|]. intros c2.
  apply good_then; [apply good_lift|]. intros c3. apply good_refuse.
Qed.

Lemma good_RaiseLimits a x y : good (RaiseLimits sv a x y).
Proof.
  unfold RaiseLimits. pose proof good_SetAgentLimits. pose proof good_effective. cbv zeta. goods.
Qed.

(** ** The trade operations *)
Lemma good_CheckCluster : good (CheckCluster sv).
Proof. unfold CheckCluster, GetGenesisHash. goods. Qed.

Lemma good_requireSettlement : good (requireSettlement sv).
Proof. unfold requireSettlement. pose proof good_CheckCluster. goods. Qed.

Lemma good_liveSettlement id : good (liveSettlement sv id).
Proof. unfold liveSettlement, LiveSettlementRequest. goods. Qed.

Lemma good_checkSettleable b s m : good (checkSettleable sv b s m).
Proof. unfold checkSettleable. goods. Qed.

Lemma good_acceptanceDeadline t : good (acceptanceDeadline sv t).
Proof. unfold acceptanceDeadline, TradeAcceptance. goods. Qed.

Lemma good_check_party a p : good (check_party a p).
Proof. unfold check_party, GetAgent. goods. Qed.

(** A call that tells nothing, before one that uses what is known. *)
Lemma spec_past {A B} (P : World → Prop) (m : io World A) (f : A → io World B) :
  stable P → good m → (∀ a, spec P (f a) (oks any)) → spec P (io_bind m f) (oks any).
Proof.
  intros HP Hm Hf. eapply (spec_then _ _ _ _ any); [done|done|by apply spec_good|].
  intros a. eapply spec_pre; [|apply Hf]. naive_solver.
Qed.

(** The stored offer has the terms of the offer read. *)
Definition offered (o : Offer) (w : World) : Prop := ∃ r, offers (w_db w) !! offer_ID o = Some r ∧
  offer_AgentID o = o_agent r ∧ offer_Direction o = o_direction r ∧ offer_Description o = o_description r ∧
  amount_String (offer_PriceAmount o) = o_price r ∧ offer_PriceMint o = o_mint r ∧
  offer_SettlementModes o = o_modes r.

Lemma stable_offered o : stable (offered o).
Proof.
  intros w w' [He _] (r & Hr & H). destruct (evo_offers _ _ He _ _ Hr) as (r' & Hr' & E1 & E2 & E3 & E4 & E5 & E6 & E7 & _).
  exists r'. by rewrite <-E1, <-E2, <-E3, <-E5, <-E6, <-E7.
Qed.

Lemma spec_reserve actor b s o mode key :
  b ≠ s → is_ok (Money.Parse (amount_String (offer_PriceAmount o))) = true → mode ∈ offer_SettlementModes o →
  (if String.eqb (offer_Direction o) DirectionBid then b else s) = offer_AgentID o →
  spec (offered o) (reserve actor b s o mode key) (oks any).
Proof.
  intros Hne Hp Hmode Hdir. unfold reserve. apply spec_past; [apply stable_offered|apply good_now|]. intros at_.
  apply spec_past; [apply stable_offered|apply good_NewString|]. intros id. cbv zeta.
  eapply (spec_then _ _ _ _ any); [apply stable_offered|done| |].
  { eapply spec_pre; [|by apply spec_CreateTrade]. intros w _ (r & Hr & E1 & E2 & E3 & E4 & E5 & E6).
    exists r. cbn. rewrite <-E1, <-E2, <-E6. by split_and!. }
  intros []. apply spec_good. apply good_then; [apply good_appendEvent|]. intros []. apply good_ok.
Qed.

Lemma spec_locked {A} (P : World → Prop) (body : io World A) :
  stable P → spec P body (oks any) → spec P (locked body) (oks any).
Proof.
  intros HP Hb. unfold locked. apply spec_past; [done|apply good_lock|]. intros [].
  eapply spec_on_result; [done|exact Hb|]. intros r. apply spec_good. pose proof good_unlock. goods.
Qed.

Lemma scanOffer_inv id r o : scanOffer id r = Ok o →
  is_ok (Money.Parse (amount_String (offer_PriceAmount o))) = true ∧ offer_ID o = id ∧
  offer_AgentID o = o_agent r ∧ offer_Direction o = o_direction r ∧ offer_Description o = o_description r ∧
  amount_String (offer_PriceAmount o) = o_price r ∧ offer_PriceMint o = o_mint r ∧
  offer_SettlementModes o = o_modes r.
Proof.
  unfold scanOffer. destruct (Money.Parse (o_price r)) as [a|] eqn:Ha; [cbn -[Money.Parse]|done]. intros [= <-].
  cbn [offer_PriceAmount]. pose proof Ha as [_ ->]%Parse_iff. unfold amount_String; cbn -[Money.Parse]. by rewrite Ha.
Qed.

Lemma spec_GetOffer id : spec true_ (GetOffer id)
  (oks (fun o w => is_ok (Money.Parse (amount_String (offer_PriceAmount o))) = true ∧ offered o w)).
Proof.
  apply spec_query; [done|]. intros w o _ _. destruct (offers (w_db w) !! id) as [r|] eqn:Hr; [|done].
  intros (Hp & <- & E)%scanOffer_inv. split; [done|]. by exists r.
Qed.

(** The trade is reserved for the parties the offer's direction names. *)
Lemma spec_create_for actor b s o mode key :
  b ≠ s → is_ok (Money.Parse (amount_String (offer_PriceAmount o))) = true → mode ∈ offer_SettlementModes o →
  (if String.eqb (offer_Direction o) DirectionBid then b else s) = offer_AgentID o →
  spec (offered o) (
    _ <~ check_party actor b;; _ <~ check_party actor s;;
    _ <~ (if String.eqb mode SettlementOnchain then checkSettleable sv b s (offer_PriceMint o) else ok tt);;
    match sv_limits sv with
    | None => reserve actor b s o mode key
    | Some _ => locked (_ <~ checkSpend sv b (offer_PriceAmount o) (offer_PriceMint o) "";; reserve actor b s o mode key)
    end) (oks any).
Proof.
  intros Hne Hp Hmode Hdir. pose proof (stable_offered o) as Hst. pose proof (spec_reserve actor b s o mode key Hne Hp Hmode Hdir) as Hres.
  apply spec_past; [done|apply good_check_party|]. intros []. apply spec_past; [done|apply good_check_party|]. intros [].
  apply spec_past; [done|destruct (String.eqb mode SettlementOnchain); [apply good_checkSettleable|apply good_ok]|]. intros [].
  destruct (sv_limits sv); [|done]. apply spec_locked; [done|]. apply spec_past; [done|apply good_checkSpend|]. by intros [].
Qed.

Lemma good_create_new actor offerID mode key : good (create_new sv actor offerID mode key).
Proof.
  unfold create_new. eapply spec_then; [done|done|apply spec_GetOffer|]. intros o.
  apply (spec_pre sv (fun w => offered o w ∧ is_ok (Money.Parse (amount_String (offer_PriceAmount o))) = true)); [naive_solver|].
  learn Hp. pose proof (stable_offered o) as Hst.
  apply spec_past; [done|apply good_refuse|]. intros [].
  eapply spec_then; [done|done|apply spec_refuse|]. intros []. learn Hmode.
  eapply spec_then; [done|done|apply spec_refuse|]. intros []. learn Hself.
  apply String.eqb_neq in Hself. apply negb_false_iff, bool_decide_eq_true in Hmode.
  destruct (String.eqb (offer_Direction o) DirectionBid) eqn:Hd; apply spec_create_for; rewrite ?Hd; done.
Qed.

Lemma good_Create actor offerID mode key : good (Create sv actor offerID mode key).
Proof.
  unfold Create. cbv zeta. apply good_then; [apply good_refuse|]. intros [].
  apply good_then; [destruct (String.eqb _ SettlementOnchain); [apply good_requireSettlement|apply good_ok]|]. intros [].
  destruct (String.eqb key ""); [apply good_create_new|].
  apply good_on_result; [apply good_GetTradeByIdempotencyKey|]. intros [x|e]; [apply good_ok|].
  destruct (errorIs e ErrNotFound); [apply good_create_new|apply good_fail].
Qed.

(** A free transition of a trade this request has read. *)
Lemma spec_apply_read P id tr actor to detail ev : free to → (∀ w, P w → read id tr w) →
  spec P (applyAs tr actor to detail ev) (oks any).
Proof.
  intros Hf HP. eapply spec_conseq; [| |apply (spec_applyAs_free P); [exact Hf|]].
  - done.
  - intros [a|e] w; done.
  - intros w Hw. by apply HP.
Qed.

Lemma free_cases : free TradeNegotiating ∧ free TradeCancelled ∧ free TradeDisputed ∧ free TradeResolved ∧
  free TradeRecorded ∧ free TradeSettlementPending.
Proof. by split_and!; split. Qed.

(** After [partyTrade]: a program about the trade just read. *)
Lemma good_partyTrade {A} actor id (f : Trade → io World A) :
  (∀ t, Party t actor = true → spec (read id t) (f t) (oks any)) →
  good (io_bind (partyTrade actor id) f).
Proof.
  intros Hf. eapply spec_then; [done|done|by apply spec_partyTrade|]. intros t.
  intros w Hw (_ & Hr & Hp). by apply Hf.
Qed.

Lemma spec_read_then {A B} id t (m : io World A) (f : A → io World B) :
  good m → (∀ a, spec (read id t) (f a) (oks any)) → spec (read id t) (io_bind m f) (oks any).
Proof.
  intros Hm Hf. eapply (spec_then _ _ _ _ any); [apply stable_read|done|by apply spec_good|].
  intros a. eapply spec_pre; [|apply Hf]. naive_solver.
Qed.

Lemma good_BeginNegotiation actor id : good (BeginNegotiation actor id).
Proof.
  unfold BeginNegotiation, transition. apply good_partyTrade. intros t _.
  case_bool_decide; [by apply spec_ret|]. destruct (negb _); [by apply spec_ret|].
  by apply (spec_apply_read _ id); [apply free_cases|].
Qed.

Lemma good_Cancel actor id reason : good (Cancel sv actor id reason).
Proof.
  unfold Cancel. apply good_partyTrade. intros t _. case_bool_decide; [by apply spec_ret|].
  apply spec_read_then; [apply good_liveSettlement|]. intros live.
  apply spec_read_then; [apply good_refuse|]. intros [].
  apply spec_read_then.
  { case_bool_decide; [|apply good_ok]. pose proof (good_acceptanceDeadline t). goods. }
  intros []. by apply (spec_apply_read _ id); [apply free_cases|].
Qed.

Lemma good_Dispute actor id reason : good (Dispute actor id reason).
Proof.
  unfold Dispute. apply good_partyTrade. intros t _. case_bool_decide; [by apply spec_ret|].
  by apply (spec_apply_read _ id); [apply free_cases|].
Qed.

Lemma good_Resolve op id outcome reason : good (Resolve op id outcome reason).
Proof.
  unfold Resolve. apply good_then; [apply good_refuse|]. intros [].
  eapply spec_then; [done|done|by apply spec_GetTrade|]. intros t.
  case_bool_decide; [by apply spec_ret|]. destruct (negb _); [by apply spec_ret|].
  apply (spec_apply_read _ id); [apply free_cases|]. naive_solver.
Qed.

(** Both acceptances of a two-party trade allow it to be accepted. *)
Lemma read_may_accept id t w : wf w → read id t w → (2 ≤ length (tr_Acceptances t))%nat →
  may_enter sv id TradeAccepted w.
Proof.
  intros Hw (Hid & (r & Hr & Hm & Hs) & Hnd & Hacc) Hl. rewrite Hid in *. exists r. split; [done|].
  assert (t_buyer r ∈ tr_Acceptances t ∧ t_seller r ∈ tr_Acceptances t) as [Hb Hse].
  { apply two_acceptors; [done|done|]. intros a Ha. destruct (Hacc a Ha) as [x Hx]. rewrite Hid in Hx.
    destruct (wf_acceptance _ _ Hw _ _ _ Hx) as (r' & Hr' & Hp). by simplify_eq. }
  apply Hacc in Hb, Hse. by rewrite Hid in Hb, Hse.
Qed.

Lemma good_Accept actor id : good (Accept actor id).
Proof.
  unfold Accept. apply good_partyTrade. intros t Hp. destruct (_ || _); [by apply spec_ret|].
  destruct (negb _); [by apply spec_ret|].
  apply spec_read_then; [apply good_now|]. intros at_.
  eapply (spec_then _ _ _ _ any); [apply stable_read|done| |].
  { eapply spec_pre; [|apply spec_AddTradeAcceptance]. intros w _ Hr. by eapply read_party. }
  intros ins. apply (spec_pre _ true_); [done|]. destruct (negb ins); [apply good_GetTrade|].
  eapply spec_then; [done|done|by apply spec_GetTrade|]. intros u.
  destruct (Nat.ltb_spec (length (tr_Acceptances u)) 2); [by apply spec_ret|].
  eapply spec_conseq; [intros w Hw; exact Hw| |eapply spec_pre; [|apply spec_applyAs]].
  - by intros [a|e] w.
  - intros w Hw [_ Hr]. pose proof Hr as (Hid & Hs & _). split; [done|]. rewrite Hid. by eapply read_may_accept.
Qed.

Lemma good_Record_trade actor id : good (Record_trade sv actor id).
Proof.
  unfold Record_trade. apply good_partyTrade. intros t _. case_bool_decide.
  { apply spec_good. unfold Receipt_, GetReceiptByTrade. goods. }
  apply spec_read_then; [apply good_checkSpend|]. intros [].
  eapply spec_then; [apply stable_read|done| |].
  { apply spec_applyAs_free; [apply free_cases|]. by intros w (_ & ? & _). }
  intros rec. apply (spec_pre _ (seen rec)); [by intros w _ (_ & _ & ? & _)|].
  eapply (spec_then _ _ _ _ any); [stab|done|apply good_Record_|]. intros receipt.
  apply spec_good. pose proof good_SetOfferStatus. goods.
Qed.

(** ** The sweeps *)
Lemma spec_sweep_one P n t reason : (∀ w, P w → seen t w) → spec P (sweep_one n t reason) (oks any).
Proof.
  intros HP. unfold sweep_one. apply (spec_pre _ (seen t)); [naive_solver|].
  eapply spec_on_result; [stab|apply (spec_applyAs_free _ t); [apply free_cases|done]|].
  intros [x|e]; [by apply spec_ret|]. destruct (errorIs e ErrIllegalState); by apply spec_ret.
Qed.

(** Every trade of a batch has been seen. *)
Definition all_seen (ts : list Trade) (w : World) : Prop := ∀ t, t ∈ ts → seen t w.

Lemma stable_all_seen ts : stable (all_seen ts).
Proof. intros w w' He Ha t Ht. eapply stable_seen; [exact He|]. by apply Ha. Qed.

Lemma spec_get_trades_acc ids acc :
  spec (all_seen acc) (io_fold (fun out id => tr <~ GetTrade id;; ok (out ++ [tr])) acc ids) (oks all_seen).
Proof.
  revert acc. induction ids as [|id ids IH]; intros acc; cbn [io_fold]; [by apply spec_ret|].
  eapply (spec_then _ _ _ _ (fun out => all_seen out)); [apply stable_all_seen|done| |].
  - eapply spec_then; [apply stable_all_seen|done|apply spec_GetTrade, stable_all_seen|]. intros t.
    apply spec_ret. intros w [Ha (_ & Hs & _)] x [Hx|Hx%list_elem_of_singleton]%elem_of_app; [by apply Ha|by subst].
  - intros out. eapply spec_pre; [|apply IH]. naive_solver.
Qed.

Lemma spec_get_trades ids : spec true_ (get_trades ids) (oks all_seen).
Proof. eapply spec_pre; [|apply spec_get_trades_acc]. intros w _ _ t Ht. set_solver. Qed.

Lemma spec_ids_then (q : DB → res (list string)) :
  spec true_ (ids <~ query q;; get_trades ids) (oks all_seen).
Proof.
  eapply (spec_then _ _ _ _ any); [done|done|apply good_query|]. intros ids.
  eapply spec_pre; [|apply spec_get_trades]. done.
Qed.

Lemma good_ExpireAccepted limit : good (ExpireAccepted sv limit).
Proof.
  unfold ExpireAccepted. destruct (_ <=? 0); [apply good_ok|]. apply good_then; [apply good_now|]. intros at_.
  eapply spec_then; [done|done|apply spec_ids_then|]. intros ts.
  apply (spec_pre _ (all_seen ts)); [naive_solver|]. apply spec_fold; [apply stable_all_seen|].
  intros t Ht n. eapply (spec_then _ _ _ _ any); [apply stable_all_seen|done| |].
  { apply spec_good. unfold Expired. pose proof (good_acceptanceDeadline t). goods. }
  intros past. destruct (_ || _); [by apply spec_ret|]. apply spec_sweep_one. intros w [Ha _]. by apply Ha.
Qed.

Lemma good_ExpireOpen limit : good (ExpireOpen sv limit).
Proof.
  unfold ExpireOpen. destruct (_ <=? 0); [apply good_ok|]. apply good_then; [apply good_now|]. intros at_.
  cbv zeta. eapply spec_then; [done|done|apply spec_ids_then|]. intros ts.
  apply (spec_pre _ (all_seen ts)); [naive_solver|]. apply spec_fold; [apply stable_all_seen|].
  intros t Ht n. destruct (_ && _); [by apply spec_ret|]. destruct (after _ _); [by apply spec_ret|].
  apply spec_sweep_one. intros w Ha. by apply Ha.
Qed.

(** ** Settlement *)
Lemma good_verifyMint d m : good (verifyMint d m).
Proof. unfold verifyMint, MintVerify. goods. Qed.

Lemma good_Build_ d t : good (Build_ d t).
Proof. unfold Build_, AccountExists, LatestBlockhash. goods. Qed.

Lemma good_BuildSettlement actor id : good (BuildSettlement sv actor id).
Proof.
  unfold BuildSettlement. apply good_partyTrade. intros t _.
  apply spec_read_then; [apply good_requireSettlement|]. intros [].
  do 3 (apply spec_read_then; [apply good_refuse|]; intros []).
  apply spec_read_then; [apply good_checkSpend|]. intros []. unfold deps.
  destruct (Enabled sv) as [d|]; [|by apply spec_ret].
  apply spec_read_then; [apply good_lift|]. intros terms.
  apply spec_read_then; [apply good_verifyMint|]. intros [].
  apply spec_read_then; [apply good_Build_|]. intros built.
  apply spec_read_then; [apply good_now|]. intros at_.
  apply spec_read_then; [apply good_NewString|]. intros nid.
  apply spec_read_then; [apply good_CreateSettlementRequest|]. intros req.
  case_bool_decide; [|by apply spec_ret].
  eapply (spec_then _ _ _ _ any); [apply stable_read|done| |intros []; by apply spec_ret].
  eapply (spec_then _ _ _ _ any); [apply stable_read|done| |intros ?; by apply spec_ret].
  by apply (spec_apply_read _ id); [apply free_cases|].
Qed.

(** A transaction the endpoint has served under this signature. *)
Definition landed (sig : string) (f : Fetched) (w : World) : Prop :=
  ∃ h, ch_landed (w_chain w) !! (h, sig) = Some f.

Lemma stable_landed sig f : stable (landed sig f).
Proof. intros w w' [_ Hl] [h Hf]. exists h. by eapply lookup_weaken. Qed.

Lemma spec_ChainTransaction P sig : stable P → spec P (ChainTransaction sig) (oks (landed sig)).
Proof.
  intros HP. apply spec_rpc; [done|]. intros w f _ _.
  destruct (ch_landed _ !! _) as [f'|] eqn:E; [|done]. intros [= <-]. by eexists.
Qed.

Lemma NewTerms_pending tr tr' r p t : NewTerms tr r p = Ok t →
  tr_State tr' = TradeSettlementPending → tr_ID tr' = tr_ID tr → tr_Mode tr' = tr_Mode tr →
  tr_Amount tr' = tr_Amount tr → tr_Mint tr' = tr_Mint tr → tr_Buyer tr' = tr_Buyer tr →
  tr_Seller tr' = tr_Seller tr → NewTerms tr' r p = Ok t.
Proof.
  intros Ht Hs E1 E2 E3 E4 E5 E6. pose proof (NewTerms_inv _ _ _ _ Ht) as (Hst & _). rewrite <-Ht.
  unfold NewTerms. rewrite Hs, E1, E2, E3, E4, E5, E6. by destruct Hst as [-> | ->].
Qed.

(** The verified transaction of a trade this request has seen proves it. *)
Lemma settle_may_enter d tr w terms sig f :
  sv_settlement sv = Some d → seen tr w → landed sig f w →
  NewTerms tr (sd_Registry d) (sd_Policy d) = Ok terms → fe_ExecErr f = false →
  Settlement.Verify terms (fe_Transaction f) = Ok tt → may_enter sv (tr_ID tr) TradeSettled w.
Proof.
  intros Hd (r & Hr & (M1 & M2 & M3 & M4 & M5 & M6 & M7) & _) [h Hf] Ht He Hv.
  exists r. split; [done|]. exists d, (tr_Amount tr), terms, h, sig, f. split_and!; try done.
  by eapply NewTerms_pending.
Qed.

Lemma good_confirmRequests rs cur sig at_ : good (confirmRequests rs cur sig at_).
Proof.
  unfold confirmRequests. pose proof good_ConfirmSettlementRequest. pose proof good_ExpireSettlementRequests. goods.
Qed.

Lemma spec_settleFetched d tr rs cur sig f :
  sv_settlement sv = Some d →
  spec (fun w => seen tr w ∧ landed sig f w) (settleFetched sv d tr rs cur sig f) (oks any).
Proof.
  intros Hd. assert (stable (fun w => seen tr w ∧ landed sig f w)) as Hst
    by (apply stable_and; [stab|apply stable_landed]).
  unfold settleFetched. eapply (spec_then _ _ _ _ any); [done|done|apply spec_good, good_lift|]. intros [].
  apply (spec_pre _ (fun w => seen tr w ∧ landed sig f w)); [naive_solver|].
  destruct (fe_ExecErr f) eqn:Hex.
  { apply spec_good. pose proof good_ExpireSettlementRequests. goods. }
  eapply (spec_then _ _ _ _ (fun t _ => NewTerms tr (sd_Registry d) (sd_Policy d) = Ok t)); [done|done|apply spec_lift|].
  intros terms. learn Ht.
  destruct (Settlement.Verify terms (fe_Transaction f)) as [[]|e] eqn:Hv.
  - eapply (spec_then _ _ _ _ any); [done|done|apply spec_good, good_now|]. intros at_.
    apply (spec_pre _ (fun w => seen tr w ∧ landed sig f w)); [naive_solver|].
    eapply (spec_then _ _ _ _ any); [done|done|apply spec_good, good_confirmRequests|]. intros [].
    apply (spec_pre _ (fun w => seen tr w ∧ landed sig f w)); [naive_solver|].
    eapply spec_then; [done|done| |].
    { eapply spec_pre; [|apply spec_applyAs]. intros w _ [Hs Hl]. split; [done|]. by eapply settle_may_enter. }
    intros settled. apply (spec_pre _ (seen settled)); [by intros w _ (_ & _ & ? & _)|].
    eapply (spec_then _ _ _ _ any); [stab|done|apply good_Record_|]. intros receipt.
    apply spec_good. pose proof good_SetOfferStatus. goods.
  - destruct (negb _); [by apply spec_ret|].
    eapply (spec_then _ _ _ _ any); [done|done| |intros ?; by apply spec_ret].
    eapply spec_conseq; [| |apply (spec_applyAs_free (seen tr)); [apply free_cases|done]].
    + naive_solver.
    + by intros [a|x] w.
Qed.

Lemma good_await p n k sig : good (await p n k sig).
Proof.
  revert k. induction n as [|n IH]; intros k; cbn [await]; [apply good_fail|].
  apply good_on_result; [apply good_rpc|]. intros [f|e]; [apply good_ok|].
  destruct (negb _); [apply good_fail|]. destruct n; [apply good_fail|].
  apply good_then; [|intros []; apply IH]. unfold sleep. destruct (_ <=? 0); [apply good_ok|].
  apply good_unchanged. by intros w r w' [= <- <-].
Qed.

Lemma spec_await P p n k sig : stable P → spec P (await p n k sig) (oks (landed sig)).
Proof.
  intros HP. revert k. induction n as [|n IH]; intros k; cbn [await]; [by apply spec_ret|].
  eapply spec_on_result; [done|by apply spec_ChainTransaction|]. intros [f|e]; [by apply spec_ret; intros w [_ ?]|].
  destruct (negb _); [by apply spec_ret|]. destruct n as [|n]; [by apply spec_ret|].
  apply (spec_pre _ P); [naive_solver|].
  eapply (spec_then _ _ _ _ any); [done|done| |intros []; eapply spec_pre; [|apply IH]; naive_solver].
  apply spec_good. unfold sleep. destruct (_ <=? 0); [apply good_ok|].
  apply good_unchanged. by intros w r w' [= <- <-].
Qed.

Lemma good_record_signature d id rs sig : good (record_signature d id rs sig).
Proof.
  unfold record_signature, GetSettlementRequest. pose proof good_SetSettlementSignature. goods.
Qed.

Lemma Enabled_settlement d : Enabled sv = Some d → sv_settlement sv = Some d.
Proof. unfold Enabled. destruct (sv_settlement sv) as [x|]; [|done]. by destruct (String.eqb _ _). Qed.

Lemma good_ConfirmSettlement actor id sig : good (ConfirmSettlement sv actor id sig).
Proof.
  unfold ConfirmSettlement. apply good_partyTrade. intros t _.
  apply spec_read_then; [apply good_requireSettlement|]. intros [].
  apply spec_read_then; [apply good_refuse|]. intros [].
  destruct (sig_parse sig) as [sg|]; [|by apply spec_ret].
  assert (∀ w, read id t w → seen t w) as Hseen by by intros w (_ & ? & _).
  destruct (tr_State t); try (by apply spec_ret);
    try solve [apply spec_good; unfold Receipt_, GetReceiptByTrade; goods].
  unfold deps. destruct (Enabled sv) as [d|] eqn:Hd; [|by apply spec_ret]. apply Enabled_settlement in Hd.
  apply spec_read_then; [apply good_query|]. intros rs.
  apply spec_read_then; [apply good_record_signature|]. intros cur.
  eapply spec_then; [apply stable_read|done|apply spec_await, stable_read|]. intros f.
  eapply spec_pre; [|by apply spec_settleFetched]. naive_solver.
Qed.

(** ** The reconciler *)
Lemma spec_reconcileLapsed tr at_ : spec (seen tr) (reconcileLapsed tr at_) (oks any).
Proof.
  unfold reconcileLapsed. eapply (spec_then _ _ _ _ any); [stab|done|apply spec_good, good_ExpireSettlementRequests|].
  intros []. apply (spec_pre _ (seen tr)); [naive_solver|].
  eapply spec_on_result; [stab|apply (spec_applyAs_free _ tr); [apply free_cases|done]|].
  intros [x|e]; [by apply spec_ret|]. destruct (errorIs e ErrIllegalState); by apply spec_ret.
Qed.

Lemma spec_reconcileTrade d tr : sv_settlement sv = Some d → spec (seen tr) (reconcileTrade sv d tr) (oks any).
Proof.
  intros Hd. unfold reconcileTrade. destruct (negb _); [by apply spec_ret|].
  eapply (spec_then _ _ _ _ any); [stab|done|apply spec_good, good_query|]. intros rs.
  apply (spec_pre _ (seen tr)); [naive_solver|].
  eapply (spec_then _ _ _ _ any); [stab|done|apply spec_good, good_now|]. intros at_.
  apply (spec_pre _ (seen tr)); [naive_solver|].
  destruct (latestSignedRequest rs) as [signed|].
  2: { destruct (latestRequest rs) as [l|]; [|by apply spec_ret].
       destruct (lapsed l at_); [apply spec_reconcileLapsed|by apply spec_ret]. }
  destruct (checkRequestCluster d rs (sr_ID signed)) as [[]|e].
  2: { destruct (negb _); [by apply spec_ret|]. apply spec_good. pose proof good_ExpireSettlementRequests. goods. }
  destruct (sig_parse _) as [sig|]; [|by apply spec_ret].
  eapply spec_on_result; [stab|apply spec_ChainTransaction; stab|]. intros [f|e].
  - eapply spec_on_result; [apply stable_and; [stab|apply stable_landed]|by apply spec_settleFetched|].
    intros [x|e]; [by apply spec_ret|]. repeat case_match; by apply spec_ret.
  - apply (spec_pre _ (seen tr)); [naive_solver|]. destruct (errorIs _ _); [|by apply spec_ret].
    destruct (lapsed signed at_); [apply spec_reconcileLapsed|by apply spec_ret].
Qed.

Lemma spec_TradesInState s : spec true_ (TradesInState s) (oks all_seen).
Proof.
  apply spec_query; [done|]. intros w out _ _. set (l := stable_sort _ _).
  assert (∀ id r, (id, r) ∈ l → trades (w_db w) !! id = Some r) as Hl.
  { intros id r Hin. unfold l in Hin. rewrite stable_sort_perm in Hin.
    apply list_elem_of_In, filter_In in Hin as [Hin _]. by apply list_elem_of_In, elem_of_map_to_list in Hin. }
  clearbody l. revert out Hl. induction l as [|[id r] l IH]; cbn [foldr]; intros out Hl.
  { intros [= <-] t Ht. set_solver. }
  destruct (scanTrade id r) as [t|] eqn:Ht; [cbn [mbind res_bind]|done].
  destruct (foldr _ _ l) as [ts|]; [cbn|done]. intros [= <-] x [->|Hx]%elem_of_cons.
  - apply scanTrade_inv in Ht as (Hid & Hs & Hm & _). exists r. rewrite Hid, Hs. split; [|done].
    apply Hl. set_solver.
  - eapply IH; [|done|exact Hx]. intros; apply Hl. set_solver.
Qed.

Lemma good_ReconcileOutstanding p : good (ReconcileOutstanding sv p).
Proof.
  unfold ReconcileOutstanding. destruct (Enabled sv) as [d|] eqn:Hd; [|apply good_ok].
  apply Enabled_settlement in Hd. destruct (negb _); [apply good_ok|].
  eapply spec_then; [done|done|apply spec_TradesInState|]. intros ts.
  apply (spec_pre _ (all_seen ts)); [naive_solver|].
  eapply (spec_then _ _ _ _ any); [apply stable_all_seen|done|apply spec_good, good_CheckCluster|]. intros [].
  apply (spec_pre _ (all_seen ts)); [naive_solver|]. apply spec_fold; [apply stable_all_seen|].
  intros t Ht st. eapply spec_on_result; [apply stable_all_seen| |intros [?|?]; by apply spec_ret].
  eapply spec_pre; [|by apply spec_reconcileTrade]. intros w _ Ha. apply Ha.
  eapply elem_of_take in Ht as (i & Hi & _). by eapply list_elem_of_lookup_2.
Qed.
End Handlers.
