(* ===== verification/Listings.v ===== *)
(** * The registry and login operations keep the invariants

    From the store lemmas of [Preserve]: every operation of [Market] and [Auth]
    is safe under any interference.  What makes it so is that a signature is
    checked against exactly the content that is then stored. *)
From S2P Require Import Prelude Prog Money Domain Cluster Limits Tokens Settlement Keys Attest Probe World Store Auth Market Ledger Trade TradeSettlement Safety Preserve.

Section Listings.
Context `{IU : Unicode} `{IS : Solana} `{IJ : JWT} `{IB : Base58} `{IE : Ed25519} `{IN : NetURL} `{IT : SessionJWT}
  (sv : Deployment).

#[local] Abbreviation spec := (Safety.spec sv).
#[local] Abbreviation good := (Safety.good sv).
#[local] Abbreviation rg := (dp_registry sv).

(** A pure step whose result the rest relies on. *)
Lemma good_lift_then {A B} (r : res A) (f : A → io World B) :
  (∀ a, r = Ok a → good (f a)) → good (io_bind (lift r) f).
Proof.
  intros Hf. eapply spec_then; [done|done|apply spec_lift|]. intros a. learn H. by apply spec_good, Hf.
Qed.

Lemma good_refuse_then {B} b e (f : unit → io World B) : (b = false → good (f tt)) → good (io_bind (refuse b e) f).
Proof.
  intros Hf. eapply spec_then; [done|done|apply spec_refuse|]. intros []. learn H. by apply spec_good, Hf.
Qed.

Lemma wrap_ok {A} e (r : res A) a : wrap e r = Ok a → r = Ok a.
Proof. by destruct r. Qed.

(** ** Cards *)
Lemma spec_GetAgent id : spec true_ (GetAgent id) (oks (fun a _ => agent_ID a = id ∧ AgentStatus_Valid (agent_Status a) = true)).
Proof.
  apply spec_query; [done|]. intros w a Hw _. destruct (agents (w_db w) !! id) as [r|] eqn:Hr; [|done].
  intros [= <-]. split; [done|]. by destruct (wf_rows _ _ Hw) as [_ H]; destruct (H _ _ Hr) as (_ & _ & ?).
Qed.

Lemma with_market_ok {A} (f : privkey → res A) a : with_market rg f = Ok a → ∃ k, rg_market rg = Some k ∧ f k = Ok a.
Proof. unfold with_market. destruct (rg_market rg) as [k|]; [|done]. by exists k. Qed.

Lemma good_Register agentID card sig : good (Register rg agentID card sig).
Proof.
  unfold Register. cbv zeta. set (card' := if String.eqb (card_PublicKey card) "" then with_card_key card agentID else card).
  apply good_then; [apply good_lift|]. intros _.
  apply good_refuse_then. intros Hkey. apply negb_false_iff, String.eqb_eq in Hkey.
  apply good_lift_then. intros [] Hval.
  apply good_lift_then. intros [] Hsig. apply good_then; [apply good_now|]. intros at_.
  apply good_lift_then. intros market Hm. apply with_market_ok in Hm as (k & Hk & Hm). apply wrap_ok in Hm.
  assert (∀ g, sig = Some g → VerifyCard (attestCard card') g = Ok tt) as Hg.
  { intros g ->. by eapply wrap_ok. }
  assert (∀ a, agent_Card a = card' → agent_ID a = agentID → AgentStatus_Valid (agent_Status a) = true →
    good (SaveAgentCard a sig market at_)) as Hsave.
  { intros a Hc Hid Hst. apply good_SaveAgentCard; rewrite ?Hc, ?Hid; [done|by exists k, at_| |done]. by split_and!. }
  eapply spec_on_result; [done|apply spec_GetAgent|]. intros [a|e].
  - cbn [oks]. learn Hid. destruct Hid as [Hid Hst]. apply spec_good, good_then; [by apply Hsave|]. intros []. apply good_ok.
  - apply spec_good. destruct (negb _); [apply good_fail|]. apply good_then; [by apply Hsave|]. intros []. apply good_ok.
Qed.

(** ** Offers *)
Lemma good_store_offer o key sig :
  Money.Parse (amount_String (offer_PriceAmount o)) = Ok (offer_PriceAmount o) → offer_Validate o = Ok tt →
  (∀ g, sig = Some g → VerifyOffer (attestOffer rg o) g = Ok tt) → good (store_offer o key sig).
Proof. intros Hp Hv Hg. apply good_then; [by apply good_CreateOfferWithAttestation|]. intros []. apply good_ok. Qed.

Lemma check_offer_signed agent o g : check_offer rg agent o (Some g) = Ok tt → VerifyOffer (attestOffer rg o) g = Ok tt.
Proof.
  unfold check_offer. destruct (offer_Validate o); cbn; [|done]. destruct (checkCurrencyAccepted _ _); cbn; [|done].
  destruct (guard_err _ _); cbn; [|done]. destruct (if AcceptsMode o SettlementOnchain then _ else _); [|done].
  by intros ?%wrap_ok.
Qed.

Lemma check_offer_valid agent o sig : check_offer rg agent o sig = Ok tt → offer_Validate o = Ok tt.
Proof. unfold check_offer. by destruct (offer_Validate o) as [[]|]. Qed.

Lemma Parse_again x a : Money.Parse x = Ok a → Money.Parse (amount_String a) = Ok a.
Proof. intros H. pose proof H as [_ ->]%Parse_iff. exact H. Qed.

Lemma good_publish_new agentID inp key offerID sig : good (publish_new rg agentID inp key offerID sig).
Proof.
  unfold publish_new. cbv zeta. apply good_then; [apply good_refuse|]. intros _.
  apply good_then; [apply good_query|]. intros agent. apply good_then; [apply good_refuse|]. intros _.
  apply good_lift_then. intros amount Hp. apply Parse_again in Hp.
  apply good_then; [apply good_now|]. intros at_.
  apply good_then; [case_match; [apply good_ok|apply good_NewString]|]. intros id.
  apply good_lift_then. intros [] Hc. set (o := new_offer rg id agentID inp amount at_) in *.
  assert (good (store_offer o key sig)) as Hstore.
  { apply good_store_offer; [exact Hp|by eapply check_offer_valid|]. intros g ->. by eapply check_offer_signed. }
  case_match; [|done]. apply good_on_result; [apply good_query|]. intros [existing|e].
  - case_match; [apply good_fail|apply good_ok].
  - case_match; [done|apply good_fail].
Qed.

Lemma good_PublishOffer agentID inp key offerID sig : good (PublishOffer rg agentID inp key offerID sig).
Proof.
  unfold PublishOffer. apply good_then; [apply good_refuse|]. intros _. case_match; [apply good_publish_new|].
  apply good_on_result; [apply good_query|]. intros [existing|e]; [apply good_ok|].
  case_match; [apply good_publish_new|apply good_fail].
Qed.

Lemma good_CloseOffer agentID offerID : good (CloseOffer agentID offerID).
Proof. unfold CloseOffer, GetOffer. pose proof (good_SetOfferStatus sv). goods. Qed.

Lemma good_OpenOffersBefore cutoff limit : good (OpenOffersBefore cutoff limit).
Proof. unfold OpenOffersBefore. goods. Qed.

Lemma good_ExpireOffers limit : good (ExpireOffers rg limit).
Proof.
  unfold ExpireOffers. case_match; [apply good_ok|]. apply good_then; [apply good_now|]. intros cutoff.
  apply good_then; [apply good_OpenOffersBefore|]. intros l. apply good_fold. intros n o.
  unfold expire_one, GetOffer. pose proof (good_SetOfferStatus sv). goods.
Qed.

(** ** Probes and retirement *)
Lemma good_ProbeCapabilities challenge reply agentID : good (ProbeCapabilities rg challenge reply agentID).
Proof.
  unfold ProbeCapabilities. destruct (rg_prober rg) as [limits|]; [|apply good_fail]. cbv zeta.
  apply good_then; [apply good_query|]. intros agent. do 2 (apply good_then; [apply good_refuse|]; intros _).
  apply good_then; [apply good_now|]. intros checked. apply good_lift_then. intros report Hr.
  destruct (Run_report _ _ _ _ _ _ _ _ Hr) as (_ & _ & _ & Hrec).
  apply good_then; [apply good_now|]. intros signed. apply good_then; [apply good_lift|]. intros sig.
  apply good_then; [apply good_now|]. intros saved. apply good_then; [by apply good_SaveProbe|]. intros []. apply good_ok.
Qed.

Lemma good_Retire agentID reason actor : good (Retire agentID reason actor).
Proof. unfold Retire. pose proof (good_RetireAgent sv). goods. Qed.

Lemma good_Restore agentID actor : good (Restore agentID actor).
Proof. unfold Restore, GetAgent. pose proof (good_RestoreAgent sv). goods. Qed.

(** ** Login *)
Lemma good_IssueChallenge agentID nonce : good (IssueChallenge (dp_auth sv) agentID nonce).
Proof.
  unfold IssueChallenge. apply good_lift_then. intros k Hk. apply good_then; [apply good_now|]. intros at_.
  apply good_then; [apply good_NewString|]. intros id. cbv zeta.
  apply good_then; [apply good_CreateChallenge; cbn [ch_AgentID]; by rewrite Hk|]. intros []. apply good_ok.
Qed.

Lemma good_Redeem id signature : good (Redeem (dp_auth sv) id signature).
Proof. unfold Redeem, issueSession. pose proof (good_ConsumeChallenge sv). goods. Qed.
End Listings.
