(* ===== verification/System.v ===== *)
(** * The running service: safety over every interleaving

    [call] lists the requests, sweeps and reconciler passes the process serves;
    a configuration is a world and the calls in progress.  Between any two
    actions of one call others may act, the clock, the chain and the endpoint
    may move ([env]), any store or RPC call may fail, and the process may crash
    and restart.  The theorems hold of everything reachable from an empty
    database. *)
From S2P Require Import Prelude Prog Money Domain Cluster Limits Tokens Settlement Keys Attest Probe World Store Auth Market Ledger Trade TradeSettlement Safety Preserve Handlers Listings Sha256 Json.

Inductive call :=
  | CallCreate (actor offer : string) (mode : SettlementMode) (key : string)
  | CallBegin (actor id : string)
  | CallAccept (actor id : string)
  | CallCancel (actor id reason : string)
  | CallDispute (actor id reason : string)
  | CallResolve (operator id : string) (outcome : Resolution) (reason : string)
  | CallRecord (actor id : string)
  | CallBuild (actor id : string)
  | CallConfirm (actor id signature : string)
  | CallReconcile (policy : ReconcilePolicy)
  | CallExpireAccepted (limit : Z)
  | CallExpireOpen (limit : Z)
  | CallRaiseLimits (agent : string) (perTrade perDay : Amount)
  | CallRegister (agent : string) (card : AgentCard) (sig : option Signature)
  | CallPublishOffer (agent : string) (inp : NewOffer) (key id : string) (sig : option Signature)
  | CallCloseOffer (agent id : string)
  | CallExpireOffers (limit : Z)
  | CallProbe (challenge : string) (reply : Reply) (agent : string)
  | CallRetire (id reason actor : string)
  | CallRestore (id actor : string)
  | CallIssueChallenge (agent nonce : string)
  | CallRedeem (id signature : string).

(** Serving a call whose answer nobody waits for. *)
Definition serve {A} (m : io World A) : prog World unit := prog_bind (fun _ => Ret tt) m.

Section System.
Context `{IU : Unicode} `{IS : Solana} `{IJ : JWT} `{IB : Base58} `{IE : Ed25519} `{IN : NetURL} `{IT : SessionJWT}
  (sv : Deployment).

Definition perform (c : call) : prog World unit :=
  match c with
  | CallCreate a o m k => serve (Create sv a o m k)
  | CallBegin a id => serve (BeginNegotiation a id)
  | CallAccept a id => serve (Accept a id)
  | CallCancel a id r => serve (Cancel sv a id r)
  | CallDispute a id r => serve (Dispute a id r)
  | CallResolve o id x r => serve (Resolve o id x r)
  | CallRecord a id => serve (Record_trade sv a id)
  | CallBuild a id => serve (BuildSettlement sv a id)
  | CallConfirm a id s => serve (ConfirmSettlement sv a id s)
  | CallReconcile p => serve (ReconcileOutstanding sv p)
  | CallExpireAccepted l => serve (ExpireAccepted sv l)
  | CallExpireOpen l => serve (ExpireOpen sv l)
  | CallRaiseLimits a x y => serve (RaiseLimits sv a x y)
  | CallRegister a card sig => serve (Register (dp_registry sv) a card sig)
  | CallPublishOffer a inp k id sig => serve (PublishOffer (dp_registry sv) a inp k id sig)
  | CallCloseOffer a id => serve (CloseOffer a id)
  | CallExpireOffers l => serve (ExpireOffers (dp_registry sv) l)
  | CallProbe ch reply a => serve (ProbeCapabilities (dp_registry sv) ch reply a)
  | CallRetire id r a => serve (Retire id r a)
  | CallRestore id a => serve (Restore id a)
  | CallIssueChallenge a nonce => serve (IssueChallenge (dp_auth sv) a nonce)
  | CallRedeem id sig => serve (Redeem (dp_auth sv) id sig)
  end.

Definition served (p : prog World unit) : Prop := ∃ c, p = perform c.

(** The environment leaves the database and the lock alone, and what has landed
    on a chain stays landed. *)
Definition env (w w' : World) : Prop :=
  w_db w' = w_db w ∧ w_locked w' = w_locked w ∧ ch_landed (w_chain w) ⊆ ch_landed (w_chain w').

Definition config : Type := World * list (prog World unit).
Definition sys_step : config → config → Prop := Prog.step env crash served.
Definition initial (w : World) : Prop := w_db w = emptyDB ∧ w_locked w = false.
Definition reachable (c : config) : Prop := ∃ w0, initial w0 ∧ rtc sys_step (w0, []) c.

(** ** Every call is safe *)
Lemma good_serve {A} (m : io World A) : Safety.good sv m →
  ∀ w, wf sv w → safe (R sv) (R sv) always (serve m) w.
Proof.
  intros Hm w Hw. unfold serve. apply safe_bind. eapply safe_mono; [|by apply Hm].
  intros a w' _. done.
Qed.

Lemma perform_safe c w : wf sv w → safe (R sv) (R sv) always (perform c) w.
Proof.
  intros Hw. destruct c; cbn [perform].
  - exact (good_serve _ (good_Create sv _ _ _ _) w Hw).
  - exact (good_serve _ (good_BeginNegotiation sv _ _) w Hw).
  - exact (good_serve _ (good_Accept sv _ _) w Hw).
  - exact (good_serve _ (good_Cancel sv _ _ _) w Hw).
  - exact (good_serve _ (good_Dispute sv _ _ _) w Hw).
  - exact (good_serve _ (good_Resolve sv _ _ _ _) w Hw).
  - exact (good_serve _ (good_Record_trade sv _ _) w Hw).
  - exact (good_serve _ (good_BuildSettlement sv _ _) w Hw).
  - exact (good_serve _ (good_ConfirmSettlement sv _ _ _) w Hw).
  - exact (good_serve _ (good_ReconcileOutstanding sv _) w Hw).
  - exact (good_serve _ (good_ExpireAccepted sv _) w Hw).
  - exact (good_serve _ (good_ExpireOpen sv _) w Hw).
  - exact (good_serve _ (good_RaiseLimits sv _ _ _) w Hw).
  - exact (good_serve _ (good_Register sv _ _ _) w Hw).
  - exact (good_serve _ (good_PublishOffer sv _ _ _ _ _) w Hw).
  - exact (good_serve _ (good_CloseOffer sv _ _) w Hw).
  - exact (good_serve _ (good_ExpireOffers sv _) w Hw).
  - exact (good_serve _ (good_ProbeCapabilities sv _ _ _) w Hw).
  - exact (good_serve _ (good_Retire sv _ _ _) w Hw).
  - exact (good_serve _ (good_Restore sv _ _) w Hw).
  - exact (good_serve _ (good_IssueChallenge sv _ _) w Hw).
  - exact (good_serve _ (good_Redeem sv _ _) w Hw).
Qed.

Lemma env_R w w' : env w w' → R sv w w'.
Proof.
  intros (E1 & _ & Hl) Hw. split; [|split; [rewrite E1; apply evo_db_refl|done]].
  destruct Hw as [W1 W2 W3 W4 W5 W6 W7 W8 W9 W10 W11 W12 W13 W14 W15 W16]. split; rewrite ?E1; try assumption.
  intros k r Hk Hs. eapply proven_terms; [|exact Hl|by apply W10]. by split_and!.
Qed.

Lemma crash_R w : R sv w (crash w).
Proof. intros Hw. by apply (wf_same_db sv w). Qed.

Lemma lookup_emptyDB {A} k (x : A) : (∅ : gmap string A) !! k = Some x → False.
Proof. by rewrite lookup_empty. Qed.

Lemma initial_wf w : initial w → wf sv w.
Proof.
  intros [E _]. split; rewrite E; cbn [emptyDB ledger trades receipts requests acceptances map].
  - exact I.
  - apply NoDup_nil_2.
  - intros e He. by apply not_elem_of_nil in He.
  - intros k r Hk. by destruct (lookup_emptyDB k r).
  - intros k r ? ? Hk. by destruct (lookup_emptyDB k r).
  - intros k r ? ? Hk. by destruct (lookup_emptyDB k r).
  - intros k r Hk. by destruct (lookup_emptyDB k r).
  - intros t a x Hk. by rewrite lookup_empty in Hk.
  - intros k r Hk. by destruct (lookup_emptyDB k r).
  - intros k r Hk. by destruct (lookup_emptyDB k r).
  - intros k r Hk. by destruct (lookup_emptyDB k r).
  - intros k r Hk. by destruct (lookup_emptyDB k r).
  - intros k r Hk. by destruct (lookup_emptyDB k r).
  - intros k r Hk. by destruct (lookup_emptyDB k r).
  - intros k r Hk. by destruct (lookup_emptyDB k r).
  - split; intros k r Hk; by destruct (lookup_emptyDB k r).
Qed.

(** ** Every reachable configuration *)
Lemma reachable_ok c : reachable c → pool_ok (R sv) (wf sv) c.
Proof.
  intros (w0 & H0 & Hs).
  eapply (pool_safe env crash served (R sv) env_R crash_R (wf sv)); [| |exact Hs|].
  - intros w w' HR Hw. by apply HR.
  - intros p w [k ->]. apply perform_safe.
  - split; [by apply initial_wf|constructor].
Qed.

Lemma reachable_wf c : reachable c → wf sv c.1.
Proof. intros Hc. by apply reachable_ok. Qed.

Lemma reachable_evo c c' : reachable c → rtc sys_step c c' → evo c.1 c'.1 ∧ wf sv c'.1.
Proof.
  intros Hc Hs. pose proof (reachable_ok c Hc) as Hp.
  edestruct (pool_safe env crash served (R sv) env_R crash_R (wf sv)) as [HR Hp'];
    [| |exact Hs|exact Hp|].
  - intros w w' HR Hw. by apply HR.
  - intros p w [k ->]. apply perform_safe.
  - split; [by apply HR, Hp|by apply Hp'].
Qed.

(** ** Reading a run *)

(** The one step out of a terminal state is an operator's resolution. *)
Lemma terminal_steps a b : steps a b → Terminal a = true →
b = a ∨ (a = TradeDisputed ∧ b = TradeResolved).
Proof.
intros Hs Ht. destruct Hs as [|x y z [k Hk] Hyz]; [by left|].
assert (x = TradeDisputed ∧ y = TradeResolved) as [-> ->] by (by destruct x, y).
inversion Hyz as [|? y' ? [k' Hk'] ?]; subst; [by right|]. by destruct y'.
Qed.

(** C4: whatever is served meanwhile, in whatever order, with whatever failures
  and restarts, a trade once stored stays stored, its parties, amount, mint,
  mode and offer never change, its state only moves along the transition
  table, and a terminal state is left only by resolving a dispute. *)
Theorem trades_move_forward c c' id r :
reachable c → rtc sys_step c c' → trades (w_db c.1) !! id = Some r →
∃ r', trades (w_db c'.1) !! id = Some r' ∧ same_terms r r' ∧ steps (t_state r) (t_state r') ∧
  (Terminal (t_state r) = true →
   t_state r' = t_state r ∨ (t_state r = TradeDisputed ∧ t_state r' = TradeResolved)).
Proof.
intros Hc Hs Hr. destruct (reachable_evo c c' Hc Hs) as [[He _] _].
destruct (evo_trades _ _ He id r Hr) as (r' & Hr' & Ht & Hst).
exists r'. split_and!; try done.
intros Hter. destruct (terminal_steps _ _ Hst Hter); [by left|by right].
Qed.

(** C1: a trade is [settled] in the database only when a transaction that
  executed without error has landed which the verifier accepts for that very
  trade's terms; no order of requests, retries, faults or crashes settles a
  trade that was not paid exactly as agreed. *)
Theorem settled_only_when_paid c id r :
reachable c → trades (w_db c.1) !! id = Some r → t_state r = TradeSettled →
proven sv id r (ch_landed (w_chain c.1)).
Proof. intros Hc Hr Hs. by eapply wf_settled; [apply reachable_wf| |]. Qed.

(** C5: a trade is accepted, pending settlement, recorded, settled, disputed or
  resolved only when its buyer and its seller, two different agents, have both
  put an acceptance on record; and nobody else's acceptance is ever stored. *)
Theorem agreement_needs_both_parties c id r :
reachable c → trades (w_db c.1) !! id = Some r → agreed (t_state r) = true →
t_buyer r ≠ t_seller r ∧
∀ a, is_Some (acceptances (w_db c.1) !! (id, a)) ↔ a = t_buyer r ∨ a = t_seller r.
Proof.
intros Hc Hr Ha. pose proof (reachable_wf c Hc) as Hw.
destruct (wf_agreed sv _ Hw id r Hr Ha) as [Hb Hse].
split; [by apply (wf_parties sv _ Hw id)|]. intros a. split; [|naive_solver].
intros [x Hx]. destruct (wf_acceptance sv _ Hw _ _ _ Hx) as (r' & Hr' & Hp). naive_solver.
Qed.

(** C6: the stored ledger is always an unbroken hash chain from the genesis
  hash, a trade has at most one entry, each entry's payload is the record of a
  trade that is recorded or settled, and every tessera stands for exactly one
  trade, which has an entry. *)
Theorem ledger_is_sound c :
reachable c →
chain_ok (ledger (w_db c.1)) ∧
NoDup (map le_TradeID (ledger (w_db c.1))) ∧
(∀ e, e ∈ ledger (w_db c.1) → ∃ r at_,
  trades (w_db c.1) !! le_TradeID e = Some r ∧ completed (t_state r) ∧
  TradeRecord_json (row_record (le_TradeID e) r at_) = Ok (le_Payload e)) ∧
(∀ k x, receipts (w_db c.1) !! k = Some x →
  (∃ e, e ∈ ledger (w_db c.1) ∧ le_TradeID e = rc_TradeID x) ∧
  ∀ k' x', receipts (w_db c.1) !! k' = Some x' → rc_TradeID x' = rc_TradeID x → k' = k).
Proof.
intros Hc. pose proof (reachable_wf c Hc) as Hw. destruct Hw as [W1 W2 W3 W4 W5 _ _ _ _ _ _ _ _ _ _].
split_and!; [done|done|done|]. intros k x Hx. split; [by destruct (W4 k x Hx)|]. intros; by eapply W5.
Qed.

(** C7: history is append-only.  The ledger and the event log of a later moment
  extend those of an earlier one; tesserae and acceptances are never altered
  or removed. *)
Theorem history_is_append_only c c' :
reachable c → rtc sys_step c c' →
ledger (w_db c.1) `prefix_of` ledger (w_db c'.1) ∧ events (w_db c.1) `prefix_of` events (w_db c'.1) ∧
receipts (w_db c.1) ⊆ receipts (w_db c'.1) ∧ acceptances (w_db c.1) ⊆ acceptances (w_db c'.1).
Proof. intros Hc Hs. destruct (reachable_evo c c' Hc Hs) as [[He _] _]. by destruct He. Qed.

(** C11: a trade has at most one issued settlement request at any time, and the
  transaction, fee, blockhash, lifetime and cluster of a request never change
  once it is stored; its status only ever leaves [issued]. *)
Theorem one_live_request c c' k q :
reachable c → rtc sys_step c c' → requests (w_db c.1) !! k = Some q →
(∃ q', requests (w_db c'.1) !! k = Some q' ∧ same_request q q') ∧
(∀ k' q', requests (w_db c.1) !! k' = Some q' → q_trade q' = q_trade q →
  q_status q = SettlementIssued → q_status q' = SettlementIssued → k' = k).
Proof.
intros Hc Hs Hq. destruct (reachable_evo c c' Hc Hs) as [[He _] _].
split; [by apply (evo_requests _ _ He)|]. intros k' q' Hq' Ht H1 H2.
by eapply (wf_request_once sv _ (reachable_wf c Hc) k' q' k q).
Qed.

(** A login challenge is consumed at most once: when it has been consumed,
  every later attempt, at any time and after any restart, is refused as stale
  and changes nothing. *)
Theorem challenge_single_use c c' id ch at_ :
reachable c → rtc sys_step c c' →
challenges (w_db c.1) !! id = Some ch → is_Some (c_consumed ch) →
run (ConsumeChallenge id at_) c'.1 = Some (Err [ErrStale], c'.1).
Proof.
intros Hc Hs Hch Hco. destruct (reachable_evo c c' Hc Hs) as [[He _] _].
destruct (evo_challenges _ _ He id ch Hch) as (ch' & Hch' & _ & _ & _ & Hcc).
assert (is_Some (c_consumed ch')) as Hco'.
{ destruct Hcc as [<- | Hn]; [done|]. rewrite Hn in Hco. by destruct Hco. }
unfold ConsumeChallenge, write. cbn [run]. rewrite Hch', bool_decide_true by done. done.
Qed.
End System.

(** ** A concrete run *)
#[local] Existing Instances demoUnicode demoSolana demoJWT demoBase58 demoEd25519 demoNetURL demoSessionJWT.

(** The agents are named by their keys. *)
Definition demoBuyer : string := demoAgent 66.
Definition demoSeller : string := demoAgent 83.
Definition demoFee : FeePolicy := mkFeePolicy 1000 "WALLET".

(** The payment of the trade the run creates, as it lands on the chain. *)
Definition demoPaid : Transaction :=
  match expectedInstructions (mkTerms "uuid-0" 2500000 6 demoMint demoBuyer demoSeller demoFee) false with
  | Ok ixs => match demo_new_transaction ixs "hash" demoBuyer with
              | Ok tx => sign_with ["sig"] tx
              | Err _ => demoBuilt
              end
  | Err _ => demoBuilt
  end.

Definition demoStart : World :=
  mkWorld emptyDB (5 * second) (fun n => "uuid-" +:+ format_uint (Z.of_nat n)) 0 false
    (mkChain "genesis" {[("genesis", "SIG") := mkFetched (Some demoPaid) false]} (fun _ => true)
       ("hash", 100) (fun _ => Ok tt)).

Definition demoDeps : SettlementDeps :=
  mkSettlementDeps demoRegistry demoFee Localnet true true true DefaultConfirmPolicy DefaultBlockhashTTL.
Definition demoService : Service := mkService None false hour hour demoSigner (Some demoDeps).

(** The marketplace signs with its own key and keeps offers open for a day. *)
Definition demoRegistrar : Registrar :=
  mkRegistrar (Some demoRegistry) None false (Some DefaultLimits) (24 * hour) (Some (demoKey 77)) [].
Definition demoDeployment : Deployment := mkDeployment demoService demoRegistrar demoAuthority.

Definition demoCard (name : string) : AgentCard :=
  mkAgentCard name "" "1" "https://agent.example" "" ["summarize"] [] [] [] demoTarget.
Definition perform_demo : call → prog World unit := perform demoDeployment.
Definition demoNew : NewOffer :=
  mkNewOffer DirectionAsk "a summary" ["summarize"] "2.5" demoMint [SettlementOnchain; SettlementOffchain].
(** The seller's signature over the offer's terms. *)
Definition demoOfferSignature : option Signature :=
  match SignOffer (demoKey 83) (attestOffer demoRegistrar
    (new_offer demoRegistrar "offer-1" demoSeller demoNew (mkAmount "2.5") 0)) second with
  | Ok s => Some s
  | Err _ => None
  end.
(** The calls of the demonstration, and the passage of time. *)
Abbreviation event := (happening World unit).
Definition Call (k : call) : event := Serves (perform_demo k).
(** The process dies after [n] actions of the call. *)
Definition Dies (k : call) (n : nat) : event := CrashIn (perform_demo k) n.
(** A call served between the [n]-th action of another and its next. *)
Definition Meanwhile (k : call) (n : nat) (k' : call) : event := Amid (perform_demo k) n (perform_demo k').
Definition wait (t : time) (w : World) : World :=
  mkWorld (w_db w) (w_now w + t) (w_uuid w) (w_next w) (w_locked w) (w_chain w).
Definition Wait (t : time) : event := Moves (wait t).

Definition demoListed : list event :=
  [Call (CallRegister demoBuyer (demoCard "buyer") None);
   Call (CallRegister demoSeller (demoCard "seller") None);
   Call (CallPublishOffer demoSeller demoNew "" "offer-1" demoOfferSignature)].
Definition demoOpen : list event := demoListed ++
  [Call (CallCreate demoBuyer "offer-1" SettlementOnchain "key");
   Call (CallBegin demoSeller "uuid-0")].
Definition demoAgree : list event := demoOpen ++
  [Call (CallAccept demoBuyer "uuid-0"); Call (CallAccept demoSeller "uuid-0");
   Call (CallBuild demoBuyer "uuid-0")].
(** A login of the buyer. *)
Definition demoLogin : list event :=
  [Call (CallIssueChallenge demoBuyer "nonce");
   Call (CallRedeem "uuid-0" (base64 (ed_sign (demoKey 66) (Message "uuid-0" demoBuyer (base64 "nonce")))))].
Definition demoPay : list event := [Call (CallConfirm demoBuyer "uuid-0" "SIG")].

(** Reachability in the demonstration service. *)
Definition demo_reachable : config → Prop := reachable demoDeployment.
Definition demo_step : config → config → Prop := sys_step demoDeployment.
Definition demo_allowed : event → Prop :=
  allowed env (served demoDeployment).

Lemma Call_allowed k : demo_allowed (Call k).
Proof. by exists k. Qed.
Lemma Dies_allowed k n : demo_allowed (Dies k n).
Proof. by exists k. Qed.
Lemma Meanwhile_allowed k n k' : demo_allowed (Meanwhile k n k').
Proof. split; by eexists. Qed.
Lemma Wait_allowed t : demo_allowed (Wait t).
Proof. intros w. split_and!; [reflexivity|reflexivity|reflexivity]. Qed.
#[local] Hint Resolve Call_allowed Dies_allowed Meanwhile_allowed Wait_allowed : core.

(** A scenario reaches a configuration, and goes on from it. *)
Lemma demo_run l1 l2 (P : World → World → bool) : Forall demo_allowed l1 → Forall demo_allowed l2 →
  match play crash l1 demoStart with
  | Some w1 => match play crash l2 w1 with Some w2 => P w1 w2 | None => false end
  | None => false
  end = true →
  ∃ c c', demo_reachable c ∧ rtc demo_step c c' ∧ P c.1 c'.1 = true.
Proof.
  intros Ha1 Ha2.
  destruct (play crash l1 demoStart) as [w1|] eqn:H1; [|done].
  destruct (play crash l2 w1) as [w2|] eqn:H2; [|done]. intros HP.
  destruct (play_steps env crash _ l1 demoStart w1 [] Ha1 H1) as [ps1 Hs1].
  destruct (play_steps env crash _ l2 w1 w2 ps1 Ha2 H2) as [ps2 Hs2].
  exists (w1, ps1), (w2, ps2). split_and!; [|done|done]. exists demoStart. split; [by split|done].
Qed.

Ltac allowed := repeat first [apply Forall_nil_2 | apply Forall_cons_2;
  [first [apply Call_allowed | apply Dies_allowed | apply Meanwhile_allowed | apply Wait_allowed]|]].

(** The trade's state in a world. *)
Definition in_state (w : World) (id : string) (s : TradeState) : bool :=
  match trades (w_db w) !! id with Some r => bool_decide (t_state r = s) | None => false end.

Lemma in_state_inv w id s : in_state w id s = true → ∃ r, trades (w_db w) !! id = Some r ∧ t_state r = s.
Proof. unfold in_state. destruct (trades (w_db w) !! id) as [r|]; [|done]. intros Hs. apply bool_decide_eq_true in Hs. eauto. Qed.

Lemma trades_move_forward_witness :
  ∃ c c' r r', demo_reachable c ∧ rtc demo_step c c' ∧ trades (w_db c.1) !! "uuid-0" = Some r ∧
    t_state r = TradeSettlementPending ∧ trades (w_db c'.1) !! "uuid-0" = Some r' ∧ t_amount r' = t_amount r.
Proof.
  destruct (demo_run demoAgree demoPay (fun w _ => in_state w "uuid-0" TradeSettlementPending))
    as (c & c' & Hc & Hs & HP); [allowed|allowed|vm_compute; reflexivity|].
  apply in_state_inv in HP as (r & Hr & Hst).
  destruct (trades_move_forward demoDeployment c c' "uuid-0" r Hc Hs Hr)
    as (r' & Hr' & Ht & _).
  exists c, c', r, r'. split_and!; [exact Hc|exact Hs|exact Hr|exact Hst|exact Hr'|].
  symmetry. apply Ht.
Defined.

Lemma settled_only_when_paid_witness :
  ∃ c r, demo_reachable c ∧ trades (w_db c.1) !! "uuid-0" = Some r ∧ t_state r = TradeSettled ∧
    proven demoDeployment "uuid-0" r (ch_landed (w_chain c.1)).
Proof.
  destruct (demo_run (demoAgree ++ demoPay) [] (fun w _ => in_state w "uuid-0" TradeSettled))
    as (c & c' & Hc & _ & HP); [allowed|allowed|vm_compute; reflexivity|].
  apply in_state_inv in HP as (r & Hr & Hst). exists c, r. split_and!; [exact Hc|exact Hr|exact Hst|].
  exact (settled_only_when_paid demoDeployment c "uuid-0" r Hc Hr Hst).
Defined.

Lemma agreement_needs_both_parties_witness :
  ∃ c r, demo_reachable c ∧ trades (w_db c.1) !! "uuid-0" = Some r ∧ t_state r = TradeSettled ∧
    t_buyer r ≠ t_seller r.
Proof.
  destruct (demo_run (demoAgree ++ demoPay) [] (fun w _ => in_state w "uuid-0" TradeSettled))
    as (c & c' & Hc & _ & HP); [allowed|allowed|vm_compute; reflexivity|].
  apply in_state_inv in HP as (r & Hr & Hst). exists c, r. split_and!; [exact Hc|exact Hr|exact Hst|].
  apply (agreement_needs_both_parties demoDeployment c "uuid-0" r Hc Hr).
  rewrite Hst. reflexivity.
Defined.

Lemma ledger_is_sound_witness :
  ∃ c, demo_reachable c ∧ length (ledger (w_db c.1)) = 1%nat ∧ chain_ok (ledger (w_db c.1)).
Proof.
  destruct (demo_run (demoAgree ++ demoPay) [] (fun w _ => bool_decide (length (ledger (w_db w)) = 1%nat)))
    as (c & c' & Hc & _ & HP); [allowed|allowed|vm_compute; reflexivity|].
  apply bool_decide_eq_true in HP. exists c. split_and!; [exact Hc|exact HP|].
  apply (ledger_is_sound demoDeployment c Hc).
Defined.

Lemma history_is_append_only_witness :
  ∃ c c', demo_reachable c ∧ rtc demo_step c c' ∧ length (events (w_db c.1)) = 4%nat ∧
    length (events (w_db c'.1)) = 5%nat ∧ events (w_db c.1) `prefix_of` events (w_db c'.1).
Proof.
  destruct (demo_run demoAgree demoPay (fun w w' =>
      bool_decide (length (events (w_db w)) = 4%nat ∧ length (events (w_db w')) = 5%nat)))
    as (c & c' & Hc & Hs & HP); [allowed|allowed|vm_compute; reflexivity|].
  apply bool_decide_eq_true in HP as [H1 H2]. exists c, c'. split_and!; [exact Hc|exact Hs|exact H1|exact H2|].
  apply (history_is_append_only demoDeployment c c' Hc Hs).
Defined.

Lemma one_live_request_witness :
  ∃ c c' q q', demo_reachable c ∧ rtc demo_step c c' ∧ requests (w_db c.1) !! "uuid-1" = Some q ∧
    requests (w_db c'.1) !! "uuid-1" = Some q' ∧ q_tx q' = q_tx q.
Proof.
  destruct (demo_run demoAgree demoPay (fun w _ => bool_decide (is_Some (requests (w_db w) !! "uuid-1"))))
    as (c & c' & Hc & Hs & HP); [allowed|allowed|vm_compute; reflexivity|].
  apply bool_decide_eq_true in HP as [q Hq].
  destruct (one_live_request demoDeployment c c' "uuid-1" q Hc Hs Hq)
    as [(q' & Hq' & _ & Ht & _) _].
  exists c, c', q, q'. split_and!; [exact Hc|exact Hs|exact Hq|exact Hq'|]. symmetry. exact Ht.
Defined.

Lemma challenge_single_use_witness :
  ∃ c c', demo_reachable c ∧ rtc demo_step c c' ∧
    run (ConsumeChallenge "uuid-0" (6 * second)) c'.1 = Some (Err [ErrStale], c'.1).
Proof.
  destruct (demo_run demoLogin demoOpen (fun w _ =>
      match challenges (w_db w) !! "uuid-0" with Some ch => bool_decide (is_Some (c_consumed ch)) | None => false end))
    as (c & c' & Hc & Hs & HP); [allowed|allowed|vm_compute; reflexivity|].
  exists c, c'. split_and!; [exact Hc|exact Hs|].
  destruct (challenges (w_db c.1) !! "uuid-0") as [ch|] eqn:Hch; [|discriminate].
  apply bool_decide_eq_true in HP.
  exact (challenge_single_use demoDeployment c c' "uuid-0" ch (6 * second) Hc Hs Hch HP).
Defined.
