(* ===== verification/Metrics.v ===== *)
(** * store/metrics.go: the public usage figures

    The two aggregate queries of [UsageMetrics], as joins over the tables, and
    what they count in every reachable configuration. *)
From S2P Require Import Prelude Prog Money Domain Cluster Limits Tokens Settlement Keys Attest Probe World Store Auth Market Ledger Trade TradeSettlement Safety Preserve Handlers Listings System.

Record UsageTotals := mkTotals {
  ut_Delivered : Z; ut_Disputed : Z; ut_Cancelled : Z; ut_Consumers : Z; ut_Services : Z }.
Record AgentUsage := mkAgentUsage { au_AgentID : string; au_Delivered : Z; au_Disputed : Z; au_Cancelled : Z }.
Record UsageMetrics := mkUsage {
  um_GeneratedAt : time; um_AsOf : option time; um_Totals : UsageTotals; um_Agents : list AgentUsage }.

(** ** The queries *)

(** A row of [trades t LEFT JOIN receipts r ON r.trade_id = t.id]. *)
Definition row : Type := (string * TradeRow) * option (string * Receipt).
Definition receipts_of (d : DB) (id : string) : list (string * Receipt) :=
  List.filter (fun x => String.eqb (rc_TradeID x.2) id) (map_to_list (receipts d)).
Definition join_trade (d : DB) (t : string * TradeRow) : list row :=
  match receipts_of d t.1 with
  | [] => [(t, None)]
  | l => map (fun x => (t, Some x)) l
  end.
Definition joined (d : DB) : list row := concat (map (join_trade d) (map_to_list (trades d))).

Definition delivered (x : row) : bool := match x.2 with Some _ => true | None => false end.
Definition disputed (x : row) : bool := bool_decide (t_state x.1.2 = TradeDisputed ∨ t_state x.1.2 = TradeResolved).
Definition cancelled (x : row) : bool := bool_decide (t_state x.1.2 = TradeCancelled).
Definition count (f : row → bool) (l : list row) : Z := Z.of_nat (length (List.filter f l)).
Definition count_distinct (g : row → string) (l : list row) : Z :=
  Z.of_nat (length (remove_dups (map g (List.filter delivered l)))).

Definition usageTotals (d : DB) : UsageTotals * option Z :=
  let l := joined d in
  (mkTotals (count delivered l) (count disputed l) (count cancelled l)
     (count_distinct (fun x => t_buyer x.1.2) l) (count_distinct (fun x => t_offer x.1.2) l),
   match map (fun x => rc_IssuedAt x.2) (map_to_list (receipts d)) with
   | [] => None
   | t :: ts => Some (foldl Z.max t ts)
   end).

(** [JOIN offers o ON o.id = t.offer_id]: the publisher of the trade's offer. *)
Definition publisher (d : DB) (x : row) : option string := o_agent <$> offers d !! t_offer x.1.2.
Definition published_by (d : DB) (a : string) (x : row) : bool := bool_decide (publisher d x = Some a).
Definition reported (x : row) : bool := delivered x || disputed x || cancelled x.
Definition agent_usage (d : DB) (a : string) : AgentUsage :=
  let l := List.filter (published_by d a) (List.filter reported (joined d)) in
  mkAgentUsage a (count delivered l) (count disputed l) (count cancelled l).
Definition usage_lt (x y : AgentUsage) : bool :=
  (au_Delivered y <? au_Delivered x) || ((au_Delivered x =? au_Delivered y) && str_lt (au_AgentID x) (au_AgentID y)).
Definition usageByAgent (d : DB) : list AgentUsage :=
  stable_sort usage_lt (map (agent_usage d) (remove_dups (omap (publisher d) (List.filter reported (joined d))))).

(** [store.UsageMetrics]: two queries, no transaction around them. *)
Definition store_UsageMetrics : io World UsageMetrics :=
  '(totals, asOf) <~ query (fun d => Ok (usageTotals d));;
  agents <~ query (fun d => Ok (usageByAgent d));;
  ok (mkUsage zeroTime (fromNanos <$> asOf) totals agents).

(** [trade.Service.UsageMetrics] *)
Definition UsageMetrics_ : io World UsageMetrics :=
  m <~ store_UsageMetrics;;
  at_ <~ now;;
  ok (mkUsage at_ (um_AsOf m) (um_Totals m) (um_Agents m)).

(** ** What the figures are *)
Section Truth.
Context `{IU : Unicode} `{IS : Solana} `{IJ : JWT} `{IB : Base58} `{IE : Ed25519} `{IN : NetURL} `{IT : SessionJWT}
  (sv : Deployment).

Lemma receipts_of_elem d id k x : (k, x) ∈ receipts_of d id ↔ receipts d !! k = Some x ∧ rc_TradeID x = id.
Proof. unfold receipts_of. rewrite list_elem_of_In, filter_In, <-list_elem_of_In, elem_of_map_to_list, String.eqb_eq. done. Qed.

Lemma receipts_of_NoDup d id : NoDup (receipts_of d id).
Proof.
  unfold receipts_of. apply NoDup_ListNoDup, List.NoDup_filter, NoDup_ListNoDup, NoDup_map_to_list.
Qed.

(** At most one receipt per trade, so the join has one row per trade. *)
Lemma receipts_of_wf w id : wf sv w → receipts_of (w_db w) id = [] ∨ ∃ x, receipts_of (w_db w) id = [x].
Proof.
  intros Hw. pose proof (receipts_of_NoDup (w_db w) id) as Hnd.
  destruct (receipts_of (w_db w) id) as [|[k1 x1] [|[k2 x2] l]] eqn:E; [by left|right; by eexists|exfalso].
  assert ((k1, x1) ∈ receipts_of (w_db w) id) as H1 by (rewrite E; left).
  assert ((k2, x2) ∈ receipts_of (w_db w) id) as H2 by (rewrite E; right; left).
  apply receipts_of_elem in H1 as [H1 T1], H2 as [H2 T2].
  assert (k1 = k2) as -> by (eapply (wf_receipt_once sv _ Hw); [exact H1|exact H2|congruence]).
  assert (x1 = x2) as -> by congruence. apply NoDup_cons in Hnd as [Hn _]. apply Hn. left.
Qed.

Definition the_row (d : DB) (t : string * TradeRow) : row := (t, head (receipts_of d t.1)).

Lemma joined_wf w : wf sv w → joined (w_db w) = map (the_row (w_db w)) (map_to_list (trades (w_db w))).
Proof.
  intros Hw. unfold joined. induction (map_to_list (trades (w_db w))) as [|t l IH]; cbn; [done|].
  rewrite IH. unfold join_trade, the_row. by destruct (receipts_of_wf w t.1 Hw) as [->|[x ->]].
Qed.

Lemma filter_length_map {A B} (f : B → bool) (g : A → B) l :
  length (List.filter f (map g l)) = length (List.filter (fun x => f (g x)) l).
Proof. induction l as [|x l IH]; cbn; [done|]. destruct (f (g x)); cbn; congruence. Qed.

(** The number of stored trades with a property. *)
Definition trades_with (d : DB) (P : string → TradeRow → bool) : Z :=
  Z.of_nat (length (List.filter (fun t => P t.1 t.2) (map_to_list (trades d)))).

Lemma count_trades w (f : row → bool) (P : string → TradeRow → bool) : wf sv w →
  (∀ t o, f (t, o) = P t.1 t.2) → count f (joined (w_db w)) = trades_with (w_db w) P.
Proof.
  intros Hw Hf. unfold count, trades_with. rewrite joined_wf, filter_length_map by done.
  induction (map_to_list (trades (w_db w))) as [|x l IH]; cbn; [done|]. unfold the_row at 1. rewrite Hf.
  destruct (P x.1 x.2); cbn; lia.
Qed.

(** The receipts found through the join are all the receipts, once each. *)
Lemma delivered_receipts d l : NoDup l.*1 → (∀ t, t ∈ l → (length (receipts_of d t.1) <= 1)%nat) →
  NoDup (omap (fun t : string * TradeRow => head (receipts_of d t.1)) l) ∧
  ∀ k x, (k, x) ∈ omap (fun t : string * TradeRow => head (receipts_of d t.1)) l ↔
    receipts d !! k = Some x ∧ rc_TradeID x ∈ l.*1.
Proof.
  intros Hnd Hone. split.
  - induction l as [|t l IH]; cbn; [apply NoDup_nil_2|]. cbn in Hnd. apply NoDup_cons in Hnd as [Hn Hnd].
    assert (NoDup (omap (fun t : string * TradeRow => head (receipts_of d t.1)) l)) as Hl.
    { apply IH; [done|]. intros t' Ht'. apply Hone. by right. }
    destruct (receipts_of d t.1) as [|[k x] rs] eqn:E; cbn; [done|]. apply NoDup_cons. split; [|done].
    intros (t' & Ht' & Hh)%list_elem_of_omap. apply Hn.
    assert ((k, x) ∈ receipts_of d t.1) as [_ H1]%receipts_of_elem by (rewrite E; left).
    destruct (receipts_of d t'.1) eqn:E'; [done|]. cbn in Hh. injection Hh as ->.
    assert ((k, x) ∈ receipts_of d t'.1) as [_ H2]%receipts_of_elem by (rewrite E'; left).
    apply list_elem_of_fmap. exists t'. split; [congruence|done].
  - intros k x. rewrite list_elem_of_omap. split.
    + intros (t & Ht & Hh). destruct (receipts_of d t.1) eqn:E; [done|]. cbn in Hh. injection Hh as ->.
      assert ((k, x) ∈ receipts_of d t.1) as [Hx E2]%receipts_of_elem by (rewrite E; left).
      split; [done|]. rewrite E2. apply list_elem_of_fmap. by exists t.
    + intros [Hx (t & E & Ht)%list_elem_of_fmap]. exists t. split; [done|].
      assert ((k, x) ∈ receipts_of d t.1) as Hin by (by apply receipts_of_elem).
      specialize (Hone t Ht). destruct (receipts_of d t.1) as [|y [|z rs]]; cbn in *; [by apply not_elem_of_nil in Hin| |lia].
      apply list_elem_of_singleton in Hin as ->. done.
Qed.

Lemma count_delivered w : wf sv w → count delivered (joined (w_db w)) = Z.of_nat (size (receipts (w_db w))).
Proof.
  intros Hw. unfold count. rewrite joined_wf by done. rewrite filter_length_map. f_equal.
  set (d := w_db w). set (l := map_to_list (trades d)).
  destruct (delivered_receipts d l) as [Hnd Hin].
  { apply NoDup_fst_map_to_list. }
  { intros t _. destruct (receipts_of_wf w t.1 Hw) as [E|[x E]]; subst d; rewrite E; cbn; lia. }
  transitivity (length (omap (fun t : string * TradeRow => head (receipts_of d t.1)) l)).
  { clear. induction l as [|t l IH]; cbn; [done|]. unfold the_row at 1, delivered. cbn.
    destruct (head (receipts_of d t.1)); cbn; [f_equal|]; exact IH. }
  rewrite <-length_map_to_list. apply Permutation_length, NoDup_Permutation; [done|apply NoDup_map_to_list|].
  intros [k x]. rewrite Hin, elem_of_map_to_list. split; [by intros [? _]|]. intros Hx. split; [done|].
  destruct (wf_receipt sv _ Hw k x Hx) as (_ & e & He & Et). destruct (wf_entry sv _ Hw e He) as (r & _ & Hr & _).
  apply list_elem_of_fmap. exists (rc_TradeID x, r). split; [done|]. apply elem_of_map_to_list. by rewrite <-Et.
Qed.

(** *** Grouping *)
Definition total (l : list Z) : Z := foldr Z.add 0 l.

Lemma total_indicator (ks : list string) k : NoDup ks → k ∈ ks →
  total (map (fun a => if bool_decide (Some k = Some a) then 1 else 0) ks) = 1.
Proof.
  assert (∀ l, k ∉ l → total (map (fun a => if bool_decide (Some k = Some a) then 1 else 0) l) = 0) as Hz.
  { induction l as [|a l IH]; intros Hk; [done|]. change (total _) with
      ((if bool_decide (Some k = Some a) then 1 else 0) + total (map (fun a => if bool_decide (Some k = Some a) then 1 else 0) l)).
    rewrite IH by set_solver. rewrite bool_decide_false by set_solver. done. }
  induction 1 as [|a l Ha Hl IH]; intros Hk; [by apply not_elem_of_nil in Hk|].
  change (total _) with
    ((if bool_decide (Some k = Some a) then 1 else 0) + total (map (fun a => if bool_decide (Some k = Some a) then 1 else 0) l)).
  destruct (decide (k = a)) as [->|Hne].
  - rewrite bool_decide_true, Hz by done. lia.
  - rewrite bool_decide_false by congruence. rewrite IH by set_solver. lia.
Qed.

Lemma total_map_add {A} (f g : A → Z) l : total (map (fun x => f x + g x) l) = total (map f l) + total (map g l).
Proof. unfold total. induction l as [|x l IH]; cbn; lia. Qed.

(** A list split by a key, when every element has one of the keys. *)
Lemma total_by_key {A} (key : A → option string) (l : list A) ks : NoDup ks →
  (∀ x, x ∈ l → ∃ k, key x = Some k ∧ k ∈ ks) →
  total (map (fun a => Z.of_nat (length (List.filter (fun x => bool_decide (key x = Some a)) l))) ks) = Z.of_nat (length l).
Proof.
  intros Hnd. induction l as [|x l IH]; intros Hk.
  - cbn. clear. induction ks; cbn; [done|]. unfold total in *. lia.
  - destruct (Hk x ltac:(left)) as (k & Ek & Hin).
    rewrite (map_ext _ (fun a => (if bool_decide (Some k = Some a) then 1 else 0) +
      Z.of_nat (length (List.filter (fun x => bool_decide (key x = Some a)) l)))).
    + rewrite total_map_add, total_indicator, IH by (done || (intros; apply Hk; by right)). cbn. lia.
    + intros a. cbn [List.filter]. rewrite Ek. case_bool_decide; cbn [length]; lia.
Qed.

Lemma filter_filter {A} (f g : A → bool) l : List.filter f (List.filter g l) = List.filter (fun x => g x && f x) l.
Proof. induction l as [|x l IH]; cbn; [done|]. destruct (g x); cbn; [destruct (f x)|]; congruence. Qed.

Lemma count_reported (f : row → bool) l : (∀ x, f x = true → reported x = true) →
  count f (List.filter reported l) = count f l.
Proof.
  intros Hf. unfold count. rewrite filter_filter. do 2 f_equal. apply filter_ext. intros x.
  destruct (f x) eqn:E; [by rewrite (Hf x E)|]. by destruct (reported x).
Qed.

(** Every joined row's offer is stored. *)
Lemma publisher_wf w x : wf sv w → x ∈ joined (w_db w) → ∃ a, publisher (w_db w) x = Some a.
Proof.
  intros Hw Hx. rewrite joined_wf in Hx by done. apply list_elem_of_fmap in Hx as ([id r] & -> & Hin).
  apply elem_of_map_to_list in Hin. destruct (wf_terms sv _ Hw id r Hin) as (o & Ho & _).
  exists (o_agent o). unfold publisher. cbn. by rewrite Ho.
Qed.

Definition agents_reported (d : DB) : list string := remove_dups (omap (publisher d) (List.filter reported (joined d))).

(** Each figure of the agents' table sums to the total. *)
Lemma agents_sum w (f : row → bool) : wf sv w → (∀ x, f x = true → reported x = true) →
  total (map (fun a => count f (List.filter (published_by (w_db w) a) (List.filter reported (joined (w_db w)))))
    (agents_reported (w_db w))) = count f (joined (w_db w)).
Proof.
  intros Hw Hf. set (d := w_db w). rewrite <-(count_reported f) by done. set (l := List.filter reported (joined d)).
  unfold count at 2. rewrite <-(total_by_key (publisher d) (List.filter f l) (agents_reported d)).
  - f_equal. apply map_ext. intros a. unfold count. rewrite !filter_filter. do 2 f_equal. apply filter_ext. intros x.
    unfold published_by. apply andb_comm.
  - apply NoDup_remove_dups.
  - intros x Hx. assert (x ∈ l) as Hl.
    { apply list_elem_of_In, filter_In in Hx as [Hx _]. by apply list_elem_of_In. }
    assert (x ∈ joined d) as Hj.
    { apply list_elem_of_In, filter_In in Hl as [Hl _]. by apply list_elem_of_In. }
    destruct (publisher_wf w x Hw Hj) as [a Ha]. exists a. split; [done|].
    apply elem_of_remove_dups, list_elem_of_omap. by exists x.
Qed.

Lemma total_perm l l' : l ≡ₚ l' → total l = total l'.
Proof. induction 1; unfold total in *; cbn; lia. Qed.

Lemma StronglySorted_weaken {A} (R S : relation A) l : (∀ x y, R x y → S x y) → StronglySorted R l → StronglySorted S l.
Proof. intros HRS. induction 1 as [|x l _ IH Hx]; constructor; [done|]. eapply Forall_impl; [exact Hx|]. auto. Qed.

(** C34: the public figures are true.  In every reachable configuration the totals
  are the number of tesserae, of trades disputed or resolved, and of trades
  cancelled; the agents' table lists each publisher once, most deliveries
  first, and each of its three columns sums to the corresponding total. *)
Theorem usage_is_true c :
  reachable sv c →
  let d := w_db c.1 in
  let t := (usageTotals d).1 in
  let agents := usageByAgent d in
  ut_Delivered t = Z.of_nat (size (receipts d)) ∧
  ut_Disputed t = trades_with d (fun _ r => bool_decide (t_state r = TradeDisputed ∨ t_state r = TradeResolved)) ∧
  ut_Cancelled t = trades_with d (fun _ r => bool_decide (t_state r = TradeCancelled)) ∧
  NoDup (map au_AgentID agents) ∧
  StronglySorted (fun x y => au_Delivered y <= au_Delivered x) agents ∧
  total (map au_Delivered agents) = ut_Delivered t ∧
  total (map au_Disputed agents) = ut_Disputed t ∧
  total (map au_Cancelled agents) = ut_Cancelled t.
Proof.
  intros Hc. pose proof (reachable_wf sv c Hc) as Hw. cbv zeta.
  assert (usageByAgent (w_db c.1) ≡ₚ map (agent_usage (w_db c.1)) (agents_reported (w_db c.1))) as Hp by apply stable_sort_perm.
  assert (∀ (f : row → bool) (g : AgentUsage → Z), (∀ x, f x = true → reported x = true) →
    (∀ a, g (agent_usage (w_db c.1) a) =
      count f (List.filter (published_by (w_db c.1) a) (List.filter reported (joined (w_db c.1))))) →
    total (map g (usageByAgent (w_db c.1))) = count f (joined (w_db c.1))) as Hsum.
  { intros f g Hf Hg. rewrite (total_perm _ (map g (map (agent_usage (w_db c.1)) (agents_reported (w_db c.1))))) by by apply fmap_Permutation.
    rewrite map_map, <-(agents_sum c.1 f Hw Hf). f_equal. apply map_ext. exact Hg. }
  assert (∀ x, (delivered x = true → reported x = true) ∧ (disputed x = true → reported x = true) ∧
    (cancelled x = true → reported x = true)) as Hrep.
  { intros x. unfold reported. destruct (delivered x), (disputed x), (cancelled x); auto. }
  split_and!.
  - by apply count_delivered.
  - by apply count_trades.
  - by apply count_trades.
  - rewrite Hp, map_map. cbn [au_AgentID agent_usage]. rewrite map_id. apply NoDup_remove_dups.
  - eapply StronglySorted_weaken; [|apply (stable_sort_sorted usage_lt (fun _ => True))].
    + intros x y. unfold not_after, usage_lt. destruct (Z.ltb_spec (au_Delivered x) (au_Delivered y)); [done|]. intros _. lia.
    + intros x y _ _. unfold usage_lt.
      destruct (Z.ltb_spec (au_Delivered y) (au_Delivered x)), (Z.ltb_spec (au_Delivered x) (au_Delivered y)); try lia;
        destruct (Z.eqb_spec (au_Delivered x) (au_Delivered y)), (Z.eqb_spec (au_Delivered y) (au_Delivered x));
        cbn; try lia; auto. apply str_lt_irrefl_total.
    + intros x y z _ _ _. unfold usage_lt. pose proof (str_le_trans (au_AgentID x) (au_AgentID y) (au_AgentID z)) as Htr.
      destruct (Z.ltb_spec (au_Delivered x) (au_Delivered y)), (Z.ltb_spec (au_Delivered y) (au_Delivered z)),
        (Z.ltb_spec (au_Delivered x) (au_Delivered z)); cbn; try done; try lia;
      destruct (Z.eqb_spec (au_Delivered y) (au_Delivered x)), (Z.eqb_spec (au_Delivered z) (au_Delivered y)),
        (Z.eqb_spec (au_Delivered z) (au_Delivered x)); cbn; try done; lia.
    + by apply Forall_true.
  - apply Hsum; [apply Hrep|done].
  - apply Hsum; [apply Hrep|done].
  - apply Hsum; [apply Hrep|done].
Qed.
End Truth.

(** ** A concrete run *)
#[local] Existing Instances demoUnicode demoSolana demoJWT demoBase58 demoEd25519 demoNetURL demoSessionJWT.

Lemma usage_is_true_witness :
  ∃ c, demo_reachable c ∧ usageByAgent (w_db c.1) = [mkAgentUsage demoSeller 1 0 0] ∧
    ut_Delivered (usageTotals (w_db c.1)).1 = 1 ∧
    total (map au_Delivered (usageByAgent (w_db c.1))) = ut_Delivered (usageTotals (w_db c.1)).1.
Proof.
  destruct (demo_run (demoAgree ++ demoPay) [] (fun w _ =>
      match usageByAgent (w_db w) with
      | [mkAgentUsage a 1 0 0] => String.eqb a demoSeller && (ut_Delivered (usageTotals (w_db w)).1 =? 1)
      | _ => false
      end)) as (c & c' & Hc & _ & HP); [allowed|allowed|vm_compute; reflexivity|].
  exists c. split; [exact Hc|].
  destruct (usage_is_true demoDeployment c Hc) as (_ & _ & _ & _ & _ & Hsum & _).
  split_and!; [| |exact Hsum].
  - destruct (usageByAgent (w_db c.1)) as [|[a [|[]|] [] []] []]; try discriminate HP.
    apply andb_prop in HP as [->%String.eqb_eq _]. reflexivity.
  - destruct (usageByAgent (w_db c.1)) as [|[a [|[]|] [] []] []]; try discriminate HP.
    apply andb_prop in HP as [_ HP]. by apply Z.eqb_eq.
Defined.
