(* ===== verification/Config.v ===== *)
(** * [internal/config]: what a deployment may start with

    [Parse] reads the command line over the environment over the defaults and
    refuses to start rather than run half-configured.  The environment is a
    function from names to values; error texts are not modelled. *)
From S2P Require Import Prelude GoText Sha256 Json Money Domain Cluster Limits Tokens Settlement Keys Attest Probe Endpoint World TradeSettlement.

Record Spend := mkSpend {
  sp_PerTradeUSD : Amount; sp_PerDayUSD : Amount; sp_CeilingPerTradeUSD : Amount; sp_CeilingPerDayUSD : Amount;
  sp_DailyWindow : duration; sp_Rates : Rates }.

Record RateLimit := mkRateLimit {
  rl_AgentRPS : f64; rl_AgentBurst : Z; rl_IPRPS : f64; rl_IPBurst : Z; rl_IPHeader : string }.

Record AdminOperator := mkOperator { op_Name : string; op_Token : string }.

(** An unset cluster is the empty name. *)
Record SolanaConfig := mkSolana {
  so_Cluster : Cluster; so_RPCURL : string; so_FeeLamports : Z; so_FeeWallet : string;
  so_BlockhashTTL : duration; so_LocalnetMints : list Token; so_LocalnetAllowHost : list string }.

Record Config := mkConfig {
  cf_Addr : string; cf_DatabaseURL : string; cf_SignerKeyPath : string; cf_SessionSecret : string;
  cf_AdminToken : string; cf_AdminOperators : list AdminOperator; cf_ChallengeTTL : duration; cf_SessionTTL : duration;
  cf_RequestTimeout : duration; cf_ShutdownGrace : duration; cf_PublicBaseURL : string; cf_Version : string;
  cf_PreflightOnly : bool; cf_Spend : Spend; cf_AcceptTTL : duration; cf_OpenTTL : duration;
  cf_ExpirySweepEvery : duration; cf_ExpirySweepBatch : Z; cf_OfferTTL : duration; cf_RateLimit : RateLimit;
  cf_RequireOfferAttestation : bool; cf_ProbeTimeout : duration; cf_ProbeMaxResponseBytes : Z; cf_Sandbox : bool;
  cf_Solana : SolanaConfig }.

Definition SettlementEnabled (c : Config) : bool :=
  negb (String.eqb (TrimSpace (so_RPCURL (cf_Solana c))) "") && negb (String.eqb (so_Cluster (cf_Solana c)) "").

(** ** Small parsers *)

(** Absent, empty and blank are one thing. *)
Definition unset (v : string) : string := TrimSpace v.
Definition blank (v : string) : bool := String.eqb (unset v) "".

Definition splitList (v : string) : list string :=
  if blank v then [] else List.filter (fun s => negb (String.eqb s "")) (map TrimSpace (split "," (unset v))).

Definition of_option {A} (o : option A) : res A := match o with Some a => Ok a | None => Err [] end.

Definition parseCap (raw : string) : res Amount :=
  if blank raw then Err []
  else
    amount ← Money.Parse (unset raw);
    if IsZero amount then Err [ErrCapNotPositive] else Ok amount.

Definition decodeSecret (raw : string) : res string :=
  let secret := TrimSpace raw in
  if String.eqb secret "" then Err []
  else
    let fallback :=
      match base64_decode secret with
      | Some decoded => if (32 <=? slen decoded)%nat then decoded else secret
      | None => secret
      end in
    if (64 <=? slen secret)%nat
    then match hex_decode secret with Some decoded => Ok decoded | None => Ok fallback end
    else Ok fallback.

(** The entries read so far give the names and tokens taken. *)
Fixpoint read_operators (names tokens : list string) (entries : list string) : res (list AdminOperator) :=
  match entries with
  | [] => Ok []
  | entry :: rest =>
      let '(name0, token0, ok) := cut "=" entry in
      let name := TrimSpace name0 in
      let token := TrimSpace token0 in
      _ ← guard_err (negb ok || String.eqb name "" || String.eqb token "") [];
      _ ← guard_err (slen token <? 32)%nat [];
      _ ← guard_err (bool_decide (name ∈ names)) [];
      _ ← guard_err (bool_decide (token ∈ tokens)) [];
      ops ← read_operators (name :: names) (token :: tokens) rest;
      Ok (mkOperator name token :: ops)
  end.

Definition parseAdminOperators (raw legacyToken : string) : res (list AdminOperator) :=
  let legacy := negb (String.eqb legacyToken "") in
  read_operators (if legacy then ["operator"] else []) (if legacy then [legacyToken] else []) (splitList raw).

(** ** Spending caps *)
Section Spend.
Context `{IB : Base58}.

Definition add_rate (table : Rates) (entry : string) : res Rates :=
  let '(mint, rest, ok) := cut "=" entry in
  _ ← guard_err (negb ok) [];
  let '(usd, decimals, ok') := cut "@" rest in
  _ ← guard_err (negb ok') [];
  parsed ← parseCap usd;
  dp ← of_option (ParseUintBits 8 (unset decimals));
  Rates_Add table mint (mkRate dp parsed).

Fixpoint add_rates (table : Rates) (entries : list string) : res Rates :=
  match entries with [] => Ok table | e :: es => t ← add_rate table e; add_rates t es end.

Definition optional_cap (raw : string) : res Amount := if blank raw then Ok AmountZero else parseCap (unset raw).

Definition parseSpend (rawPerTrade rawPerDay rawCeilTrade rawCeilDay rawRates rawWindow : string) : res Spend :=
  window ← of_option (ParseDuration (unset rawWindow));
  perTrade ← parseCap rawPerTrade;
  perDay ← parseCap rawPerDay;
  ceilTrade ← optional_cap rawCeilTrade;
  ceilDay ← optional_cap rawCeilDay;
  _ ← guard_err (window <=? 0) [];
  table ← add_rates DefaultRates (splitList rawRates);
  Ok (mkSpend perTrade perDay ceilTrade ceilDay window table).

Definition Spend_Policy (s : Spend) : Policy :=
  let p := WithCeilings (WithWindow (DefaultPolicy (sp_Rates s)) (sp_DailyWindow s))
             (sp_CeilingPerTradeUSD s) (sp_CeilingPerDayUSD s) in
  mkPolicy (sp_PerTradeUSD s) (sp_PerDayUSD s) (Window p) (CeilingPerTrade p) (CeilingPerDay p) (rates p).
End Spend.

(** ** Settlement *)
Section Solana.
Context `{IU : Unicode} `{IK : SolanaKeys} `{IN : NetURL} `{IO : Folding} `{IR : Resolver}.

(** [fees.Default], which panics when its constant is no key. *)
Definition fees_Default : res FeePolicy :=
  match pk_parse DefaultWallet with Some key => Ok (mkFeePolicy DefaultLamports key) | None => Err [EPanic] end.

Definition resolveFeePolicy (rawLamports rawWallet : string) : res FeePolicy :=
  if String.eqb rawLamports "" && String.eqb rawWallet "" then fees_Default
  else
    lamports ← (if String.eqb rawLamports "" then Ok DefaultLamports else of_option (ParseUintBits 64 rawLamports));
    fees_New lamports (if String.eqb rawWallet "" then DefaultWallet else rawWallet).

Definition parse_mint (field : string) : res Token :=
  let parts := split ":" field in
  match parts with
  | address :: symbol :: dec :: rest =>
      _ ← guard_err (1 <? length rest)%nat [];
      decimals ← of_option (Atoi dec);
      let entry := mkToken address symbol decimals true "" (default "" (head rest)) "" in
      _ ← Tokens.New Localnet [entry];
      Ok entry
  | _ => Err []
  end.

Fixpoint parse_mints (fields : list string) : res (list Token) :=
  match fields with [] => Ok [] | f :: fs => e ← parse_mint f; es ← parse_mints fs; Ok (e :: es) end.
Definition parseLocalnetMints (raw : string) : res (list Token) := parse_mints (splitList raw).

Definition parseSolana (rpcURL clusterName mainnetAck rawLamports rawWallet : string) (ttl : duration)
    (rawMints rawHosts : string) : res SolanaConfig :=
  let hosts := splitList rawHosts in
  if blank rpcURL then
    _ ← guard_err (negb (blank clusterName)) [];
    Ok (mkSolana "" "" 0 "" ttl [] hosts)
  else
    _ ← guard_err (blank clusterName) [];
    resolved ← Cluster.Parse clusterName;
    _ ← (if IsProduction resolved then
           _ ← guard_err (negb (String.eqb (unset mainnetAck) "1")) [];
           _ ← guard_err (negb (blank rawLamports)) [];
           guard_err (negb (blank rawWallet)) []
         else guard_err (negb (blank mainnetAck)) []);
    _ ← (if negb (AllowsExtraMints resolved) then
           _ ← guard_err (negb (blank rawMints)) [];
           guard_err (0 <? length hosts)%nat []
         else Ok tt);
    policy ← resolveFeePolicy (unset rawLamports) (unset rawWallet);
    mints ← (if AllowsExtraMints resolved then parseLocalnetMints rawMints else Ok []);
    _ ← CheckEndpoint resolved (unset rpcURL) hosts;
    Ok (mkSolana resolved (unset rpcURL) (fee_lamports policy) (pk_print (fee_wallet policy)) ttl mints hosts).

(** [Config.FeePolicy] *)
Definition Config_FeePolicy (c : Config) : res FeePolicy :=
  let s := cf_Solana c in
  if (so_FeeLamports s =? 0) && String.eqb (so_FeeWallet s) "" then fees_Default
  else fees_New (so_FeeLamports s) (so_FeeWallet s).

(** ** The whole *)
Definition negative (x : f64) : bool := f64_lt x (f64_of 0).
Definition positive_rate (x : f64) : bool := f64_lt (f64_of 0) x.

Definition Config_Validate (c : Config) : res unit :=
  let rl := cf_RateLimit c in
  _ ← guard_err (String.eqb (TrimSpace (cf_Addr c)) "") [];
  _ ← guard_err (String.eqb (TrimSpace (cf_DatabaseURL c)) "") [];
  _ ← guard_err (slen (cf_SessionSecret c) <? 32)%nat [];
  _ ← guard_err ((cf_ChallengeTTL c <=? 0) || (cf_SessionTTL c <=? 0)) [];
  _ ← Policy_Validate (Spend_Policy (cf_Spend c));
  _ ← guard_err (cf_Sandbox c && SettlementEnabled c) [];
  _ ← guard_err (cf_AcceptTTL c <=? 0) [];
  _ ← guard_err (cf_OpenTTL c <=? 0) [];
  _ ← guard_err (cf_OfferTTL c <=? 0) [];
  _ ← guard_err (cf_ExpirySweepEvery c <=? 0) [];
  _ ← guard_err (cf_RequestTimeout c <=? 0) [];
  _ ← guard_err (negative (rl_AgentRPS rl) || negative (rl_IPRPS rl)) [];
  _ ← guard_err ((rl_AgentBurst rl <? 0) || (rl_IPBurst rl <? 0)) [];
  _ ← guard_err (positive_rate (rl_AgentRPS rl) && (rl_AgentBurst rl =? 0)) [];
  _ ← guard_err (positive_rate (rl_IPRPS rl) && (rl_IPBurst rl =? 0)) [];
  _ ← guard_err (cf_ShutdownGrace c <? 0) [];
  _ ← guard_err (so_BlockhashTTL (cf_Solana c) <=? 0) [];
  if SettlementEnabled c
  then _ ← fees_New (so_FeeLamports (cf_Solana c)) (so_FeeWallet (cf_Solana c)); Ok tt
  else Ok tt.
End Solana.

(** ** The command line over the environment *)
Definition environment := string → option string.

Definition Getenv (e : environment) (key : string) : string := default "" (e key).
Definition env (e : environment) (key fallback : string) : string :=
  match e key with Some v => if String.eqb v "" then fallback else v | None => fallback end.

(** A malformed number reads as -1, which [Validate] refuses. *)
Definition env_number {A} (read : string → option A) (bad : A) (e : environment) (key : string) (fallback : A) : A :=
  let v := Getenv e key in if String.eqb v "" then fallback else default bad (read v).
Definition envInt64 (e : environment) := env_number Atoi (-1) e.
Definition envInt (e : environment) := env_number Atoi (-1) e.
Definition envFloat `{FloatText} (e : environment) := env_number parse_float64 (f64_of (-1)) e.

Definition flag_table : list (string * flag_kind) :=
  map (fun n => (n, KString)) ["addr"; "db"; "signer-key"; "admin-token"; "admin-operators"; "session-secret"; "public-base-url";
    "version"; "rpc-url"; "cluster"; "mainnet-ack"; "fee-lamports"; "fee-wallet"; "blockhash-ttl"; "localnet-mints";
    "localnet-allow-host"; "spend-cap-per-trade"; "spend-cap-per-day"; "spend-cap-max-per-trade"; "spend-cap-max-per-day";
    "spend-cap-window"; "spend-rates"; "trade-accept-ttl"; "trade-open-ttl"; "offer-ttl"; "trade-expiry-sweep-interval";
    "probe-timeout"; "rate-limit-ip-header"] ++
  map (fun n => (n, KDuration)) ["challenge-ttl"; "session-ttl"; "request-timeout"; "shutdown-grace"] ++
  map (fun n => (n, KBool)) ["preflight-only"; "require-offer-attestation"; "sandbox"] ++
  map (fun n => (n, KInt)) ["trade-expiry-sweep-batch"; "probe-max-response-bytes"; "rate-limit-agent-burst"; "rate-limit-ip-burst"] ++
  map (fun n => (n, KFloat)) ["rate-limit-agent-rps"; "rate-limit-ip-rps"].

Section Parse.
Context `{IU : Unicode} `{IK : SolanaKeys} `{IN : NetURL} `{IO : Folding} `{IR : Resolver} `{IB : Base58} `{IF : FloatText}.
Context (e : environment).

Definition duration_setting (st : gmap string string) (flag key fallback : string) : res duration :=
  of_option (ParseDuration (unset (flag_string st flag (env e key fallback)))).

(** From the flags that were set to the configuration, validated. *)
Definition build_config (st : gmap string string) : res Config :=
  let str := flag_string st in
  let get flag key := str flag (Getenv e key) in
  let env_flag flag key := flag_bool st flag (String.eqb (env e key "") "1") in
  secret ← decodeSecret (get "session-secret" "VTESSERA_SESSION_SECRET");
  let rawTTL := get "blockhash-ttl" "VTESSERA_BLOCKHASH_TTL" in
  ttl ← (if blank rawTTL then Ok DefaultBlockhashTTL else of_option (ParseDuration (unset rawTTL)));
  let rpcURL := get "rpc-url" "VTESSERA_RPC_URL" in
  solana ← parseSolana rpcURL (get "cluster" "VTESSERA_CLUSTER") (get "mainnet-ack" "VTESSERA_MAINNET_ACK")
    (get "fee-lamports" "VTESSERA_FEE_LAMPORTS") (get "fee-wallet" "VTESSERA_FEE_WALLET") ttl
    (get "localnet-mints" "VTESSERA_LOCALNET_MINTS") (get "localnet-allow-host" "VTESSERA_LOCALNET_ALLOW_HOST");
  let preflightOnly := flag_bool st "preflight-only" false in
  _ ← guard_err (preflightOnly && blank rpcURL) [];
  spend ← parseSpend (str "spend-cap-per-trade" (env e "VTESSERA_SPEND_CAP_PER_TRADE" "10.00"))
    (str "spend-cap-per-day" (env e "VTESSERA_SPEND_CAP_PER_DAY" "10.00"))
    (get "spend-cap-max-per-trade" "VTESSERA_SPEND_CAP_MAX_PER_TRADE")
    (get "spend-cap-max-per-day" "VTESSERA_SPEND_CAP_MAX_PER_DAY") (get "spend-rates" "VTESSERA_SPEND_RATES")
    (str "spend-cap-window" (env e "VTESSERA_SPEND_CAP_WINDOW" "24h"));
  let adminToken := TrimSpace (get "admin-token" "VTESSERA_ADMIN_TOKEN") in
  _ ← guard_err (negb (String.eqb adminToken "") && (slen adminToken <? 32)%nat) [];
  operators ← parseAdminOperators (str "admin-operators" (env e "VTESSERA_ADMIN_OPERATORS" "")) adminToken;
  acceptTTL ← duration_setting st "trade-accept-ttl" "VTESSERA_TRADE_ACCEPT_TTL" "72h";
  openTTL ← duration_setting st "trade-open-ttl" "VTESSERA_TRADE_OPEN_TTL" "24h";
  offerTTL ← duration_setting st "offer-ttl" "VTESSERA_OFFER_TTL" "24h";
  probeTimeout ← duration_setting st "probe-timeout" "VTESSERA_PROBE_TIMEOUT" "5s";
  sweepEvery ← duration_setting st "trade-expiry-sweep-interval" "VTESSERA_TRADE_EXPIRY_SWEEP_INTERVAL" "5m";
  _ ← guard_err (probeTimeout <=? 0) [];
  let probeBytes := flag_int st "probe-max-response-bytes" (envInt64 e "VTESSERA_PROBE_MAX_RESPONSE_BYTES" 65536) in
  _ ← guard_err (probeBytes <=? 0) [];
  let sweepBatch := flag_int st "trade-expiry-sweep-batch" 100 in
  _ ← guard_err (sweepBatch <=? 0) [];
  let cfg := mkConfig (str "addr" (env e "VTESSERA_ADDR" ":8080")) (str "db" (env e "VTESSERA_DB" "file:vtessera.db"))
    (str "signer-key" (env e "VTESSERA_SIGNER_KEY" "data/signer.key")) secret adminToken operators
    (flag_duration st "challenge-ttl" (5 * minute)) (flag_duration st "session-ttl" (24 * hour))
    (flag_duration st "request-timeout" (30 * second)) (flag_duration st "shutdown-grace" (15 * second))
    (trim_right (ceqb "/") (get "public-base-url" "VTESSERA_PUBLIC_BASE_URL")) (str "version" (env e "VTESSERA_VERSION" "0.1.0-dev"))
    preflightOnly spend acceptTTL openTTL sweepEvery sweepBatch offerTTL
    (mkRateLimit (flag_float st "rate-limit-agent-rps" (envFloat e "VTESSERA_RATE_LIMIT_AGENT_RPS" (f64_of 30)))
       (flag_int st "rate-limit-agent-burst" (envInt e "VTESSERA_RATE_LIMIT_AGENT_BURST" 60))
       (flag_float st "rate-limit-ip-rps" (envFloat e "VTESSERA_RATE_LIMIT_IP_RPS" (f64_of 20)))
       (flag_int st "rate-limit-ip-burst" (envInt e "VTESSERA_RATE_LIMIT_IP_BURST" 40))
       (unset (str "rate-limit-ip-header" (env e "VTESSERA_RATE_LIMIT_IP_HEADER" "Fly-Client-IP"))))
    (env_flag "require-offer-attestation" "VTESSERA_REQUIRE_OFFER_ATTESTATION") probeTimeout probeBytes
    (env_flag "sandbox" "VTESSERA_SANDBOX") solana in
  _ ← Config_Validate cfg;
  Ok cfg.

Definition Parse (args : list string) : res Config :=
  match flag_Parse flag_table args ∅ with
  | Parsed st [] => build_config st
  | _ => Err []
  end.
End Parse.

(** ** What a configuration that was accepted guarantees *)

(** No two operators share a name or a token, none has the legacy token or its name,
    and no token can be guessed by its length. *)
Definition unambiguous (legacyToken : string) (ops : list AdminOperator) : Prop :=
  NoDup (map op_Name ops) ∧ NoDup (map op_Token ops) ∧
  Forall (fun o => op_Name o ≠ "" ∧ (32 <= slen (op_Token o))%nat) ops ∧
  (legacyToken ≠ "" → ("operator" ∉ map op_Name ops) ∧ legacyToken ∉ map op_Token ops).

Lemma read_operators_spec names tokens entries ops : read_operators names tokens entries = Ok ops →
  NoDup (map op_Name ops) ∧ NoDup (map op_Token ops) ∧
  Forall (fun o => (op_Name o ∉ names) ∧ op_Token o ∉ tokens) ops ∧
  Forall (fun o => op_Name o ≠ "" ∧ (32 <= slen (op_Token o))%nat) ops.
Proof.
  revert names tokens ops. induction entries as [|entry rest IH]; intros names tokens ops; cbn [read_operators].
  - intros [= <-]. cbn. split_and!; constructor.
  - destruct (cut "=" entry) as [[name0 token0] ok].
    intros H. apply res_bind_ok in H as (? & Hn%guard_err_ok & H).
    apply orb_false_iff in Hn as [[_ Hn]%orb_false_iff _]. apply String.eqb_neq in Hn.
    apply res_bind_ok in H as (? & Hl%guard_err_ok & H). apply Nat.ltb_ge in Hl.
    apply res_bind_ok in H as (? & Hin%guard_err_ok & H). apply bool_decide_eq_false in Hin.
    apply res_bind_ok in H as (? & Hit%guard_err_ok & H). apply bool_decide_eq_false in Hit.
    apply res_bind_ok in H as (ops' & Hops & [= <-]). destruct (IH _ _ _ Hops) as (N & T & Hf & Hg).
    rewrite Forall_forall in Hf. cbn [map op_Name op_Token]. split_and!.
    + constructor; [|done]. intros (o & E & Ho)%list_elem_of_fmap. apply Hf in Ho as [Ho _]. set_solver.
    + constructor; [|done]. intros (o & E & Ho)%list_elem_of_fmap. apply Hf in Ho as [_ Ho]. set_solver.
    + constructor; [done|]. apply Forall_forall. intros o Ho. apply Hf in Ho. set_solver.
    + by constructor.
Qed.

Lemma parseAdminOperators_spec raw legacyToken ops : parseAdminOperators raw legacyToken = Ok ops →
  unambiguous legacyToken ops.
Proof.
  unfold parseAdminOperators. intros (N & T & Hf & Hg)%read_operators_spec. split_and!; try done.
  intros Hne. rewrite (proj2 (String.eqb_neq legacyToken "")) in Hf by done. cbn in Hf. rewrite Forall_forall in Hf.
  split; intros (o & E & Ho)%list_elem_of_fmap; apply Hf in Ho; set_solver.
Qed.

Section Accepted.
Context `{IU : Unicode} `{IK : SolanaKeys} `{IN : NetURL} `{IO : Folding} `{IR : Resolver} `{IB : Base58} `{IF : FloatText}.

(** What the settlement settings say when they are accepted, chain by chain. *)
Definition settlement_table (rpc ack lamports wallet mints hosts : string) (s : SolanaConfig) : Prop :=
  let c := so_Cluster s in
  c ∈ supported ∧ so_RPCURL s = unset rpc ∧ so_LocalnetAllowHost s = splitList hosts ∧
  CheckEndpoint c (so_RPCURL s) (so_LocalnetAllowHost s) = Ok tt ∧
  (∃ p, resolveFeePolicy (unset lamports) (unset wallet) = Ok p ∧ so_FeeLamports s = fee_lamports p ∧
     so_FeeWallet s = pk_print (fee_wallet p)) ∧
  (if IsProduction c then unset ack = "1" ∧ blank lamports = true ∧ blank wallet = true else blank ack = true) ∧
  (if AllowsExtraMints c then parseLocalnetMints mints = Ok (so_LocalnetMints s)
   else so_LocalnetMints s = [] ∧ so_LocalnetAllowHost s = [] ∧ blank mints = true).

Lemma parseSolana_spec rpc name ack lamports wallet ttl mints hosts s :
  parseSolana rpc name ack lamports wallet ttl mints hosts = Ok s →
  so_BlockhashTTL s = ttl ∧
  ((blank rpc = true ∧ blank name = true ∧ so_Cluster s = "" ∧ so_RPCURL s = "") ∨
   settlement_table rpc ack lamports wallet mints hosts s).
Proof.
  unfold parseSolana. cbv zeta. destruct (blank rpc) eqn:Er.
  - intros (? & Hn%guard_err_ok & [= <-])%res_bind_ok. apply negb_false_iff in Hn. split; [done|]. by left.
  - intros (? & Hn%guard_err_ok & H)%res_bind_ok. apply res_bind_ok in H as (c & Hc & H).
    apply res_bind_ok in H as (? & Hprod & H). apply res_bind_ok in H as (? & Hloc & H).
    apply res_bind_ok in H as (p & Hp & H). apply res_bind_ok in H as (ms & Hm & H).
    apply res_bind_ok in H as ([] & He & [= <-]). split; [done|]. right. unfold settlement_table. cbn [so_Cluster so_RPCURL
      so_LocalnetAllowHost so_FeeLamports so_FeeWallet so_LocalnetMints].
    split_and!; [by eapply Parse_identity|done|done|done|by exists p| |].
    + destruct (IsProduction c).
      * apply res_bind_ok in Hprod as (? & Ha%guard_err_ok & H). apply res_bind_ok in H as (? & Hl%guard_err_ok & Hw%guard_err_ok).
        apply negb_false_iff in Ha, Hl, Hw. by apply String.eqb_eq in Ha.
      * apply guard_err_ok in Hprod. by apply negb_false_iff in Hprod.
    + destruct (AllowsExtraMints c); [done|]. cbn [negb] in Hloc.
      apply res_bind_ok in Hloc as (? & Hb%guard_err_ok & Hh%guard_err_ok). apply negb_false_iff in Hb.
      injection Hm as <-. split_and!; [done| |done]. destruct (splitList hosts); [done|]. cbn in Hh. done.
Qed.
(** What validation leaves to run with. *)
Record runnable (c : Config) : Prop := mkRunnable {
  run_addr : TrimSpace (cf_Addr c) ≠ "" ∧ TrimSpace (cf_DatabaseURL c) ≠ "";
  run_secret : (32 <= slen (cf_SessionSecret c))%nat;
  run_caps : Policy_Validate (Spend_Policy (cf_Spend c)) = Ok tt;
  run_sandbox : cf_Sandbox c = true → SettlementEnabled c = false;
  run_ttls : 0 < cf_ChallengeTTL c ∧ 0 < cf_SessionTTL c ∧ 0 < cf_AcceptTTL c ∧ 0 < cf_OpenTTL c ∧ 0 < cf_OfferTTL c ∧
    0 < cf_ExpirySweepEvery c ∧ 0 < cf_RequestTimeout c ∧ 0 < so_BlockhashTTL (cf_Solana c) ∧ 0 <= cf_ShutdownGrace c;
  run_agent_rate : let rl := cf_RateLimit c in negative (rl_AgentRPS rl) = false ∧ 0 <= rl_AgentBurst rl ∧
    (positive_rate (rl_AgentRPS rl) = true → 0 < rl_AgentBurst rl);
  run_ip_rate : let rl := cf_RateLimit c in negative (rl_IPRPS rl) = false ∧ 0 <= rl_IPBurst rl ∧
    (positive_rate (rl_IPRPS rl) = true → 0 < rl_IPBurst rl);
  run_fee : SettlementEnabled c = true →
    is_ok (fees_New (so_FeeLamports (cf_Solana c)) (so_FeeWallet (cf_Solana c))) = true }.

Lemma Config_Validate_spec c : Config_Validate c = Ok tt → runnable c.
Proof.
  unfold Config_Validate. cbv zeta. intros H.
  repeat match type of H with
  | (guard_err _ _ ≫= _) = _ => let G := fresh "G" in apply res_bind_ok in H as (? & G%guard_err_ok & H)
  | (Policy_Validate _ ≫= _) = _ => let G := fresh "G" in apply res_bind_ok in H as ([] & G & H)
  end.
  repeat match goal with
  | G : (_ || _) = false |- _ => apply orb_false_iff in G as [? ?]
  | G : (_ && _) = false |- _ => apply andb_false_iff in G
  | G : (_ <=? _) = false |- _ => apply Z.leb_gt in G
  | G : (_ <? _)%nat = false |- _ => apply Nat.ltb_ge in G
  | G : (_ <? _) = false |- _ => apply Z.ltb_ge in G
  | G : String.eqb _ _ = false |- _ => apply String.eqb_neq in G
  end.
  split; cbv zeta; try done.
  - intros Hs. destruct G4; [congruence|done].
  - split_and!; [done|done|]. intros Hp. destruct G12 as [E|E]; [congruence|]. apply Z.eqb_neq in E. lia.
  - split_and!; [done|done|]. intros Hp. destruct G13 as [E|E]; [congruence|]. apply Z.eqb_neq in E. lia.
  - intros Hs. rewrite Hs in H. apply res_bind_ok in H as (p & Hp & _). by rewrite Hp.
Qed.

(** The text of a setting: the flag if it was given, else the variable. *)
Definition setting (e : environment) (st : gmap string string) (flag key : string) : string :=
  flag_string st flag (Getenv e key).

Lemma build_config_spec e st cfg : build_config e st = Ok cfg →
  let get := setting e st in
  runnable cfg ∧ unambiguous (cf_AdminToken cfg) (cf_AdminOperators cfg) ∧
  (cf_AdminToken cfg ≠ "" → (32 <= slen (cf_AdminToken cfg))%nat) ∧
  0 < cf_ProbeTimeout cfg ∧ 0 < cf_ProbeMaxResponseBytes cfg ∧ 0 < cf_ExpirySweepBatch cfg ∧
  (so_Cluster (cf_Solana cfg) = "" ∨
   settlement_table (get "rpc-url" "VTESSERA_RPC_URL") (get "mainnet-ack" "VTESSERA_MAINNET_ACK")
     (get "fee-lamports" "VTESSERA_FEE_LAMPORTS") (get "fee-wallet" "VTESSERA_FEE_WALLET")
     (get "localnet-mints" "VTESSERA_LOCALNET_MINTS") (get "localnet-allow-host" "VTESSERA_LOCALNET_ALLOW_HOST") (cf_Solana cfg)).
Proof.
  unfold build_config. intros H. cbv zeta in H |- *.
  apply res_bind_ok in H as (secret & _ & H). apply res_bind_ok in H as (ttl & _ & H).
  apply res_bind_ok in H as (solana & Hs & H). apply res_bind_ok in H as (? & _ & H).
  apply res_bind_ok in H as (spend & _ & H). apply res_bind_ok in H as (? & Ht%guard_err_ok & H).
  apply res_bind_ok in H as (ops & Ho & H). do 3 (apply res_bind_ok in H as (? & _ & H)).
  apply res_bind_ok in H as (probe & _ & H). apply res_bind_ok in H as (sweep & _ & H).
  apply res_bind_ok in H as (? & Hp%guard_err_ok & H). apply res_bind_ok in H as (? & Hb%guard_err_ok & H).
  apply res_bind_ok in H as (? & Hn%guard_err_ok & H). apply res_bind_ok in H as ([] & Hv & [= <-]).
  apply Z.leb_gt in Hp, Hb, Hn. apply Config_Validate_spec in Hv.
  cbn [cf_AdminToken cf_AdminOperators cf_ProbeTimeout cf_ProbeMaxResponseBytes cf_ExpirySweepBatch cf_Solana].
  split_and!; [exact Hv|by eapply parseAdminOperators_spec| |exact Hp|exact Hb|exact Hn|].
  - intros Hne%String.eqb_neq. rewrite Hne in Ht. cbn [negb andb] in Ht. by apply Nat.ltb_ge in Ht.
  - apply parseSolana_spec in Hs as [_ [(_ & _ & E & _)|Hs]]; [by left|by right].
Qed.

Lemma Parse_operators e args cfg : Config.Parse e args = Ok cfg → unambiguous (cf_AdminToken cfg) (cf_AdminOperators cfg).
Proof.
  unfold Parse. destruct (flag_Parse flag_table args ∅) as [st [|]| |]; try done. intros H.
  by apply build_config_spec in H as (_ & Ho & _).
Qed.

(** C25: a deployment that starts is a safe one.  Every cap, deadline and secret of an
  accepted configuration is within its rules, and operators are told apart by
  their tokens.  If it settles on chain it is no sandbox, names one of the three
  supported clusters and charges a positive fee.  On mainnet-beta the operator
  has written the acknowledgement, the fee is the fixed amount to the fixed
  wallet, and no mint or endpoint exemption is in force; those exist on localnet
  only, where without an exemption the endpoint is on this host. *)
Theorem starts_safely e args cfg :
  Config.Parse e args = Ok cfg →
  runnable cfg ∧ unambiguous (cf_AdminToken cfg) (cf_AdminOperators cfg) ∧
  (SettlementEnabled cfg = true →
    let s := cf_Solana cfg in
    cf_Sandbox cfg = false ∧ so_Cluster s ∈ supported ∧ so_FeeLamports s ≠ 0 ∧
    (so_Cluster s = MainnetBeta → so_FeeLamports s = DefaultLamports ∧
       (∃ key, pk_parse DefaultWallet = Some key ∧ so_FeeWallet s = pk_print key) ∧
       ∃ st, flag_Parse flag_table args ∅ = Parsed st [] ∧
         TrimSpace (setting e st "mainnet-ack" "VTESSERA_MAINNET_ACK") = "1") ∧
    (so_Cluster s ≠ Localnet → so_LocalnetMints s = [] ∧ so_LocalnetAllowHost s = []) ∧
    (so_Cluster s = Localnet → so_LocalnetAllowHost s = [] →
       ∃ u, url_parse (TrimSpace (so_RPCURL s)) = Some u ∧ all_loopback (resolve_host (url_Hostname u)))).
Proof.
  unfold Parse. destruct (flag_Parse flag_table args ∅) as [st [|]| |] eqn:Hf; try done. intros H.
  apply build_config_spec in H as (Hr & Ho & _ & _ & _ & _ & Hs). split_and!; [done|done|]. cbv zeta.
  intros Hon. pose proof (run_fee _ Hr Hon) as Hfee.
  destruct Hs as [Hs|(Hc & _ & _ & He & (p & Hp & E1 & E2) & Hprod & Hloc)].
  { exfalso. unfold SettlementEnabled in Hon. rewrite Hs in Hon. by rewrite andb_false_r in Hon. }
  split_and!.
  - destruct (cf_Sandbox cfg) eqn:E; [|done]. apply (run_sandbox _ Hr) in E. congruence.
  - exact Hc.
  - intros E. unfold fees_New in Hfee. by rewrite E in Hfee.
  - intros E. rewrite E in Hprod. cbn in Hprod. destruct Hprod as (Ha & Hl & Hw).
    apply String.eqb_eq in Hl, Hw. unfold resolveFeePolicy in Hp. rewrite Hl, Hw in Hp. cbn in Hp. unfold fees_Default in Hp.
    destruct (pk_parse DefaultWallet) as [k|]; [|done]. injection Hp as <-. split_and!; [done|by exists k|by exists st].
  - intros E. unfold AllowsExtraMints in Hloc. rewrite (proj2 (String.eqb_neq _ _) E) in Hloc. by destruct Hloc as (? & ? & _).
  - intros E Eh. rewrite E, Eh in He. apply CheckEndpoint_exact in He as (u & Hu & _ & _ & [Ha|Ha]); [done|]. by exists u.
Qed.
End Accepted.

(** ** Concrete configurations *)
Definition demoResolver : Resolver := {| resolve_host _ := Names (Some [[127; 0; 0; 1]]) |}.
(** Whole numbers only. *)
Definition demoFloatText : FloatText := {| parse_float64 s := f64_of <$> Atoi s |}.
#[local] Existing Instances demoUnicode demoKeys demoNetURL demoBase58 demoFolding demoResolver demoFloatText.

(** An environment as a list of assignments. *)
Definition env_of (l : list (string * string)) : environment := fun k => snd <$> find (fun x => String.eqb x.1 k) l.

Definition demoSecret : string := "0123456789abcdef0123456789abcdef-".
Definition demoMainnet : list (string * string) :=
  [("VTESSERA_SESSION_SECRET", demoSecret); ("VTESSERA_RPC_URL", "https://rpc.example"); ("VTESSERA_CLUSTER", " Mainnet-Beta ")].
Definition acknowledged : list (string * string) := demoMainnet ++ [("VTESSERA_MAINNET_ACK", "1")].

Definition chosen (r : res Config) : option (Cluster * Z) :=
  match r with Ok c => Some (so_Cluster (cf_Solana c), so_FeeLamports (cf_Solana c)) | Err _ => None end.

(** Mainnet needs the acknowledgement and tolerates no fee of one's own. *)
Example mainnet_examples :
  chosen (Parse (env_of acknowledged) []) = Some (MainnetBeta, 1000) ∧
  chosen (Parse (env_of demoMainnet) ["-mainnet-ack=1"]) = Some (MainnetBeta, 1000) ∧
  chosen (Parse (env_of demoMainnet) []) = None ∧
  chosen (Parse (env_of acknowledged) ["--fee-lamports"; "1000"]) = None ∧
  chosen (Parse (env_of acknowledged) ["--cluster=devnet"]) = None ∧
  chosen (Parse (env_of acknowledged) ["-sandbox"]) = None.
Proof. vm_compute. split_and!; reflexivity. Qed.

Lemma starts_safely_witness : ∃ cfg, Config.Parse (env_of acknowledged) [] = Ok cfg ∧
  so_Cluster (cf_Solana cfg) = MainnetBeta ∧ cf_Sandbox cfg = false ∧ so_FeeLamports (cf_Solana cfg) = DefaultLamports.
Proof.
  destruct (Config.Parse (env_of acknowledged) []) as [cfg|] eqn:H.
  2: { assert (is_ok (Config.Parse (env_of acknowledged) []) = true) as E by (vm_compute; reflexivity).
       rewrite H in E. discriminate E. }
  assert (chosen (Ok cfg) = Some (MainnetBeta, 1000) ∧ SettlementEnabled cfg = true) as [Hc Hon].
  { rewrite <-H. split; [vm_compute; reflexivity|].
    assert (match Config.Parse (env_of acknowledged) [] with Ok c => SettlementEnabled c | Err _ => false end = true) as E
      by (vm_compute; reflexivity). by rewrite H in E. }
  apply (inj Some), pair_equal_spec in Hc as [Hc _].
  destruct (starts_safely (env_of acknowledged) [] cfg H) as (_ & _ & Hs). destruct (Hs Hon) as (Hb & _ & _ & Hm & _).
  destruct (Hm Hc) as (Hl & _). exists cfg. split_and!; [reflexivity|exact Hc|exact Hb|exact Hl].
Defined.

(** A burst of zero is documented to switch a limit off, and a rate of zero to make
    the burst a fixed quota; with the default rate a burst of zero does not start. *)
Theorem zero_burst_refused :
  is_ok (Parse (env_of [("VTESSERA_SESSION_SECRET", demoSecret)]) []) = true ∧
  is_ok (Parse (env_of [("VTESSERA_SESSION_SECRET", demoSecret)]) ["-rate-limit-agent-burst=0"]) = false ∧
  is_ok (Parse (env_of [("VTESSERA_SESSION_SECRET", demoSecret)]) ["-rate-limit-agent-burst=0"; "-rate-limit-agent-rps=0"]) = true.
Proof. vm_compute. split_and!; reflexivity. Qed.
