(* ===== verification/RateLimit.v ===== *)
(** * [httpapi/ratelimit.go]: token buckets

    One bucket per key, refilled by the time that passed, under one mutex, so
    [allow] is a single step.  Token counts are binary64.  A conversion of a
    float out of the range of int64 is implementation-dependent in Go, here the
    parameter [convert_overflow]. *)
From Stdlib Require Import SpecFloat.
From S2P Require Import Prelude GoText.

Record tokenBucket := mkBucket { tb_tokens : f64; tb_last : time }.

Record rateLimiter := mkLimiter {
  rl_rps : f64; rl_burst : f64; rl_buckets : gmap string tokenBucket; rl_idle : duration; rl_maxKeys : Z }.

Definition newRateLimiter (rps : f64) (burst : Z) : rateLimiter := mkLimiter rps (f64_of burst) ∅ (10 * minute) 4096.

Definition with_buckets (l : rateLimiter) (m : gmap string tokenBucket) : rateLimiter :=
  mkLimiter (rl_rps l) (rl_burst l) m (rl_idle l) (rl_maxKeys l).

(** [t.Sub(u)], which saturates. *)
Definition sub_time (t u : time) : duration := Z.max (- max63) (Z.min (max63 - 1) (t - u)).
(** [d.Seconds()] *)
Definition Seconds (d : duration) : f64 := f64_add (f64_of (Z.quot d second)) (f64_div (f64_of (Z.rem d second)) (f64_of second)).

Definition evictLocked (l : rateLimiter) (now : time) : gmap string tokenBucket :=
  filter (fun x : string * tokenBucket => ¬ (rl_idle l < sub_time now (tb_last x.2))) (rl_buckets l).

(** The bucket of a key at a request, with the other buckets that are kept. *)
Definition refill (l : rateLimiter) (key : string) (now : time) : gmap string tokenBucket * tokenBucket :=
  match rl_buckets l !! key with
  | None =>
      (if Z.of_nat (size (rl_buckets l)) >=? rl_maxKeys l then evictLocked l now else rl_buckets l, mkBucket (rl_burst l) now)
  | Some b =>
      let elapsed := Seconds (sub_time now (tb_last b)) in
      (rl_buckets l,
       if f64_lt (f64_of 0) elapsed
       then mkBucket (f64_min (rl_burst l) (f64_add (tb_tokens b) (f64_mul elapsed (rl_rps l)))) now else b)
  end.

Section Allow.
Context (convert_overflow : f64 → Z).

Definition to_int64 (x : f64) : Z :=
  match x with
  | S754_finite _ _ _ | S754_zero _ =>
      let v := f64_trunc x in if (- max63 <=? v) && (v <? max63) then v else convert_overflow x
  | _ => convert_overflow x
  end.

(** Whether the request may pass and how long to wait otherwise, and the limiter after. *)
Definition allow (l : rateLimiter) (key : string) (now : time) : (bool * duration) * rateLimiter :=
  let '(others, b) := refill l key now in
  if f64_le (f64_of 1) (tb_tokens b)
  then ((true, 0), with_buckets l (<[key := mkBucket (f64_sub (tb_tokens b) (f64_of 1)) (tb_last b)]> others))
  else
    let l' := with_buckets l (<[key := b]> others) in
    if f64_le (rl_rps l) (f64_of 0) then ((false, hour), l')
    else ((false, int64 (to_int64 (f64_mul (f64_div (f64_sub (f64_of 1) (tb_tokens b)) (rl_rps l)) (f64_of second)) + second)), l').

(** Requests one after the other: the answers, and the limiter after them. *)
Fixpoint allow_all (l : rateLimiter) (rs : list (string * time)) : list bool * rateLimiter :=
  match rs with
  | [] => ([], l)
  | (key, now) :: rs' =>
      let '((ok, _), l1) := allow l key now in let '(oks, l2) := allow_all l1 rs' in (ok :: oks, l2)
  end.

(** [Retry-After] of [writeRateLimited]: whole seconds, rounded up, at least one. *)
Definition retry_seconds (retryAfter : duration) : Z :=
  let s := Seconds retryAfter in
  let seconds := to_int64 s in
  Z.max 1 (if f64_lt (f64_of seconds) s then seconds + 1 else seconds).
End Allow.

(** ** [clientAddress] *)
Fixpoint last_index (c : ascii) (i : nat) (s : string) : option nat :=
  match s with
  | "" => None
  | String d s' => match last_index c (S i) s' with Some j => Some j | None => if ceqb d c then Some i else None end
  end.
Fixpoint first_index (c : ascii) (i : nat) (s : string) : option nat :=
  match s with "" => None | String d s' => if ceqb d c then Some i else first_index c (S i) s' end.

(** [net.SplitHostPort], its host *)
Definition SplitHost (hostport : string) : option string :=
  i ← last_index ":" 0 hostport;
  '(host, j, k) ← (match hostport with
    | String "[" _ =>
        close ← first_index "]" 0 hostport;
        if Nat.eqb (S close) i then Some (stake (close - 1) (sdrop 1 hostport), 1%nat, S close) else None
    | _ =>
        let host := stake i hostport in
        match first_index ":" 0 host with Some _ => None | None => Some (host, 0%nat, 0%nat) end
    end);
  match first_index "[" 0 (sdrop j hostport), first_index "]" 0 (sdrop k hostport) with
  | None, None => Some host
  | _, _ => None
  end.

(** [header] is the configured name, [value] what the request carries under it. *)
Definition clientAddress (header value remoteAddr : string) : string :=
  let v := TrimSpace value in
  let v' := match cut "," v with (first, _, true) => TrimSpace first | _ => v end in
  if negb (String.eqb header "") && negb (String.eqb v "") && negb (String.eqb v' "") then v'
  else default remoteAddr (SplitHost remoteAddr).

Example addresses_read :
  map SplitHost ["1.2.3.4:80"; "[::1]:80"; "::1"; "host"; "[::1]"; "[a]b:1"; "a]:1"] =
  [Some "1.2.3.4"; Some "::1"; None; None; None; None; None] ∧
  clientAddress "Fly-Client-IP" " 9.9.9.9 , 1.1.1.1" "10.0.0.1:443" = "9.9.9.9" ∧
  clientAddress "" "9.9.9.9" "10.0.0.1:443" = "10.0.0.1" ∧ clientAddress "H" " ,x" "@" = "@".
Proof. vm_compute. done. Qed.

(** ** What the limiter guarantees *)
#[export] Instance spec_float_eq_dec : EqDecision spec_float.
Proof. solve_decision. Defined.

Section Quota.
Context (convert_overflow : f64 → Z).
#[local] Abbreviation allow := (allow convert_overflow).
#[local] Abbreviation allow_all := (allow_all convert_overflow).

(** How often the requests of one key were let through. *)
Definition passed (key : string) (rs : list (string * time)) (oks : list bool) : Z :=
  Z.of_nat (length (List.filter (fun x => String.eqb x.1.1 key && x.2) (zip rs oks))).

Lemma passed_cons key r rs ok oks :
  passed key (r :: rs) (ok :: oks) = (if String.eqb r.1 key && ok then 1 else 0) + passed key rs oks.
Proof. unfold passed. cbn [zip zip_with List.filter fst snd]. destruct (_ && _); cbn [length]; lia. Qed.

(** Counting down by one is exact for small counts. *)
Definition counts_down (k : nat) : bool :=
  let i := Z.of_nat k in
  f64_le (f64_of 1) (f64_of (i + 1)) && bool_decide (f64_sub (f64_of (i + 1)) (f64_of 1) = f64_of i) &&
  SFltb (f64_of i) (f64_of (i + 1)) && bool_decide (f64_add (f64_of (i + 1)) (S754_zero false) = f64_of (i + 1)).

Lemma counts_down_small i : 0 <= i < 1024 → counts_down (Z.to_nat i) = true.
Proof.
  intros Hi. assert (forallb counts_down (seq 0 1024) = true) as H by (vm_compute; reflexivity).
  rewrite forallb_forall in H. apply H, in_seq. lia.
Qed.

Lemma small_step i : 0 <= i < 1024 →
  f64_sub (f64_of (i + 1)) (f64_of 1) = f64_of i ∧ SFltb (f64_of i) (f64_of (i + 1)) = true ∧
  f64_add (f64_of (i + 1)) (S754_zero false) = f64_of (i + 1).
Proof.
  intros Hi. pose proof (counts_down_small i Hi) as H. unfold counts_down in H. rewrite Z2Nat.id in H by lia.
  apply andb_prop in H as [[[_ H1]%andb_prop H2]%andb_prop H3]. apply bool_decide_eq_true in H1, H3. done.
Qed.

(** Values a count can have. *)
Definition plain (x : f64) : Prop := match x with S754_finite s _ _ | S754_zero s => s = false | _ => False end.

Lemma SFltb_trans x y z : plain x → plain y → plain z → SFltb x y = true → SFltb y z = true → SFltb x z = true.
Proof.
  unfold SFltb, SFcompare. destruct x as [?|?| |sx mx ex], y as [?|?| |sy my ey], z as [?|?| |sz mz ez]; cbn; try done.
  all: intros; subst; try done.
  destruct (Z.compare_spec ex ey), (Z.compare_spec ey ez), (Z.compare_spec ex ez); try done; try lia; subst.
  change (Pos.compare_cont Eq) with Pos.compare in *.
  destruct (Pos.compare_spec mx my), (Pos.compare_spec my mz), (Pos.compare_spec mx mz); try done; lia.
Qed.

Lemma plain_f64_of i : 0 <= i <= 1024 → plain (f64_of i).
Proof.
  intros Hi. assert (forallb (fun k => match f64_of (Z.of_nat k) with
    S754_finite s _ _ | S754_zero s => negb s | _ => false end) (seq 0 1025) = true) as H by (vm_compute; reflexivity).
  rewrite forallb_forall in H. specialize (H (Z.to_nat i)). rewrite in_seq, Z2Nat.id in H by lia.
  specialize (H ltac:(lia)). unfold plain. by destruct (f64_of i) as [[]| | |[]].
Qed.

Lemma f64_of_mono i j : 0 <= i → i < j → j <= 1024 → SFltb (f64_of i) (f64_of j) = true.
Proof.
  intros Hi Hij. pattern j. apply (Zlt_lower_bound_ind _ (i + 1)); [|lia]. clear j Hij. intros j IH Hj H.
  destruct (decide (j = i + 1)) as [->|]; [by apply small_step; lia|].
  apply (SFltb_trans _ (f64_of (j - 1))); try (apply plain_f64_of; lia); [apply IH; lia|].
  replace j with (j - 1 + 1) at 2 by lia. apply small_step. lia.
Qed.

Lemma SFltb_irrefl x : SFltb x x = false.
Proof.
  unfold SFltb, SFcompare. destruct x as [[]|[]| |[] m e]; cbn; try done; rewrite Z.compare_refl;
    change (Pos.compare_cont Eq) with Pos.compare; by rewrite Pos.compare_refl.
Qed.

Lemma f64_min_of n i : 0 <= i <= n → n <= 1024 → f64_min (f64_of n) (f64_of i) = f64_of i.
Proof.
  intros Hi Hn. destruct (decide (i = n)) as [->|].
  - unfold f64_min. rewrite SFltb_irrefl. pose proof (plain_f64_of n ltac:(lia)) as Hp. destruct (f64_of n) as [[]| | |]; cbn in *; done.
  - pose proof (f64_of_mono i n ltac:(lia) ltac:(lia) ltac:(lia)) as Hlt.
    pose proof (plain_f64_of n ltac:(lia)) as Hp. pose proof (plain_f64_of i ltac:(lia)) as Hq.
    unfold f64_min. rewrite Hlt. destruct (f64_of n) as [?| | |], (f64_of i) as [?| | |]; cbn in *; done.
Qed.

(** What a bucket without refill can hold when [budget] tokens are left. *)
Definition holds_at_most (x : f64) (budget : Z) : Prop := x = S754_nan ∨ ∃ i, 0 <= i <= budget ∧ x = f64_of i.

Lemma refilled_nothing burst elapsed i : 0 <= i <= burst → burst <= 1024 → f64_lt (f64_of 0) elapsed = true →
  holds_at_most (f64_min (f64_of burst) (f64_add (f64_of i) (f64_mul elapsed (f64_of 0)))) i.
Proof.
  intros Hi Hb He. assert (f64_mul elapsed (f64_of 0) = S754_zero false ∨ f64_mul elapsed (f64_of 0) = S754_nan) as [-> | ->].
  { revert He. unfold f64_lt, SFltb, SFcompare, f64_mul, SFmul. destruct elapsed as [?|[]| |[] m e]; cbn; auto; done. }
  - assert (f64_add (f64_of i) (S754_zero false) = f64_of i) as ->.
    { destruct (decide (i = 0)) as [->|]; [done|]. replace i with (i - 1 + 1) by lia. apply small_step. lia. }
    right. exists i. split; [lia|]. apply f64_min_of; lia.
  - left. assert (f64_add (f64_of i) S754_nan = S754_nan) as -> by (unfold f64_add, SFadd; by destruct (f64_of i)).
    unfold f64_min. by destruct (f64_of burst).
Qed.

Lemma nan_stays burst elapsed y : f64_min (f64_of burst) (f64_add S754_nan (f64_mul elapsed y)) = S754_nan.
Proof. unfold f64_add, SFadd, f64_min. by destruct (f64_of burst). Qed.

(** The limiter counts for [key]: its bucket, if it has one, holds no more than
    the budget, and without one the budget is still the whole burst. *)
Definition within (burst : Z) (key : string) (l : rateLimiter) (budget : Z) : Prop :=
  match rl_buckets l !! key with Some b => holds_at_most (tb_tokens b) budget | None => budget = burst end.

Definition fixed (burst : Z) (l : rateLimiter) : Prop := rl_rps l = f64_of 0 ∧ rl_burst l = f64_of burst.

Lemma refill_within burst key l budget now : 0 <= budget <= burst → burst <= 1024 → fixed burst l →
  within burst key l budget → holds_at_most (tb_tokens (refill l key now).2) budget.
Proof.
  intros Hb Hn [E1 E2]. unfold within, refill. rewrite E1, E2. destruct (rl_buckets l !! key) as [b|]; cbn.
  - intros [E | (i & Hi & E)]; (destruct (f64_lt (f64_of 0) (Seconds (sub_time now (tb_last b)))) eqn:He; cbn [tb_tokens]; rewrite E).
    + left. apply nan_stays.
    + by left.
    + destruct (refilled_nothing burst _ i ltac:(lia) Hn He) as [-> | (j & Hj & ->)]; [by left|].
      right. exists j. split; [lia|done].
    + right. by exists i.
  - intros ->. right. exists burst. split; [lia|done].
Qed.

(** The keys never outnumber the bound, so nothing is evicted. *)
Definition roomy (K : gset string) (l : rateLimiter) : Prop :=
  dom (rl_buckets l) ⊆ K ∧ Z.of_nat (size K) <= rl_maxKeys l.

Lemma refill_others K l key now : roomy K l → key ∈ K → (refill l key now).1 = rl_buckets l.
Proof.
  intros [Hd Hs] Hk. unfold refill. destruct (rl_buckets l !! key) eqn:E; [done|]. cbn.
  destruct (Z.geb_spec (Z.of_nat (size (rl_buckets l))) (rl_maxKeys l)) as [Hge|]; [|done]. exfalso.
  apply not_elem_of_dom in E. assert (size ({[key]} ∪ dom (rl_buckets l)) <= size K)%nat as Hsz by (apply subseteq_size; set_solver).
  rewrite size_union, size_singleton, size_dom in Hsz by set_solver. lia.
Qed.

(** One request spends what it is allowed and touches no other key. *)
Lemma allow_spends K burst key l budget r ok d l' : 0 <= budget <= burst → burst <= 1024 → fixed burst l → roomy K l →
  r.1 ∈ K → within burst key l budget → allow l r.1 r.2 = ((ok, d), l') →
  fixed burst l' ∧ roomy K l' ∧
  ∃ budget', 0 <= budget' ∧ budget' + (if String.eqb r.1 key && ok then 1 else 0) <= budget ∧ within burst key l' budget'.
Proof.
  intros Hb Hn Hf Hr Hk Hw. unfold RateLimit.allow. pose proof (refill_others K l r.1 r.2 Hr Hk) as Ho.
  pose proof (refill_within burst r.1 l budget r.2 Hb Hn Hf) as Hrw. destruct (refill l r.1 r.2) as [others b]. cbn in Ho. subst others.
  set (inserted := fun b' => with_buckets l (<[r.1:=b']> (rl_buckets l))). intros Ha.
  assert (∃ b', l' = inserted b' ∧ (if ok then b' = mkBucket (f64_sub (tb_tokens b) (f64_of 1)) (tb_last b) ∧
      f64_le (f64_of 1) (tb_tokens b) = true else b' = b)) as (b' & -> & Hb').
  { destruct (f64_le (f64_of 1) (tb_tokens b)) eqn:E; [injection Ha as <- <- <-; by eexists|].
    destruct (f64_le (rl_rps l) (f64_of 0)); injection Ha as <- <- <-; by exists b. }
  split; [exact Hf|]. split.
  { destruct Hr as [Hd Hs]. split; [|exact Hs]. cbn. rewrite dom_insert. set_solver. }
  destruct (String.eqb_spec r.1 key) as [Hkey|Hne]; cbn [andb].
  2: { exists budget. split; [lia|]. split; [lia|]. unfold within, inserted. cbn. by rewrite lookup_insert_ne. }
  subst key. specialize (Hrw Hw). cbn [snd] in Hrw.
  assert (∀ x, within burst r.1 (inserted b') x ↔ holds_at_most (tb_tokens b') x) as Hins.
  { intros x. unfold within, inserted. cbn. by rewrite lookup_insert_eq. }
  destruct ok.
  - destruct Hb' as [-> Hle]. destruct Hrw as [E|(i & Hi & E)]; rewrite E in Hle; [done|].
    destruct (decide (i = 0)) as [->|]; [discriminate Hle|].
    exists (budget - 1). split; [lia|]. split; [lia|]. apply Hins. right. exists (i - 1). split; [lia|].
    cbn [tb_tokens]. rewrite E. replace i with (i - 1 + 1) at 1 by lia. apply small_step. lia.
  - subst b'. exists budget. split; [lia|]. split; [lia|]. by apply Hins.
Qed.

Lemma allow_all_spends K burst key rs : burst <= 1024 → (∀ r, r ∈ rs → r.1 ∈ K) → ∀ l budget, 0 <= budget <= burst →
  fixed burst l → roomy K l → within burst key l budget → passed key rs (allow_all l rs).1 <= budget.
Proof.
  intros Hn. induction rs as [|[k now] rs IH]; intros Hk l budget Hb Hf Hr Hw; [unfold passed; cbn; lia|].
  cbn [RateLimit.allow_all]. destruct (allow l k now) as [[ok d] l1] eqn:Ha.
  destruct (allow_spends K burst key l budget (k, now) ok d l1 Hb Hn Hf Hr (Hk (k, now) ltac:(left)) Hw Ha)
    as (Hf' & Hr' & budget' & H0 & H1 & Hw').
  assert (0 <= budget' <= burst) as Hb2 by (revert H1; destruct (String.eqb _ _ && ok); lia).
  specialize (IH ltac:(intros r Hin; apply Hk; by right) l1 budget' Hb2 Hf' Hr' Hw').
  destruct (allow_all l1 rs) as [oks l2]. cbn [fst] in *. rewrite passed_cons. cbn [fst]. cbn [fst] in H1. lia.
Qed.

(** C35: a fixed quota is never exceeded.  With a rate of zero and a burst of at most
    1024, however the requests of up to 4096 callers are interleaved and however
    much time passes between them, no caller gets more than the burst through. *)
Theorem fixed_quota burst rs key :
  0 <= burst <= 1024 → Z.of_nat (size (list_to_set (map fst rs) : gset string)) <= 4096 →
  passed key rs (allow_all (newRateLimiter (f64_of 0) burst) rs).1 <= burst.
Proof.
  intros Hb Hs. apply (allow_all_spends (list_to_set (map fst rs)) burst); [lia| |lia|done| |].
  - intros r Hr. apply elem_of_list_to_set, list_elem_of_fmap. by exists r.
  - split; [|exact Hs]. cbn. set_solver.
  - unfold within. cbn. by rewrite lookup_empty.
Qed.

(** Keys are not bounded: eviction only drops buckets that have been idle, so any
    number of fresh keys within ten minutes has as many buckets. *)
Lemma allow_fresh_keys now keys : NoDup keys → ∀ l, (∀ k, k ∈ keys → rl_buckets l !! k = None) → 0 <= rl_idle l →
  map_Forall (fun _ b => tb_last b = now) (rl_buckets l) →
  size (rl_buckets (allow_all l (map (fun k => (k, now)) keys)).2) = (size (rl_buckets l) + length keys)%nat.
Proof.
  induction 1 as [|k keys Hk Hnd IH]; intros l Hfresh Hidle Hall; [cbn; lia|]. cbn [map RateLimit.allow_all length].
  destruct (allow l k now) as [[ok d] l1] eqn:Ha.
  assert (∃ b, tb_last b = now ∧ l1 = with_buckets l (<[k:=b]> (rl_buckets l))) as (b & Hb & ->).
  { revert Ha. unfold RateLimit.allow, refill. rewrite (Hfresh k) by (by left).
    assert (evictLocked l now = rl_buckets l) as ->.
    { unfold evictLocked. apply map_filter_id. intros j x Hj. cbn. rewrite (Hall j x Hj). unfold sub_time, max63. lia. }
    replace (if _ >=? _ then rl_buckets l else rl_buckets l) with (rl_buckets l) by (by destruct (_ >=? _)). cbn [tb_tokens].
    destruct (f64_le (f64_of 1) (rl_burst l)); [intros [= <- <- <-]; (eexists; split; [|reflexivity]; done)|].
    destruct (f64_le (rl_rps l) (f64_of 0)); intros [= <- <- <-]; (eexists; split; [|reflexivity]; done). }
  match goal with |- context [allow_all ?x ?y] => specialize (IH x); destruct (allow_all x y) as [oks l2] end.
  cbn [snd] in *. rewrite IH; cbn.
  - rewrite map_size_insert_None by (apply Hfresh; by left). lia.
  - intros j Hj. rewrite lookup_insert_ne by (intros ->; done). apply Hfresh. by right.
  - exact Hidle.
  - by apply map_Forall_insert_2.
Qed.

(** [maxKeys] is said to bound the map; any number of addresses within ten minutes
    gets as many buckets. *)
Theorem buckets_unbounded rps burst now keys : NoDup keys →
  size (rl_buckets (allow_all (newRateLimiter rps burst) (map (fun k => (k, now)) keys)).2) = length keys.
Proof.
  intros Hnd. rewrite (allow_fresh_keys now keys Hnd); cbn; [done| |unfold minute, second; lia|].
  - intros k _. apply lookup_empty.
  - apply map_Forall_empty.
Qed.

(** Once the map is full, one request of a new caller makes the limiter forget a
    caller idle for ten minutes, spent quota and all. *)
Theorem quota_forgotten l key b new now : rl_buckets l !! new = None → new ≠ key → rl_buckets l !! key = Some b →
  rl_maxKeys l <= Z.of_nat (size (rl_buckets l)) → rl_idle l < sub_time now (tb_last b) →
  rl_buckets (allow l new now).2 !! key = None.
Proof.
  intros Hnew Hne Hkey Hfull Hidle. unfold RateLimit.allow, refill. rewrite Hnew.
  destruct (Z.geb_spec (Z.of_nat (size (rl_buckets l))) (rl_maxKeys l)) as [_|]; [|lia].
  assert (evictLocked l now !! key = None) as He.
  { unfold evictLocked. apply map_lookup_filter_None. right. intros x Hx. simplify_eq. cbn. tauto. }
  cbn [tb_tokens]. destruct (f64_le (f64_of 1) (rl_burst l)); [|destruct (f64_le (rl_rps l) (f64_of 0))];
    cbn [snd with_buckets rl_buckets]; by rewrite lookup_insert_ne.
Qed.

Lemma retry_at_least_one d : 1 <= retry_seconds convert_overflow d.
Proof. unfold retry_seconds. lia. Qed.
End Quota.

Lemma fixed_quota_witness :
  let rs := [("a", 0); ("b", 0); ("a", 5 * second); ("a", hour); ("b", hour)] in
  (allow_all (fun _ => 0) (newRateLimiter (f64_of 0) 2) rs).1 = [true; true; true; false; true] ∧
  passed "a" rs (allow_all (fun _ => 0) (newRateLimiter (f64_of 0) 2) rs).1 <= 2.
Proof.
  cbv zeta. split; [vm_compute; reflexivity|]. apply fixed_quota; [lia|vm_compute; discriminate].
Defined.
