(* ===== verification/Http.v ===== *)
(** * [internal/httpapi]: the HTTP interface

    [server.go], [limits.go], [settlement.go]: rate limits, sessions and operator
    tokens in front of the services, one handler per route, and the table that
    turns an error into a status.  The router has picked the route: [Route] lists
    them with their path values and decoded bodies, [None] standing for a body
    that is no JSON of the expected shape or too large.  Response texts and the
    encoding of payloads are not modelled; a payload holds the values encoded. *)
From S2P Require Import Prelude GoText Prog Sha256 Json Money Domain Cluster Limits Tokens Settlement Keys Attest Probe World Store Auth Market Agp Ledger Trade TradeSettlement Safety Metrics Config RateLimit.

(** ** Errors as statuses *)

(** A row of [statusByError]. *)
Definition statusByError : list (sentinel * (Z * string)) := [
  (ErrNotFound, (404, "NOT_FOUND")); (ErrConflict, (409, "CONFLICT")); (ErrStale, (409, "CONFLICT"));
  (Domain.ErrInvalid, (400, "INVALID_REQUEST")); (ErrNotOwner, (403, "FORBIDDEN"));
  (ErrAgentSuspended, (403, "INVALID_REQUEST")); (ErrCurrencyNotAccepted, (400, "CURRENCY_NOT_ACCEPTED"));
  (ErrAmountTooPrecise, (400, "AMOUNT_TOO_PRECISE")); ("registry.ErrOfferClosed", (409, "INVALID_REQUEST"));
  (ErrNotParty, (403, "FORBIDDEN")); (ErrIllegalState, (409, "ILLEGAL_STATE")); (ErrOfferUnavailable, (409, "INVALID_REQUEST"));
  (ErrModeNotAccepted, (400, "INVALID_REQUEST")); (ErrAgentUnavailable, (409, "INVALID_REQUEST"));
  (ErrSettlementUnconfigured, (501, "ONCHAIN_UNAVAILABLE")); (ErrOnchainUnavailable, (503, "ONCHAIN_UNAVAILABLE"));
  (ErrMintUngoverned, (409, "MINT_UNGOVERNED")); (TradeSettlement.ErrClusterMismatch, (409, "CLUSTER_MISMATCH"));
  (ErrNotBuyer, (403, "FORBIDDEN")); (ErrNotOnchain, (409, "NOT_ONCHAIN")); (ErrSettlementLive, (409, "SETTLEMENT_IN_PROGRESS"));
  (ErrSettlementFailed, (409, "SETTLEMENT_FAILED")); (ErrSettlementPending, (202, "SETTLEMENT_PENDING"));
  (TradeSettlement.ErrInvalidSignature, (400, "INVALID_SIGNATURE")); (ErrMismatch, (409, "SETTLEMENT_MISMATCH"));
  (ErrMintUnverified, (409, "MINT_UNGOVERNED")); (ErrMintUnreachable, (503, "ONCHAIN_UNAVAILABLE"));
  (ErrSessionInvalid, (401, "UNAUTHORIZED")); (Auth.ErrInvalidSignature, (401, "UNAUTHORIZED"));
  (ErrSecretTooShort, (500, "INVALID_REQUEST")); (ErrRouteNotFound, (404, "INVALID_REQUEST"));
  (ErrPolicyViolation, (422, "INVALID_REQUEST")); (ErrTableStale, (409, "INVALID_REQUEST"));
  (ErrSpendCapExceeded, (409, "SPEND_CAP_EXCEEDED")); (ErrNotExpiredYet, (409, "TRADE_NOT_EXPIRED"));
  (ErrMintUnpriced, (409, "MINT_UNPRICED")); (ErrOfferAttestationRequired, (409, "OFFER_ATTESTATION_REQUIRED"));
  (ErrNoProbeTarget, (409, "NO_PROBE_TARGET")); (registry_ErrMintUnpriced, (409, "MINT_UNPRICED"));
  (ErrNoCardPublished, (409, "NO_CARD_PUBLISHED")); (ErrAgentHasLiveTrades, (409, "AGENT_HAS_LIVE_TRADES"));
  (ErrRetirementReasonRequired, (400, "REASON_REQUIRED")); (ErrAttestationRefused, (400, "ATTESTATION_REFUSED"));
  (ErrNotSettled, (409, "INVALID_REQUEST")); (ErrAlreadyIssued, (409, "ALREADY_ISSUED"))].

(** The first row whose error is in the chain. *)
Definition status_of (e : error) : option (Z * string) := snd <$> find (fun row => errorIs e row.1) statusByError.

(** ** Operator credentials *)
Record operatorToken := mkOperatorToken { ot_name : string; ot_sum : string }.

Definition newOperatorTokens (legacy : string) (named : list AdminOperator) : list operatorToken :=
  map (fun op => mkOperatorToken (if String.eqb (op_Name op) "" then "operator" else op_Name op) (sha256_hex (op_Token op)))
    (List.filter (fun op => negb (String.eqb (op_Token op) "")) named) ++
  (if String.eqb legacy "" then [] else [mkOperatorToken "operator" (sha256_hex legacy)]).

Definition adminTokenFrom (header : string) : res string :=
  if negb (has_prefix header bearer) then Err []
  else
    let token := TrimSpace (sdrop (slen bearer) header) in
    if String.eqb token "" then Err [] else Ok token.

(** The name of the last credential with the token's digest; empty when none has it. *)
Definition operator_for (ops : list operatorToken) (token : string) : string :=
  let sum := sha256_hex token in
  foldl (fun name op => if String.eqb sum (ot_sum op) then ot_name op else name) "" ops.

(** ** Bodies *)
Definition Body (A : Type) : Type := option A.
(** Both shapes a card may be sent in. *)
Inductive CardBody := BareCard (c : AgentCard) | WrappedCard (c : AgentCard) (sig : option Signature).
Record publishOfferRequest := mkPublishRequest {
  pq_Offer : NewOffer; pq_IdempotencyKey : string; pq_OfferID : string; pq_Attestation : option Signature }.
Record createTradeRequest := mkCreateRequest { cq_OfferID : string; cq_SettlementMode : SettlementMode; cq_IdempotencyKey : string }.
(** A body that may be absent: the reason is then empty. *)
Inductive OptionalBody := NoBody | SomeBody (b : Body string).
Record putLimitsRequest := mkPutLimits { pl_PerTradeUSD : option string; pl_PerDayUSD : option string }.
Record searchQuery := mkSearchQuery {
  sq_direction : string; sq_status : string; sq_capability : string; sq_q : string; sq_mint : string; sq_mode : string;
  sq_limit : string; sq_offset : string }.

Definition codeInternal : Z := -32603.
Definition codeInvalidParams : Z := -32602.
Definition codeMethodNotFound : Z := -32601.
Definition receiptsDefaultLimit : Z := 50.
Definition receiptsMaxLimit : Z := 200.
Definition SettlementTier : string := "beta".
Definition MethodRouteIntent : string := "agp/route_intent".
Definition MethodRoute : string := "agp/route".
Definition MethodRouteTask : string := "agp/route_task".

(** ** The server *)
Section Http.
Context `{IU : Unicode} `{IS : Solana} `{IJ : JWT} `{IB : Base58} `{IE : Ed25519} `{IN : NetURL} `{IT : SessionJWT}
  `{IF : Float64} `{IO : Folding}.

(** A JSON-RPC request: its raw identifier and parameters, which may be absent or
    no intent. *)
Inductive RpcParams := NoParams | BadParams | Params (i : Intent).
Record rpcRequest := mkRpcRequest { rpc_ID : string; rpc_Method : string; rpc_Params : RpcParams }.

Record Server := mkServer {
  hs_services : Deployment; hs_tokens : option Registry; hs_version : string; hs_publicBaseURL : string; hs_sandbox : bool;
  hs_cluster : Cluster; hs_genesis : string; hs_operators : list operatorToken; hs_ipHeader : string }.

Record LimitsPayload := mkLimitsPayload {
  lp_perTrade : Amount; lp_perDay : Amount; lp_raised : bool; lp_window : duration; lp_committed : string;
  lp_remaining : string; lp_maxPerTrade : option Amount; lp_maxPerDay : option Amount }.
Record TesseraPayload := mkTesseraPayload {
  tp_jws : string; tp_verificationKey : string; tp_verificationKeys : list string; tp_claims : option TesseraClaims }.
Record Attested := mkAttested { ad_attested : bool; ad_valid : bool; ad_keyId : string; ad_signature : option Signature }.
Record ReceiptsPayload := mkReceiptsPayload {
  rp_count : Z; rp_truncated : bool; rp_receipts : list PublishedReceipt; rp_keys : list string }.

(** What a response carries. *)
Inductive payload :=
  | PNone
  | PError (code : string)
  | PRpcError (id : string) (code : Z)
  | PRpcResult (id : string) (r : RouteResult)
  | PLiveTrades (agentID : string)
  | PGatewayCard (version url : string)
  | PHealth (version : string) (keys : list string) (cluster genesis tier : string) (sandbox : bool)
  | PAgents (l : list Agent) | PAgent (a : Agent)
  | PCardAttestation (agentID : string) (market agentSide : Attested) (recorded : bool)
  | POffers (l : list Offer) | POffer (o : Offer)
  | POfferAttestation (offerID seller : string) (signed valid : bool) (sig : option Signature)
  | PProbe (r : Report) (passed valid : bool)
  | PTrade (t : Trade) | PDelivered (t : Trade) (r : Receipt) (tessera : TesseraPayload) | PTessera (t : TesseraPayload)
  | PSettlement (q : SettlementRequest) (t : Trade) | PSettlementRequest (q : SettlementRequest) (live : bool)
  | PLimits (l : LimitsPayload)
  | PTokens (l : list Token) (cluster genesis tier : string) (sandbox : bool) (fee : option FeePolicy)
  | PLedger (entries : list LedgerEntry) (keys : list string) | PHead (head : option LedgerEntry) (length : Z)
  | PReceipts (r : ReceiptsPayload) | PMetrics (m : UsageMetrics)
  | PChallenge (c : Challenge) | PSession (s : Session)
  | PRetirement (r : Domain.Retirement) | PTable (t : Table).

Record Response := mkResponse { rs_status : Z; rs_payload : payload; rs_retryAfter : option Z }.
Definition respond (status : Z) (p : payload) : Response := mkResponse status p None.
Definition errorStatus (status : Z) (code : string) : Response := respond status (PError code).

(** A panic leaves no response: [net/http] closes the connection. *)
Definition aborted : Response := respond 0 PNone.

Definition writeError (e : error) : Response :=
  if errorIs e EPanic then aborted
  else
    let '(status, code) := default (500, "INTERNAL") (status_of e) in
    match CodeOf e with
    | Some c => respond status (PRpcError "null" c)
    | None => errorStatus status code
    end.

(** A handler's error is written out at the end; it may answer by itself before. *)
Definition handler : Type := io World Response.
Definition finish (h : handler) : prog World Response :=
  prog_bind (fun r => Ret (match r with Ok resp => resp | Err e => writeError e end)) h.

Definition invalid_body : Response := errorStatus 400 "INVALID_REQUEST".
Definition decode {A} (b : Body A) (k : A → handler) : handler := match b with Some a => k a | None => ok invalid_body end.
Definition decodeOptional (b : OptionalBody) (k : string → handler) : handler :=
  match b with NoBody => k "" | SomeBody b => decode b k end.
Definition statusFor (created : bool) : Z := if created then 201 else 200.

Section Handlers.
Context (s : Server).
#[local] Abbreviation sv := (dp_trade (hs_services s)).
#[local] Abbreviation rg := (dp_registry (hs_services s)).
#[local] Abbreviation au := (dp_auth (hs_services s)).
#[local] Abbreviation keys := (VerificationKeyIDs (sv_signer sv)).

(** *** Public routes *)
Definition handleAgentCard : handler := ok (respond 200 (PGatewayCard (hs_version s) (hs_publicBaseURL s))).

Definition handleHealth : handler :=
  ok (respond 200 (PHealth (hs_version s) keys (hs_cluster s) (hs_genesis s)
    (if String.eqb (hs_cluster s) "" then "" else SettlementTier) (hs_sandbox s))).

Definition handleListAgents (status : string) : handler := agents <~ Agents status;; ok (respond 200 (PAgents agents)).
Definition handleGetAgent (id : string) : handler := agent <~ market_Agent id;; ok (respond 200 (PAgent agent)).

Definition handleGetCardAttestation (id : string) : handler :=
  agent <~ market_Agent id;;
  found <~ CardAttestation (agent_ID agent);;
  let statement := attestCard (agent_Card agent) in
  let market := match found with
    | Some a => mkAttested true (is_ok (VerifyCardAttestedByAny statement (at_Market a) (marketKeys rg))) (MarketplaceKeyID rg) (Some (at_Market a))
    | None => mkAttested false false (MarketplaceKeyID rg) None
    end in
  let agentSide := match found with
    | Some a => match at_Agent a with
                | Some g => mkAttested true (is_ok (VerifyCard statement g)) (agent_ID agent) (Some g)
                | None => mkAttested false false (agent_ID agent) None
                end
    | None => mkAttested false false (agent_ID agent) None
    end in
  ok (respond 200 (PCardAttestation (agent_ID agent) market agentSide (bool_decide (is_Some found)))).

Definition handleAgentOffers (id : string) : handler :=
  offers <~ Search (mkOfferQuery id "" OfferOpen "" "" "" "" "" 0 0);; ok (respond 200 (POffers offers)).

Definition handleSearchOffers (q : searchQuery) : handler :=
  offers <~ Search (mkOfferQuery "" (sq_direction q) (sq_status q) (sq_capability q) (sq_q q) (sq_mint q) (sq_mode q) ""
    (Atoi_value (sq_limit q)) (Atoi_value (sq_offset q)));;
  ok (respond 200 (POffers offers)).

Definition handleGetOffer (id : string) : handler := offer <~ market_Offer id;; ok (respond 200 (POffer offer)).

Definition handleGetOfferAttestation (id : string) : handler :=
  offer <~ market_Offer id;;
  found <~ VerifyOfferAttestation rg offer;;
  let '(sig, verified) := match found with Some (g, v) => (Some g, v) | None => (None, false) end in
  let signed := match sig with Some g => negb (String.eqb (si_Value g) "") | None => false end in
  ok (respond 200 (POfferAttestation (offer_ID offer) (offer_AgentID offer) signed verified (if signed then sig else None))).

Definition probe_payload (report : Report) : payload := PProbe report (Passed report) (is_ok (VerifyProbe rg report)).

Definition handleGetCapabilities (agentID : string) : handler :=
  report <~ ProbeResult_ agentID;;
  match report with
  | None => _ <~ market_Agent agentID;; ok (errorStatus 404 "NOT_PROBED")
  | Some report => ok (respond 200 (probe_payload report))
  end.

Definition handleListTokens : handler :=
  match hs_tokens s with
  | None => ok (errorStatus 501 "NOT_CONFIGURED")
  | Some r =>
      ok (respond 200 (PTokens (List_ r) (reg_cluster r) (hs_genesis s)
        (if String.eqb (reg_cluster r) "" then "" else SettlementTier) (hs_sandbox s)
        (sd_Policy <$> Trade.Enabled sv)))
  end.

Definition handleLedger : handler := entries <~ Entries;; ok (respond 200 (PLedger entries keys)).
Definition handleLedgerHead : handler :=
  head <~ Head;;
  ok (respond 200 (PHead head (match head with Some e => le_Seq e | None => 0 end))).

Definition receipts_limit (raw : string) : Z :=
  let limit := Atoi_value raw in
  Z.min receiptsMaxLimit (if limit <=? 0 then receiptsDefaultLimit else limit).

Definition handleListReceipts (raw : string) : handler :=
  let limit := receipts_limit raw in
  receipts <~ RecentReceipts (sv_signer sv) (Z.to_nat (limit + 1));;
  let truncated := Z.of_nat (length receipts) >? limit in
  let page := if truncated then take (Z.to_nat limit) receipts else receipts in
  ok (respond 200 (PReceipts (mkReceiptsPayload (Z.of_nat (length page)) truncated page keys))).

Definition handleMetrics : handler := m <~ UsageMetrics_;; ok (respond 200 (PMetrics m)).

(** [nonce] is what the random source yields. *)
Definition handleChallenge (nonce : string) (body : Body string) : handler :=
  decode body (fun agentID => challenge <~ IssueChallenge au agentID nonce;; ok (respond 201 (PChallenge challenge))).
Definition handleVerify (body : Body (string * string)) : handler :=
  decode body (fun '(challengeID, signature) => session <~ Redeem au challengeID signature;; ok (respond 200 (PSession session))).

(** *** AGP *)
Definition internal_rpc (id : string) : Response := respond 500 (PRpcError id codeInternal).
Definition rawOrNull (id : string) : string := if String.eqb id "" then "null" else id.

Definition handleAGPTable : handler :=
  on_result (BuildTable (Announcements rg)) (fun r =>
    match r with Ok table => ok (respond 200 (PTable table)) | Err _ => ok (internal_rpc "null") end).

Definition rpc_code (e : error) : Z :=
  match CodeOf e with
  | Some c => c
  | None => if errorIs e ErrInvalidIntent then codeInvalidParams else codeInternal
  end.

Definition handleAGPRoute (body : Body rpcRequest) : handler :=
  decode body (fun req =>
    let id := rawOrNull (rpc_ID req) in
    let method := rpc_Method req in
    if negb (String.eqb method "") && negb (String.eqb method MethodRouteIntent) && negb (String.eqb method MethodRoute) &&
       negb (String.eqb method MethodRouteTask)
    then ok (respond 200 (PRpcError id codeMethodNotFound))
    else match rpc_Params req with
    | NoParams | BadParams => ok (respond 200 (PRpcError id codeInvalidParams))
    | Params intent =>
        on_result (BuildTable (Announcements rg)) (fun r =>
          match r with
          | Err _ => ok (internal_rpc id)
          | Ok table =>
              on_result (if String.eqb method MethodRouteTask then RouteTask table intent else lift (Route table intent)) (fun r =>
                match r with
                | Ok result => ok (respond 200 (PRpcResult id result))
                | Err e => ok (respond 200 (PRpcError id (rpc_code e)))
                end)
          end)
    end).

(** *** Routes of an agent's session; [agentID] is the agent that authenticated *)

(** A write that names an agent in the path must name the caller. *)
Definition requireOwnAgent (agentID named : string) (k : handler) : handler :=
  if negb (String.eqb named agentID) then ok (errorStatus 403 "FORBIDDEN") else k.

Definition decodePutCard (b : CardBody) : AgentCard * option Signature :=
  match b with BareCard c => (c, None) | WrappedCard c sig => (c, sig) end.

Definition handlePutCard (agentID named : string) (body : Body CardBody) : handler :=
  requireOwnAgent agentID named (decode body (fun b =>
    let '(card, sig) := decodePutCard b in
    '(agent, _) <~ Register rg agentID card sig;; ok (respond 200 (PAgent agent)))).

Definition handlePublishOffer (agentID named : string) (body : Body publishOfferRequest) : handler :=
  requireOwnAgent agentID named (decode body (fun req =>
    '(offer, created) <~ PublishOffer rg agentID (pq_Offer req) (pq_IdempotencyKey req) (pq_OfferID req) (pq_Attestation req);;
    ok (respond (statusFor created) (POffer offer)))).

Definition handleCloseOffer (agentID id : string) : handler := offer <~ CloseOffer agentID id;; ok (respond 200 (POffer offer)).

Definition handleCreateTrade (agentID : string) (body : Body createTradeRequest) : handler :=
  decode body (fun req =>
    '(created, isNew) <~ Trade.Create sv agentID (cq_OfferID req) (cq_SettlementMode req) (cq_IdempotencyKey req);;
    ok (respond (statusFor isNew) (PTrade created))).

Definition trade_answer (m : io World Trade) : handler := t <~ m;; ok (respond 200 (PTrade t)).
Definition handleGetTrade (agentID id : string) : handler := trade_answer (Trade.Get agentID id).
Definition handleNegotiate (agentID id : string) : handler := trade_answer (BeginNegotiation agentID id).
Definition handleAccept (agentID id : string) : handler := trade_answer (Accept agentID id).
Definition handleCancel (agentID id : string) (body : OptionalBody) : handler :=
  decodeOptional body (fun reason => trade_answer (Cancel sv agentID id reason)).
Definition handleDispute (agentID id : string) (body : OptionalBody) : handler :=
  decodeOptional body (fun reason => trade_answer (Dispute agentID id reason)).

Definition tesseraPayload (jws : string) : io World TesseraPayload :=
  at_ <~ now;;
  let '(claims, keyID) := VerifyAndKeyID (sv_signer sv) at_ jws in
  ok (mkTesseraPayload jws keyID keys claims).

Definition delivered_answer (m : io World (Trade * Receipt)) : handler :=
  '(t, receipt) <~ m;;
  tessera <~ tesseraPayload (rc_JWS receipt);;
  ok (respond 200 (PDelivered t receipt tessera)).

Definition handleRecord (agentID id : string) : handler := delivered_answer (Record_trade sv agentID id).
Definition handleConfirmSettlement (agentID id : string) (body : Body string) : handler :=
  decode body (fun signature => delivered_answer (ConfirmSettlement sv agentID id signature)).

Definition handleTessera (agentID id : string) : handler :=
  receipt <~ Tessera agentID id;;
  tessera <~ tesseraPayload (rc_JWS receipt);;
  ok (respond 200 (PTessera tessera)).

Definition handleBuildSettlement (agentID id : string) : handler :=
  request <~ BuildSettlement sv agentID id;;
  t <~ Trade.Get agentID id;;
  ok (respond 201 (PSettlement request t)).

Definition handleSettlementRequest (agentID id : string) : handler :=
  request <~ SettlementRequestFor sv agentID id;;
  at_ <~ now;;
  ok (respond 200 (PSettlementRequest request (SettlementRequest_Live request at_))).

(** *** Caps *)
Definition limitsPayload (effective : Limits) (ceilingPerTrade ceilingPerDay : Amount) (committedMicro : Z) (window : duration) : LimitsPayload :=
  let remaining := match CapMicro (lim_PerDay effective) with
    | Ok perDayMicro => if committedMicro <? perDayMicro then FormatUSD (perDayMicro - committedMicro) else "0"
    | Err _ => "0"
    end in
  let known a := if IsZero a then None else Some a in
  mkLimitsPayload (lim_PerTrade effective) (lim_PerDay effective) (lim_Raised effective) window (FormatUSD committedMicro) remaining
    (known ceilingPerTrade) (known ceilingPerDay).

Definition limits_unconfigured : Response := errorStatus 501 "LIMITS_UNCONFIGURED".

Definition handleGetLimits (agentID : string) : handler :=
  match sv_limits sv with
  | None => ok limits_unconfigured
  | Some policy =>
      effective <~ EffectiveLimits sv agentID;;
      committed <~ CommittedSpendUSD sv agentID;;
      ok (respond 200 (PLimits (limitsPayload effective (CeilingPerTrade policy) (CeilingPerDay policy) committed (Window policy))))
  end.

(** An absent figure leaves the cap as it is. *)
Definition put_cap (given : option string) (current : Amount) : res Amount :=
  match given with Some v => Money.Parse v | None => Ok current end.

Definition handlePutLimits (agentID : string) (body : Body putLimitsRequest) : handler :=
  match sv_limits sv with
  | None => ok limits_unconfigured
  | Some policy =>
      decode body (fun req =>
        effective <~ EffectiveLimits sv agentID;;
        match put_cap (pl_PerTradeUSD req) (lim_PerTrade effective), put_cap (pl_PerDayUSD req) (lim_PerDay effective) with
        | Ok perTrade, Ok perDay =>
            match Policy_Check policy perTrade perDay with
            | Err e => ok (if errorIs e ErrAboveCeiling then errorStatus 409 "CAP_ABOVE_CEILING" else invalid_body)
            | Ok _ =>
                raised <~ RaiseLimits sv agentID perTrade perDay;;
                committed <~ CommittedSpendUSD sv agentID;;
                ok (respond 200 (PLimits (limitsPayload raised (CeilingPerTrade policy) (CeilingPerDay policy) committed (Window policy))))
            end
        | _, _ => ok invalid_body
        end)
  end.

(** *** Operator routes; [actor] is the name of the credential *)
Definition handleRetireAgent (actor id : string) (body : Body string) : handler :=
  decode body (fun reason =>
    on_result (Retire id reason actor) (fun r =>
      match r with
      | Ok agent => ok (respond 200 (PAgent agent))
      | Err e => if errorIs e ErrAgentHasLiveTrades then ok (respond 409 (PLiveTrades id)) else fail e
      end)).
Definition handleRestoreAgent (actor id : string) : handler := agent <~ Restore id actor;; ok (respond 200 (PAgent agent)).
Definition handleGetRetirement (id : string) : handler :=
  found <~ Store.Retirement id;;
  match found with None => fail [ErrNotFound] | Some r => ok (respond 200 (PRetirement r)) end.
Definition handleProbeAgent (challenge : string) (reply : Reply) (id : string) : handler :=
  report <~ ProbeCapabilities rg challenge reply id;; ok (respond 200 (probe_payload report)).
Definition handleResolveTrade (actor id : string) (body : Body (Resolution * string)) : handler :=
  decode body (fun '(outcome, reason) =>
    if negb (Resolution_Valid outcome) then fail [Domain.ErrInvalid] else trade_answer (Resolve actor id outcome reason)).
Definition handleAdminTrade (id : string) : handler := trade_answer (AdminTrade id).
End Handlers.

(** ** Routing *)
Inductive PublicRoute :=
  | RAgentCard | RHealth | RListAgents (status : string) | RGetAgent (id : string) | RCardAttestation (id : string)
  | RAgentOffers (id : string) | RSearchOffers (q : searchQuery) | RGetOffer (id : string) | ROfferAttestation (id : string)
  | RCapabilities (id : string) | RListTokens | RLedger | RLedgerHead | RReceipts (limit : string) | RMetrics
  | RChallenge (nonce : string) (body : Body string) | RVerify (body : Body (string * string))
  | RAGPRoute (body : Body rpcRequest) | RAGPTable.
Inductive SessionRoute :=
  | RPutCard (id : string) (body : Body CardBody) | RPublishOffer (id : string) (body : Body publishOfferRequest)
  | RCloseOffer (id : string) | RCreateTrade (body : Body createTradeRequest) | RGetTrade (id : string) | RNegotiate (id : string)
  | RAccept (id : string) | RRecord (id : string) | RCancel (id : string) (body : OptionalBody) | RDispute (id : string) (body : OptionalBody)
  | RBuildSettlement (id : string) | RSettlementRequest (id : string) | RConfirm (id : string) (body : Body string)
  | RGetLimits | RPutLimits (body : Body putLimitsRequest) | RTessera (id : string).
Inductive AdminRoute :=
  | RRetire (id : string) (body : Body string) | RRestore (id : string) | RGetRetirement (id : string)
  | RProbe (challenge : string) (reply : Reply) (id : string) | RResolve (id : string) (body : Body (Resolution * string)) | RAdminTrade (id : string).
Inductive Route := Public (r : PublicRoute) | InSession (r : SessionRoute) | Admin (r : AdminRoute).

Definition public (s : Server) (r : PublicRoute) : handler :=
  match r with
  | RAgentCard => handleAgentCard s | RHealth => handleHealth s | RListAgents st => handleListAgents st | RGetAgent id => handleGetAgent id
  | RCardAttestation id => handleGetCardAttestation s id | RAgentOffers id => handleAgentOffers id | RSearchOffers q => handleSearchOffers q
  | RGetOffer id => handleGetOffer id | ROfferAttestation id => handleGetOfferAttestation s id | RCapabilities id => handleGetCapabilities s id
  | RListTokens => handleListTokens s | RLedger => handleLedger s | RLedgerHead => handleLedgerHead | RReceipts l => handleListReceipts s l
  | RMetrics => handleMetrics | RChallenge n b => handleChallenge s n b | RVerify b => handleVerify s b
  | RAGPRoute b => handleAGPRoute s b | RAGPTable => handleAGPTable s
  end.
Definition in_session (s : Server) (agentID : string) (r : SessionRoute) : handler :=
  match r with
  | RPutCard id b => handlePutCard s agentID id b | RPublishOffer id b => handlePublishOffer s agentID id b
  | RCloseOffer id => handleCloseOffer agentID id | RCreateTrade b => handleCreateTrade s agentID b | RGetTrade id => handleGetTrade agentID id
  | RNegotiate id => handleNegotiate agentID id | RAccept id => handleAccept agentID id | RRecord id => handleRecord s agentID id
  | RCancel id b => handleCancel s agentID id b | RDispute id b => handleDispute agentID id b
  | RBuildSettlement id => handleBuildSettlement s agentID id | RSettlementRequest id => handleSettlementRequest s agentID id
  | RConfirm id b => handleConfirmSettlement s agentID id b | RGetLimits => handleGetLimits s agentID
  | RPutLimits b => handlePutLimits s agentID b | RTessera id => handleTessera s agentID id
  end.
Definition admin (s : Server) (actor : string) (r : AdminRoute) : handler :=
  match r with
  | RRetire id b => handleRetireAgent actor id b | RRestore id => handleRestoreAgent actor id | RGetRetirement id => handleGetRetirement id
  | RProbe c rep id => handleProbeAgent s c rep id | RResolve id b => handleResolveTrade actor id b | RAdminTrade id => handleAdminTrade id
  end.

(** ** Middleware: the process's state is the world and its two limiters *)
Record Process := mkProcess { ps_world : World; ps_agents : option rateLimiter; ps_addresses : option rateLimiter }.

Fixpoint over {A} (p : prog World A) : prog Process A :=
  match p with
  | Ret a => Ret a
  | Atomic f fl k => Atomic (fun st => match f (ps_world st) with
      | Some (r, w) => Some (r, mkProcess w (ps_agents st) (ps_addresses st))
      | None => None
      end) fl (fun r => over (k r))
  end.

Context (convert_overflow : f64 → Z).

(** One step of a limiter, at the time it is asked; a layer switched off passes. *)
Definition ask (l : option rateLimiter) (key : string) (at_ : time) : (bool * duration) * option rateLimiter :=
  match l with
  | None => ((true, 0), None)
  | Some l => let '(answer, l') := allow convert_overflow l key at_ in (answer, Some l')
  end.
Definition ask_agents (key : string) : prog Process (bool * duration) :=
  Atomic (fun st => let '(answer, l) := ask (ps_agents st) key (w_now (ps_world st)) in
    Some (answer, mkProcess (ps_world st) l (ps_addresses st))) None Ret.
Definition ask_addresses (key : string) : prog Process (bool * duration) :=
  Atomic (fun st => let '(answer, l) := ask (ps_addresses st) key (w_now (ps_world st)) in
    Some (answer, mkProcess (ps_world st) (ps_agents st) l)) None Ret.

Definition writeRateLimited (retryAfter : duration) : Response :=
  mkResponse 429 (PError "RATE_LIMITED") (Some (retry_seconds convert_overflow retryAfter)).

Definition gate (limiter : prog Process (bool * duration)) (next : prog Process Response) : prog Process Response :=
  prog_bind (fun '(pass, retry) => if (pass : bool) then next else Ret (writeRateLimited retry)) limiter.

(** What a request carries besides its route. *)
Record Request := mkRequest { rq_Authorization : string; rq_IPHeader : string; rq_RemoteAddr : string; rq_Route : Route }.

Definition session_of (s : Server) (header : string) : io World string :=
  if String.eqb (TrimSpace header) "" then fail [ErrSessionInvalid] else Authenticate (dp_auth (hs_services s)) header.

Definition authed (s : Server) (header : string) (next : string → handler) : prog Process Response :=
  prog_bind (fun r => match r with
    | Err e => Ret (writeError e)
    | Ok agentID => gate (ask_agents agentID) (over (finish (next agentID)))
    end) (over (session_of s header)).

Definition unauthorized : Response := errorStatus 401 "UNAUTHORIZED".

Definition requireAdmin (s : Server) (header : string) (next : string → handler) : prog Process Response :=
  if Nat.eqb (length (hs_operators s)) 0 then Ret (errorStatus 404 "NOT_FOUND")
  else match adminTokenFrom header with
  | Err _ => Ret unauthorized
  | Ok token =>
      let name := operator_for (hs_operators s) token in
      if String.eqb name "" then Ret unauthorized else over (finish (next name))
  end.

(** Without credentials the operator routes are not registered. *)
Definition dispatch (s : Server) (rq : Request) : prog Process Response :=
  match rq_Route rq with
  | Public r => over (finish (public s r))
  | InSession r => authed s (rq_Authorization rq) (fun agentID => in_session s agentID r)
  | Admin r => if Nat.eqb (length (hs_operators s)) 0 then Ret (respond 404 PNone) else requireAdmin s (rq_Authorization rq) (fun actor => admin s actor r)
  end.

Definition ServeHTTP (s : Server) (rq : Request) : prog Process Response :=
  gate (ask_addresses (clientAddress (hs_ipHeader s) (rq_IPHeader rq) (rq_RemoteAddr rq))) (dispatch s rq).
End Http.
