(* ===== verification/Types.v ===== *)
(** * Every stored row is well typed

    The columns of the tables are texts and numbers; this file shows that in
    every reachable configuration each row reads back as a value its validation
    accepts, so that no read of the service fails for what it finds stored. *)
From S2P Require Import Prelude Prog Money Domain Cluster Limits Tokens Settlement Keys Attest Probe World Store Auth Market Ledger Trade TradeSettlement Safety Preserve Handlers Listings System.

Section Types.
Context `{IU : Unicode} `{IS : Solana} `{IJ : JWT} `{IB : Base58} `{IE : Ed25519} `{IN : NetURL} `{IT : SessionJWT}
  (sv : Deployment).

(** What validation accepts, field by field. *)
Definition trade_typed (t : Trade) : Prop :=
  IsZero (tr_Amount t) = false ∧ ValidateMint (tr_Mint t) = Ok tt ∧ SettlementMode_Valid (tr_Mode t) = true ∧
  tr_Buyer t ≠ tr_Seller t ∧ TrimSpace (tr_Description t) ≠ "".

Lemma offer_Validate_inv o : offer_Validate o = Ok tt →
  TrimSpace (offer_Description o) ≠ "" ∧ IsZero (offer_PriceAmount o) = false ∧
  ValidateMint (offer_PriceMint o) = Ok tt ∧ forallb SettlementMode_Valid (offer_SettlementModes o) = true.
Proof.
  unfold offer_Validate, offer_validate. destruct (String.eqb_spec (TrimSpace (offer_Description o)) ""); [done|].
  destruct (_ >? _); [done|]. do 2 (destruct (negb _); [done|]). destruct (IsZero _); [done|].
  destruct (ValidateMint _) as [[]|]; [|done]. destruct (Nat.eqb _ _); [done|].
  destruct (forallb _ _); [|done]. done.
Qed.

Lemma offer_row_typed w id r : wf sv w → offers (w_db w) !! id = Some r →
  ∃ o, scanOffer id r = Ok o ∧ offer_Validate o = Ok tt ∧ amount_String (offer_PriceAmount o) = o_price r.
Proof.
  intros Hw Hr. destruct (wf_rows _ _ Hw) as [H _]. destruct (H _ _ Hr) as (o & Ho & Hv). exists o. split_and!; [done|done|].
  unfold scanOffer in Ho. destruct (Money.Parse (o_price r)) as [a|] eqn:Ha; [|done]. cbn in Ho. injection Ho as <-.
  by apply Parse_iff in Ha as [_ ->].
Qed.

(** A trade inherits the types of the offer it was made from. *)
Lemma trade_row_typed w id r : wf sv w → trades (w_db w) !! id = Some r →
  ∃ t, scanTrade id r = Ok t ∧ trade_typed t ∧ amount_String (tr_Amount t) = t_amount r.
Proof.
  intros Hw Hr. destruct (wf_parties _ _ Hw _ _ Hr) as [Hne _].
  destruct (wf_terms _ _ Hw _ _ Hr) as (ro & Hro & E1 & E2 & E3 & E4 & _).
  destruct (offer_row_typed w _ _ Hw Hro) as (o & Ho & Hv & Hp).
  apply offer_Validate_inv in Hv as (V1 & V2 & V3 & V4).
  unfold scanOffer in Ho. destruct (Money.Parse (o_price ro)) as [a|] eqn:Ha; [|done]. cbn in Ho. injection Ho as <-.
  cbn [offer_Description offer_PriceAmount offer_PriceMint offer_SettlementModes] in *.
  unfold scanTrade. rewrite E2, Ha. eexists. split; [reflexivity|]. split; [|exact Hp].
  unfold trade_typed. cbn [tr_Amount tr_Mint tr_Mode tr_Buyer tr_Seller tr_Description]. rewrite E1, E3.
  split_and!; [exact V2|exact V3| |exact Hne|exact V1].
  rewrite forallb_forall in V4. by apply V4, list_elem_of_In.
Qed.

(** A decoding loop fails only on a row that does not decode. *)
Lemma scan_offers_total l : (∀ x, x ∈ l → ∃ o, scanOffer x.1 x.2 = Ok o ∧ offer_Validate o = Ok tt) →
  ∃ os, scan_offers l = Ok os ∧ Forall (fun o => offer_Validate o = Ok tt) os.
Proof.
  induction l as [|[id r] l IH]; intros H; [exists []; by split|].
  destruct (H (id, r) ltac:(left)) as (o & Ho & Hv). destruct IH as (os & Hos & Hall); [intros x Hx; apply H; by right|].
  exists (o :: os). cbn [scan_offers]. cbn [fst snd] in Ho. rewrite Ho. cbn. rewrite Hos. cbn. split; [done|]. by constructor.
Qed.

Lemma scan_trades_total l : (∀ x, x ∈ l → ∃ t, scanTrade x.1 x.2 = Ok t ∧ trade_typed t) →
  ∃ ts, foldr (fun '(id, r) (acc : res (list Trade)) => t ← scanTrade id r; out ← acc; Ok (t :: out)) (Ok []) l = Ok ts ∧
    Forall trade_typed ts.
Proof.
  induction l as [|[id r] l IH]; intros H; [exists []; by split|].
  destruct (H (id, r) ltac:(left)) as (t & Ht & Hv). destruct IH as (ts & Hts & Hall); [intros x Hx; apply H; by right|].
  exists (t :: ts). cbn [foldr]. cbn [fst snd] in Ht. rewrite Ht. cbn. rewrite Hts. cbn. split; [done|]. by constructor.
Qed.

Lemma run_query_ok {A} (f : DB → res A) w : run (query f) w = Some (f (w_db w), w).
Proof. done. Qed.

(** C33: the tables are well typed in every reachable configuration.  Each stored
  offer reads back as an offer that validation accepts, at the price as it is
  written; each agent's card is a valid card under its own key, with a known
  status; each trade has a positive amount of a well-formed mint in a known
  mode, between two different parties.  So a search, or a list of the trades in
  a state, never fails because of a row it meets, and answers valid values only. *)
Theorem rows_are_well_typed c :
  reachable sv c →
  let d := w_db c.1 in
  (∀ id r, offers d !! id = Some r →
     ∃ o, scanOffer id r = Ok o ∧ offer_Validate o = Ok tt ∧ amount_String (offer_PriceAmount o) = o_price r) ∧
  (∀ id r, agents d !! id = Some r → agent_typed id (agent_Card (scanAgent id r)) (agent_Status (scanAgent id r))) ∧
  (∀ id r, trades d !! id = Some r →
     ∃ t, scanTrade id r = Ok t ∧ trade_typed t ∧ amount_String (tr_Amount t) = t_amount r) ∧
  (∀ q, ∃ os, run (SearchOffers q) c.1 = Some (Ok os, c.1) ∧ Forall (fun o => offer_Validate o = Ok tt) os) ∧
  (∀ st, ∃ ts, run (TradesInState st) c.1 = Some (Ok ts, c.1) ∧ Forall trade_typed ts).
Proof.
  intros Hc. pose proof (reachable_wf sv c Hc) as Hw. cbv zeta. split_and!.
  - intros id r Hr. exact (offer_row_typed c.1 id r Hw Hr).
  - intros id r Hr. destruct (wf_rows _ _ Hw) as [_ H]. exact (H _ _ Hr).
  - intros id r Hr. exact (trade_row_typed c.1 id r Hw Hr).
  - intros q. unfold SearchOffers. rewrite run_query_ok.
    match goal with |- context [scan_offers ?l] => destruct (scan_offers_total l) as (os & -> & Hos) end; [|by exists os].
    intros [id r] Hx. eapply elem_of_sublist in Hx; [|apply sublist_take]. eapply elem_of_sublist in Hx; [|apply sublist_drop].
    rewrite stable_sort_perm in Hx. apply list_elem_of_In, filter_In in Hx as [Hx _].
    apply list_elem_of_In, elem_of_map_to_list in Hx. destruct (offer_row_typed c.1 id r Hw Hx) as (o & ? & ? & _). by exists o.
  - intros st. unfold TradesInState. rewrite run_query_ok.
    match goal with |- context [foldr _ _ ?l] => destruct (scan_trades_total l) as (ts & -> & Hts) end; [|by exists ts].
    intros [id r] Hx. rewrite stable_sort_perm in Hx. apply list_elem_of_In, filter_In in Hx as [Hx _].
    apply list_elem_of_In, elem_of_map_to_list in Hx. destruct (trade_row_typed c.1 id r Hw Hx) as (t & ? & ? & _). by exists t.
Qed.
End Types.

(** ** A concrete run *)
#[local] Existing Instances demoUnicode demoSolana demoJWT demoBase58 demoEd25519 demoNetURL demoSessionJWT.

Lemma rows_are_well_typed_witness :
  ∃ c r t, demo_reachable c ∧ trades (w_db c.1) !! "uuid-0" = Some r ∧ t_state r = TradeSettled ∧
    scanTrade "uuid-0" r = Ok t ∧ trade_typed t.
Proof.
  destruct (demo_run (demoAgree ++ demoPay) [] (fun w _ => in_state w "uuid-0" TradeSettled))
    as (c & c' & Hc & _ & HP); [allowed|allowed|vm_compute; reflexivity|].
  apply in_state_inv in HP as (r & Hr & Hst).
  destruct (rows_are_well_typed demoDeployment c Hc) as (_ & _ & Ht & _).
  destruct (Ht _ _ Hr) as (t & Hscan & Hty & _). exists c, r, t. split_and!; [exact Hc|exact Hr|exact Hst|exact Hscan|exact Hty].
Defined.
