(* ===== verification/Promises.v ===== *)
(** * What the marketplace shows and what it settles

    Consequences of [System] for everything reachable: the signatures it
    publishes verify against the listings it publishes, listings never change
    under a buyer, a trade has the terms of the offer it was made from, and so a
    settled payment is the one the seller signed for.  Last, a retirement that a
    concurrent registration undoes. *)
From S2P Require Import Prelude Prog Money Domain Cluster Limits Tokens Settlement Keys Attest Probe World Store Auth Market Ledger Trade TradeSettlement Safety Preserve Handlers Listings System Json.

Section Promises.
Context `{IU : Unicode} `{IS : Solana} `{IJ : JWT} `{IB : Base58} `{IE : Ed25519} `{IN : NetURL} `{IT : SessionJWT}
  (sv : Deployment).

#[local] Abbreviation rg := (dp_registry sv).

(** C14: every signature the marketplace stores verifies.  Whatever is served, in
  whatever order and with whatever failures, a stored offer signature verifies
  against the offer's present terms under its seller's key; a card's
  marketplace signature verifies against the present card under the current
  marketplace keys, and its agent signature, when there is one, under the
  agent's own key. *)
Theorem stored_signatures_verify `{!Base58Laws} `{!Ed25519Laws} c k :
  rg_market rg = Some k → length k = PrivateKeySize → Forall (fun b => 0 ≤ b < 256) k →
  reachable sv c →
  (∀ id a, offer_attestations (w_db c.1) !! id = Some a → ∃ r o,
     offers (w_db c.1) !! id = Some r ∧ scanOffer id r = Ok o ∧ offer_AgentID o = oa_agent a ∧
     VerifyOffer (attestOffer rg o) (oa_signature a) = Ok tt) ∧
  (∀ id a, agent_attestations (w_db c.1) !! id = Some a → ∃ r,
     agents (w_db c.1) !! id = Some r ∧
     VerifyCardAttestedByAny (attestCard (a_card r)) (at_market a) (marketKeys rg) = Ok tt ∧
     (∀ g, at_card a = Some g → si_KeyID g = id ∧ VerifyCard (attestCard (a_card r)) g = Ok tt)).
Proof.
  intros Hk Hl Hb Hc. pose proof (reachable_wf sv c Hc) as Hw. split.
  - intros id a Ha. destruct (wf_offers_signed sv _ Hw id a Ha) as (r & amount & Hr & Hp & Hs & Hv).
    destruct (scanOffer id r) as [o|] eqn:Ho; [|unfold scanOffer in Ho; by rewrite Hp in Ho].
    destruct (attestOffer_row rg id r o Ho) as (amount' & Hp' & E & Hag). rewrite Hp in Hp'. injection Hp' as <-.
    exists r, o. split_and!; [done|done|congruence|by rewrite E].
  - intros id a Ha. destruct (wf_cards_signed sv _ Hw id a Ha) as (r & Hr & Hid & (k' & t & Hk' & Hm) & Hg).
    rewrite Hk in Hk'. injection Hk' as <-. exists r. split_and!; [done| |].
    + destruct (Sign_verifies k _ t _ Hl Hb Hm) as [<- Hv]. unfold VerifyCardAttestedByAny, VerifyAny, marketKeys.
      rewrite Hk. cbn [find]. pose proof Hv as (_ & Hkey & _)%Verify_accepts. by rewrite Hkey, String.eqb_refl.
    + intros g Hag. specialize (Hg g Hag). split; [|done].
      pose proof Hg as (_ & Hkey & _)%Verify_accepts. rewrite Hkey. exact Hid.
Qed.

(** C16: a listing is final.  Once published, an offer stays, its seller, direction,
  description, capabilities, price, mint, modes, key and times never change,
  its signature stays with it, and once closed it is never open again. *)
Theorem listings_are_final c c' id r :
  reachable sv c → rtc (sys_step sv) c c' → offers (w_db c.1) !! id = Some r →
  (∃ r', offers (w_db c'.1) !! id = Some r' ∧ same_offer_row r r' ∧
     (o_status r = OfferClosed → o_status r' = OfferClosed)) ∧
  (∀ a, offer_attestations (w_db c.1) !! id = Some a → offer_attestations (w_db c'.1) !! id = Some a).
Proof.
  intros Hc Hs Hr. destruct (reachable_evo sv c c' Hc Hs) as [[He _] _]. split.
  - destruct (evo_offers _ _ He id r Hr) as (r' & Hr' & Hsame). exists r'. split_and!; [done|done|].
    destruct Hsame as (_ & _ & _ & _ & _ & _ & _ & _ & _ & _ & [E|E]); congruence.
  - intros a Ha. eapply lookup_weaken; [exact Ha|apply He].
Qed.

(** C15: a settled trade was paid exactly what the seller signed.  The trade of a
  reachable configuration has the description, price, mint, one of the modes
  and the publisher of a stored offer; when it is settled, a landed transaction
  passed the verifier for terms that carry that price, to the last base unit;
  and when the seller signed the offer, that signature names this very amount,
  mint and seller. *)
Theorem settled_at_the_signed_price c id r :
  reachable sv c → trades (w_db c.1) !! id = Some r →
  ∃ o, offers (w_db c.1) !! t_offer r = Some o ∧ honours r o ∧
  (t_state r = TradeSettled → proven sv id r (ch_landed (w_chain c.1)) ∧
   ∀ a, offer_attestations (w_db c.1) !! t_offer r = Some a → ∃ statement,
     VerifyOffer statement (oa_signature a) = Ok tt ∧ ao_ID statement = t_offer r ∧ ao_Seller statement = o_agent o ∧
     ao_Description statement = t_description r ∧ ao_Mint statement = t_mint r ∧ ao_UnitAmount statement = t_amount r).
Proof.
  intros Hc Hr. pose proof (reachable_wf sv c Hc) as Hw. destruct (wf_terms sv _ Hw id r Hr) as (o & Ho & Hh).
  exists o. split_and!; [done|done|]. intros Hs. split; [by eapply wf_settled|]. intros a Ha.
  destruct (wf_offers_signed sv _ Hw _ a Ha) as (o' & amount & Ho' & Hp & _ & Hv). simplify_eq.
  eexists. split; [exact Hv|]. destruct Hh as (E1 & E2 & E3 & _). unfold attestOffer. cbn [row_offer offer_PriceMint].
  case_match. cbn. pose proof Hp as [_ ->]%Parse_iff. cbn. by rewrite E1, E2, E3.
Qed.
(** ** Probe results *)

(** What marshalling to JSON leaves as it is: valid UTF-8. *)
Definition clean_text (x : Result) : Prop := stored_result x = x.

(** A probe that succeeded: what was probed, and what was stored. *)
Lemma run_ProbeCapabilities challenge reply agent w report w' :
  run (ProbeCapabilities rg challenge reply agent) w = Some (Ok report, w') →
  ∃ k sig, rg_market rg = Some k ∧ SignProbe k (Statement report) (w_now w) = Ok sig ∧
    rp_AgentID report = agent ∧ rp_CheckedAt report = w_now w ∧ rp_Signature report = Some sig ∧
    (∀ x, x ∈ rp_Results report → recognised (re_Status x) = true) ∧
    probes (w_db w') !! agent = Some (mkProbeRow (rp_Target report) (map stored_result (rp_Results report))
      (Passed report) sig (nanos (w_now w)) (nanos (w_now w))).
Proof.
  unfold ProbeCapabilities. destruct (rg_prober rg) as [limits|]; [|discriminate].
  rewrite run_io_bind. unfold GetAgent, query. cbn [run]. destruct (agents (w_db w) !! agent) as [row|]; [|discriminate].
  rewrite run_io_bind. unfold refuse at 1. cbn [run]. destruct (guard_err _ _); [|discriminate]. cbv zeta.
  rewrite run_io_bind. unfold refuse at 1. cbn [run]. destruct (guard_err _ _); [|discriminate].
  rewrite run_io_bind. cbn [now run]. rewrite run_io_bind. cbn [lift run].
  destruct (Run _ _ _ _ _ _ _) as [r|] eqn:Hr; [|discriminate].
  rewrite run_io_bind. cbn [now run]. rewrite run_io_bind. cbn [lift run].
  destruct (with_market rg _) as [sig|] eqn:Hs; [|discriminate]. apply with_market_ok in Hs as (k & Hk & Hs).
  rewrite run_io_bind. cbn [now run]. rewrite run_io_bind. unfold SaveProbe. rewrite run_io_bind. cbn [lift run].
  destruct (marshal_signature sig); [|discriminate]. unfold write. cbn [run].
  destruct (bool_decide _); [discriminate|]. unfold ok. cbn [run]. intros [= <- <-].
  pose proof (Run_report limits _ _ _ _ _ _ r Hr) as (Ha & _ & Hc & Hrec).
  exists k, sig. cbn [rp_AgentID rp_CheckedAt rp_Signature rp_Results rp_Target]. db_simpl. rewrite Ha, Hc, lookup_insert_eq.
  split_and!; try done. rewrite <-Hs. unfold Statement. cbn. by rewrite Ha, Hc.
Qed.

(** A recorded probe can be checked.  When probing an agent succeeds and the
  texts it reported are valid UTF-8, reading the probe back gives that report
  with its verdict, and its signature verifies under the marketplace's keys. *)
Theorem recorded_probe_verifies `{!Base58Laws} `{!Ed25519Laws} challenge reply agent w report w' :
  (∀ k, rg_market rg = Some k → length k = PrivateKeySize ∧ Forall (fun b => 0 ≤ b < 256) k) →
  nanos (w_now w) = w_now w →
  run (ProbeCapabilities rg challenge reply agent) w = Some (Ok report, w') →
  (∀ x, x ∈ rp_Results report → clean_text x) →
  run (Store.Probe agent) w' = Some (Ok (Some report), w') ∧ VerifyProbe rg report = Ok tt.
Proof.
  intros Hkey Hnow Hrun Htext. apply run_ProbeCapabilities in Hrun as (k & sig & Hk & Hs & Ha & Hc & Hsig & Hrec & Hp).
  assert (map stored_result (rp_Results report) = rp_Results report) as Hm.
  { clear -Htext. induction (rp_Results report) as [|x l IH]; [done|]. cbn [map].
    rewrite (Htext x) by set_solver. f_equal. apply IH. intros y Hy. apply Htext. set_solver. }
  destruct (Hkey k Hk) as [Hl Hb]. split.
  - unfold Store.Probe, query. cbn [run]. rewrite Hp. cbn [v_target v_results v_checked v_signature v_passed]. rewrite Hm.
    unfold fromNanos. rewrite Hnow. assert (Passed (mkReport agent (rp_Target report) (rp_Results report) (w_now w) (Some sig)) = Passed report) as ->
      by done. rewrite eqb_reflx. cbn [negb]. do 3 f_equal. destruct report. cbn in *. by subst.
  - unfold VerifyProbe. rewrite Hsig. destruct (Sign_verifies k _ _ sig Hl Hb Hs) as [<- Hv].
    unfold VerifyProbeAttestedByAny, VerifyAny, marketKeys. rewrite Hk. cbn [find].
    pose proof Hv as (_ & Hid & _)%Verify_accepts. by rewrite Hid, String.eqb_refl.
Qed.
End Promises.

(** ** A retirement undone *)
#[local] Existing Instances demoUnicode demoSolana demoJWT demoBase58 demoEd25519 demoNetURL demoSessionJWT.

Definition retire_seller : call := CallRetire demoSeller "fraud" "operator".

(** Withdrawn by the operator and never restored, yet open for business. *)
Definition retired_but_active (w : World) : bool :=
  match agents (w_db w) !! demoSeller, retirements (w_db w) !! demoSeller with
  | Some a, Some r => String.eqb (a_status a) AgentActive && bool_decide (r_restored r = None)
  | _, _ => false
  end.
Definition retired_but_listed (w : World) : bool :=
  match agents (w_db w) !! demoSeller, offers (w_db w) !! "offer-2" with
  | Some a, Some o => String.eqb (a_status a) AgentRetired && String.eqb (o_status o) OfferOpen
  | _, _ => false
  end.

(** A retirement can be undone without a restore.  In a run of the service an
  operator retires an agent between the read and the write of that agent's own
  registration: the registration writes the status it read back, and the agent
  is active although the record says retired and not restored.  In another the
  retirement falls between the check and the insert of a publication, and the
  retired agent has an open offer. *)
Theorem retirement_undone :
  (∃ c a r, demo_reachable c ∧ agents (w_db c.1) !! demoSeller = Some a ∧ a_status a = AgentActive ∧
     retirements (w_db c.1) !! demoSeller = Some r ∧ r_restored r = None) ∧
  (∃ c a o, demo_reachable c ∧ agents (w_db c.1) !! demoSeller = Some a ∧ a_status a = AgentRetired ∧
     offers (w_db c.1) !! "offer-2" = Some o ∧ o_agent o = demoSeller ∧ o_status o = OfferOpen).
Proof.
  split.
  - destruct (demo_run (demoListed ++ [Meanwhile (CallRegister demoSeller (demoCard "again") None) 2 retire_seller]) []
      (fun w _ => retired_but_active w)) as (c & _ & Hc & _ & HP); [allowed|allowed|vm_compute; reflexivity|].
    unfold retired_but_active in HP. destruct (agents _ !! _) as [a|] eqn:Ha; [|done].
    destruct (retirements _ !! _) as [r|] eqn:Hr; [|done]. apply andb_true_iff in HP as [H1 H2].
    apply String.eqb_eq in H1. apply bool_decide_eq_true in H2. by exists c, a, r.
  - destruct (demo_run (demoListed ++ [Meanwhile (CallPublishOffer demoSeller demoNew "" "offer-2" None) 3 retire_seller]) []
      (fun w _ => retired_but_listed w && match offers (w_db w) !! "offer-2" with Some o => String.eqb (o_agent o) demoSeller | None => false end))
      as (c & _ & Hc & _ & HP); [allowed|allowed|vm_compute; reflexivity|].
    apply andb_true_iff in HP as [HP Hseller]. unfold retired_but_listed in HP.
    destruct (agents _ !! _) as [a|] eqn:Ha; [|done].
    destruct (offers _ !! _) as [o|] eqn:Ho; [|done]. apply andb_true_iff in HP as [H1 H2].
    apply String.eqb_eq in H1, H2, Hseller. by exists c, a, o.
Qed.

(** ** Witnesses *)
Lemma demo_market_key : Forall (fun b => 0 ≤ b < 256) (demoKey 77).
Proof. vm_compute. repeat constructor; discriminate. Qed.

Lemma stored_signatures_verify_witness :
  ∃ c r o a, demo_reachable c ∧ offers (w_db c.1) !! "offer-1" = Some r ∧ scanOffer "offer-1" r = Ok o ∧
    offer_attestations (w_db c.1) !! "offer-1" = Some a ∧
    VerifyOffer (attestOffer demoRegistrar o) (oa_signature a) = Ok tt.
Proof.
  destruct (demo_run demoListed [] (fun w _ => bool_decide (is_Some (offer_attestations (w_db w) !! "offer-1"))))
    as (c & _ & Hc & _ & HP); [allowed|allowed|vm_compute; reflexivity|].
  apply bool_decide_eq_true in HP as [a Ha].
  destruct (stored_signatures_verify demoDeployment (H := demoBase58_laws) (H0 := demoEd25519_laws) c (demoKey 77) eq_refl eq_refl
    demo_market_key Hc) as [Ho _].
  destruct (Ho "offer-1" a Ha) as (r & o & Hr & Hscan & _ & Hv).
  exists c, r, o, a. split_and!; [exact Hc|exact Hr|exact Hscan|exact Ha|exact Hv].
Defined.

Lemma listings_are_final_witness :
  ∃ c c' r r', demo_reachable c ∧ rtc demo_step c c' ∧ offers (w_db c.1) !! "offer-1" = Some r ∧
    offers (w_db c'.1) !! "offer-1" = Some r' ∧ o_status r' = OfferClosed ∧ o_price r = o_price r'.
Proof.
  destruct (demo_run demoListed [Call (CallCloseOffer demoSeller "offer-1")]
    (fun w w' => bool_decide (is_Some (offers (w_db w) !! "offer-1")) &&
       match offers (w_db w') !! "offer-1" with Some o => String.eqb (o_status o) OfferClosed | None => false end))
    as (c & c' & Hc & Hs & HP); [allowed|allowed|vm_compute; reflexivity|].
  apply andb_true_iff in HP as [HP HP']. apply bool_decide_eq_true in HP as [r Hr].
  destruct (listings_are_final demoDeployment c c' "offer-1" r Hc Hs Hr) as [(r' & Hr' & Hsame & _) _].
  rewrite Hr' in HP'. apply String.eqb_eq in HP'.
  exists c, c', r, r'. split_and!; [exact Hc|exact Hs|exact Hr|exact Hr'|exact HP'|apply Hsame].
Defined.

Lemma settled_at_the_signed_price_witness :
  ∃ c r a statement, demo_reachable c ∧ trades (w_db c.1) !! "uuid-0" = Some r ∧ t_state r = TradeSettled ∧
    offer_attestations (w_db c.1) !! t_offer r = Some a ∧ VerifyOffer statement (oa_signature a) = Ok tt ∧
    ao_UnitAmount statement = t_amount r.
Proof.
  destruct (demo_run (demoAgree ++ demoPay) [] (fun w _ => in_state w "uuid-0" TradeSettled &&
    match trades (w_db w) !! "uuid-0" with Some r => bool_decide (is_Some (offer_attestations (w_db w) !! t_offer r)) | None => false end))
    as (c & c' & Hc & _ & HP); [allowed|allowed|vm_compute; reflexivity|].
  apply andb_true_iff in HP as [HP HP']. apply in_state_inv in HP as (r & Hr & Hst). rewrite Hr in HP'.
  apply bool_decide_eq_true in HP' as [a Ha].
  destruct (settled_at_the_signed_price demoDeployment c "uuid-0" r Hc Hr) as (o & _ & _ & Hset).
  destruct (Hset Hst) as [_ Hsig]. destruct (Hsig a Ha) as (st & Hv & _ & _ & _ & _ & Hu).
  exists c, r, a, st. split_and!; [exact Hc|exact Hr|exact Hst|exact Ha|exact Hv|exact Hu].
Defined.

(** ** A probe that cannot be checked *)

(** Two hundred letters but the last, and a character of two bytes. *)
Definition long_detail : string := srepeat "a" 199 +:+ String (ascii_of_N 0xC3) (String (ascii_of_N 0xA9) "").
Definition reply_with (detail : string) : Reply :=
  Body 300 (Some (mkResponse "nonce" demoSeller [mkResult "summarize" "pass" detail])).
Definition probe_with (detail : string) : event := Call (CallProbe "nonce" (reply_with detail) demoSeller).

Definition recorded (w : World) : option Report :=
  match run (Store.Probe demoSeller) w with Some (Ok o, _) => o | _ => None end.

Lemma recorded_Some w r : recorded w = Some r → run (Store.Probe demoSeller) w = Some (Ok (Some r), w).
Proof.
  unfold recorded, Store.Probe, query. cbn [run]. destruct (match probes _ !! _ with Some _ => _ | None => _ end) as [[x|]|];
    try done. by intros [= ->].
Qed.

(** A marketplace's own probe record can fail its own check.  A detail longer
  than 200 bytes is cut at byte 200, inside a character if one is there; the
  cut report is signed as it is but stored as JSON, which replaces the broken
  character.  In a run of the service an agent that passed its probe is left
  with a record whose signature does not verify under the marketplace's key. *)
Theorem truncated_probe_unverifiable : ∃ c report,
  demo_reachable c ∧ run (Store.Probe demoSeller) c.1 = Some (Ok (Some report), c.1) ∧
  Passed report = true ∧ VerifyProbe demoRegistrar report = Err [attest_ErrInvalid].
Proof.
  destruct (demo_run (demoListed ++ [probe_with long_detail]) [] (fun w _ =>
      match recorded w with
      | Some r => Passed r && bool_decide (VerifyProbe demoRegistrar r = Err [attest_ErrInvalid])
      | None => false
      end)) as (c & _ & Hc & _ & HP); [allowed|allowed|vm_compute; reflexivity|].
  destruct (recorded c.1) as [r|] eqn:Hr; [|discriminate]. apply andb_true_iff in HP as [Hpass Hv].
  apply bool_decide_eq_true in Hv. exists c, r. split_and!; [exact Hc|by apply recorded_Some|exact Hpass|exact Hv].
Qed.

(** The world a probe with a short detail is run in, the report and the world after. *)
Definition demoListedWorld : World := default demoStart (play crash demoListed demoStart).
Definition demoProbe : io World Report := ProbeCapabilities demoRegistrar "nonce" (reply_with "fine") demoSeller.
Definition answer (o : option (res Report * World)) : Report :=
  match o with Some (Ok r, _) => r | _ => mkReport "" "" [] 0 None end.
Definition demoProbed : Report := answer (run demoProbe demoListedWorld).

Lemma recorded_probe_verifies_witness :
  ∃ w', run demoProbe demoListedWorld = Some (Ok demoProbed, w') ∧
    run (Store.Probe demoSeller) w' = Some (Ok (Some demoProbed), w') ∧ VerifyProbe demoRegistrar demoProbed = Ok tt.
Proof.
  assert (match run demoProbe demoListedWorld with Some (Ok _, _) => true | _ => false end = true) as Hok
    by (vm_compute; reflexivity).
  assert (map stored_result (rp_Results demoProbed) = rp_Results demoProbed) as Hclean by (vm_compute; reflexivity).
  assert (length (rp_Results demoProbed) = 1%nat) as Hlen by (vm_compute; reflexivity).
  unfold demoProbed in *. destruct (run demoProbe demoListedWorld) as [[[r|] w']|] eqn:Hr; try discriminate Hok.
  unfold answer in *.
  exists w'. split; [reflexivity|].
  apply (recorded_probe_verifies demoDeployment (H := demoBase58_laws) (H0 := demoEd25519_laws) "nonce" (reply_with "fine")
    demoSeller demoListedWorld r w').
  - intros k [= <-]. split; [reflexivity|exact demo_market_key].
  - vm_compute. reflexivity.
  - exact Hr.
  - destruct (rp_Results r) as [|x [|y l]]; [discriminate Hlen| |discriminate Hlen].
    intros y Hy. apply list_elem_of_singleton in Hy as ->. injection Hclean as Hx. exact Hx.
Defined.
