(* ===== verification/Refine.v ===== *)
(** * What the marketplace promises, and that the service keeps it

    The specification is an exchange of deals: a finite map from trade
    identifiers to deals, each with the promise the parties made, its state, who
    has accepted, and whether it is in the ledger and has a tessera, next to what
    has landed on chains.  It has no requests, no clock, no database and no
    failures: a deal takes one of seven kinds of steps ([deal_step]), one deal at
    a time ([exchange_step]).  [service_refines_exchange] shows that whatever the
    service does, in any interleaving with any failures and crashes, is a run of
    the exchange under the abstraction [exchange_of]; [exchange_ok_reachable]
    gives the exchange's own invariant by rule induction. *)
From S2P Require Import Prelude Prog Money Domain Cluster Limits Tokens Settlement Keys Attest Probe World Store Auth Market Ledger Trade TradeSettlement Safety Preserve Handlers Listings System.

(** What the parties agree on; nothing in it ever changes. *)
Record Promise := mkPromise {
  pr_offer : string; pr_buyer : string; pr_seller : string; pr_description : string;
  pr_amount : string; pr_mint : string; pr_mode : SettlementMode }.

Record Deal := mkDeal {
  dl_promise : Promise; dl_state : TradeState;
  dl_buyer_in : bool; dl_seller_in : bool; dl_booked : bool; dl_tessera : bool }.

Record Exchange := mkExchange {
  ex_deals : gmap string Deal; ex_landed : gmap (string * string) Fetched }.

Definition empty_exchange (landed : gmap (string * string) Fetched) : Exchange := mkExchange ∅ landed.

Section Exchange.
Context `{IU : Unicode} `{IS : Solana} `{IJ : JWT} `{IB : Base58} `{IE : Ed25519} `{IN : NetURL} `{IT : SessionJWT}
  (sv : Deployment).

(** A landed transaction pays the deal's promise to the last base unit. *)
Definition paid (id : string) (p : Promise) (landed : gmap (string * string) Fetched) : Prop :=
  proven sv id (mkTradeRow (pr_offer p) (pr_buyer p) (pr_seller p) (pr_description p) (pr_amount p) (pr_mint p)
    (pr_mode p) TradeSettlementPending None 0 0) landed.

(** The states a deal may enter: an agreed one only when both parties are in,
    [settled] only when paid. *)
Definition may_be (id : string) (landed : gmap (string * string) Fetched) (d : Deal) (s : TradeState) : Prop :=
  (agreed s = true → dl_buyer_in d = true ∧ dl_seller_in d = true) ∧
  (s = TradeSettled → paid id (dl_promise d) landed).

Inductive deal_step (landed : gmap (string * string) Fetched) (id : string) : option Deal → Deal → Prop :=
  | propose p : pr_buyer p ≠ pr_seller p →
      deal_step landed id None (mkDeal p TradeProposed false false false false)
  | buyer_accepts p s i k t : deal_step landed id (Some (mkDeal p s false i k t)) (mkDeal p s true i k t)
  | seller_accepts p s i k t : deal_step landed id (Some (mkDeal p s i false k t)) (mkDeal p s i true k t)
  | moves p s s' i j k t : can_step s s' → may_be id landed (mkDeal p s i j k t) s' →
      deal_step landed id (Some (mkDeal p s i j k t)) (mkDeal p s' i j k t)
  | books p s i j t : completed s →
      deal_step landed id (Some (mkDeal p s i j false t)) (mkDeal p s i j true t)
  | attests p s i j :
      deal_step landed id (Some (mkDeal p s i j true false)) (mkDeal p s i j true true).

Inductive exchange_step : Exchange → Exchange → Prop :=
  | deal_moves x id d : deal_step (ex_landed x) id (ex_deals x !! id) d →
      exchange_step x (mkExchange (<[id := d]> (ex_deals x)) (ex_landed x))
  | chain_grows x landed : ex_landed x ⊆ landed →
      exchange_step x (mkExchange (ex_deals x) landed).

(** ** The exchange's invariant, by rule induction *)
Record deal_ok (landed : gmap (string * string) Fetched) (id : string) (d : Deal) : Prop := mkDealOk {
  dok_two : pr_buyer (dl_promise d) ≠ pr_seller (dl_promise d);
  dok_may : may_be id landed d (dl_state d);
  dok_booked : dl_booked d = true → completed (dl_state d);
  dok_tessera : dl_tessera d = true → dl_booked d = true }.

Definition exchange_ok (x : Exchange) : Prop := map_Forall (deal_ok (ex_landed x)) (ex_deals x).

Lemma completed_stays s s' : completed s → ¬ can_step s s'.
Proof. intros [-> | ->] [e He]; by destruct s'. Qed.

Lemma paid_grows id p landed landed' : landed ⊆ landed' → paid id p landed → paid id p landed'.
Proof. intros Hl. apply proven_terms; [by split_and!|done]. Qed.

Lemma deal_step_ok landed id o d : deal_step landed id o d →
  match o with Some d0 => deal_ok landed id d0 | None => True end → deal_ok landed id d.
Proof.
  intros Hs Ho. destruct Hs as [p Hne|p s i k t|p s i k t|p s s' i j k t Hc Hm|p s i j t Hc|p s i j];
    [by repeat split|..]; destruct Ho as [H1 [H2 H3] H4 H5]; cbn in *.
  - split; [done|split; cbn; tauto|done|done].
  - split; [done|split; cbn; tauto|done|done].
  - split; [done|exact Hm| |done]. cbn. intros Hk. by destruct (completed_stays s s' (H4 Hk)).
  - split; [done|by split|by cbn|done].
  - split; [done|by split|done|done].
Qed.

(** Every exchange run from nothing keeps the invariant. *)
Lemma exchange_ok_reachable landed x : rtc exchange_step (empty_exchange landed) x → exchange_ok x.
Proof.
  intros Hr. assert (exchange_ok (empty_exchange landed)) as H0 by apply map_Forall_empty.
  revert H0. generalize (empty_exchange landed) Hr. clear Hr.
  induction 1 as [|x1 x2 x3 H12 _ IH]; [done|]. intros Hok. apply IH. clear IH.
  destruct H12 as [x id d Hd|x landed' Hl]; intros id' d' Hd'; cbn in *.
  - apply lookup_insert_Some in Hd' as [[<- <-]|[Hne Hd']]; [|by apply Hok].
    eapply deal_step_ok; [exact Hd|]. destruct (ex_deals x !! id) eqn:E; [by apply Hok|done].
  - destruct (Hok id' d' Hd') as [? [H2 H3] ? ?]. split; [done| |done|done].
    split; [done|]. intros Hs. by eapply paid_grows, H3.
Qed.

(** ** The abstraction *)
Definition promise_of (r : TradeRow) : Promise :=
  mkPromise (t_offer r) (t_buyer r) (t_seller r) (t_description r) (t_amount r) (t_mint r) (t_mode r).

Definition deal_of (d : DB) (id : string) (r : TradeRow) : Deal :=
  mkDeal (promise_of r) (t_state r)
    (bool_decide (is_Some (acceptances d !! (id, t_buyer r)))) (bool_decide (is_Some (acceptances d !! (id, t_seller r))))
    (bool_decide (id ∈ map le_TradeID (ledger d)))
    (bool_decide (map_Exists (fun _ x => rc_TradeID x = id) (receipts d))).

Definition exchange_of (w : World) : Exchange :=
  mkExchange (map_imap (fun id r => Some (deal_of (w_db w) id r)) (trades (w_db w))) (ch_landed (w_chain w)).

Lemma exchange_of_lookup w id : ex_deals (exchange_of w) !! id = deal_of (w_db w) id <$> trades (w_db w) !! id.
Proof. unfold exchange_of; cbn. rewrite map_lookup_imap. by destruct (trades _ !! id). Qed.

(** ** One deal *)

(** What the transition table reaches. *)
Definition reaches (a b : TradeState) : bool :=
  bool_decide (a = b) ||
  match a, b with
  | TradeProposed, _ => true
  | TradeNegotiating, TradeProposed => false
  | TradeNegotiating, _ => true
  | TradeAccepted, (TradeSettlementPending | TradeRecorded | TradeSettled | TradeDisputed | TradeCancelled | TradeResolved)
  | TradeSettlementPending, (TradeSettled | TradeDisputed | TradeCancelled | TradeResolved)
  | TradeDisputed, TradeResolved => true
  | _, _ => false
  end.

Lemma steps_reaches a b : steps a b → reaches a b = true.
Proof.
  induction 1 as [a|a k b [e Hk] _ IH]; [by destruct a|].
  revert Hk IH. by destruct a, k, b.
Qed.

(** The next state on the way from [a] to [b], and how far it can still be. *)
Definition hop (a b : TradeState) : TradeState :=
  match a, b with
  | TradeProposed, TradeCancelled | TradeNegotiating, TradeCancelled => TradeCancelled
  | TradeProposed, _ => TradeNegotiating
  | TradeNegotiating, _ => TradeAccepted
  | TradeAccepted, TradeSettled => TradeSettlementPending
  | TradeAccepted, TradeResolved | TradeSettlementPending, TradeResolved => TradeDisputed
  | _, _ => b
  end.
Definition rank (s : TradeState) : nat :=
  match s with
  | TradeProposed => 5 | TradeNegotiating => 4 | TradeAccepted => 3 | TradeSettlementPending => 2
  | TradeDisputed => 1 | _ => 0
  end.

Lemma hop_ok a b : reaches a b = true → a ≠ b →
  can_step a (hop a b) ∧ reaches (hop a b) b = true ∧ (rank (hop a b) < rank a)%nat ∧
  (agreed (hop a b) = true → agreed a = true ∨ agreed b = true) ∧ (hop a b = TradeSettled → b = TradeSettled).
Proof.
  destruct a, b; cbn; try done; intros _ _; (split; [by eexists|]); split_and!; try done; try lia; tauto.
Qed.

(** A step of one deal as a relation on what the map holds for it. *)
Definition dstep (landed : gmap (string * string) Fetched) (id : string) (o1 o2 : option Deal) : Prop :=
  ∃ d, o2 = Some d ∧ deal_step landed id o1 d.

Lemma dstep_once landed id o d : deal_step landed id o d → rtc (dstep landed id) o (Some d).
Proof. intros H. apply rtc_once. by exists d. Qed.

Lemma moves_path landed id p a b i j k t : reaches a b = true →
  (agreed a = true → i = true ∧ j = true) → may_be id landed (mkDeal p a i j k t) b →
  rtc (dstep landed id) (Some (mkDeal p a i j k t)) (Some (mkDeal p b i j k t)).
Proof.
  intros Hr Ha Hb. remember (rank a) as n eqn:Hn. revert a Hn Hr Ha Hb.
  induction (lt_wf n) as [n _ IH]. intros a -> Hr Ha Hb.
  destruct (decide (a = b)) as [->|Hne]; [done|].
  destruct (hop_ok a b Hr Hne) as (Hc & Hr' & Hlt & Hag & Hse). destruct Hb as [Hb1 Hb2]; cbn in Hb1, Hb2.
  assert (agreed (hop a b) = true → i = true ∧ j = true) as Hin by (intros [?|?]%Hag; auto).
  etrans.
  - apply dstep_once, moves; [exact Hc|]. split; cbn; [exact Hin|auto].
  - apply (IH _ Hlt); [done|done|exact Hin|by split].
Qed.

(** Raising the flags of a deal. *)
Lemma flags_path landed id p s i j k t i' j' k' t' :
  (i = true → i' = true) → (j = true → j' = true) → (k = true → k' = true) → (t = true → t' = true) →
  (k' = true → completed s) → (t' = true → k' = true) →
  rtc (dstep landed id) (Some (mkDeal p s i j k t)) (Some (mkDeal p s i' j' k' t')).
Proof.
  intros Hi Hj Hk Ht Hk' Ht'.
  transitivity (Some (mkDeal p s i' j k t)).
  { destruct i, i'; try done; [by specialize (Hi eq_refl)|apply dstep_once, buyer_accepts]. }
  transitivity (Some (mkDeal p s i' j' k t)).
  { destruct j, j'; try done; [by specialize (Hj eq_refl)|apply dstep_once, seller_accepts]. }
  transitivity (Some (mkDeal p s i' j' k' t)).
  { destruct k, k'; try done; [by specialize (Hk eq_refl)|by apply dstep_once, books, Hk']. }
  destruct t, t'; try done; [by specialize (Ht eq_refl)|]. rewrite (Ht' eq_refl). apply dstep_once, attests.
Qed.

(** A deal whose state and flags moved as the invariants allow. *)
Lemma deal_path landed id p a b i j k t i' j' k' t' : reaches a b = true →
  (i = true → i' = true) → (j = true → j' = true) → (k = true → k' = true) → (t = true → t' = true) →
  (agreed a = true → i' = true ∧ j' = true) → may_be id landed (mkDeal p b i' j' k' t') b →
  (k = true → completed a) → (t = true → k = true) → (k' = true → completed b) → (t' = true → k' = true) →
  rtc (dstep landed id) (Some (mkDeal p a i j k t)) (Some (mkDeal p b i' j' k' t')).
Proof.
  intros Hr Hi Hj Hk Ht Ha Hb Hka Htk Hk' Ht'.
  transitivity (Some (mkDeal p a i' j' k t)); [by apply flags_path|].
  transitivity (Some (mkDeal p b i' j' k t)); [by apply moves_path|]. by apply flags_path.
Qed.

(** ** The whole map *)
Lemma deals_path landed (m m' : gmap string Deal) (l : list string) :
  NoDup l → (∀ id, id ∈ l → ∃ d, m' !! id = Some d ∧ rtc (dstep landed id) (m !! id) (Some d)) →
  ∃ m2, rtc exchange_step (mkExchange m landed) (mkExchange m2 landed) ∧
    (∀ id, id ∈ l → m2 !! id = m' !! id) ∧ (∀ id, id ∉ l → m2 !! id = m !! id).
Proof.
  induction 1 as [|id l Hid _ IH]; intros Hl; [exists m; set_solver|].
  destruct IH as (m2 & Hm2 & Hin & Hout); [set_solver|].
  destruct (Hl id ltac:(set_solver)) as (d & Hd & Hp).
  assert (∀ o, rtc (dstep landed id) o (Some d) → ∀ m0 : gmap string Deal, m0 !! id = o →
    ∃ m3, rtc exchange_step (mkExchange m0 landed) (mkExchange m3 landed) ∧ m3 !! id = Some d ∧
      ∀ id', id' ≠ id → m3 !! id' = m0 !! id') as Hone.
  { clear -IU. intros o Hr. remember (Some d) as o' eqn:Ho'. induction Hr as [o|o1 o2 o3 (d2 & -> & Hs) _ IH2];
      intros m0 Hm0; [exists m0; by subst|].
    destruct (IH2 Ho' (<[id := d2]> m0)) as (m3 & Hr3 & H3 & Hne); [by rewrite lookup_insert_eq|].
    exists m3. split_and!; [|done|].
    - eapply rtc_l; [apply (deal_moves (mkExchange m0 landed) id d2)|exact Hr3]. cbn. by rewrite Hm0.
    - intros id' Hne'. rewrite Hne, lookup_insert_ne by done. done. }
  destruct (Hone _ Hp m2) as (m3 & Hm3 & H3 & Hne); [by apply Hout|].
  exists m3. split_and!.
  - by etrans.
  - intros id' [->|Hin']%elem_of_cons; [congruence|]. rewrite Hne by set_solver. by apply Hin.
  - intros id' Hn. rewrite Hne by set_solver. apply Hout. set_solver.
Qed.

Lemma exchange_path x x' : ex_landed x ⊆ ex_landed x' →
  (∀ id, ex_deals x !! id = None ∧ ex_deals x' !! id = None ∨
    ∃ d, ex_deals x' !! id = Some d ∧ rtc (dstep (ex_landed x') id) (ex_deals x !! id) (Some d)) →
  rtc exchange_step x x'.
Proof.
  destruct x as [m landed], x' as [m' landed']. cbn. intros Hl Hm. eapply rtc_l; [by apply (chain_grows (mkExchange m landed) landed')|]. cbn.
  destruct (deals_path landed' m m' (base.elements (dom m'))) as (m2 & Hm2 & Hin & Hout).
  - apply NoDup_elements.
  - intros id [d Hd]%elem_of_elements%elem_of_dom. destruct (Hm id) as [[_ E]|Hp]; [congruence|exact Hp].
  - assert (m2 = m') as ->; [|done]. apply map_eq. intros id.
    destruct (decide (id ∈ base.elements (dom m'))) as [Hi|Hi]; [by apply Hin|].
    rewrite (Hout id Hi). rewrite elem_of_elements, not_elem_of_dom in Hi.
    destruct (Hm id) as [[E1 E2]|(d & E & _)]; congruence.
Qed.

(** ** The service *)

(** What the flags of a stored trade mean in a well-formed world. *)
Lemma deal_of_ok w id r : wf sv w → trades (w_db w) !! id = Some r →
  deal_ok (ch_landed (w_chain w)) id (deal_of (w_db w) id r).
Proof.
  intros Hw Hr. split; cbn.
  - by apply (wf_parties sv _ Hw id r Hr).
  - split; cbn.
    + intros Ha. destruct (wf_agreed sv _ Hw id r Hr Ha). by rewrite !bool_decide_true.
    + intros Hs. exact (wf_settled sv _ Hw id r Hr Hs).
  - intros Hb%bool_decide_eq_true. apply list_elem_of_fmap in Hb as (e & He & Hin).
    destruct (wf_entry sv _ Hw e Hin) as (r' & at_ & Hr' & Hc & _). simplify_eq. done.
  - intros (k & x & Hx & Ht)%bool_decide_eq_true. destruct (wf_receipt sv _ Hw k x Hx) as (_ & e & Hin & He).
    apply bool_decide_eq_true. apply list_elem_of_fmap. exists e. split; [congruence|done].
Qed.

(** Flags only rise. *)
Lemma deal_of_grows w w' id r r' : evo w w' → trade_evolves r r' →
  let d := deal_of (w_db w) id r in let d' := deal_of (w_db w') id r' in
  dl_promise d = dl_promise d' ∧ (dl_buyer_in d = true → dl_buyer_in d' = true) ∧
  (dl_seller_in d = true → dl_seller_in d' = true) ∧ (dl_booked d = true → dl_booked d' = true) ∧
  (dl_tessera d = true → dl_tessera d' = true).
Proof.
  intros [He _] [Ht _]. pose proof Ht as (E1 & E2 & E3 & E4 & E5 & E6 & E7 & _). cbn. split_and!.
  - unfold promise_of. congruence.
  - rewrite !bool_decide_eq_true, E2. intros [x Hx]. exists x. eapply lookup_weaken; [exact Hx|apply He].
  - rewrite !bool_decide_eq_true, E3. intros [x Hx]. exists x. eapply lookup_weaken; [exact Hx|apply He].
  - rewrite !bool_decide_eq_true. destruct (evo_ledger _ _ He) as [l ->]. rewrite map_app. set_solver.
  - rewrite !bool_decide_eq_true. intros (k & x & Hx & Hid). exists k, x. split; [|done].
    eapply lookup_weaken; [exact Hx|apply He].
Qed.

Lemma evolution_refines w w' : wf sv w → wf sv w' → evo w w' →
  rtc exchange_step (exchange_of w) (exchange_of w').
Proof.
  intros Hw Hw' He. pose proof He as [Hd Hl]. apply exchange_path; [exact Hl|]. intros id.
  rewrite !exchange_of_lookup. change (ex_landed (exchange_of w')) with (ch_landed (w_chain w')).
  destruct (trades (w_db w') !! id) as [r'|] eqn:Hr'; cbn.
  - right. eexists; split; [done|]. pose proof (deal_of_ok w' id r' Hw' Hr') as [Hne' Hm' Hb' Ht'].
    destruct (trades (w_db w) !! id) as [r|] eqn:Hr; cbn.
    + destruct (evo_trades _ _ Hd id r Hr) as (r2 & Hr2 & Hev). rewrite Hr' in Hr2. injection Hr2 as <-.
      pose proof (deal_of_ok w id r Hw Hr) as [Hne Hm Hb Ht].
      destruct (deal_of_grows w w' id r r' He Hev) as (Hp & Hi & Hj & Hk & Htt).
      destruct Hev as [_ Hst%steps_reaches]. destruct Hm as [Hm1 _].
      unfold deal_of in *. cbn [dl_promise dl_state dl_buyer_in dl_seller_in dl_booked dl_tessera] in *. rewrite Hp.
      apply deal_path; try done. naive_solver.
    + pose proof (evo_new _ _ Hd id r' Hr Hr') as Hst%steps_reaches.
      eapply rtc_l; [eexists; split; [done|]; by apply (propose _ id (promise_of r'))|].
      apply deal_path; try done.
  - left. split; [|done]. destruct (trades (w_db w) !! id) as [r|] eqn:Hr; [|done].
    destruct (evo_trades _ _ Hd id r Hr) as (r2 & Hr2 & _). congruence.
Qed.

Lemma exchange_of_initial w : initial w → exchange_of w = empty_exchange (ch_landed (w_chain w)).
Proof. intros [E _]. unfold exchange_of, empty_exchange. by rewrite E. Qed.

(** C2: the service refines the exchange.  Seen through [exchange_of], every run of
  the service, with its requests interleaved, its failures, its crashes and an
  environment that moves clock and chain, is a run of the exchange: deals are
  proposed between two parties, accepted by them, moved along the table only
  when the parties are in and, to [settled], only when paid, then booked in the
  ledger and attested by a tessera, in that order.  A reachable configuration
  is a run of the exchange from nothing, so the exchange's invariant holds. *)
Theorem service_refines_exchange c c' :
  reachable sv c → rtc (sys_step sv) c c' →
  rtc exchange_step (exchange_of c.1) (exchange_of c'.1) ∧
  (∃ landed, rtc exchange_step (empty_exchange landed) (exchange_of c.1)) ∧
  exchange_ok (exchange_of c.1).
Proof.
  intros Hc Hs. destruct (reachable_evo sv c c' Hc Hs) as [He Hw'].
  split; [apply evolution_refines; [by apply reachable_wf|done|done]|].
  assert (∃ landed, rtc exchange_step (empty_exchange landed) (exchange_of c.1)) as [landed Hr].
  { destruct Hc as (w0 & H0 & Hr). exists (ch_landed (w_chain w0)). rewrite <-(exchange_of_initial w0 H0).
    assert (reachable sv (w0, [])) as Hc0 by (by exists w0).
    destruct (reachable_evo sv (w0, []) c Hc0 Hr) as [He0 Hwc].
    apply (evolution_refines w0); [by apply initial_wf|done|done]. }
  split; [by exists landed|]. by eapply exchange_ok_reachable.
Qed.
End Exchange.

(** ** A concrete run *)
#[local] Existing Instances demoUnicode demoSolana demoJWT demoBase58 demoEd25519 demoNetURL demoSessionJWT.

(** The flags of a deal in the abstraction of a world. *)
Definition deal_in (w : World) (id : string) (s : TradeState) (i j k t : bool) : bool :=
  match deal_of (w_db w) id <$> trades (w_db w) !! id with
  | Some (mkDeal _ s' i' j' k' t') =>
      bool_decide (s' = s) && Bool.eqb i i' && Bool.eqb j j' && Bool.eqb k k' && Bool.eqb t t'
  | None => false
  end.

Lemma service_refines_exchange_witness :
  ∃ c c', demo_reachable c ∧ rtc demo_step c c' ∧
    deal_in c.1 "uuid-0" TradeSettlementPending true true false false = true ∧
    deal_in c'.1 "uuid-0" TradeSettled true true true true = true ∧
    rtc (exchange_step demoDeployment) (exchange_of c.1) (exchange_of c'.1).
Proof.
  destruct (demo_run demoAgree demoPay (fun w w' => deal_in w "uuid-0" TradeSettlementPending true true false false &&
      deal_in w' "uuid-0" TradeSettled true true true true))
    as (c & c' & Hc & Hs & HP); [allowed|allowed|vm_compute; reflexivity|].
  apply andb_prop in HP as [H1 H2].
  exists c, c'. split_and!; [exact Hc|exact Hs|exact H1|exact H2|].
  apply (service_refines_exchange demoDeployment c c' Hc Hs).
Defined.
