(* ===== verification/Progress.v ===== *)
(** * Every request is answered

    Termination and freedom from deadlock, over all interleavings.  [works] is one
    action, or one failing action, of a request in progress.  A pool can only do
    finitely many of them ([works_acc]), because a request is a well-founded tree
    of actions.  [calm] requests never block and leave the lock alone; the one
    operation that takes it ([Trade.Create]) is [disciplined]: it takes the lock
    while free, does calm work and gives it back on every path.  So a
    configuration with an unanswered request can always work on without a
    failure ([undone_works]), and draining a pool is only a matter of time. *)
From S2P Require Import Prelude Prog Money Domain Cluster Limits Tokens Settlement Keys Attest Probe World Store Auth Market Ledger Trade TradeSettlement Safety Preserve Handlers Listings System.

(** ** The lock *)

(** An action that is never blocked and leaves the lock as it is. *)
Definition plain {X} (f : World → option (X * World)) : Prop :=
  (∀ w, is_Some (f w)) ∧ ∀ w r w', f w = Some (r, w') → w_locked w' = w_locked w.
Definition takes {X} (f : World → option (X * World)) : Prop :=
  (∀ w, w_locked w = false → is_Some (f w)) ∧
  ∀ w r w', f w = Some (r, w') → w_locked w = false ∧ w_locked w' = true.
Definition gives {X} (f : World → option (X * World)) : Prop :=
  (∀ w, is_Some (f w)) ∧ ∀ w r w', f w = Some (r, w') → w_locked w' = false.

Fixpoint calm {A} (p : prog World A) : Prop :=
  match p with Ret _ => True | Atomic f _ k => plain f ∧ ∀ r, calm (k r) end.

(** [held] tells whether the request holds the lock; it does not at its end, and
    it neither takes it twice nor fails while taking or giving it. *)
Fixpoint disciplined {A} (held : bool) (p : prog World A) : Prop :=
  match p with
  | Ret _ => held = false
  | Atomic f fl k =>
      (plain f ∧ ∀ r, disciplined held (k r)) ∨
      (held = false ∧ fl = None ∧ takes f ∧ ∀ w r w', f w = Some (r, w') → disciplined true (k r)) ∨
      (held = true ∧ fl = None ∧ gives f ∧ ∀ r, disciplined false (k r))
  end.

Lemma calm_disciplined {A} (p : prog World A) : calm p → disciplined false p.
Proof. induction p as [a|R f fl k IH]; cbn; [done|]. intros [Hf Hk]. left. split; [done|]. intros r. by apply IH. Qed.

Lemma calm_bind {A B} (p : prog World A) (f : A → prog World B) :
  calm p → (∀ a, calm (f a)) → calm (prog_bind f p).
Proof.
  intros Hp Hf. induction p as [a|R act fl k IH]; cbn in *; [by apply Hf|].
  destruct Hp as [H1 H2]. split; [done|]. intros r. by apply IH.
Qed.

Lemma disciplined_bind {A B} (p : prog World A) (f : A → prog World B) held :
  calm p → (∀ a, disciplined held (f a)) → disciplined held (prog_bind f p).
Proof.
  intros Hp Hf. induction p as [a|R act fl k IH]; cbn in *; [by apply Hf|].
  destruct Hp as [H1 H2]. left. split; [done|]. intros r. by apply IH.
Qed.

Lemma calm_then {A B} (m : io World A) (f : A → io World B) :
  calm m → (∀ a, calm (f a)) → calm (io_bind m f).
Proof. intros Hm Hf. apply calm_bind; [done|]. by intros [a|e]. Qed.

Lemma calm_on_result {A B} (m : io World A) (k : res A → io World B) :
  calm m → (∀ r, calm (k r)) → calm (on_result m k).
Proof. apply calm_bind. Qed.

Lemma calm_fold {A B} (f : B → A → io World B) l acc : (∀ b a, calm (f b a)) → calm (io_fold f acc l).
Proof.
  intros Hf. revert acc. induction l as [|x l IH]; intros acc; [done|].
  cbn [io_fold]. apply calm_then; [apply Hf|apply IH].
Qed.

Lemma disciplined_serve {A} (p : prog World A) held : disciplined held p → disciplined held (prog_bind (fun _ => Ret tt) p).
Proof.
  revert held. induction p as [a|R act fl k IH]; intros held; cbn; [done|].
  intros [[Hf Hk]|[(-> & -> & Hf & Hk)|(-> & -> & Hf & Hk)]].
  - left. split; [done|]. intros r. by apply IH.
  - right. left. split_and!; try done. intros w r w' Hr. by eapply IH, Hk.
  - right. right. split_and!; try done. intros r. by apply IH.
Qed.

Lemma disciplined_then {A B} (m : io World A) (f : A → io World B) :
  calm m → (∀ a, disciplined false (f a)) → disciplined false (io_bind m f).
Proof. intros Hm Hf. apply disciplined_bind; [done|]. by intros [a|e]. Qed.

Lemma disciplined_on_result {A B} (m : io World A) (k : res A → io World B) :
  calm m → (∀ r, disciplined false (k r)) → disciplined false (on_result m k).
Proof. apply disciplined_bind. Qed.

Lemma calm_atomic {A X} (f : World → option (X * World)) fl (k : X → prog World A) :
  plain f → (∀ r, calm (k r)) → calm (Atomic f fl k).
Proof. done. Qed.

Lemma calm_write {A} (f : tx A) : calm (write f).
Proof.
  split; [|done]. split; [intros w; destruct (f (w_db w)) as [[a d]|e]; by eexists|].
  intros w r w'. destruct (f (w_db w)) as [[a d]|e]; by intros [= <- <-].
Qed.
Lemma calm_query {A} (f : DB → res A) : calm (query f).
Proof. split; [|done]. split; [by eexists|]. by intros w r w' [= <- <-]. Qed.
Lemma calm_rpc {A} (f : Chain → res A) : calm (rpc f).
Proof. split; [|done]. split; [by eexists|]. by intros w r w' [= <- <-]. Qed.
Lemma calm_now : calm now.
Proof. split; [|done]. split; [by eexists|]. by intros w r w' [= <- <-]. Qed.
Lemma calm_NewString : calm NewString.
Proof. split; [|done]. split; [by eexists|]. by intros w r w' [= <- <-]. Qed.
Lemma calm_sleep d : calm (sleep d).
Proof. unfold sleep. destruct (d <=? 0); [done|]. split; [|done]. split; [by eexists|]. by intros w r w' [= <- <-]. Qed.

(** The critical section gives the lock back whatever its body returns. *)
Lemma disciplined_locked {A} (body : io World A) : calm body → disciplined false (locked body).
Proof.
  intros Hb. unfold locked, io_bind, lock. cbn [prog_bind disciplined]. right. left. split_and!; [done|done| |].
  - split; [intros w ->; by eexists|]. intros w r w'. destruct (w_locked w); [done|]. by intros [= <- <-].
  - intros w u w'. destruct (w_locked w); [done|]. intros [= <- <-].
    apply disciplined_bind; [exact Hb|]. intros r. unfold on_result, unlock. cbn [prog_bind disciplined]. right. right.
    split_and!; [done|done| |done]. split; [by eexists|]. by intros w1 x w2 [= <- <-].
Qed.

(** Compositions of calm work, and the discipline around them: the known cases,
    or the definition of the operation. *)
Create HintDb calm.
Ltac head_of t := lazymatch t with ?f _ => head_of f | _ => t end.
Ltac calm_step := lazymatch goal with
  | |- calm (Ret _) => exact I
  | |- calm (ok _) => exact I
  | |- calm (fail _) => exact I
  | |- calm (lift _) => exact I
  | |- calm (refuse _ _) => exact I
  | |- calm (query _) => apply calm_query
  | |- calm (write _) => apply calm_write
  | |- calm (rpc _) => apply calm_rpc
  | |- calm now => apply calm_now
  | |- calm NewString => apply calm_NewString
  | |- calm (sleep _) => apply calm_sleep
  | |- calm (io_bind _ _) => apply calm_then; [|intros ?]
  | |- calm (on_result _ _) => apply calm_on_result; [|intros ?]
  | |- calm (prog_bind _ _) => apply calm_bind; [|intros ?]
  | |- calm (io_fold _ _ _) => apply calm_fold; intros ? ?
  | |- calm (match ?x with _ => _ end) => destruct x
  | |- calm ?m => first [solve [auto 2 with calm nocore] | let h := head_of m in progress unfold h]
  end.
Ltac calms := repeat (cbv beta zeta; calm_step).

Section Calm.
Context `{IU : Unicode} `{IS : Solana} `{IJ : JWT} `{IB : Base58} `{IE : Ed25519} `{IN : NetURL} `{IT : SessionJWT}
  (sv : Deployment).

Lemma calm_get_trades ids : calm (get_trades ids).
Proof. induction ids as [|id ids IH]; cbn [get_trades]; calms. Qed.
Lemma calm_append_loop n e0 a : calm (append_loop n e0 a).
Proof. revert e0 a. induction n as [|n IH]; intros e0 a; cbn [append_loop]; calms. Qed.
Lemma calm_await p n k sig : calm (await p n k sig).
Proof. revert k. induction n as [|n IH]; intros k; cbn [await]; calms. Qed.
Hint Resolve calm_get_trades calm_append_loop calm_await : calm.

Lemma disciplined_create_new a o m k : disciplined false (create_new sv a o m k).
Proof.
  unfold create_new. do 4 (apply disciplined_then; [calms|intros ?]). destruct (if String.eqb _ _ then _ else _) as [b s].
  do 3 (apply disciplined_then; [calms|intros ?]).
  destruct (sv_limits sv); [apply disciplined_locked; calms|apply calm_disciplined; calms].
Qed.

Lemma disciplined_Create a o m k : disciplined false (Create sv a o m k).
Proof.
  unfold Create. do 2 (apply disciplined_then; [calms|intros ?]).
  destruct (String.eqb k ""); [apply disciplined_create_new|].
  apply disciplined_on_result; [calms|]. intros [r|e]; [done|].
  destruct (errorIs e ErrNotFound); [apply disciplined_create_new|done].
Qed.

Lemma perform_disciplined c : disciplined false (perform sv c).
Proof.
  destruct c; cbn [perform]; apply disciplined_serve; [apply disciplined_Create|..]; apply calm_disciplined; calms.
Qed.
End Calm.

(** ** Who holds the lock *)
Section Lock.
Context `{IU : Unicode} `{IS : Solana} `{IJ : JWT} `{IB : Base58} `{IE : Ed25519} `{IN : NetURL} `{IT : SessionJWT}
  (sv : Deployment).

(** The lock is taken exactly when a request of the pool, [holder], holds it. *)
Definition guarded (holder : option nat) (c : config) : Prop :=
  w_locked c.1 = bool_decide (is_Some holder) ∧
  (∀ i, holder = Some i → (i < length c.2)%nat) ∧
  ∀ i p, c.2 !! i = Some p → disciplined (bool_decide (holder = Some i)) p.

Lemma guarded_insert holder w ps i p q : ps !! i = Some p → guarded holder (w, ps) →
  disciplined (bool_decide (holder = Some i)) q → guarded holder (w, <[i := q]> ps).
Proof.
  intros Hi (H1 & H2 & H3) Hq. split_and!; cbn in *; [done|intros j Hj; rewrite length_insert; by apply H2|].
  intros j p' [(-> & -> & _)|[_ Hp']]%list_lookup_insert_Some; [done|]. by apply H3.
Qed.

Lemma guarded_world holder w w' ps : w_locked w' = w_locked w → guarded holder (w, ps) → guarded holder (w', ps).
Proof. intros E (H1 & H2 & H3). split_and!; cbn in *; [congruence|done|done]. Qed.

(** Taking and giving the lock changes who must be holding it. *)
Lemma guarded_move holder holder' w w' ps i p q : ps !! i = Some p → guarded holder (w, ps) →
  (∀ j, j ≠ i → holder = Some j ↔ holder' = Some j) → w_locked w' = bool_decide (is_Some holder') →
  (∀ j, holder' = Some j → (j < length ps)%nat) →
  disciplined (bool_decide (holder' = Some i)) q → guarded holder' (w', <[i := q]> ps).
Proof.
  intros Hi (H1 & H2 & H3) Hh Hl Hb Hq. split_and!; cbn in *; [done|intros j Hj; rewrite length_insert; by apply Hb|].
  intros j p' [(-> & -> & _)|[Hne Hp']]%list_lookup_insert_Some; [done|].
  assert (bool_decide (holder' = Some j) = bool_decide (holder = Some j)) as ->; [|by apply H3].
  apply bool_decide_ext. symmetry. by apply Hh.
Qed.

Lemma guarded_step c c' : (∃ o, guarded o c) → sys_step sv c c' → ∃ o, guarded o c'.
Proof.
  intros [o Hg] Hs. pose proof Hg as (Hl & Hlen & Hd).
  destruct Hs as [w ps i X f fl k r w' Hi Hf|w ps i X f r k Hi|w ps p [cl ->]|w w' ps (_ & E & _)|w ps]; cbn in *.
  - pose proof (Hd i _ Hi) as [[Hp Hk]|[(Ho & -> & Ht & Hk)|(Ho & -> & Ht & Hk)]].
    + exists o. eapply guarded_insert; [exact Hi| |apply Hk]. apply (guarded_world _ w); [|done]. by eapply Hp.
    + destruct Ht as [_ Ht]. destruct (Ht _ _ _ Hf) as [E1 E2]. rewrite E1 in Hl. symmetry in Hl.
      apply bool_decide_eq_false in Hl. exists (Some i).
      eapply (guarded_move o); [exact Hi|exact Hg| | | |rewrite bool_decide_true by done; by eapply Hk].
      * intros j Hne. destruct o; [by destruct Hl|]. naive_solver.
      * by rewrite E2.
      * intros j [= <-]. by eapply lookup_lt_Some.
    + apply bool_decide_eq_true in Ho as ->. exists None.
      eapply (guarded_move (Some i)); [exact Hi|exact Hg| | |done|apply Hk].
      * naive_solver.
      * destruct Ht as [_ Ht]. by rewrite (Ht _ _ _ Hf).
  - exists o. eapply guarded_insert; [exact Hi|exact Hg|].
    by pose proof (Hd i _ Hi) as [[Hp Hk]|[(? & ? & _)|(? & ? & _)]].
  - exists o. split_and!; cbn; [done|intros i Hi; rewrite length_app; specialize (Hlen i Hi); lia|].
    intros i p [Hp|[Hge Hp]]%lookup_app_Some; [by apply Hd|].
    destruct (i - length ps)%nat as [|n] eqn:En; [|by destruct n]. injection Hp as <-.
    rewrite bool_decide_false; [apply perform_disciplined|]. intros Hi. specialize (Hlen i Hi). lia.
  - exists o. by apply (guarded_world _ w).
  - exists None. split_and!; cbn; [done|done|]. by intros i p Hp.
Qed.

Lemma guarded_steps c c' : (∃ o, guarded o c) → rtc (sys_step sv) c c' → ∃ o, guarded o c'.
Proof. intros Hg Hs. revert Hg. induction Hs as [|c1 c2 c3 H12 _ IH]; [done|]. intros Hg. by apply IH, (guarded_step c1). Qed.

Lemma guarded_reachable c : reachable sv c → ∃ o, guarded o c.
Proof.
  intros (w0 & [_ Hl] & Hs). eapply guarded_steps, Hs.
  exists None. split_and!; cbn; [done|done|]. by intros i p Hp.
Qed.

(** ** No deadlock *)
Lemma undone_acts o c : guarded o c → Forall replied c.2 ∨ ∃ c', acts c c'.
Proof.
  destruct c as [w ps]. intros (Hl & Hlen & Hd); cbn in *.
  destruct (decide (Forall replied ps)) as [Hu|Hu]; [by left|right].
  assert (∃ i p, ps !! i = Some p ∧ ¬ replied p ∧ (w_locked w = true → disciplined true p)) as (i & p & Hi & Hp & Hh).
  { destruct o as [i|].
    - destruct (lookup_lt_is_Some_2 ps i (Hlen i eq_refl)) as [p Hp]. pose proof (Hd i p Hp) as Hdp.
      rewrite bool_decide_true in Hdp by done. exists i, p. split_and!; [done| |done]. by intros [a ->].
    - apply not_Forall_Exists, Exists_exists in Hu as (p & Hin & Hp); [|apply _].
      apply list_elem_of_lookup in Hin as [i Hi].
      exists i, p. split_and!; [done|done|]. by rewrite Hl. }
  destruct p as [a|X f fl k]; [by destruct Hp; exists a|].
  assert (is_Some (f w)) as [[r w'] Hf]; [|by eexists; eapply acts_done].
  pose proof (Hd i _ Hi) as Hdi. cbn in Hdi.
  destruct (w_locked w) eqn:El.
  - specialize (Hh eq_refl). cbn in Hh. destruct Hh as [[[Hf _] _]|[(? & _)|(_ & _ & [Hf _] & _)]]; [apply Hf|done|apply Hf].
  - destruct Hdi as [[[Hf _] _]|[(_ & _ & [Hf _] & _)|(_ & _ & [Hf _] & _)]]; [apply Hf|by apply Hf|apply Hf].
Qed.

(** C3: every request is answered.  From every reachable configuration the requests
  in progress can only work for finitely many actions, failures included; as
  long as one is unanswered some request can act without failing, so there is
  no deadlock on the reservation lock; and acting alone answers them all. *)
Theorem requests_are_answered c :
  reachable sv c →
  Acc (flip works) c ∧
  (∀ c', rtc works c c' → Forall replied c'.2 ∨ ∃ c'', acts c' c'') ∧
  ∃ c', rtc acts c c' ∧ Forall replied c'.2.
Proof.
  intros Hc. apply guarded_reachable in Hc as Hg. split; [apply works_acc|].
  assert (∀ c c', (∃ o, guarded o c) → rtc works c c' → ∃ o, guarded o c') as Hkeep.
  { intros c1 c2 Hg1 Hs. eapply guarded_steps, rtc_subrel, Hs; [done|]. intros x y. apply works_step. }
  split; [intros c' Hs; destruct (Hkeep c c' Hg Hs) as [o Ho]; by eapply undone_acts|].
  clear Hc. induction (works_acc c) as [c _ IH].
  destruct Hg as [o Ho]. destruct (undone_acts o c Ho) as [Hdone|[c1 H1]]; [by exists c|].
  destruct (IH c1) as (c' & Hs & Hf); [by apply works_done|eapply Hkeep, rtc_once, works_done, H1; by exists o|].
  exists c'. split; [by eapply rtc_l|done].
Qed.
End Lock.

(** ** A concrete pool: two purchases compete for the reservation lock *)
#[local] Existing Instances demoUnicode demoSolana demoJWT demoBase58 demoEd25519 demoNetURL demoSessionJWT.

Definition cappedDeployment : Deployment :=
  mkDeployment (mkService (Some (DefaultPolicy DefaultRates)) false hour hour demoSigner None) demoRegistrar demoAuthority.
Definition purchase : prog World unit :=
  perform cappedDeployment (CallCreate demoBuyer "offer-1" SettlementOffchain "").
Definition stocking : list event := map (fun k => Serves (perform cappedDeployment k))
  [CallRegister demoBuyer (demoCard "buyer") None; CallRegister demoSeller (demoCard "seller") None;
   CallPublishOffer demoSeller demoNew "" "offer-1" None].

Definition stocked : World := default demoStart (play crash stocking demoStart).

(** The offer stands, and the first purchase has just taken the lock. *)
Definition contended : option (prog World unit * World) :=
  play crash stocking demoStart ≫= run_split 4 purchase.

Lemma contended_reachable x : contended = Some x →
  ∃ ps, reachable cappedDeployment (x.2, ps ++ [x.1; purchase]).
Proof.
  unfold contended. destruct (play crash stocking demoStart) as [w|] eqn:Hp; [|done]. cbn. intros Hx.
  assert (Forall (allowed env (served cappedDeployment)) stocking) as Ha.
  { apply Forall_forall. intros e (k & -> & _)%list_elem_of_fmap. by exists k. }
  destruct (play_steps env crash _ stocking demoStart w [] Ha Hp) as [ps Hs].
  exists ps. exists demoStart. split; [by split|]. etrans; [exact Hs|]. destruct x as [p w']; cbn.
  eapply rtc_l; [apply (step_spawn _ _ _ w ps purchase); by eexists|].
  etrans; [by eapply (run_split_steps _ _ _ 4)|].
  eapply rtc_l; [apply (step_spawn _ _ _ w' (ps ++ [p]) purchase); by eexists|]. by rewrite <-app_assoc.
Qed.

Lemma requests_are_answered_witness :
  ∃ c, reachable cappedDeployment c ∧ w_locked c.1 = true ∧ ¬ Forall replied c.2 ∧
    ∃ c', rtc acts c c' ∧ Forall replied c'.2.
Proof.
  destruct contended as [x|] eqn:Hx; [|exfalso; revert Hx; vm_compute; discriminate].
  destruct (contended_reachable x Hx) as [ps Hc]. exists (x.2, ps ++ [x.1; purchase]).
  split_and!; [exact Hc| | |apply (requests_are_answered cappedDeployment _ Hc)].
  - assert (w_locked ∘ snd <$> contended = Some true) as H by (vm_compute; reflexivity).
    rewrite Hx in H. by injection H.
  - cbn. intros [_ Hf]%Forall_app. apply Forall_cons in Hf as [_ Hf]. apply Forall_cons in Hf as [[a Ha] _]. discriminate Ha.
Defined.
