(* ===== verification/Routing.v ===== *)
(** * What routing guarantees, and what one listing can do to it

    [Route_cheapest] is the contract of the router over a table: the answer is a
    compliant announcement of the capability and none is cheaper.
    [routed_to_a_live_offer] is the same end to end, from the stored offers to the
    answer.  [one_listing_stops_routing] shows that a single listing can make the
    table unbuildable for everyone. *)
From S2P Require Import Prelude GoText Prog Money Domain Cluster Limits Tokens Settlement Keys Attest Probe World Store Auth Market Agp Ledger Trade TradeSettlement Safety Preserve Handlers Listings System.

Section Routing.
Context `{IU : Unicode} `{IB : Base58} `{IF : Float64} `{IO : Folding}.

(** ** The order of the entries *)

(** The exact cost of an entry, in units of [10^-9]. *)
Definition nano_cost (e : RouteEntry) : Z := match en_parsedCost e with Some x => scaled x 9 | None => 0 end.
Definition priced (e : RouteEntry) : Prop := ∃ x, en_parsedCost e = Some x ∧ canonical (value x).

Lemma Cmp_nano x y : canonical (value x) → canonical (value y) → Cmp x y = Z.sgn (scaled x 9 - scaled y 9).
Proof.
  intros Hx Hy. rewrite Cmp_numeric by done.
  pose proof (canonical_parts x Hx) as (_ & _ & Lx). pose proof (canonical_parts y Hy) as (_ & _ & Ly).
  set (s := Z.max _ _). assert (0 <= s <= 9) as Hs by (unfold s, len, MaxFractionDigits in *; lia).
  assert (∀ a, len (frac_part a) <= s → scaled a 9 = scaled a s * 10 ^ (9 - s)) as E.
  { intros a Ha. unfold scaled. rewrite <-Z.mul_assoc, <-Z.pow_add_r by lia. f_equal. f_equal. lia. }
  rewrite (E x), (E y) by lia. rewrite <-Z.mul_sub_distr_r, Z.sgn_mul.
  rewrite (Z.sgn_pos (10 ^ (9 - s))) by lia. lia.
Qed.

Lemma lessCost_priced a b : priced a → priced b →
  lessCost a b = lt_Z_str nano_cost en_Path a b.
Proof.
  intros (x & Ex & Hx) (y & Ey & Hy). unfold lessCost, lt_Z_str, nano_cost. rewrite Ex, Ey, Cmp_nano by done.
  destruct (Z.ltb_spec (scaled x 9) (scaled y 9)), (Z.eqb_spec (scaled x 9) (scaled y 9)); cbn; try lia.
  - by rewrite Z.sgn_neg by lia.
  - replace (scaled x 9 - scaled y 9) with 0 by lia. done.
  - rewrite Z.sgn_pos by lia. done.
Qed.

Lemma lt_Z_str_false {A} (f : A → Z) (g : A → string) x y :
  lt_Z_str f g y x = false ↔ f x < f y ∨ (f x = f y ∧ str_lt (g y) (g x) = false).
Proof. unfold lt_Z_str. destruct (Z.ltb_spec (f y) (f x)), (Z.eqb_spec (f y) (f x)); cbn; split; intuition (discriminate || lia). Qed.

Lemma sorted_entries l : Forall priced l → StronglySorted (not_after lessCost) (stable_sort lessCost l).
Proof.
  apply stable_sort_sorted.
  - intros x y Hx Hy. rewrite !lessCost_priced, !lt_Z_str_false by done.
    destruct (Z.lt_trichotomy (nano_cost x) (nano_cost y)) as [?|[?|?]]; auto.
    destruct (str_lt_irrefl_total (en_Path x) (en_Path y)); auto.
  - intros x y z Hx Hy Hz. rewrite !lessCost_priced, !lt_Z_str_false by done.
    pose proof (str_le_trans (en_Path x) (en_Path y) (en_Path z)). intuition lia.
Qed.

(** ** The table *)

(** The entries announced for a capability, in order. *)
Definition entries_for (capability : string) (l : list CapabilityAnnouncement) : list RouteEntry :=
  omap (fun a => if String.eqb (NormalizeCapability (ca_Capability a)) capability
                 then match EntryFor a with Ok e => Some e | Err _ => None end else None) l.

Lemma enter_all_lookup l : ∀ m m', enter_all m l = Ok m' →
  Forall (fun a => is_ok (EntryFor a) = true) l ∧
  ∀ capability, default [] (m' !! capability) = default [] (m !! capability) ++ entries_for capability l.
Proof.
  induction l as [|a l IH]; intros m m'; cbn.
  - intros [= <-]. split; [done|]. intros c. by rewrite app_nil_r.
  - destruct (EntryFor a) as [e|] eqn:He; cbn; [|done]. intros [Hl Hm]%IH. split; [constructor; [by rewrite He|done]|].
    intros c. rewrite Hm. destruct (String.eqb_spec (NormalizeCapability (ca_Capability a)) c) as [<-|Hne]; cbn.
    + rewrite lookup_insert_eq. cbn. by rewrite <-app_assoc.
    + by rewrite lookup_insert_ne.
Qed.

Lemma table_lookup l t : table_of l = Ok t →
  Forall (fun a => is_ok (EntryFor a) = true) l ∧ (length l ≤ 128)%nat ∧
  ∀ capability, default [] (tb_Entries t !! capability) = stable_sort lessCost (entries_for capability l).
Proof.
  unfold table_of, MaxRoutes. destruct (Z.gtb_spec (Z.of_nat (length l)) 128); [done|].
  destruct (enter_all ∅ l) as [m|] eqn:Hm; cbn; [|done]. intros [= <-]. cbn.
  destruct (enter_all_lookup l ∅ m Hm) as [Hl Hlook]. split_and!; [done|lia|]. intros c.
  specialize (Hlook c). rewrite lookup_empty in Hlook. cbn in Hlook. rewrite lookup_fmap, <-Hlook.
  by destruct (m !! c).
Qed.

(** What an entry takes from its announcement. *)
Lemma EntryFor_ok a e : EntryFor a = Ok e →
  en_Path e = ca_SquadPath a ∧ en_Policy e = ca_Policy a ∧ en_CostAmount e = ca_CostAmount a ∧
  en_CostMint e = ca_CostMint a ∧ en_OfferID e = ca_OfferID a ∧ en_AgentID e = ca_AgentID a ∧
  en_Announcement e = a ∧ (ca_CostAmount a ≠ "" → ∃ x, Money.Parse (ca_CostAmount a) = Ok x ∧ en_parsedCost e = Some x).
Proof.
  unfold EntryFor, Announcement_Validate. destruct (ValidateCapability (ca_Capability a)); cbn; [|done].
  do 2 (destruct (String.eqb (TrimSpace _) ""); cbn; [done|]).
  destruct (String.eqb_spec (ca_CostAmount a) "") as [E|E]; cbn.
  - intros [= <-]. cbn. split_and!; done.
  - destruct (Money.Parse (ca_CostAmount a)) as [x|]; cbn; [|done]. destruct (String.eqb (ca_CostMint a) ""); cbn; [done|].
    destruct (ParseFloat (ca_CostAmount a)); cbn; [|done]. intros [= <-]. cbn. split_and!; try done. intros _. by exists x.
Qed.

Lemma entries_for_elem capability l e : e ∈ entries_for capability l ↔
  ∃ a, a ∈ l ∧ NormalizeCapability (ca_Capability a) = capability ∧ EntryFor a = Ok e.
Proof.
  unfold entries_for. rewrite list_elem_of_omap. split.
  - intros (a & Ha & He). exists a. destruct (String.eqb_spec (NormalizeCapability (ca_Capability a)) capability); [|done].
    destruct (EntryFor a); [|done]. naive_solver.
  - intros (a & Ha & <- & He). exists a. by rewrite String.eqb_refl, He.
Qed.

Lemma entries_priced capability l : Forall (fun a => ca_CostAmount a ≠ "") l → Forall priced (entries_for capability l).
Proof.
  rewrite !Forall_forall. intros Hl e (a & Ha & _ & He)%entries_for_elem.
  destruct (EntryFor_ok a e He) as (_ & _ & _ & _ & _ & _ & _ & Hp). destruct (Hp (Hl a Ha)) as (x & Hx & Ex).
  exists x. split; [done|]. by apply Parse_iff in Hx as [? ->].
Qed.

(** The answer, up to its bookkeeping fields. *)
Definition route_spec (l : list CapabilityAnnouncement) (i : Intent) (r : res RouteResult) : Prop :=
  let capability := NormalizeCapability (in_TargetCapability i) in
  let announced := entries_for capability l in
  match r with
  | Ok x => rr_Route x ∈ announced ∧ complies i (rr_Route x) = true ∧ rr_TargetCapability x = capability ∧
      rr_Considered x = Z.of_nat (length announced) ∧
      ∀ e, e ∈ announced → complies i e = true →
        nano_cost (rr_Route x) < nano_cost e ∨
        (nano_cost (rr_Route x) = nano_cost e ∧ str_lt (en_Path e) (en_Path (rr_Route x)) = false)
  | Err e =>
      (e = [ErrRouteNotFound] ∧ announced = []) ∨
      (e = [ErrPolicyViolation] ∧ announced ≠ [] ∧ ∀ x, x ∈ announced → complies i x = false)
  end.

Lemma Route_ok l t i : Forall (fun a => ca_CostAmount a ≠ "") l → table_of l = Ok t →
  Intent_Validate i = Ok tt → route_spec l i (Route t i).
Proof.
  intros Hpr Ht Hi. destruct (table_lookup l t Ht) as (_ & _ & Hlook).
  unfold Route. rewrite Hi. cbn [mbind res_bind]. cbv zeta. set (c := NormalizeCapability (in_TargetCapability i)) in *.
  pose proof (Hlook c) as Hc. set (es := entries_for c l) in *.
  assert (∀ x, x ∈ stable_sort lessCost es ↔ x ∈ es) as Hin by (intros x; by rewrite stable_sort_perm).
  assert (length (stable_sort lessCost es) = length es) as Hlen by (apply Permutation_length, stable_sort_perm).
  pose proof (sorted_entries es (entries_priced c l Hpr)) as Hso. pose proof (entries_priced c l Hpr) as Hprc.
  assert (∀ s, default [] (tb_Entries t !! c) = s → s = stable_sort lessCost es) as Hs by congruence.
  destruct (tb_Entries t !! c) as [[|e0 es0]|] eqn:El; cbn in Hc.
  - left. split; [done|]. rewrite <-Hc in Hlen. by apply nil_length_inv.
  - rewrite Hc. destruct (List.filter (complies i) (stable_sort lessCost es)) as [|best rest] eqn:Hf.
    + right. split_and!; [done| |].
      * fold c es. intros E. rewrite E in Hc. done.
      * intros x Hx%Hin. destruct (complies i x) eqn:Hcx; [|done].
        assert (x ∈ List.filter (complies i) (stable_sort lessCost es)) as Hx'.
        { apply list_elem_of_In, filter_In. split; [by apply list_elem_of_In|done]. }
        rewrite Hf in Hx'. by apply not_elem_of_nil in Hx'.
    + assert (∀ x, x ∈ List.filter (complies i) (stable_sort lessCost es) ↔ x ∈ es ∧ complies i x = true) as Hfin.
      { intros x. rewrite <-Hin, !list_elem_of_In. apply filter_In. }
      rewrite Hf in Hfin. destruct (proj1 (Hfin best) ltac:(left)) as [Hb1 Hb2].
      cbn [route_spec rr_Route rr_TargetCapability rr_Considered]. fold c es.
      split_and!; [done|done|done|by rewrite Hlen|].
      intros e He Hce. assert (e ∈ best :: rest) as Hmem by by apply Hfin.
      assert (not_after lessCost best e) as Hna.
      { apply elem_of_cons in Hmem as [->|Hmem].
        - unfold not_after. rewrite Forall_forall in Hprc. rewrite lessCost_priced, lt_Z_str_false by auto.
          right. split; [done|]. destruct (str_lt_irrefl_total (en_Path best) (en_Path best)); done.
        - assert (StronglySorted (not_after lessCost) (best :: rest)) as Hsf; [|apply StronglySorted_inv in Hsf as [_ Hsf];
            rewrite Forall_forall in Hsf; by apply Hsf].
          rewrite <-Hf. clear -Hso. induction Hso as [|x s Hs IH Hx]; cbn; [constructor|].
          destruct (complies i x); [|done]. constructor; [done|]. rewrite Forall_forall in *. intros y Hy.
          apply Hx, list_elem_of_In. apply list_elem_of_In, filter_In in Hy. tauto. }
      unfold not_after in Hna. rewrite Forall_forall in Hprc. rewrite lessCost_priced, lt_Z_str_false in Hna by auto. done.
  - left. split; [done|]. rewrite <-Hc in Hlen. by apply nil_length_inv.
Qed.

Lemma ValidateCapability_err c e : ValidateCapability c = Err e → e = [ErrInvalidIntent].
Proof. unfold ValidateCapability. cbv zeta. do 4 (case_match; [congruence|]). done. Qed.

(** C38: the router's contract.  Over a table built from announcements that all
  state an exact cost, an invalid intent is refused; a capability nobody
  announces is not found; if nobody who announces it meets the constraints the
  policy is violated; and otherwise the answer is an announcement of that
  capability that meets them all, none that does is cheaper in exact decimal
  arithmetic, and among the equally cheap the smallest path wins. *)
Theorem Route_cheapest l t i :
  Forall (fun a => ca_CostAmount a ≠ "") l → table_of l = Ok t →
  (Intent_Validate i = Ok tt → route_spec l i (Route t i)) ∧
  (∀ e, Intent_Validate i = Err e → Route t i = Err e ∧ e = [ErrInvalidIntent]).
Proof.
  intros Hl Ht. split; [by apply Route_ok|]. intros e He. unfold Route. rewrite He. split; [done|].
  revert He. unfold Intent_Validate. destruct (ValidateCapability _) eqn:Hv; cbn; [destruct (in_Payload i); congruence|].
  intros [= <-]. by eapply ValidateCapability_err.
Qed.

(** ** From the stored offers *)

(** A row whose agent may sell now. *)
Definition active_agent (d : DB) (id : string) (a : Agent) : Prop :=
  ∃ r, agents d !! id = Some r ∧ a_status r = AgentActive ∧ a = scanAgent id r.

Lemma seen_agents_spec l : ∀ acc o, o ∈ l →
  offer_AgentID o ∈ foldl (fun ids o => if bool_decide (offer_AgentID o ∈ ids) then ids else ids ++ [offer_AgentID o]) acc l.
Proof.
  assert (∀ l acc x, x ∈ acc → x ∈ foldl (fun ids o => if bool_decide (offer_AgentID o ∈ ids) then ids
    else ids ++ [offer_AgentID o]) acc l) as Hmono.
  { clear. induction l as [|o l IH]; intros acc x Hx; cbn; [done|]. apply IH. case_bool_decide; set_solver. }
  induction l as [|o' l IH]; intros acc o Ho; [by apply not_elem_of_nil in Ho|]. cbn.
  apply elem_of_cons in Ho as [->|Ho]; [|by apply IH]. apply Hmono. case_bool_decide; set_solver.
Qed.

Lemma run_ListAgentsByIDs ids w : ∃ m, run (ListAgentsByIDs ids) w = Some (Ok m, w) ∧
  ∀ id a, id ∈ ids → m !! id = Some a ↔ ∃ r, agents (w_db w) !! id = Some r ∧ a = scanAgent id r.
Proof.
  unfold ListAgentsByIDs. destruct (Nat.eqb_spec (length ids) 0) as [E|E].
  { exists ∅. split; [done|]. apply nil_length_inv in E as ->. set_solver. }
  eexists. split; [reflexivity|]. intros id a Hid. set (g := fun p : string * AgentRow => _).
  assert (∀ l : list (string * AgentRow), NoDup l.*1 → NoDup (omap g l).*1) as Hnd.
  { induction l as [|[k r] l IH]; cbn; [done|]. intros [Hk Hl]%NoDup_cons. subst g. cbn in *.
    case_bool_decide; cbn; [|by apply IH]. apply NoDup_cons. split; [|by apply IH].
    intros (p & -> & Hp)%list_elem_of_fmap. apply Hk. apply list_elem_of_omap in Hp as ([k' r'] & Hin & E').
    cbn in E'. case_bool_decide; [|done]. injection E' as <-. apply list_elem_of_fmap. by exists (k', r'). }
  rewrite <-elem_of_list_to_map by apply Hnd, NoDup_fst_map_to_list.
  rewrite list_elem_of_omap. split.
  - intros ([k r] & Hin%elem_of_map_to_list & E'). cbn in E'. case_bool_decide; [|done]. injection E' as <- <-. by exists r.
  - intros (r & Hr & ->). exists (id, r). split; [by apply elem_of_map_to_list|]. cbn. by rewrite bool_decide_true.
Qed.

(** What the listing query returns. *)
Lemma scan_offers_elem l os : scan_offers l = Ok os → ∀ o, o ∈ os → ∃ r, (offer_ID o, r) ∈ l ∧ scanOffer (offer_ID o) r = Ok o.
Proof.
  revert os. induction l as [|[id r] l IH]; cbn; [intros os [= <-] o Ho; by apply not_elem_of_nil in Ho|].
  intros os. destruct (scanOffer id r) as [o'|] eqn:Ho'; cbn; [|done]. destruct (scan_offers l) as [os'|]; cbn; [|done].
  intros [= <-] o [->|Ho]%elem_of_cons.
  - pose proof (scanOffer_inv id r o' Ho') as (_ & <- & _). exists r. split; [left|done].
  - destruct (IH os' eq_refl o Ho) as (r' & Hr' & Hs). exists r'. split; [by right|done].
Qed.

Lemma run_ListOpenOffers w os w' : run ListOpenOffers w = Some (Ok os, w') → w' = w ∧
  ∀ o, o ∈ os → ∃ r, offers (w_db w) !! offer_ID o = Some r ∧ o_status r = OfferOpen ∧ scanOffer (offer_ID o) r = Ok o.
Proof.
  unfold ListOpenOffers, SearchOffers, query. cbn [run]. intros [= Hs <-]. split; [done|]. intros o Ho.
  destruct (scan_offers_elem _ _ Hs o Ho) as (r & Hr & Hsc). exists r.
  apply elem_of_take in Hr as (n & Hn & _). rewrite lookup_drop in Hn. apply list_elem_of_lookup_2 in Hn.
  rewrite stable_sort_perm in Hn. apply list_elem_of_In, filter_In in Hn as [Hin Hm].
  apply list_elem_of_In, elem_of_map_to_list in Hin. split_and!; [done| |done].
  unfold offer_matches in Hm. cbn in Hm. rewrite !andb_true_iff in Hm. apply String.eqb_eq. tauto.
Qed.

Lemma canonical_nonempty s : canonical s → s ≠ "".
Proof. intros Hs ->. pose proof (proj2 (Parse_iff "" _) (conj Hs eq_refl)) as H. discriminate H. Qed.

(** An offer of an active agent, and what its announcements carry. *)
Definition announces (o : Offer) (capability : string) : Prop :=
  ∃ c, c ∈ CapabilitiesForOffer o ∧ NormalizeCapability c = capability.
Definition meets (rg : Registrar) (i : Intent) (o : Offer) (a : Agent) : Prop :=
  CheckPolicy (offer_policy o a (mintInfo rg (offer_PriceMint o))).1 (in_PolicyConstraints i) = true.

Lemma run_Announcements rg w l w' : run (Announcements rg) w = Some (Ok l, w') →
  ∃ os at_, run ListOpenOffers w = Some (Ok os, w) ∧ w' = w ∧
    ∀ a, a ∈ l ↔ ∃ o ag, o ∈ os ∧ active_agent (w_db w) (offer_AgentID o) ag ∧
      a ∈ AnnouncementsForOffer o ag (mintInfo rg (offer_PriceMint o)) at_.
Proof.
  unfold Announcements. rewrite run_io_bind.
  destruct (run ListOpenOffers w) as [[[os|e] w1]|] eqn:Ho; [|done|done].
  pose proof (run_ListOpenOffers w os w1 Ho) as [-> Hos]. rewrite run_io_bind. cbn [now run]. rewrite run_io_bind.
  destruct (run_ListAgentsByIDs (seen_agents os) w) as (m & -> & Hm). cbn [ok run]. intros [= <- <-].
  exists os, (w_now w). split_and!; [done|done|]. intros a. rewrite list_elem_of_In, in_concat. split.
  - intros (x & (o & <- & Hin)%in_map_iff & Hx). apply list_elem_of_In in Hin, Hx. unfold announced in Hx.
    destruct (m !! offer_AgentID o) as [ag|] eqn:Hag; [|by apply not_elem_of_nil in Hx].
    apply Hm in Hag as (r & Hr & ->); [|by apply seen_agents_spec].
    destruct (String.eqb_spec (agent_Status (scanAgent (offer_AgentID o) r)) AgentActive); [|by apply not_elem_of_nil in Hx].
    exists o, (scanAgent (offer_AgentID o) r). split_and!; [done| |done]. by exists r.
  - intros (o & ag & Hin & (r & Hr & Hst & ->) & Ha).
    exists (announced rg m (w_now w) o). split; [by apply in_map, list_elem_of_In|].
    apply list_elem_of_In. unfold announced.
    rewrite (proj2 (Hm (offer_AgentID o) (scanAgent (offer_AgentID o) r) (seen_agents_spec os [] o Hin)) ltac:(eauto)).
    cbn [agent_Status scanAgent]. by rewrite Hst, String.eqb_refl.
Qed.

(** C37: an intent is routed to a live offer of an active agent, and to the
  cheapest.  When the table builds and routing succeeds, the answer names a
  stored open offer, with its seller, its price and its mint as they are
  stored, whose seller is active, which announces the capability and meets the
  constraints; and of the offers listed, no other of an active seller that
  does has a smaller price. *)
Theorem routed_to_a_live_offer rg w t w' i r :
  run (BuildTable (Announcements rg)) w = Some (Ok t, w') → Route t i = Ok r →
  let capability := NormalizeCapability (in_TargetCapability i) in
  ∃ os, run ListOpenOffers w = Some (Ok os, w) ∧
  ∃ o row ag, o ∈ os ∧ offers (w_db w) !! offer_ID o = Some row ∧ o_status row = OfferOpen ∧
    active_agent (w_db w) (o_agent row) ag ∧ announces o capability ∧ meets rg i o ag ∧
    en_OfferID (rr_Route r) = offer_ID o ∧ en_AgentID (rr_Route r) = o_agent row ∧
    en_CostAmount (rr_Route r) = o_price row ∧ en_CostMint (rr_Route r) = o_mint row ∧
    ∀ o' ag', o' ∈ os → active_agent (w_db w) (offer_AgentID o') ag' → announces o' capability → meets rg i o' ag' →
      scaled (offer_PriceAmount o) 9 <= scaled (offer_PriceAmount o') 9.
Proof.
  intros Hb Hr. cbv zeta. unfold BuildTable in Hb. rewrite run_io_bind in Hb.
  destruct (run (Announcements rg) w) as [[[l|e] w1]|] eqn:Ha; [|done|done].
  destruct (run_Announcements rg w l w1 Ha) as (os & at_ & Hos & -> & Hl).
  cbn [lift run] in Hb. injection Hb as Ht <-. exists os. split; [done|].
  destruct (run_ListOpenOffers w os w Hos) as [_ Hopen].
  assert (∀ o, o ∈ os → canonical (value (offer_PriceAmount o))) as Hcan.
  { intros o (row & _ & _ & Hsc)%Hopen. apply scanOffer_inv in Hsc as (Hp & _). unfold amount_String in Hp.
    destruct (Money.Parse (value (offer_PriceAmount o))) eqn:E; [|done]. by apply Parse_iff in E as [? _]. }
  assert (Forall (fun a => ca_CostAmount a ≠ "") l) as Hcost.
  { apply Forall_forall. intros a (o & ag & Hin & _ & (c & -> & _)%list_elem_of_fmap)%Hl. by apply canonical_nonempty, Hcan. }
  assert (Intent_Validate i = Ok tt) as Hi.
  { unfold Route in Hr. by destruct (Intent_Validate i) as [[]|]. }
  pose proof (Route_ok l t i Hcost Ht Hi) as Hs. rewrite Hr in Hs. destruct Hs as (Hin & Hcomp & _ & _ & Hmin).
  apply entries_for_elem in Hin as (a & Hal & Hcap & He).
  apply Hl in Hal as (o & ag & Ho & Hag & (c & -> & Hc)%list_elem_of_fmap).
  destruct (Hopen o Ho) as (row & Hrow & Hst & Hsc). pose proof (scanOffer_inv _ _ _ Hsc) as (_ & _ & Eag & _ & _ & Epr & Emi & _).
  destruct (EntryFor_ok _ _ He) as (_ & Epol & Eca & Ecm & Eid & Eaid & _ & Hpc). cbn in Epol, Eca, Ecm, Eid, Eaid, Hcap.
  exists o, row, ag. rewrite <-Eag. split_and!; try done.
  - by exists c.
  - unfold meets, CheckPolicy. unfold complies in Hcomp. by rewrite Epol in Hcomp.
  - destruct Hag as (ra & _ & _ & ->). by rewrite Eaid.
  - by rewrite Eca.
  - by rewrite Ecm.
  - intros o' ag' Ho' Hag' (c' & Hc' & Hcap') Hm'.
    assert (announcement o' ag' (mintInfo rg (offer_PriceMint o')) at_ c' ∈ l) as Hl'.
    { apply Hl. exists o', ag'. split_and!; [done|done|]. apply list_elem_of_fmap. by exists c'. }
    destruct (table_lookup l t Ht) as (Hok & _ & _). rewrite Forall_forall in Hok. specialize (Hok _ Hl').
    destruct (EntryFor _) as [e'|] eqn:He' in Hok; [|done].
    destruct (EntryFor_ok _ _ He') as (_ & Epol' & _ & _ & _ & _ & _ & Hpc'). cbn in Epol', Hpc'.
    destruct (Hpc (canonical_nonempty _ (Hcan o Ho))) as (x & Hx & Ex).
    destruct (Hpc' (canonical_nonempty _ (Hcan o' Ho'))) as (x' & Hx' & Ex').
    assert (e' ∈ entries_for (NormalizeCapability (in_TargetCapability i)) l) as Hin'.
    { apply entries_for_elem. eexists. split_and!; [exact Hl'|exact Hcap'|exact He']. }
    assert (complies i e' = true) as Hce by (unfold complies; by rewrite Epol').
    assert (∀ y z, Money.Parse (value y) = Ok z → z = y) as Hyz.
    { intros [y] z [_ ->]%Parse_iff. done. }
    apply Hyz in Hx as ->. apply Hyz in Hx' as ->.
    destruct (Hmin e' Hin' Hce) as [Hlt|[Heq _]]; unfold nano_cost in *; rewrite Ex, Ex' in *; lia.
Qed.
End Routing.

(** ** Concrete runs *)

(** Numbers as multiples of [10^-9], without exponents. *)
Definition demoFloat64 : Float64 := {|
  float64 := Z; float_lt := Z.ltb; float_eq := Z.eqb; float_zero := 0;
  ParseFloat s := match Money.Parse s with Ok a => Some (scaled a 9) | Err _ => None end;
  float_of_int z := z * 1000000000; float_text f := int_text f |}.

#[local] Existing Instances demoUnicode demoSolana demoJWT demoBase58 demoEd25519 demoNetURL demoSessionJWT
  demoFloat64 demoFolding.

Definition demoIntent : Intent :=
  mkIntent "Summarize:a-summary" (Some []) {["currencies" := VList [VString demoMint]; "direction" := VString "ask"]}.
Definition demo_table (w : World) : option (res Table) :=
  fst <$> run (BuildTable (Announcements demoRegistrar)) w.
Definition demo_route (w : World) : option RouteResult :=
  match demo_table w with Some (Ok t) => match Route t demoIntent with Ok r => Some r | Err _ => None end | _ => None end.

(** A second, dearer listing of the same service by the other agent. *)
Definition demoDearer : NewOffer :=
  mkNewOffer DirectionAsk "a summary" ["Summarize:A-Summary"] "10" demoMint [SettlementOffchain].
Definition demoMarket : list event := demoListed ++
  [Call (CallPublishOffer demoBuyer demoDearer "" "offer-2" None)].
Definition demoMarketWorld : World := default demoStart (play crash demoMarket demoStart).

(** A listing with one malformed capability. *)
Definition demoColon : NewOffer := mkNewOffer DirectionAsk "anything" [":"] "1" demoMint [SettlementOffchain].

(** One listing stops routing for everyone.  In a run of the service an intent
  is routed; then an agent publishes an offer whose only capability is a colon,
  which publication accepts and the announcer repeats; from then on no table
  can be built, so every intent, of any capability, is refused.  The same
  happens by growth alone: more announcements than the limit of 128 build no
  table, while the listing query returns up to 200 offers. *)
Theorem one_listing_stops_routing :
  (∃ c c', demo_reachable c ∧ rtc demo_step c c' ∧
     (∃ r, demo_route c.1 = Some r ∧ en_OfferID (rr_Route r) = "offer-1") ∧
     demo_table c'.1 = Some (Err [ErrInvalidIntent])) ∧
  (∀ l, 128 < Z.of_nat (length l) → table_of l = Err [ErrInvalidIntent]).
Proof.
  split.
  - destruct (demo_run demoMarket [Call (CallPublishOffer demoBuyer demoColon "" "offer-3" None)] (fun w w' =>
        match demo_route w with Some r => String.eqb (en_OfferID (rr_Route r)) "offer-1" | None => false end &&
        match demo_table w' with Some (Err [e]) => String.eqb e ErrInvalidIntent | _ => false end))
      as (c & c' & Hc & Hs & HP); [allowed|allowed|vm_compute; reflexivity|].
    exists c, c'. apply andb_prop in HP as [H1 H2]. split_and!; [exact Hc|exact Hs| |].
    + destruct (demo_route c.1) as [r|]; [|done]. exists r. split; [done|]. by apply String.eqb_eq.
    + destruct (demo_table c'.1) as [[t|[|e [|e' l]]]|]; try done. by apply String.eqb_eq in H2 as ->.
  - intros l Hl. unfold table_of, MaxRoutes. by rewrite (proj2 (Z.gtb_lt _ _) Hl).
Qed.

(** A boolean test of a routed answer, and what it tells. *)
Definition routed_ok (t : option (res Table)) (f : RouteResult → bool) : bool :=
  match t with Some (Ok t) => match Route t demoIntent with Ok r => f r | Err _ => false end | _ => false end.

Lemma routed_ok_inv o f : routed_ok o f = true → ∃ t r, o = Some (Ok t) ∧ Route t demoIntent = Ok r ∧ f r = true.
Proof. destruct o as [[t|e]|]; cbn; [|done|done]. destruct (Route t demoIntent) as [r|e] eqn:E; [|done]. by exists t, r. Qed.

Lemma run_BuildTable rg w t w' : run (BuildTable (Announcements rg)) w = Some (Ok t, w') → w' = w.
Proof.
  unfold BuildTable. rewrite run_io_bind. destruct (run (Announcements rg) w) as [[[l|e] w1]|] eqn:Ha; [|done|done].
  destruct (run_Announcements rg w l w1 Ha) as (_ & _ & _ & -> & _). cbn [lift run]. by intros [= _ <-].
Qed.

Lemma routed_to_a_live_offer_witness :
  ∃ t r row, run (BuildTable (Announcements demoRegistrar)) demoMarketWorld = Some (Ok t, demoMarketWorld) ∧
    Route t demoIntent = Ok r ∧ en_OfferID (rr_Route r) = "offer-1" ∧
    offers (w_db demoMarketWorld) !! "offer-1" = Some row ∧ o_status row = OfferOpen ∧
    en_CostAmount (rr_Route r) = o_price row.
Proof.
  destruct (routed_ok_inv (demo_table demoMarketWorld) (fun r => String.eqb (en_OfferID (rr_Route r)) "offer-1"))
    as (t & r & Ht & Hr & Hid); [vm_compute; reflexivity|]. apply String.eqb_eq in Hid.
  unfold demo_table in Ht. destruct (run _ demoMarketWorld) as [[x w']|] eqn:E; [|discriminate Ht].
  cbn in Ht. injection Ht as ->. pose proof (run_BuildTable _ _ _ _ E) as ->.
  destruct (routed_to_a_live_offer demoRegistrar demoMarketWorld t demoMarketWorld demoIntent r E Hr)
    as (os & _ & o & row & ag & _ & Hrow & Hst & _ & _ & _ & Hoid & _ & Hca & _).
  exists t, r, row. rewrite Hid in Hoid. rewrite <-Hoid in Hrow. split_and!; first [assumption | reflexivity].
Defined.

Definition demoAnnouncements : list CapabilityAnnouncement :=
  match run (Announcements demoRegistrar) demoMarketWorld with Some (Ok l, _) => l | _ => [] end.

Lemma Route_cheapest_witness : ∃ t r, table_of demoAnnouncements = Ok t ∧ Route t demoIntent = Ok r ∧
  complies demoIntent (rr_Route r) = true ∧ rr_Considered r = 2.
Proof.
  destruct (routed_ok_inv (Some (table_of demoAnnouncements)) (fun r => rr_Considered r =? 2))
    as (t & r & Ht & Hr & Hn); [vm_compute; reflexivity|]. apply Z.eqb_eq in Hn. apply (inj Some) in Ht.
  assert (Forall (fun a => ca_CostAmount a ≠ "") demoAnnouncements) as Hc.
  { assert (forallb (fun a => negb (String.eqb (ca_CostAmount a) "")) demoAnnouncements = true) as H by (vm_compute; reflexivity).
    apply Forall_forall. intros a Ha%list_elem_of_In. rewrite forallb_forall in H. specialize (H a Ha).
    intros E. rewrite E in H. discriminate H. }
  assert (Intent_Validate demoIntent = Ok tt) as Hi by (vm_compute; reflexivity).
  destruct (Route_cheapest demoAnnouncements t demoIntent Hc Ht) as [H _]. specialize (H Hi). rewrite Hr in H.
  destruct H as (_ & Hcomp & _). exists t, r. split_and!; [exact Ht|exact Hr|exact Hcomp|exact Hn].
Defined.
