(* ===== verification/HttpSpec.v ===== *)
(** * What the HTTP interface lets through

    [refused_without_credentials]: a request without the credential its route
    asks for leaves the world alone at every one of its actions, whatever else
    happens.  [operator_attribution]: the name an operator action is recorded
    under is the one configured for the token presented.  [receipts_page] and
    [malformed_price_is_a_fault]: the public listing of receipts, and a client's
    mistake that is answered as the server's. *)
From S2P Require Import Prelude GoText Prog Sha256 Json Money Domain Cluster Limits Tokens Settlement Keys Attest Probe Endpoint World Store Auth Market Agp Ledger Trade TradeSettlement Safety Preserve Handlers Listings System Metrics Routing Config RateLimit Http.

Section Spec.
Context `{IU : Unicode} `{IS : Solana} `{IJ : JWT} `{IB : Base58} `{IE : Ed25519} `{IN : NetURL} `{IT : SessionJWT}
  `{IF : Float64} `{IO : Folding}.
Context (convert_overflow : f64 → Z).

(** ** Programs that change nothing but the limiters *)
Fixpoint inert {A} (Q : A → Prop) (p : prog Process A) : Prop :=
  match p with
  | Ret a => Q a
  | Atomic f fl k =>
      (∀ st r st', f st = Some (r, st') → ps_world st' = ps_world st ∧ inert Q (k r)) ∧ (∀ r, fl = Some r → inert Q (k r))
  end.

Lemma inert_bind {A B} (Q : A → Prop) (Q' : B → Prop) (p : prog Process A) (f : A → prog Process B) :
  inert Q p → (∀ a, Q a → inert Q' (f a)) → inert Q' (prog_bind f p).
Proof.
  intros Hp Hf. induction p as [a|X g fl k IH]; cbn in *; [by apply Hf|]. destruct Hp as [H1 H2]. split.
  - intros st r st' Hg. destruct (H1 _ _ _ Hg). auto.
  - auto.
Qed.

Lemma inert_gate Q limiter next : inert (fun _ => True) limiter → inert Q next →
  (∀ d, Q (writeRateLimited convert_overflow d)) → inert Q (gate convert_overflow limiter next).
Proof. intros Hl Hn Hq. apply (inert_bind (fun _ => True)); [done|]. intros [[] d] _; [done|apply Hq]. Qed.

Lemma inert_ask_addresses key : inert (fun _ => True) (ask_addresses convert_overflow key).
Proof. split; [|done]. intros st r st'. destruct (ask _ _ _ _) as [[b d] l]. by intros [= <- <-]. Qed.
Lemma inert_ask_agents key : inert (fun _ => True) (ask_agents convert_overflow key).
Proof. split; [|done]. intros st r st'. destruct (ask _ _ _ _) as [[b d] l]. by intros [= <- <-]. Qed.

(** ** Sessions *)
Lemma authenticate_error au t header e : authenticate au t header = Err e → e = [ErrSessionInvalid].
Proof.
  unfold authenticate. destruct (negb _); [by intros [= <-]|]. destruct (String.eqb _ ""); [by intros [= <-]|].
  destruct (hs_parse _ _ _) as [a|]; cbn; [|by intros [= <-]]. destruct a as [l|]; cbn; [|by intros [= <-]].
  destruct l as [|x [|]]; cbn; try by intros [= <-]. destruct (ParsePublicKey x); cbn; by intros [= <-].
Qed.

(** The agents a header can authenticate as. *)
Definition may_be (s : Server) (header agentID : string) : Prop :=
  ∃ t, authenticate (dp_auth (hs_services s)) t header = Ok agentID.

Lemma inert_session s header :
  inert (fun r => match r with Ok a => may_be s header a | Err e => e = [ErrSessionInvalid] end) (over (session_of s header)).
Proof.
  unfold session_of. destruct (String.eqb _ ""); [done|]. split; [|done].
  intros st r st'. cbn. intros [= <- <-]. split; [done|]. cbn.
  destruct (authenticate _ _ _) as [a|e] eqn:E; cbn; [by exists (w_now (ps_world st))|by eapply authenticate_error].
Qed.

Lemma inert_authed (Q : Response → Prop) s header next :
  Q (errorStatus 401 "UNAUTHORIZED") → (∀ d, Q (writeRateLimited convert_overflow d)) →
  (∀ a, may_be s header a → inert Q (over (finish (next a)))) → inert Q (authed convert_overflow s header next).
Proof.
  intros H1 H2 H3. eapply inert_bind; [apply inert_session|]. intros [a|e].
  - intros Ha. apply inert_gate; [apply inert_ask_agents|by apply H3|exact H2].
  - intros ->. exact H1.
Qed.

(** The credential a request must carry for its route to act. *)
Definition entitled (s : Server) (rq : Request) : Prop :=
  match rq_Route rq with
  | Public _ => True
  | InSession (RPutCard id _) | InSession (RPublishOffer id _) => may_be s (rq_Authorization rq) id
  | InSession _ => ∃ agentID, may_be s (rq_Authorization rq) agentID
  | Admin _ => ∃ token, adminTokenFrom (rq_Authorization rq) = Ok token ∧ operator_for (hs_operators s) token ≠ ""
  end.

Definition refusal (r : Response) : Prop := rs_status r ∈ [401; 403; 404; 429].

(** C17: nothing happens without the credential.  A request for a session route whose
  header authenticates no agent, one that writes to a named agent's listing
  under another agent's session, and one for an operator route without a
  configured token: each is answered 401, 403, 404 or 429, and none of its
  actions changes the world, whatever other requests do in between. *)
Theorem refused_without_credentials s rq :
  ¬ entitled s rq → inert refusal (ServeHTTP convert_overflow s rq).
Proof.
  intros Hn. assert (∀ d, refusal (writeRateLimited convert_overflow d)) as Hrate by (intros d; right; right; right; left).
  apply inert_gate; [apply inert_ask_addresses| |exact Hrate]. unfold dispatch, entitled in *.
  assert (refusal (errorStatus 401 "UNAUTHORIZED")) as H401 by left.
  destruct (rq_Route rq) as [r|r|r]; [done| |].
  - apply inert_authed; [exact H401|exact Hrate|]. intros a Ha.
    assert (∀ named k, ¬ may_be s (rq_Authorization rq) named → inert refusal (over (finish (requireOwnAgent a named k)))) as Hown.
    { intros named k Hm. unfold requireOwnAgent. destruct (String.eqb_spec named a) as [->|]; [done|]. cbn. right; left. }
    destruct r; try (destruct Hn; by exists a); by apply Hown.
  - destruct (Nat.eqb _ 0); [right; right; left|]. unfold requireAdmin. destruct (Nat.eqb _ 0); [right; right; left|].
    destruct (adminTokenFrom _) as [token|] eqn:Et; [|exact H401].
    destruct (String.eqb_spec (operator_for (hs_operators s) token) "") as [|Hne]; [exact H401|]. destruct Hn. by exists token.
Qed.

(** ** Operators *)
Lemma operator_for_last ops token acc :
  let name := foldl (fun name op => if String.eqb (sha256_hex token) (ot_sum op) then ot_name op else name) acc ops in
  (name = acc ∧ ∀ op, op ∈ ops → ot_sum op ≠ sha256_hex token) ∨
  ∃ op, op ∈ ops ∧ ot_sum op = sha256_hex token ∧ name = ot_name op.
Proof.
  cbv zeta. revert acc. induction ops as [|op ops IH]; intros acc; cbn [foldl].
  - left. split; [done|]. intros op H. by apply not_elem_of_nil in H.
  - destruct (IH (if String.eqb (sha256_hex token) (ot_sum op) then ot_name op else acc)) as [[E H]|(o & Ho & Hs & E)].
    + destruct (String.eqb_spec (sha256_hex token) (ot_sum op)) as [Hs|Hs].
      * right. exists op. split_and!; [left|done|exact E].
      * left. split; [exact E|]. intros o [->|Ho]%elem_of_cons; [by intros Hc; apply Hs|by apply H].
    + right. exists o. split_and!; [by right|exact Hs|exact E].
Qed.

Lemma newOperatorTokens_elem legacy named t : t ∈ newOperatorTokens legacy named ↔
  (∃ o, o ∈ named ∧ op_Token o ≠ "" ∧ t = mkOperatorToken (if String.eqb (op_Name o) "" then "operator" else op_Name o) (sha256_hex (op_Token o))) ∨
  (legacy ≠ "" ∧ t = mkOperatorToken "operator" (sha256_hex legacy)).
Proof.
  unfold newOperatorTokens. rewrite elem_of_app, list_elem_of_fmap. split.
  - intros [(o & -> & Ho)|Hl].
    + apply list_elem_of_In, filter_In in Ho as [Ho%list_elem_of_In Hne%negb_true_iff%String.eqb_neq]. left. by exists o.
    + destruct (String.eqb_spec legacy ""); [by apply not_elem_of_nil in Hl|]. apply list_elem_of_singleton in Hl as ->. by right.
  - intros [(o & Ho & Hne & ->)|[Hne ->]].
    + left. exists o. split; [done|]. apply list_elem_of_In, filter_In. split; [by apply list_elem_of_In|].
      by apply negb_true_iff, String.eqb_neq.
    + right. rewrite (proj2 (String.eqb_neq legacy "") Hne). left.
Qed.

(** The configured tokens and the name each stands for. *)
Definition credential (cfg : Config) (token name : string) : Prop :=
  (∃ o, o ∈ cf_AdminOperators cfg ∧ op_Token o = token ∧ op_Name o = name) ∨
  (cf_AdminToken cfg ≠ "" ∧ cf_AdminToken cfg = token ∧ name = "operator").

Lemma credential_unique cfg token n1 n2 : unambiguous (cf_AdminToken cfg) (cf_AdminOperators cfg) →
  credential cfg token n1 → credential cfg token n2 → n1 = n2.
Proof.
  intros (_ & Ht & _ & Hl) [(o1 & H1 & E1 & N1)|(L1 & E1 & N1)] [(o2 & H2 & E2 & N2)|(L2 & E2 & N2)].
  - assert (o1 = o2) as ->; [|congruence].
    apply list_elem_of_lookup in H1 as [i Hi], H2 as [j Hj].
    assert (i = j) as ->; [|congruence].
    eapply (NoDup_lookup (map op_Token (cf_AdminOperators cfg))); [exact Ht| |];
      rewrite list_lookup_fmap, ?Hi, ?Hj; cbn; [reflexivity|congruence].
  - destruct (Hl L2) as [_ Hin]. destruct Hin. rewrite E2, <-E1. apply list_elem_of_fmap. by exists o1.
  - destruct (Hl L1) as [_ Hin]. destruct Hin. rewrite E1, <-E2. apply list_elem_of_fmap. by exists o2.
  - congruence.
Qed.

Lemma unambiguous_names cfg o : unambiguous (cf_AdminToken cfg) (cf_AdminOperators cfg) → o ∈ cf_AdminOperators cfg →
  op_Name o ≠ "" ∧ op_Token o ≠ "".
Proof.
  intros (_ & _ & Hf & _) Ho. rewrite Forall_forall in Hf. destruct (Hf o Ho) as [Hn Hl]. split; [done|].
  intros E. rewrite E in Hl. cbn in Hl. lia.
Qed.

(** An operator action is recorded under the name of the credential that was
  presented.  With the operators of an accepted configuration, a bearer token
  that is nobody's is refused; one that is somebody's acts under that operator's
  name and there is no other it could be; or two different texts with one
  SHA-256 digest are at hand. *)
Theorem operator_attribution `{IK : SolanaKeys} `{IR : Resolver} `{IX : FloatText} e args cfg s header token :
  Config.Parse e args = Ok cfg → hs_operators s = newOperatorTokens (cf_AdminToken cfg) (cf_AdminOperators cfg) →
  adminTokenFrom header = Ok token →
  let name := operator_for (hs_operators s) token in
  (name = "" ∧ ∀ n, ¬ credential cfg token n) ∨
  (name ≠ "" ∧ credential cfg token name ∧ ∀ n, credential cfg token n → n = name) ∨
  (∃ other n, credential cfg other n ∧ other ≠ token ∧ sha256_hex other = sha256_hex token).
Proof.
  intros Hcfg Hops _. cbv zeta. apply Parse_operators in Hcfg as Hu. rewrite Hops. unfold operator_for.
  destruct (operator_for_last (newOperatorTokens (cf_AdminToken cfg) (cf_AdminOperators cfg)) token "") as [[E Hno]|(t & Ht & Hs & E)].
  - left. split; [exact E|]. intros n [(o & Ho & Et & En)|(Hl & Et & En)].
    + apply (Hno (mkOperatorToken (if String.eqb (op_Name o) "" then "operator" else op_Name o) (sha256_hex (op_Token o)))).
      * apply newOperatorTokens_elem. left. exists o. split_and!; [exact Ho|by apply (unambiguous_names cfg o Hu)|done].
      * cbn. by rewrite Et.
    + apply (Hno (mkOperatorToken "operator" (sha256_hex (cf_AdminToken cfg)))).
      * apply newOperatorTokens_elem. by right.
      * cbn. by rewrite Et.
  - right. cbv zeta in E. rewrite E. clear E.
    assert (∃ other, credential cfg other (ot_name t) ∧ ot_name t ≠ "" ∧ sha256_hex other = sha256_hex token) as (other & Hc & Hne & Hh).
    { apply newOperatorTokens_elem in Ht as [(o & Ho & _ & ->)|[Hl ->]]; cbn [ot_name ot_sum] in *.
      - destruct (unambiguous_names cfg o Hu Ho) as [Hn _]. exists (op_Token o). rewrite (proj2 (String.eqb_neq _ _) Hn).
        split_and!; [left; by exists o|exact Hn|exact Hs].
      - exists (cf_AdminToken cfg). split_and!; [by right|done|exact Hs]. }
    destruct (decide (other = token)) as [->|Hd].
    + left. split_and!; [exact Hne|exact Hc|]. intros n Hn. by eapply credential_unique.
    + right. by exists other, (ot_name t).
Qed.

(** ** Listings and faults *)
Lemma run_finish (h : handler) w r w' : run h w = Some (r, w') →
  run (finish h) w = Some (match r with Ok resp => resp | Err e => writeError e end, w').
Proof. intros H. unfold finish. by rewrite run_bind, H. Qed.

(** Every receipt in the order of the ledger, newest first. *)
Definition listing (d : DB) : list Receipt :=
  omap (fun e => snd <$> (snd <$> list_find (fun '(_, x) => rc_TradeID x = le_TradeID e) (map_to_list (receipts d)))) (rev (ledger d)).

Lemma run_RecentReceipts signer n w :
  run (RecentReceipts signer n) w = Some (Ok (map (publish signer (w_now w)) (take n (listing (w_db w)))), w).
Proof. done. Qed.

(** The public list of receipts answers the newest ones, at least one and at most
  200 whatever the query asks for, and says it is cut exactly when there are more. *)
Theorem receipts_page s raw w :
  let all := listing (w_db w) in
  let n := Z.to_nat (receipts_limit raw) in
  (1 <= n <= 200)%nat ∧
  ∃ p, run (finish (handleListReceipts s raw)) w = Some (respond 200 (PReceipts p), w) ∧
    rp_receipts p = map (publish (sv_signer (dp_trade (hs_services s))) (w_now w)) (take n all) ∧
    rp_count p = Z.of_nat (length (rp_receipts p)) ∧ rp_truncated p = bool_decide (n < length all)%nat.
Proof.
  cbv zeta. assert (1 <= receipts_limit raw <= 200) as Hl.
  { unfold receipts_limit, receiptsMaxLimit, receiptsDefaultLimit. destruct (Z.leb_spec (Atoi_value raw) 0); lia. }
  split; [lia|]. set (n := Z.to_nat (receipts_limit raw)).
  assert (Z.to_nat (receipts_limit raw + 1) = S n) as Hn by lia.
  set (published := map (publish (sv_signer (dp_trade (hs_services s))) (w_now w)) (take (S n) (listing (w_db w)))).
  assert ((Z.of_nat (length published) >? receipts_limit raw) = bool_decide (n < length (listing (w_db w)))%nat) as Hcut.
  { unfold published. rewrite length_map, length_take. destruct (Z.gtb_spec (Z.of_nat (S n `min` length (listing (w_db w)))) (receipts_limit raw));
      symmetry; [apply bool_decide_eq_true|apply bool_decide_eq_false]; lia. }
  set (page := if Z.of_nat (length published) >? receipts_limit raw then take n published else published).
  exists (mkReceiptsPayload (Z.of_nat (length page)) (Z.of_nat (length published) >? receipts_limit raw) page
    (VerificationKeyIDs (sv_signer (dp_trade (hs_services s))))).
  split_and!; [| |done|exact Hcut].
  - match goal with |- _ = Some (?resp, _) => rewrite (run_finish _ w (Ok resp) w); [done|] end.
    unfold handleListReceipts. cbv zeta. rewrite Hn, run_io_bind, run_RecentReceipts. reflexivity.
  - cbn [rp_receipts]. unfold page. rewrite Hcut. unfold published. case_bool_decide.
    + rewrite firstn_map, take_take. f_equal. f_equal. lia.
    + rewrite !take_ge by lia. done.
Qed.

(** No error of the amount parser has a row in the table. *)
Lemma Parse_error_unmapped p e : Money.Parse p = Err e → writeError e = errorStatus 500 "INTERNAL".
Proof.
  intros H. assert (e = [ErrNonCanonical] ∨ e = [ErrNegative]) as [-> | ->]; [|reflexivity..].
  revert H. unfold Money.Parse. destruct (String.eqb p ""); [intros [= <-]; auto|]. destruct (has_prefix p "-"); [intros [= <-]; auto|].
  destruct (_ || _); [intros [= <-]; auto|]. destruct (cut "." p) as [[i f] h].
  repeat (match goal with |- (if ?b then _ else _) = _ → _ => destruct b end; [intros [= <-]; auto|]). done.
Qed.

(** A client's mistake is answered as the server's.  An active agent that
  publishes a well-formed offer whose price is no canonical decimal, "12,50"
  for one, is answered 500 INTERNAL, the code of a fault of the service, in
  every world; nothing is stored. *)
Theorem malformed_price_is_a_fault s agentID inp r w e :
  rg_requireOfferSig (dp_registry (hs_services s)) = false →
  agents (w_db w) !! agentID = Some r → a_status r = AgentActive → Money.Parse (no_PriceAmount inp) = Err e →
  run (finish (handlePublishOffer s agentID agentID (Some (mkPublishRequest inp "" "" None)))) w =
    Some (errorStatus 500 "INTERNAL", w).
Proof.
  intros Hreq Hr Hst Hp. rewrite <-(Parse_error_unmapped _ _ Hp).
  rewrite (run_finish _ w (Err e) w); [done|].
  unfold handlePublishOffer, requireOwnAgent. rewrite String.eqb_refl. cbn [negb decode pq_Offer pq_IdempotencyKey pq_OfferID pq_Attestation].
  rewrite run_io_bind. assert (run (PublishOffer (dp_registry (hs_services s)) agentID inp "" "" None) w = Some (Err e, w)) as ->; [|done].
  unfold PublishOffer. rewrite run_io_bind. cbn [run refuse lift ok bool_decide andb String.eqb].
  change (run (publish_new (dp_registry (hs_services s)) agentID inp "" "" None) w = Some (Err e, w)).
  unfold publish_new. rewrite run_io_bind, Hreq. cbn [andb]. change (run (refuse false [ErrOfferAttestationRequired]) w) with (Some (Ok tt, w)).
  cbv iota beta. rewrite run_io_bind. unfold GetAgent. change (run (query ?f) w) with (Some (f (w_db w), w)). cbv beta. rewrite Hr.
  cbv iota beta. rewrite run_io_bind. cbn [agent_Status scanAgent]. rewrite Hst.
  change (run (refuse _ [ErrAgentSuspended]) w) with (Some (Ok tt, w)). cbv iota beta. rewrite run_io_bind, Hp. done.
Qed.
End Spec.

(** ** Concrete requests *)
#[local] Existing Instances demoUnicode demoSolana demoJWT demoBase58 demoEd25519 demoNetURL demoSessionJWT
  demoFloat64 demoFolding demoKeys demoResolver demoFloatText.

Definition demoOperators : list (string * string) := acknowledged ++ [("VTESSERA_ADMIN_OPERATORS", "alice=" +:+ demoSecret)].
Definition demoOperatorTokens : list operatorToken := newOperatorTokens "" [mkOperator "alice" demoSecret].
Definition demoServer : Server := mkServer demoDeployment (Some demoRegistry) "0.1.0" "" false Localnet "genesis" demoOperatorTokens "".
Definition demoCancel : Request := mkRequest "" "" "10.0.0.9:1" (InSession (RCancel "uuid-0" NoBody)).

Lemma refused_without_credentials_witness :
  ¬ entitled demoServer demoCancel ∧ inert refusal (ServeHTTP (fun _ => 0) demoServer demoCancel).
Proof.
  assert (¬ entitled demoServer demoCancel) as Hn by (intros (a & t & H); discriminate H).
  split; [exact Hn|]. exact (refused_without_credentials (fun _ => 0) demoServer demoCancel Hn).
Defined.

Lemma operator_attribution_witness : ∃ cfg, Config.Parse (env_of demoOperators) [] = Ok cfg ∧
  credential cfg demoSecret "alice" ∧
  (operator_for (hs_operators demoServer) demoSecret = "alice" ∨
   ∃ other n, credential cfg other n ∧ other ≠ demoSecret ∧ sha256_hex other = sha256_hex demoSecret).
Proof.
  destruct (Config.Parse (env_of demoOperators) []) as [cfg|] eqn:H.
  2: { assert (is_ok (Config.Parse (env_of demoOperators) []) = true) as E by (vm_compute; reflexivity).
       rewrite H in E. discriminate E. }
  assert (cf_AdminToken cfg = "" ∧ cf_AdminOperators cfg = [mkOperator "alice" demoSecret]) as [Et Eo].
  { assert (match Config.Parse (env_of demoOperators) [] with
      | Ok c => (cf_AdminToken c, cf_AdminOperators c) | Err _ => ("?", []) end = ("", [mkOperator "alice" demoSecret])) as E
      by (vm_compute; reflexivity). rewrite H in E. injection E as E1 E2. by split. }
  assert (credential cfg demoSecret "alice") as Hc.
  { left. exists (mkOperator "alice" demoSecret). rewrite Eo. split; [left|split; reflexivity]. }
  exists cfg. split; [reflexivity|]. split; [exact Hc|].
  assert (hs_operators demoServer = newOperatorTokens (cf_AdminToken cfg) (cf_AdminOperators cfg)) as Eops by (rewrite Et, Eo; reflexivity).
  assert (adminTokenFrom ("Bearer " +:+ demoSecret) = Ok demoSecret) as Eh by (vm_compute; reflexivity).
  destruct (operator_attribution (env_of demoOperators) [] cfg demoServer ("Bearer " +:+ demoSecret) demoSecret H Eops Eh)
    as [[_ Hno]|[(_ & _ & Hu)|Hcol]].
  - destruct (Hno "alice" Hc).
  - left. symmetry. exact (Hu "alice" Hc).
  - right. exact Hcol.
Defined.

Definition demoListedOnly : World := default demoStart (play crash demoListed demoStart).
Definition demoMispriced : NewOffer := mkNewOffer DirectionAsk "a summary" ["summarize"] "12,50" demoMint [SettlementOffchain].

Lemma malformed_price_is_a_fault_witness :
  run (finish (handlePublishOffer demoServer demoSeller demoSeller (Some (mkPublishRequest demoMispriced "" "" None)))) demoListedOnly =
    Some (errorStatus 500 "INTERNAL", demoListedOnly).
Proof.
  destruct (agents (w_db demoListedOnly) !! demoSeller) as [r|] eqn:Hr.
  2: { assert (bool_decide (is_Some (agents (w_db demoListedOnly) !! demoSeller)) = true) as E by (vm_compute; reflexivity).
       rewrite Hr in E. discriminate E. }
  apply (malformed_price_is_a_fault demoServer demoSeller demoMispriced r demoListedOnly [ErrNonCanonical]).
  - reflexivity.
  - exact Hr.
  - assert (a_status <$> agents (w_db demoListedOnly) !! demoSeller = Some AgentActive) as E by (vm_compute; reflexivity).
    rewrite Hr in E. injection E as E. exact E.
  - vm_compute. reflexivity.
Defined.
