(* ===== verification/Boot.v ===== *)
(** * [cmd/vtessera]: from a command line to a serving process

    [main.go]: what is checked, opened and created in which order, and the
    services the process then serves with.  A host is its files, the database the
    source name leads to, and the chain behind the configured endpoint; each part
    of the start-up acts on one of them through [zoom].  Requests to the running
    process are [Http]'s. *)
From S2P Require Import Prelude GoText Prog Zoom Sha256 Money Domain Cluster Limits Tokens Settlement Keys Attest Probe World Files Migrate Endpoint Auth Market Preflight Ledger Keyring Trade TradeSettlement Mints Safety Config RateLimit Http.

(** ** The host *)
Record Host (C : Type) := mkHost { h_files : FS; h_store : Catalog; h_chain : C }.
Arguments mkHost {C}. Arguments h_files {C}. Arguments h_store {C}. Arguments h_chain {C}.

(** What the process listens with, and the work that runs beside the requests:
    [ru_reconciler] and [ru_mints] are there when settlement is. *)
Record Running := mkRunning {
  ru_addr : string; ru_requestTimeout : duration; ru_server : Server;
  ru_agents : option rateLimiter; ru_addresses : option rateLimiter;
  ru_reconciler : option ReconcilePolicy; ru_mints : option (Cluster * duration);
  ru_sweep : duration * Z }.
Inductive outcome := Printed (report : Report) | Serving (r : Running).

Definition DefaultReconcilePolicy : ReconcilePolicy := mkReconcilePolicy (15 * second) 50.
Definition governedAddresses (mints : option Registry) : list string :=
  match mints with None => [] | Some r => map tok_Address (List_ r) end.
Definition namedOperators (ops : list AdminOperator) : list AdminOperator := map (fun op => mkOperator (op_Name op) (op_Token op)) ops.

(** *** The services, with their options in the order they are applied *)
Definition NewSigningKey (private : privkey) : res privkey := if Nat.eqb (length private) PrivateKeySize then Ok private else Err [].
Definition AttestationSigner (s : Signer) : res privkey := NewSigningKey (sg_current s).

(** An option of the registrar changes one field; [registrar_New] applies them in order. *)
Definition Option_ : Type := Registrar → Registrar.
Definition WithPricer (priced : string → bool) : Option_ := fun s =>
  mkRegistrar (rg_mints s) (Some priced) (rg_requireOfferSig s) (rg_prober s) (rg_offerTTL s) (rg_market s) (rg_retired s).
Definition WithRequiredOfferAttestation (required : bool) : Option_ := fun s =>
  mkRegistrar (rg_mints s) (rg_priced s) required (rg_prober s) (rg_offerTTL s) (rg_market s) (rg_retired s).
Definition WithProbeRunner (prober : ProbeLimits) : Option_ := fun s =>
  mkRegistrar (rg_mints s) (rg_priced s) (rg_requireOfferSig s) (Some prober) (rg_offerTTL s) (rg_market s) (rg_retired s).
Definition WithOfferTTL (ttl : duration) : Option_ := fun s =>
  mkRegistrar (rg_mints s) (rg_priced s) (rg_requireOfferSig s) (rg_prober s) ttl (rg_market s) (rg_retired s).
Definition WithRetiredMarketplaceKeys (ids : list string) : Option_ := fun s =>
  mkRegistrar (rg_mints s) (rg_priced s) (rg_requireOfferSig s) (rg_prober s) (rg_offerTTL s) (rg_market s) ids.
Definition registrar_New (mints : option Registry) (market : privkey) (opts : list Option_) : Registrar :=
  fold_left (fun s opt => opt s) opts (mkRegistrar mints None false None 0 (Some market) []).
Definition registry_New (cfg : Config) (signer : Signer) (mints : option Registry) (market : privkey) : Registrar :=
  registrar_New mints market [WithPricer (Priced (Spend_Policy (cf_Spend cfg))); WithRequiredOfferAttestation (cf_RequireOfferAttestation cfg);
    WithProbeRunner (newRunner (mkProbeLimits (cf_ProbeTimeout cfg) (cf_ProbeMaxResponseBytes cfg))); WithOfferTTL (cf_OfferTTL cfg);
    WithRetiredMarketplaceKeys (sg_retiredBase58 signer)].

Definition trade_New (signer : Signer) : Service := mkService None false 0 0 signer None.
Definition WithLimits (sv : Service) (p : Policy) : Service :=
  mkService (Some p) true (sv_acceptTTL sv) (sv_openTTL sv) (sv_signer sv) (sv_settlement sv).
Definition WithAcceptanceTTL (sv : Service) (d : duration) : Service :=
  mkService (sv_limits sv) (sv_limitsStore sv) d (sv_openTTL sv) (sv_signer sv) (sv_settlement sv).
Definition WithOpenTTL (sv : Service) (d : duration) : Service :=
  mkService (sv_limits sv) (sv_limitsStore sv) (sv_acceptTTL sv) d (sv_signer sv) (sv_settlement sv).
Definition WithSettlement (sv : Service) (d : SettlementDeps) : Service :=
  mkService (sv_limits sv) (sv_limitsStore sv) (sv_acceptTTL sv) (sv_openTTL sv) (sv_signer sv) (Some d).

(** [httpapi.New] *)
Record Options := mkOptions {
  op_services : Deployment; op_tokens : option Registry; op_version : string; op_publicBaseURL : string;
  op_cluster : Cluster; op_genesis : string; op_sandbox : bool; op_adminToken : string;
  op_adminOperators : list AdminOperator; op_rate : RateLimit }.
Definition httpapi_New (o : Options) : Server * (option rateLimiter * option rateLimiter) :=
  let rl := op_rate o in
  (mkServer (op_services o) (op_tokens o) (op_version o) (trim_right (ceqb "/") (op_publicBaseURL o)) (op_sandbox o)
     (op_cluster o) (op_genesis o) (newOperatorTokens (op_adminToken o) (op_adminOperators o)) (rl_IPHeader rl),
   ((if 0 <? rl_AgentBurst rl then Some (newRateLimiter (rl_AgentRPS rl) (rl_AgentBurst rl)) else None),
    (if 0 <? rl_IPBurst rl then Some (newRateLimiter (rl_IPRPS rl) (rl_IPBurst rl)) else None))).

Section Main.
Context `{IU : Unicode} `{IK : SolanaKeys} `{IN : NetURL} `{IO : Folding} `{IR : Resolver} `{IB : Base58} `{IF : FloatText} `{IM : MintDecoder}.
Context {C : Type} (inner : rpcClient C).

Definition on_files {A} (p : prog FS A) : prog (Host C) A := zoom h_files (fun s h => mkHost s (h_store h) (h_chain h)) p.
Definition on_store {A} (p : prog Catalog A) : prog (Host C) A := zoom h_store (fun s h => mkHost (h_files h) s (h_chain h)) p.
Definition on_chain {A} (p : prog C A) : prog (Host C) A := zoom h_chain (fun s h => mkHost (h_files h) (h_store h) s) p.

Definition preflight_deps (cfg : Config) (mints : Registry) (policy : FeePolicy) : Deps :=
  mkDeps (so_Cluster (cf_Solana cfg)) (so_RPCURL (cf_Solana cfg)) (List_ mints) policy (so_LocalnetAllowHost (cf_Solana cfg)).
Definition governed_mints (cfg : Config) : res Registry := ForCluster (so_Cluster (cf_Solana cfg)) (so_LocalnetMints (cf_Solana cfg)).

Definition runPreflight (cfg : Config) : io (Host C) Report :=
  policy <~ lift (Config_FeePolicy cfg);;
  mints <~ lift (governed_mints cfg);;
  prog_bind (fun '(report, r) => match r with Ok _ => ok report | Err e => fail e end)
    (on_chain (preflight_Check (RPCClient inner) (preflight_deps cfg mints policy))).

(** The on-chain part of the services: the registrar over the governed set, and
    what the trade service settles with. *)
Definition wire (cfg : Config) (signer : Signer) (market : privkey) (trades : Service) : res (option Registry * Registrar * Service) :=
  if SettlementEnabled cfg then
    policy ← Config_FeePolicy cfg;
    mints ← governed_mints cfg;
    let unpriced := Rates_Missing (rates (Spend_Policy (cf_Spend cfg))) (governedAddresses (Some mints)) in
    _ ← guard_err (0 <? length unpriced)%nat [];
    Ok (Some mints, registry_New cfg signer (Some mints) market,
        WithSettlement trades (mkSettlementDeps mints policy (so_Cluster (cf_Solana cfg)) true true true
          (mkConfirmPolicy 0 0 0) (so_BlockhashTTL (cf_Solana cfg))))
  else Ok (None, registry_New cfg signer None market, trades).

Definition serving (cfg : Config) (report : option Report) (authority : Authority) (mints : option Registry) (registrar : Registrar) (trades : Service) : Running :=
  let genesis := match report with Some r => rp_GenesisHash r | None => "" end in
  let '(server, (agents, addresses)) := httpapi_New (mkOptions (mkDeployment trades registrar authority) mints (cf_Version cfg)
    (cf_PublicBaseURL cfg) (so_Cluster (cf_Solana cfg)) genesis (cf_Sandbox cfg) (cf_AdminToken cfg)
    (namedOperators (cf_AdminOperators cfg)) (cf_RateLimit cfg)) in
  let on := SettlementEnabled cfg in
  mkRunning (cf_Addr cfg) (cf_RequestTimeout cfg) server agents addresses
    (if on then Some DefaultReconcilePolicy else None)
    (if on then Some (so_Cluster (cf_Solana cfg), DefaultMintVerificationTTL) else None)
    (cf_ExpirySweepEvery cfg, cf_ExpirySweepBatch cfg).

Definition assemble (cfg : Config) (report : option Report) (signer : Signer) : res Running :=
  market ← AttestationSigner signer;
  authority ← auth_New (cf_SessionSecret cfg) [WithChallengeTTL (cf_ChallengeTTL cfg); WithSessionTTL (cf_SessionTTL cfg)];
  let trades := WithOpenTTL (WithAcceptanceTTL (WithLimits (trade_New signer) (Spend_Policy (cf_Spend cfg))) (cf_AcceptTTL cfg)) (cf_OpenTTL cfg) in
  wired ← wire cfg signer market trades;
  let '(mints, registrar, trades) := wired in
  Ok (serving cfg report authority mints registrar trades).

(** Everything after the start-up check: the database, the signing key, the services. *)
Definition provision (cfg : Config) (report : option Report) : io (Host C) Running :=
  _ <~ on_store store_Open;;
  _ <~ on_files MkdirAll;;
  '(signer, _) <~ on_files (LoadOrCreateSigner (cf_SignerKeyPath cfg));;
  lift (assemble cfg report signer).

Definition checked (cfg : Config) : io (Host C) (option Report) :=
  if SettlementEnabled cfg then report <~ runPreflight cfg;; ok (Some report) else ok None.
Definition run (e : environment) (args : list string) : io (Host C) outcome :=
  match Config.Parse e args with
  | Err err => fail err
  | Ok cfg =>
      report <~ checked cfg;;
      match report, cf_PreflightOnly cfg with
      | Some r, true => ok (Printed r)
      | _, _ => running <~ provision cfg report;; ok (Serving running)
      end
  end.

(** ** [vtessera key rotate] *)
Definition defaultSignerKeyPath (e : environment) : string :=
  let path := Getenv e "VTESSERA_SIGNER_KEY" in if String.eqb path "" then "data/signer.key" else path.
Definition runKey (e : environment) (args : list string) : io FS string :=
  match args with
  | "rotate" :: rest =>
      match flag_Parse [("signer-key", KString)] rest ∅ with
      | Parsed st _ => rotate_file (flag_string st "signer-key" (defaultSignerKeyPath e))
      | _ => fail []
      end
  | _ => fail []
  end.

(** [main]: the process ends with a status, or serves.  [config.ErrHelp()] is a
    new error at each call, so no error is it. *)
Inductive ending := Exit (status : Z) | Serves (r : Running).
Definition main (e : environment) (args : list string) : prog (Host C) ending :=
  match args with
  | "key" :: rest => prog_bind (fun r => Ret (Exit (if is_ok r then 0 else 1))) (on_files (runKey e rest))
  | _ => prog_bind (fun r => Ret (match r with Ok (Serving ru) => Serves ru | Ok (Printed _) => Exit 0 | Err _ => Exit 1 end)) (run e args)
  end.
End Main.

(** ** What an accepted start-up check reports, whatever the node does meanwhile *)
Section Report.
Context `{IK : SolanaKeys} `{IN : NetURL} `{IO : Folding} `{IR : Resolver} `{IM : MintDecoder}.

Definition check_passed (c : MintCheck) : Prop := mc_Verified c = true ∧ mc_AuthoritiesMatch c = true.
Record report_ok (d : Deps) (r : Report) : Prop := mkReportOk {
  ro_endpoint : CheckEndpoint (pd_Cluster d) (pd_Endpoint d) (pd_AllowHosts d) = Ok tt;
  ro_cluster : rp_Cluster r = pd_Cluster d;
  ro_genesis : Cluster.Verify (pd_Cluster d) (rp_GenesisHash r) = Ok tt;
  ro_mints : map mc_Address (rp_Mints r) = map tok_Address (pd_Mints d);
  ro_verified : Forall check_passed (rp_Mints r);
  ro_wallet : ∃ key, pk_parse (pk_print (fee_wallet (pd_FeePolicy d))) = Some key ∧ rp_FeeWallet r = pk_print key;
  ro_funded : rp_RentMinimum r <= rp_FeeBalance r }.

Abbreviation anyhow := (fun _ _ => True).
Lemma safe_anyhow {W A} (p : prog W A) w : safe anyhow anyhow anyhow p w.
Proof. revert w. induction p as [a|X f fl k IH]; cbn; intros w; [done|]. intros w1 _. split; [by split|by intros]. Qed.

Lemma safe_call {W A B} (m : io W A) (bad : error → prog W B) (k : A → prog W B) (Q : B → W → Prop) w :
  (∀ e w', safe anyhow anyhow Q (bad e) w') → (∀ a w', safe anyhow anyhow Q (k a) w') → safe anyhow anyhow Q (call m bad k) w.
Proof. intros Hb Hk. apply safe_bind. eapply safe_mono; [|apply safe_anyhow]. by intros [a|e] w' _. Qed.

Lemma judgeMint_ok mint info check : judgeMint mint info = (check, Ok tt) →
  mc_Address check = tok_Address mint ∧ (mc_Drift check = "" → check_passed check).
Proof.
  unfold judgeMint. repeat case_match; try done. intros [= <-]. cbn. split; [done|]. intros ->. by split.
Qed.

Context {W : Type} (node : RPC W).
Definition mint_ok (mint : Token) (x : MintCheck * res unit) (_ : W) : Prop :=
  x.2 = Ok tt → mc_Address x.1 = tok_Address mint ∧ (mc_Drift x.1 = "" → check_passed x.1).
Lemma checkMint_ok mint w : safe anyhow anyhow (mint_ok mint) (checkMint node mint) w.
Proof.
  unfold checkMint. destruct (pk_parse _); [|done]. apply safe_call; [done|]. intros info w'. cbn. unfold mint_ok.
  destruct (judgeMint mint info) as [check r] eqn:E. cbn. intros ->. by eapply judgeMint_ok.
Qed.

Definition passed (d : Deps) (x : Report * res unit) (_ : W) : Prop := x.2 = Ok tt → report_ok d x.1.
(** The report so far: the mints that have been checked, and whether one drifts. *)
Definition so_far (done_ : list Token) (report : Report) (drift : list string) : Prop :=
  map mc_Address (rp_Mints report) = map tok_Address done_ ∧ (drift = [] → Forall check_passed (rp_Mints report)).
Definition same_head (r r' : Report) : Prop :=
  rp_Cluster r' = rp_Cluster r ∧ rp_GenesisHash r' = rp_GenesisHash r.

Lemma check_mints_ok d k todo done_ report drift w : so_far done_ report drift →
  (∀ report' drift' w', so_far (done_ ++ todo) report' drift' → same_head report report' → safe anyhow anyhow (passed d) (k report' drift') w') →
  safe anyhow anyhow (passed d) (check_mints node report drift todo k) w.
Proof.
  revert done_ report drift w. induction todo as [|mint todo IH]; intros done_ report drift w Hs Hk.
  { apply Hk; [by rewrite app_nil_r|by split]. }
  apply (safe_bind anyhow anyhow). eapply safe_mono; [|apply checkMint_ok]. intros [check [[]|e]] w1 Hm; [|done].
  destruct (Hm eq_refl) as [Ha Hc]. cbn [fst snd] in Ha, Hc. apply (IH (done_ ++ [mint])).
  - destruct Hs as [H1 H2]. unfold so_far. cbn [rp_Mints with_mints]. split; [rewrite (map_app mc_Address), (map_app tok_Address), H1; cbn [map]; by rewrite Ha|]. intros Hd. apply Forall_app.
    destruct (String.eqb_spec (mc_Drift check) "") as [E|]; [|by destruct drift].
    split; [by apply H2|]. constructor; [by apply Hc|done].
  - intros report' drift' w' H1 H2. apply Hk; [by rewrite <-app_assoc in H1|]. exact H2.
Qed.

Lemma preflight_Check_ok d w : safe anyhow anyhow (passed d) (preflight_Check node d) w.
Proof.
  unfold preflight_Check. destruct (CheckEndpoint _ _ _) as [[]|e] eqn:He; [|done]. apply safe_call; [done|]. intros genesis w1.
  destruct (Cluster.Verify _ genesis) as [[]|e] eqn:Hv; [|done]. apply (check_mints_ok d _ _ []); [by split|].
  intros report drift w2 [H1 H2] [H3 H4]. destruct drift as [|x drift]; [|done]. cbn [length]. change (0 <? 0)%nat with false. cbv iota.
  apply safe_call; [done|]. intros rent w3. destruct (pk_parse _) as [key|] eqn:Hk; [|done]. apply safe_call; [done|].
  intros balance w4. cbn. unfold passed. cbn. destruct (Z.ltb_spec balance rent); [done|]. intros _. cbn in H3, H4.
  constructor; cbn; [done|done|by rewrite H4|exact H1|by apply H2|by exists key|done].
Qed.
End Report.

(** ** The start-up as a whole *)
Section Start.
Context `{IU : Unicode} `{IK : SolanaKeys} `{IN : NetURL} `{IO : Folding} `{IR : Resolver} `{IB : Base58} `{IF : FloatText} `{IM : MintDecoder}.
Context {C : Type} (inner : rpcClient C).
Implicit Types (h : Host C) (cfg : Config).

(** The chain moves, the files and the database do not. *)
Definition outside h h' : Prop := chance (h_files h) (h_files h') ∧ h_store h' = h_store h.
#[export] Instance outside_refl : Reflexive outside.
Proof. by intros h. Qed.
#[export] Instance outside_trans : Transitive outside.
Proof. intros h1 h2 h3 [A B] [A' B']. split; [by etrans|congruence]. Qed.

(** What the start-up check has established when it lets the process go on. *)
Definition cleared cfg (report : option Report) : Prop :=
  if SettlementEnabled cfg then
    ∃ policy mints r, Config_FeePolicy cfg = Ok policy ∧ governed_mints cfg = Ok mints ∧ report = Some r ∧ report_ok (preflight_deps cfg mints policy) r
  else report = None.

Lemma runPreflight_safe (S F : relation (Host C)) `{!Reflexive F} `{!Transitive F} cfg policy mints h :
  (∀ h h', S h h' → F h h') → (∀ c h, F h (mkHost (h_files h) (h_store h) c)) →
  Config_FeePolicy cfg = Ok policy → governed_mints cfg = Ok mints →
  safe S F (fun r h' => F h h' ∧ ∀ report, r = Ok report → report_ok (preflight_deps cfg mints policy) report) (runPreflight inner cfg) h.
Proof.
  intros HS HF Hp Hm. unfold runPreflight. rewrite Hp, Hm. cbn [lift io_bind prog_bind].
  apply safe_bind. eapply safe_mono; [|apply (zoom_safe h_chain (fun c h => mkHost (h_files h) (h_store h) c) (fun _ _ => eq_refl) (fun _ _ => True) S F F)
    with (Q := passed (preflight_deps cfg mints policy)) (G := fun _ _ => True) (w0 := h); [done|exact HS|exact HF|exact HF|done|apply preflight_Check_ok]].
  intros [r [[]|e]] h' [Hok HF']; cbn; (split; [exact HF'|]); [|done]. intros report [= <-]. by apply Hok.
Qed.

Lemma checked_safe (S F : relation (Host C)) `{!Reflexive F} `{!Transitive F} cfg h :
  (∀ h h', S h h' → F h h') → (∀ c h, F h (mkHost (h_files h) (h_store h) c)) →
  safe S F (fun r h' => F h h' ∧ ∀ report, r = Ok report → cleared cfg report) (checked inner cfg) h.
Proof.
  intros HS HF. unfold checked, cleared. destruct (SettlementEnabled cfg); [|by split; [|intros report [= <-]]].
  destruct (Config_FeePolicy cfg) as [policy|e] eqn:Hp; [|unfold runPreflight; rewrite Hp; by split].
  destruct (governed_mints cfg) as [mints|e] eqn:Hm; [|unfold runPreflight; rewrite Hp, Hm; by split].
  apply safe_io_bind. eapply safe_mono; [|by apply (runPreflight_safe S F cfg policy mints)].
  intros [r|e] h' [HF' Hok]; (split; [exact HF'|]); [|done]. intros report [= <-]. exists policy, mints, r. split_and!; [done..|by apply Hok].
Qed.

Lemma exec_snoc {W A} (env : relation W) (p q : prog W A) w w1 w2 : exec env p w q w1 → env w1 w2 → exec env p w q w2.
Proof.
  induction 1 as [p w|p w w0 q w' He _ IH|p w p1 w0 q w' Hn _ IH|p w p1 q w' Hn _ IH]; intros H2;
  [by eapply exec_env; [|constructor]|by eapply exec_env, IH|by eapply exec_act, IH|by eapply exec_fault, IH].
Qed.
(** After its end a program only sees the environment. *)
Lemma exec_after {W A B} (env : relation W) (p x : prog W A) (b : B) q w w1 w' :
  exec env p w x w1 → exec env (Ret b) w1 q w' → exec env p w x w'.
Proof.
  intros Hp H. remember (Ret b) as r eqn:E. revert E Hp. induction H as [r w1|r w1 w2 q w' He _ IH|r w1 p1 w2 q w' Hn|r w1 p1 q w' Hn]; intros ->; try done.
  intros Hp. apply IH; [done|]. by eapply exec_snoc.
Qed.

(** A program that is careful in an environment that is. *)
Lemma careful {A} (Q : A → Host C → Prop) (p q : prog (Host C) A) h h' : (∀ a h h', outside h h' → Q a h → Q a h') →
  safe outside outside Q p h → exec outside p h q h' → outside h h' ∧ safe outside outside Q q h'.
Proof.
  intros HQ Hs Hx. destruct (safe_exec outside outside outside (fun _ _ H => H) Q p q h h' HQ Hs Hx) as [Hq Hr]. split; [|exact Hq].
  clear -Hr. induction Hr as [x|x y z [H|H] _ IH]; [done|by etrans..].
Qed.

(** C27: nothing is opened or created before the start-up check has passed.  At every
    point of a start, whatever the chain does and whichever call fails, either the
    files and the database are as they were, or the configuration was accepted, the
    process is not one that only runs the check, and, when settlement is configured,
    the check has passed: the endpoint is allowed, the node's genesis hash is the
    declared cluster's, every governed mint is verified with its pinned authorities
    and the fee wallet is funded. *)
Theorem nothing_before_preflight e args h q h' : exec outside (run inner e args) h q h' →
  outside h h' ∨
  ∃ cfg report h1 q', Config.Parse e args = Ok cfg ∧ cleared cfg report ∧ (report = None ∨ cf_PreflightOnly cfg = false) ∧
    outside h h1 ∧ exec outside (provision cfg report) h1 q' h'.
Proof.
  unfold run. intros Hx. destruct (Config.Parse e args) as [cfg|err].
  2:{ left. by eapply (careful always (fail err)). }
  pose proof (checked_safe outside outside cfg h (fun _ _ H => H) (fun _ _ => conj (reflexivity _) eq_refl)) as Hs.
  assert (∀ p h1, exec outside (checked inner cfg) h p h1 → outside h h1 ∧ safe outside outside (fun r h' => outside h h' ∧ ∀ report, r = Ok report → cleared cfg report) p h1) as Hp.
  { intros p h1. apply careful; [|exact Hs]. intros a x y Hxy [H1 H2]. split; [by etrans|exact H2]. }
  apply exec_io_bind in Hx as [(p' & Hc & _)|[(err & Hc & _)|(report & h1 & Hc & Hrest)]].
  - left. by eapply Hp.
  - left. by eapply Hp.
  - apply Hp in Hc as Hc1. destruct Hc1 as [Hout [_ Hcl]]. specialize (Hcl report eq_refl).
    assert ((∃ o : res outcome, exec outside (Ret o) h1 q h') ∨ (report = None ∨ cf_PreflightOnly cfg = false) ∧
      exec outside (running <~ provision cfg report;; ok (Serving running)) h1 q h') as [[o Ho]|[Ho Hrun]].
    { destruct report as [r|]; [destruct (cf_PreflightOnly cfg)|]; [left; by eexists|right; by split; [right|]|right; by split; [left|]]. }
    + left. by eapply Hp, exec_after.
    + right. exists cfg, report, h1.
      apply exec_io_bind in Hrun as [(p' & H1 & _)|[(err & H1 & _)|(ru & h2 & H1 & H2)]]; [by exists p'|by eexists|].
      exists (Ret (Ok ru)). split_and!; [done..|]. by eapply exec_after.
Qed.

(** Other processes use the database as this one does, and nothing else touches the
    key file. *)
Definition around h h' : Prop := chance (h_files h) (h_files h') ∧ rely (h_store h) (h_store h').
#[export] Instance around_refl : Reflexive around.
Proof. by intros h. Qed.
#[export] Instance around_trans : Transitive around.
Proof. intros h1 h2 h3 [A B] [A' B']. split; by etrans. Qed.

(** The services of a running process, as the configuration and the check say. *)
Definition settles_as cfg (ru : Running) (mints : Registry) (r : Report) : Prop :=
  let s := ru_server ru in
  hs_tokens s = Some mints ∧ hs_genesis s = rp_GenesisHash r ∧
  (∃ d, sv_settlement (hs_services s) = Some d ∧ sd_Registry d = mints ∧ sd_Cluster d = so_Cluster (cf_Solana cfg) ∧
     Config_FeePolicy cfg = Ok (sd_Policy d) ∧ sd_Mints d = true ∧ sd_Genesis d = true ∧ attempts (sd_Confirm d) = 1) ∧
  ru_mints ru = Some (so_Cluster (cf_Solana cfg), 30 * second) ∧ ru_reconciler ru = Some (mkReconcilePolicy (15 * second) 50) ∧
  ∀ t, t ∈ List_ mints → Priced (Spend_Policy (cf_Spend cfg)) (tok_Address t) = true.
Definition serves_as cfg (signer : Signer) (ru : Running) : Prop :=
  let s := ru_server ru in let sv := dp_trade (hs_services s) in let rg := dp_registry (hs_services s) in
  sv_signer sv = signer ∧ rg_market rg = Some (sg_current signer) ∧ rg_retired rg = sg_retiredBase58 signer ∧
  sv_limits sv = Some (Spend_Policy (cf_Spend cfg)) ∧ sv_acceptTTL sv = cf_AcceptTTL cfg ∧ sv_openTTL sv = cf_OpenTTL cfg ∧
  rg_offerTTL rg = cf_OfferTTL cfg ∧ au_secret (dp_auth (hs_services s)) = cf_SessionSecret cfg ∧ rg_mints rg = hs_tokens s ∧
  hs_operators s = newOperatorTokens (cf_AdminToken cfg) (cf_AdminOperators cfg).

Lemma Missing_none (r : Rates) governed m : (0 <? length (Rates_Missing r governed))%nat = false → m ∈ governed → is_Some (r !! m).
Proof.
  intros Hl%Nat.ltb_ge Hm. destruct (r !! m) eqn:E; [by eexists|]. exfalso. unfold Rates_Missing in Hl.
  rewrite (Permutation_length (merge_sort_Permutation _ _)) in Hl. assert (m ∈ filter (fun m => r !! m = None) governed) as Hin by (by apply list_elem_of_filter).
  destruct (filter _ governed); [by apply not_elem_of_nil in Hin|cbn in Hl; lia].
Qed.

Lemma wire_services cfg report signer market authority trades mints registrar trades' r :
  wire cfg signer market trades = Ok (mints, registrar, trades') → SettlementEnabled cfg = true → report = Some r →
  ∃ m, governed_mints cfg = Ok m ∧ settles_as cfg (serving cfg report authority mints registrar trades') m r.
Proof.
  unfold wire. intros Hw Hon ->. rewrite Hon in Hw. apply res_bind_ok in Hw as (policy & Hp & Hw). apply res_bind_ok in Hw as (m & Hm & Hw).
  apply res_bind_ok in Hw as (? & Hl%guard_err_ok & [= <- <- <-]). exists m. split; [done|]. unfold settles_as, serving. rewrite Hon. cbn.
  split_and!; try done; [eexists; by split_and!|]. intros t Ht. apply bool_decide_eq_true.
  eapply Missing_none; [exact Hl|]. cbn. by apply list_elem_of_fmap_2.
Qed.

Lemma namedOperators_id ops : namedOperators ops = ops.
Proof. induction ops as [|[n t] ops IH]; [done|]. cbn. by f_equal. Qed.

(** What an assembled process serves with. *)
Definition serves cfg (report : option Report) (signer : Signer) (ru : Running) : Prop :=
  serves_as cfg signer ru ∧
  if SettlementEnabled cfg then ∀ r, report = Some r → ∃ m, governed_mints cfg = Ok m ∧ settles_as cfg ru m r
  else hs_tokens (ru_server ru) = None ∧ sv_settlement (hs_services (ru_server ru)) = None ∧ ru_reconciler ru = None.

Lemma assemble_serves cfg report signer ru : assemble cfg report signer = Ok ru → serves cfg report signer ru.
Proof.
  unfold assemble. intros H. apply res_bind_ok in H as (market & Hmk & H). apply res_bind_ok in H as (authority & Ha & H).
  apply res_bind_ok in H as ([[mints registrar] trades] & Hw & [= <-]).
  assert (market = sg_current signer) as ->.
  { unfold AttestationSigner, NewSigningKey in Hmk. destruct (Nat.eqb _ _); [by injection Hmk|done]. }
  assert (au_secret authority = cf_SessionSecret cfg) as Hs.
  { unfold auth_New in Ha. destruct (slen _ <? 32)%nat; [done|]. by injection Ha as <-. }
  split; [|destruct (SettlementEnabled cfg) eqn:Hon; [intros r Hr; by eapply wire_services|]].
  - unfold wire in Hw. unfold serves_as, serving. destruct (SettlementEnabled cfg).
    + apply res_bind_ok in Hw as (policy & Hp & Hw). apply res_bind_ok in Hw as (m & Hm & Hw).
      apply res_bind_ok in Hw as (? & _ & [= <- <- <-]). cbn. rewrite namedOperators_id. by split_and!.
    + injection Hw as <- <- <-. cbn. rewrite namedOperators_id. by split_and!.
  - unfold wire in Hw. rewrite Hon in Hw. injection Hw as <- <- <-. unfold serving. rewrite Hon. by cbn.
Qed.

(** *** The store, then the key, then the services *)
Definition provisioned cfg (report : option Report) (r : res Running) h : Prop :=
  tidy (h_store h) ∧ ∀ ru, r = Ok ru → complete (h_store h) ∧
    ∃ raw signer, read (h_files h) (cf_SignerKeyPath cfg) = Some raw ∧ parseSignerFile raw = Ok signer ∧ serves cfg report signer ru.

Lemma provisioned_around cfg report r h h' : around h h' → provisioned cfg report r h → provisioned cfg report r h'.
Proof.
  intros [Hc Hr] [T H]. destruct (Hr T) as [T' G]. split; [done|]. intros ru E. destruct (H ru E) as (Hcp & raw & signer & H1 & H2).
  split; [by eapply complete_grows|]. exists raw, signer. by rewrite (read_chance _ _ _ Hc).
Qed.

Definition key_ready cfg h : Prop :=
  holds_always (cf_SignerKeyPath cfg) (if_there is_keyring) (h_files h) ∧
  ∀ suffix, (Dir (cf_SignerKeyPath cfg) +:+ "/" +:+ ".signer.key.") +:+ suffix ≠ cf_SignerKeyPath cfg.

Definition files_kept h h' : Prop := chance (h_files h) (h_files h').
Definition store_kept h h' : Prop := rely (h_store h) (h_store h').
#[export] Instance files_kept_trans : Transitive files_kept.
Proof. intros h1 h2 h3. unfold files_kept. by etrans. Qed.
#[export] Instance store_kept_trans : Transitive store_kept.
Proof. intros h1 h2 h3. unfold store_kept. by etrans. Qed.

Lemma on_store_safe {A} (Q : A → Catalog → Prop) p h : safe rely rely Q p (h_store h) →
  safe around always (fun a h' => Q a (h_store h') ∧ files_kept h h') (on_store p) h.
Proof.
  intros H. refine (zoom_safe h_store (fun s h => mkHost (h_files h) s (h_chain h)) (fun _ _ => eq_refl) rely around files_kept always _ _ _ _ rely Q p h h _ H);
    [by intros ? ? []|by intros ? ? []|done|done|done].
Qed.
Lemma on_files_safe {A} (G : relation FS) (Q : A → FS → Prop) p h : safe chance G Q p (h_files h) →
  safe around always (fun a h' => Q a (h_files h') ∧ store_kept h h') (on_files p) h.
Proof.
  intros H. refine (zoom_safe h_files (fun s h => mkHost s (h_store h) (h_chain h)) (fun _ _ => eq_refl) chance around store_kept always _ _ _ _ G Q p h h _ H);
    [by intros ? ? []|by intros ? ? []|done|done|done].
Qed.

Lemma provision_safe `{!Base58Text} cfg report h : tidy (h_store h) → key_ready cfg h →
  safe around always (provisioned cfg report) (provision cfg report) h.
Proof.
  intros T [Hk Hname]. unfold provision. apply safe_io_bind.
  eapply safe_mono; [|by apply on_store_safe, store_Open_answers]. intros [[]|e] h1 [[T1 Hc1] Hf1]; [|by split].
  apply (keeps_chance _ _ _ _ Hf1) in Hk.
  assert (safe chance (into (holds_always (cf_SignerKeyPath cfg) (if_there is_keyring)))
    (fun _ s => holds_always (cf_SignerKeyPath cfg) (if_there is_keyring) s) MkdirAll (h_files h1)) as Hdir.
  { apply (safe_sys (cf_SignerKeyPath cfg)). intros s1 Hs1. cbn. by split_and!; eapply keeps_chance. }
  apply safe_io_bind. eapply safe_mono; [|by eapply on_files_safe]. intros r h2 [Hk2 Hr2]. destruct (Hr2 T1) as [T2 G2].
  destruct r as [[]|e]; [|by split].
  apply safe_io_bind. eapply safe_mono; [|eapply on_files_safe; by apply LoadOrCreateSigner_safe].
  intros r h3 [[_ Hl] Hr3]. destruct (Hr3 T2) as [T3 G3]. destruct r as [[signer created]|e]; [|by split].
  destruct (Hl signer created eq_refl) as (raw & Hraw & Hp). cbn. split; [done|]. intros ru Hru.
  split; [by eapply complete_grows, complete_grows|]. exists raw, signer. split_and!; [done..|by apply assemble_serves].
Qed.

(** C26: a process that serves, serves what it checked.  The database has the whole
    schema; the key file holds the keyring the service signs with, one key for
    tesserae and for listings, the retired ones with it; deadlines, caps, session
    secret and operators are the configured ones.  With settlement configured, the
    registrar, the trade service and the published list govern the same mints, those
    of the declared cluster, each verified at the start and each with a USD price,
    and the genesis hash the process reports is the one it checked; without it there
    is no mint registry and nothing settles on chain.  The confirmation policy is
    the zero one: a confirm asks the chain once. *)
Theorem serves_what_it_checked `{!Base58Text} e args h ru h' :
  tidy (h_store h) → (∀ cfg, Config.Parse e args = Ok cfg → key_ready cfg h) →
  exec around (run inner e args) h (Ret (Ok (Serving ru))) h' →
  ∃ cfg report signer raw, Config.Parse e args = Ok cfg ∧ cleared cfg report ∧ complete (h_store h') ∧
    read (h_files h') (cf_SignerKeyPath cfg) = Some raw ∧ parseSignerFile raw = Ok signer ∧ serves cfg report signer ru.
Proof.
  intros T Hkey Hx. assert (safe around always (fun r h' => ∀ ru, r = Ok (Serving ru) → ∃ cfg report, Config.Parse e args = Ok cfg ∧
    cleared cfg report ∧ provisioned cfg report (Ok ru) h') (run inner e args) h) as Hs.
  - unfold run. destruct (Config.Parse e args) as [cfg|err]; [|done]. specialize (Hkey cfg eq_refl) as Hready.
    apply safe_io_bind. eapply safe_mono; [|apply (safe_weaken around around); [done|by apply (checked_safe around around cfg h)]].
    intros [report|err] h1 [[Hf Hr] Hcl]; [|done]. specialize (Hcl report eq_refl). destruct (Hr T) as [T1 _].
    assert (key_ready cfg h1) as Hready1 by (destruct Hready; split; [by eapply keeps_chance|done]).
    assert (safe around always (fun r h' => ∀ ru, r = Ok (Serving ru) → ∃ cfg' report', Ok cfg = Ok cfg' ∧ cleared cfg' report' ∧ provisioned cfg' report' (Ok ru) h')
      (running <~ provision cfg report;; ok (Serving running)) h1) as Hgo.
    { apply safe_io_bind. eapply safe_mono; [|by apply provision_safe]. intros [ru'|err] h2 Hp; [|done]. cbn. intros ru'' [= <-]. by exists cfg, report. }
    by destruct report, (cf_PreflightOnly cfg).
  - apply (safe_exec around around always (fun _ _ H => H)) with (q := Ret (Ok (Serving ru))) (w' := h') in Hs as [Hend _]; [| |exact Hx].
    + destruct (Hend ru eq_refl) as (cfg & report & Hcfg & Hcl & T' & Hp). destruct (Hp ru eq_refl) as (Hc & raw & signer & H1 & H2 & H3).
      by exists cfg, report, signer, raw.
    + intros r x y Hxy Hr ru' E. destruct (Hr ru' E) as (cfg & report & H1 & H2 & H3). exists cfg, report. split_and!; [done..|]. by eapply provisioned_around.
Qed.

(** [-h] is a failure: the error of the flag package is not the one [main] compares
    with. *)
Lemma help_is_a_failure e : main inner e ["-h"] = Ret (Exit 1).
Proof. reflexivity. Qed.
End Start.

(** ** Witnesses: a first start on localnet, with a mint of its own *)
Definition demoMintDecoder : MintDecoder := {| decode_mint _ := Some (mkMint 6 true None None) |}.
#[local] Existing Instances demoUnicode demoKeys demoNetURL demoHex58 demoHex58_text demoFolding demoResolver demoFloatText demoMintDecoder.
Definition demoNode (balance : Z) : rpcClient unit :=
  mkRpcClient unit (ok (Some ("hash", 10))) (fun _ => ok (Some (mkAccountValue TokenProgram "mint"))) (fun _ => ok None) (ok "genesis")
    (fun _ => ok (Some balance)) (fun _ => ok 50).
Definition demoMintAddress : string := hex (replicate 32 5).
Definition demoLocalnet : list (string * string) :=
  [("VTESSERA_SESSION_SECRET", demoSecret); ("VTESSERA_RPC_URL", "https://agent.example"); ("VTESSERA_CLUSTER", "localnet");
   ("VTESSERA_LOCALNET_MINTS", demoMintAddress +:+ ":TST:6"); ("VTESSERA_SPEND_RATES", demoMintAddress +:+ "=1.00@6")].
Definition demoHost : Host unit := mkHost (mkFS ∅ [∅] 0 "1" None (demoKey 2)) emptyCatalog tt.
Definition demoBoot (balance : Z) : option (res outcome * Host unit) := Prog.run (run (demoNode balance) (env_of demoLocalnet) []) demoHost.

Definition settings_of (r : res Config) : option (string * bool * bool) :=
  match r with Ok c => Some (cf_SignerKeyPath c, SettlementEnabled c, cf_PreflightOnly c) | Err _ => None end.
Lemma demo_settings : settings_of (Config.Parse (env_of demoLocalnet) []) = Some (demoKeyFile, true, false).
Proof. vm_compute. reflexivity. Qed.

Lemma demoHost_ready cfg : Config.Parse (env_of demoLocalnet) [] = Ok cfg → key_ready cfg demoHost.
Proof.
  intros E. pose proof demo_settings as Hs. rewrite E in Hs. apply (inj Some) in Hs.
  assert (cf_SignerKeyPath cfg = demoKeyFile) as Hp by (by apply (f_equal (fun x => x.1.1)) in Hs). unfold key_ready. rewrite Hp. split.
  - split_and!; [done| |].
    + intros i [n Hn]. unfold demoHost in Hn. cbn [h_files fs_inodes] in Hn. by rewrite lookup_empty in Hn.
    + intros d ->%list_elem_of_singleton. unfold held. by rewrite lookup_empty.
  - intros suffix H. discriminate H.
Qed.

Lemma demoHost_tidy : tidy (h_store demoHost).
Proof.
  change (tidy emptyCatalog). assert (∀ v, ¬ applied emptyCatalog v) as Hno by (intros v; unfold applied, emptyCatalog; cbn [cat_applied]; rewrite lookup_empty; by intros []).
  assert (∀ t, cat_tables emptyCatalog !! t = None) as Ht by (intros t; apply lookup_empty).
  constructor.
  - intros t cols have _. by rewrite Ht.
  - intros v t cols _ []%Hno.
  - intros v t col _ []%Hno.
  - intros v t col have _. by rewrite Ht.
  - intros v i _ []%Hno.
  - intros []%Hno.
  - intros []%Hno.
Qed.

(** A wallet that cannot pay the rent: the files are as they were. *)
Lemma nothing_before_preflight_witness : ∃ h', exec outside (run (demoNode 10) (env_of demoLocalnet) []) demoHost (Ret (Err [ErrFeeWalletUnderfunded])) h' ∧
  (outside demoHost h' ∨ ∃ cfg report h1 q', Config.Parse (env_of demoLocalnet) [] = Ok cfg ∧ cleared cfg report ∧
    (report = None ∨ cf_PreflightOnly cfg = false) ∧ outside demoHost h1 ∧ exec outside (provision cfg report) h1 q' h').
Proof.
  assert (match demoBoot 10 with Some (Err e, _) => Some e | _ => None end = Some [ErrFeeWalletUnderfunded]) as E by (vm_compute; reflexivity).
  destruct (demoBoot 10) as [[r h']|] eqn:Hr; [|discriminate E]. exists h'. destruct r as [o|e]; [discriminate E|]. apply (inj Some) in E. rewrite E in Hr.
  unfold demoBoot in Hr. pose proof (run_exec outside _ _ _ _ Hr) as Hx. split; [exact Hx|]. exact (nothing_before_preflight (demoNode 10) _ _ _ _ _ Hx).
Defined.

Lemma serves_what_it_checked_witness : ∃ ru h' cfg report signer,
  exec around (run (demoNode 100) (env_of demoLocalnet) []) demoHost (Ret (Ok (Serving ru))) h' ∧
  SettlementEnabled cfg = true ∧ cleared cfg report ∧ complete (h_store h') ∧ serves cfg report signer ru.
Proof.
  assert (match demoBoot 100 with Some (Ok (Serving _), _) => true | _ => false end = true) as E by (vm_compute; reflexivity).
  destruct (demoBoot 100) as [[r h']|] eqn:Hr; [|discriminate E]. destruct r as [[|ru]|e]; [discriminate E| |discriminate E].
  unfold demoBoot in Hr. pose proof (run_exec around _ _ _ _ Hr) as Hx. pose proof demo_settings as Hs.
  destruct (serves_what_it_checked (demoNode 100) _ _ _ _ _ demoHost_tidy demoHost_ready Hx) as (cfg & report & signer & raw & H1 & H2 & H3 & _ & _ & H4).
  exists ru, h', cfg, report, signer. rewrite H1 in Hs. apply (inj Some), (f_equal (fun x => x.1.2)) in Hs.
  split; [exact Hx|]. split; [exact Hs|]. split; [exact H2|]. split; [exact H3|exact H4].
Defined.
