(* ===== verification/Caps.v ===== *)
(** * Spending caps: what [checkSpend] admits

    [Trade.checkSpend] prices a trade and the buyer's rows of the window with
    one price cache, adds them up in uint64 with an overflow test, and compares
    with two caps.  [checkSpend_enforces_caps] says that it admits exactly the
    trades that are within both caps as mathematical integers. *)
From S2P Require Import Prelude Prog Money Domain Cluster Limits Tokens Settlement World Store Ledger Trade.

(** ** Prices are 64-bit *)
Lemma ParseUint_range s n : ParseUint s = Ok n → is_uint64 n.
Proof.
  unfold ParseUint. destruct (String.eqb s ""); [done|].
  destruct (allDigits s) eqn:Hd; [cbn|done]. apply dec_bounds in Hd.
  destruct (Z.ltb_spec (dec s) two64); [|done]. intros [= <-]. unfold is_uint64. lia.
Qed.

Lemma BaseUnits_range a d n : BaseUnits a d = Ok n → is_uint64 n.
Proof.
  unfold BaseUnits. destruct (_ || _); [done|]. destruct (_ >? _); [done|].
  destruct (String.eqb _ ""); [intros [= <-]; by vm_compute|].
  unfold rewrap. destruct (ParseUint _) eqn:Hp; [|done]. intros [= <-]. by eapply ParseUint_range.
Qed.

Lemma USDValue_range p a m v : USDValue p a m = Ok v → is_uint64 v.
Proof.
  unfold USDValue. destruct (Rates_Lookup _ _) as [r|]; [|done].
  destruct (BaseUnits a _) as [u|] eqn:Hu; cbn [mbind res_bind]; [|done]. unfold toMicro, rewrap.
  destruct (IsZero _); [done|]. destruct (BaseUnits (rate_USD r) _) as [x|] eqn:Hx; cbn [mbind res_bind]; [|done].
  destruct (x =? 0); [done|]. intros [= <-]. apply BaseUnits_range in Hu, Hx.
  rewrite scaleToUSD_sat by done. unfold is_uint64, maxUint64 in *. assert (0 ≤ u * x / usdScaleFactor); [|unfold two64; lia].
  apply Z.div_pos; [nia|]. by vm_compute.
Qed.

(** ** The committed total *)
Definition total (vs : list Z) : Z := foldr Z.add 0 vs.

Lemma total_cons v vs : total (v :: vs) = v + total vs.
Proof. done. Qed.

(** Each row has its price under the policy. *)
Definition priced (p : Policy) : list SpendRow → list Z → Prop :=
  Forall2 (fun row v => USDValue p (sp_Amount row) (sp_Mint row) = Ok v).

Lemma priced_nonneg p rows vs : priced p rows vs → 0 ≤ total vs.
Proof.
  induction 1 as [|row v rows vs Hv _ IH]; [done|]. rewrite total_cons. apply USDValue_range in Hv. unfold is_uint64 in Hv. lia.
Qed.

Lemma priced_inj p rows vs vs' : priced p rows vs → priced p rows vs' → vs = vs'.
Proof.
  intros H1. revert vs'. induction H1 as [|row v rows vs Hv _ IH]; intros vs' H2; inversion H2; subst; [done|].
  f_equal; [congruence|by apply IH].
Qed.

Lemma price_cached c a m r c' : cache_ok c → PriceCache_USDValue c a m = (r, c') →
  r = USDValue (pc_policy c) a m ∧ cache_ok c' ∧ pc_policy c' = pc_policy c.
Proof. intros Hc E. pose proof (PriceCache_same c a m Hc) as H. by rewrite E in H. Qed.

(** The uint64 addition with its wrap test is exact, and refuses what does not
    fit. *)
Lemma add_rows_exact p c rows committed t : cache_ok c → pc_policy c = p → is_uint64 committed →
  add_rows c committed rows = Ok t ↔
  ∃ vs, priced p rows vs ∧ t = committed + total vs ∧ t < two64.
Proof.
  revert c committed. induction rows as [|row rows IH]; intros c committed Hc Hp Hr; cbn [add_rows].
  { split.
    - intros [= <-]. exists []. split_and!; [constructor|cbn; lia|apply Hr].
    - intros (vs & Hvs & -> & _). inversion Hvs; subst. cbn. f_equal. lia. }
  destruct (PriceCache_USDValue c _ _) as [r c'] eqn:E. destruct (price_cached _ _ _ _ _ Hc E) as (Hv & Hc' & Hp').
  rewrite Hp in Hv. rewrite Hp in Hp'. subst r.
  destruct (USDValue p (sp_Amount row) (sp_Mint row)) as [v|e] eqn:Hval.
  2: { split; [cbn; by destruct (errorIs e ErrNoRate)|]. intros (vs & Hvs & _). inversion Hvs; subst. congruence. }
  cbn [price_err mbind res_bind]. pose proof (USDValue_range _ _ _ _ Hval) as Hvr.
  assert (∀ vs, priced p rows vs → committed + (v + total vs) < two64 → committed + v < two64) as Hmono.
  { intros vs Hvs. pose proof (priced_nonneg _ _ _ Hvs). lia. }
  unfold is_uint64 in *. destruct (Z.ltb_spec (wrap64 (committed + v)) v) as [Hw|Hw].
  - split; [done|]. intros (vs & Hvs & -> & Hlt). inversion Hvs as [|? v' ? vs' Hv' Hvs']; subst. exfalso.
    assert (v' = v) as -> by congruence. rewrite total_cons in Hlt. specialize (Hmono _ Hvs' Hlt).
    unfold wrap64 in Hw. rewrite Z.mod_small in Hw by lia. lia.
  - assert (committed + v < two64) as Hlt.
    { destruct (Z_lt_le_dec (committed + v) two64); [done|]. exfalso. unfold wrap64 in Hw.
      rewrite <-(Z.mod_add _ (-1)), Z.mod_small in Hw; unfold two64 in *; lia. }
    unfold wrap64. rewrite Z.mod_small by lia. rewrite IH by (done || unfold is_uint64; lia).
    split.
    + intros (vs & Hvs & -> & Ht). exists (v :: vs). split_and!; [by constructor|rewrite total_cons; lia|lia].
    + intros (vs & Hvs & -> & Ht). inversion Hvs as [|? v' ? vs' Hv' Hvs']; subst.
      assert (v' = v) as -> by congruence. exists vs'. rewrite total_cons in *. split_and!; [done|lia|done].
Qed.

(** ** The check *)
Section Caps.
Context (sv : Service).

(** The caps in force for an agent: the stored opt-in, when it can be read. *)
Definition caps_of (p : Policy) (d : DB) (agent : string) : Limits :=
  if sv_limitsStore sv then
    match agent_limits d !! agent with
    | Some r => match Money.Parse (l_trade r), Money.Parse (l_day r) with
                | Ok t, Ok dd => Effective p (Some (t, dd))
                | _, _ => Effective p None
                end
    | None => Effective p None
    end
  else Effective p None.

(** The rows of the rolling window that are charged to the buyer. *)
Definition window_rows (p : Policy) (w : World) (buyer exclude : string) : res (list SpendRow) :=
  if sv_limitsStore sv then
    spend_rows (List.filter (fun '(id, r) => charged (w_db w) buyer (nanos (w_now w - Window p)) exclude id r)
      (map_to_list (trades (w_db w))))
  else Ok [].

Lemma run_effective p w agent :
  run (effective sv p agent) w = Some (Ok (caps_of p (w_db w) agent), w).
Proof.
  unfold effective, caps_of. destruct (sv_limitsStore sv); [|done].
  unfold on_result, GetAgentLimits, query. cbn [prog_bind run].
  destruct (agent_limits (w_db w) !! agent) as [r|]; [|done]. cbn [mbind res_bind].
  destruct (Money.Parse (l_trade r)) as [t|]; cbn [mbind res_bind]; [|done].
  by destruct (Money.Parse (l_day r)).
Qed.

Lemma run_committedSpend p w buyer exclude :
  run (committedSpend sv buyer (Window p) exclude) w = Some (window_rows p w buyer exclude, w).
Proof. unfold committedSpend, window_rows. by destruct (sv_limitsStore sv). Qed.

(** The trade is within both caps, as mathematical integers. *)
Definition within_caps (p : Policy) (w : World) (buyer : string) (amount : Amount) (mint exclude : string) : Prop :=
  ∃ v capT capD rows vs,
    USDValue p amount mint = Ok v ∧ CapMicro (lim_PerTrade (caps_of p (w_db w) buyer)) = Ok capT ∧
    CapMicro (lim_PerDay (caps_of p (w_db w) buyer)) = Ok capD ∧
    window_rows p w buyer exclude = Ok rows ∧ priced p rows vs ∧
    v ≤ capT ∧ v + total vs ≤ capD.

Lemma CapMicro_range c v : CapMicro c = Ok v → is_uint64 v.
Proof.
  unfold CapMicro, toMicro, rewrap. destruct (IsZero c); [done|].
  destruct (BaseUnits c USDScale) eqn:Hb; [|done]. intros [= <-]. by eapply BaseUnits_range.
Qed.

(** C12: under a policy, [checkSpend] admits a trade exactly when its value is
    within the buyer's per-trade cap, and that value together with the value of
    every row charged in the rolling window, added up without wrapping, is
    within the daily cap; whatever it answers, it changes nothing. *)
Theorem checkSpend_enforces_caps p w buyer amount mint exclude :
  sv_limits sv = Some p →
  ∃ r, run (checkSpend sv buyer amount mint exclude) w = Some (r, w) ∧
       (r = Ok tt ↔ within_caps p w buyer amount mint exclude).
Proof.
  intros Hp. unfold checkSpend, within_caps. rewrite Hp, run_io_bind, run_effective.
  set (caps := caps_of p (w_db w) buyer).
  destruct (PriceCache_USDValue (NewPriceCache p) amount mint) as [r c] eqn:Hc.
  apply price_cached in Hc as (-> & Hc & Hcp); [|apply NewPriceCache_ok]. cbn [pc_policy NewPriceCache] in *.
  rewrite run_io_bind. cbn [lift run].
  destruct (USDValue p amount mint) as [v|e] eqn:Hv.
  2: { cbn [price_err]. destruct (errorIs e ErrNoRate); (eexists; split; [done|naive_solver]). }
  cbn [price_err]. rewrite run_io_bind. cbn [lift run].
  destruct (CapMicro (lim_PerTrade caps)) as [capT|e] eqn:HT; [|eexists; split; [done|naive_solver]].
  rewrite run_io_bind. cbn [refuse run]. rewrite Z.gtb_ltb.
  destruct (Z.ltb_spec capT v) as [Hlt|Hle]; cbn [guard_err]; [eexists; split; [done|naive_solver lia]|].
  rewrite run_io_bind, run_committedSpend.
  destruct (window_rows p w buyer exclude) as [rows|e] eqn:Hrows; [|eexists; split; [done|naive_solver]].
  rewrite run_io_bind. cbn [lift run].
  pose proof (USDValue_range _ _ _ _ Hv) as Hvr.
  pose proof (fun t => add_rows_exact p c rows v t Hc Hcp Hvr) as Hadd.
  destruct (add_rows c v rows) as [t|e].
  2: { eexists; split; [done|]. split; [done|]. intros (v' & ? & capD & rows' & vs & ? & ? & HD & ? & Hpr & ? & Hle').
       exfalso. simplify_eq. apply CapMicro_range in HD. unfold is_uint64 in HD.
       destruct (Hadd (v' + total vs)) as [_ Hbad]. discriminate Hbad. exists vs. split_and!; [done|done|lia]. }
  rewrite run_io_bind. cbn [lift run]. destruct (proj1 (Hadd t) eq_refl) as (vs & Hpr & -> & Ht).
  destruct (CapMicro (lim_PerDay caps)) as [capD|e] eqn:HD; [|eexists; split; [done|naive_solver]].
  cbn [refuse run]. rewrite Z.gtb_ltb.
  destruct (Z.ltb_spec capD (v + total vs)) as [Hgt|Hle2]; cbn [guard_err].
  - eexists; split; [done|]. split; [done|]. intros (v' & ? & ? & rows' & vs' & ? & ? & ? & ? & Hpr' & ? & Hle').
    exfalso. simplify_eq. assert (vs' = vs) as -> by (eapply priced_inj; done). lia.
  - eexists; split; [done|]. split; [|done]. intros _. by exists v, capT, capD, rows, vs.
Qed.
End Caps.

(** Six dollars of the day's ten are taken, four are left. *)
Definition cappedService : Service := mkService (Some demoPolicy) true 0 0 demoSigner None.
Definition cappedWorld : World := demoWorld
  (with_trades emptyDB {["T" := mkTradeRow "O" "BUYER" "SELLER" "" "6" "M6" SettlementOffchain
     TradeAccepted None 5 5]}) (5 * second).

Lemma checkSpend_enforces_caps_witness :
  within_caps cappedService demoPolicy cappedWorld "BUYER" (mkAmount "4") "M6" "" ∧
  ¬ within_caps cappedService demoPolicy cappedWorld "BUYER" (mkAmount "4.000001") "M6" "".
Proof.
  split.
  - destruct (checkSpend_enforces_caps cappedService demoPolicy cappedWorld "BUYER" (mkAmount "4") "M6" "" eq_refl)
      as (r & Hr & Hiff). apply Hiff. vm_compute in Hr. injection Hr as <-. reflexivity.
  - destruct (checkSpend_enforces_caps cappedService demoPolicy cappedWorld "BUYER" (mkAmount "4.000001") "M6" "" eq_refl)
      as (r & Hr & Hiff). intros Hw. apply Hiff in Hw. subst r. vm_compute in Hr. discriminate Hr.
Defined.
