(* ===== verification/TradeSpec.v ===== *)
(** * What the trade operations do, run undisturbed

    Closed forms of the state-changing operations of [Trade] over the database:
    [move] is a state change with its event, [load] is a trade as [GetTrade]
    returns it.  The theorems give the answer and the new database on every
    branch; [System] covers what interleavings, failures and crashes can do. *)
From S2P Require Import Prelude Prog Money Domain Cluster Limits Tokens Settlement Keys Attest Probe World Store Auth Market Ledger Trade TradeSettlement Safety Preserve Handlers System.

(** ** Reading and moving *)

(** The trade [GetTrade] returns. *)
Definition load (d : DB) (id : string) : res Trade :=
  t ← selectTrade d id; Ok (with_acceptance t (acceptors d id)).

(** The state change of trade [id] with its event. *)
Definition move (w : World) (id : string) (r : TradeRow) (to : TradeState) (actor : string)
    (kind : TradeEventType) (detail : option json) : World :=
  let d1 := with_trades (w_db w) (<[id := set_state r to (nanos (w_now w))]> (trades (w_db w))) in
  with_db w (with_events d1 (events d1 ++
    [mkTradeEvent (Z.of_nat (length (events d1)) + 1) id actor kind (Some (t_state r)) to
       (Some (default [] detail)) (nanos (w_now w))])).

Lemma with_db_same w : with_db w (w_db w) = w.
Proof. by destruct w. Qed.

Lemma run_GetTrade w id : run (GetTrade id) w = Some (load (w_db w) id, w).
Proof.
  unfold GetTrade, load, tradeAcceptances. rewrite run_io_bind. unfold query at 1. cbn [run].
  destruct (selectTrade (w_db w) id) as [t|]; cbn [mbind res_bind]; [|done]. rewrite run_io_bind. done.
Qed.

Lemma load_Ok d id r : trades d !! id = Some r → is_ok (Money.Parse (t_amount r)) = true →
  ∃ t, load d id = Ok t ∧ tr_ID t = id ∧ tr_State t = t_state r ∧ tr_Buyer t = t_buyer r ∧
    tr_Seller t = t_seller r ∧ tr_Mode t = t_mode r ∧ tr_OfferID t = t_offer r ∧
    tr_Acceptances t = acceptors d id.
Proof.
  intros Hr Hp. unfold load, selectTrade, scanTrade. rewrite Hr.
  destruct (Money.Parse (t_amount r)) as [a|]; [|done]. eexists. split; [reflexivity|done].
Qed.

Lemma run_partyTrade w actor id t : load (w_db w) id = Ok t →
  run (partyTrade actor id) w = Some (if Party t actor then Ok t else Err [ErrNotParty], w).
Proof.
  intros Ht. unfold partyTrade. rewrite run_io_bind, run_GetTrade, Ht, run_io_bind.
  unfold refuse. by destruct (Party t actor).
Qed.

Lemma run_appendEvent w id r actor kind from to detail : trades (w_db w) !! id = Some r →
  run (appendEvent id actor kind from to detail) w =
  Some (Ok tt, with_db w (with_events (w_db w) (events (w_db w) ++
    [mkTradeEvent (Z.of_nat (length (events (w_db w))) + 1) id actor kind from to
       (Some (default [] detail)) (nanos (w_now w))]))).
Proof.
  intros Hr. unfold appendEvent. rewrite run_io_bind. cbn [now run]. rewrite run_io_bind.
  unfold AppendTradeEvent, write. cbn [run ev_TradeID ev_Actor ev_Type ev_From ev_To ev_Detail ev_CreatedAt].
  by rewrite Hr.
Qed.

(** A state change happens exactly from the state the caller read; otherwise
    nothing changes and the trade is read again. *)
Lemma run_applyAs w tr actor to detail ev r : trades (w_db w) !! tr_ID tr = Some r →
  run (applyAs tr actor to detail ev) w =
  match canTransition (tr_State tr) to with
  | None => Some (Err [ErrIllegalState], w)
  | Some kind =>
      if bool_decide (t_state r = tr_State tr) then
        let w' := move w (tr_ID tr) r to actor (default kind ev) detail in
        Some (load (w_db w') (tr_ID tr), w')
      else Some (load (w_db w) (tr_ID tr), w)
  end.
Proof.
  intros Hr. unfold applyAs. destruct (canTransition (tr_State tr) to) as [kind|]; [|done].
  rewrite run_io_bind. cbn [now run]. rewrite run_io_bind. unfold SetTradeState at 1, write. cbn [run].
  rewrite Hr. case_bool_decide as Hs; cbn [negb]; [|by rewrite with_db_same, run_GetTrade].
  rewrite run_io_bind.
  erewrite (run_appendEvent (with_db w _) (tr_ID tr) (set_state r to (nanos (w_now w)))).
  2: { db_simpl. apply lookup_insert_eq. }
  rewrite run_GetTrade. unfold move. db_simpl. by rewrite Hs.
Qed.

(** ** Accepting *)
Lemma acceptors_iff d id a : a ∈ acceptors d id ↔ is_Some (acceptances d !! (id, a)).
Proof.
  split; [apply acceptors_spec|]. intros [x Hx]. unfold acceptors. apply list_elem_of_fmap. exists (a, x).
  split; [done|]. rewrite stable_sort_perm. by apply acceptance_rows_spec.
Qed.

(** With two possible acceptors, both are on record exactly when there are two. *)
Lemma acceptors_two d id a b : a ≠ b → is_Some (acceptances d !! (id, a)) →
  (∀ x, is_Some (acceptances d !! (id, x)) → x = a ∨ x = b) →
  (length (acceptors d id) <? 2)%nat = negb (bool_decide (is_Some (acceptances d !! (id, b)))).
Proof.
  intros Hne Ha Honly. pose proof (acceptors_NoDup d id) as Hnd.
  case_bool_decide as Hb; cbn [negb].
  - apply Nat.ltb_ge. apply acceptors_iff in Ha, Hb. apply list_elem_of_split in Ha as (l1 & l2 & E).
    rewrite E in Hb |- *. rewrite length_app. cbn. apply elem_of_app in Hb as [Hb|Hb].
    + destruct l1; [by apply not_elem_of_nil in Hb|cbn; lia].
    + apply elem_of_cons in Hb as [?|Hb]; [done|]. destruct l2; [by apply not_elem_of_nil in Hb|cbn; lia].
  - apply Nat.ltb_lt. destruct (Nat.lt_ge_cases (length (acceptors d id)) 2); [done|].
    exfalso. apply Hb. apply acceptors_iff. eapply two_acceptors; [exact Hnd|done|].
    intros x Hx%acceptors_iff. by apply Honly.
Qed.

(** The other party of a trade. *)
Definition counterparty (r : TradeRow) (actor : string) : string :=
  if String.eqb actor (t_buyer r) then t_seller r else t_buyer r.

(** The acceptance of one agent, stored. *)
Definition accepted_by (w : World) (id actor : string) : World :=
  with_db w (with_acceptances (w_db w) (<[(id, actor) := nanos (w_now w)]> (acceptances (w_db w)))).

Lemma Party_row t r actor : tr_Buyer t = t_buyer r → tr_Seller t = t_seller r →
  Party t actor = true ↔ actor = t_buyer r ∨ actor = t_seller r.
Proof.
  intros <- <-. unfold Party. rewrite orb_true_iff, !String.eqb_eq. naive_solver.
Qed.

Section Accept.
Context `{IU : Unicode} `{IS : Solana} `{IJ : JWT} `{IB : Base58} `{IE : Ed25519} `{IN : NetURL} `{IT : SessionJWT}
  (sv : Deployment).

Lemma run_Accept_start w actor id r : wf sv w → trades (w_db w) !! id = Some r → t_state r = TradeNegotiating →
actor = t_buyer r ∨ actor = t_seller r →
run (Accept actor id) w =
run (inserted <~ AddTradeAcceptance id actor (w_now w);;
     if negb inserted then GetTrade id
     else updated <~ GetTrade id;;
       if (length (tr_Acceptances updated) <? 2)%nat then ok updated
       else apply updated actor TradeAccepted (acceptanceDetail updated)) w.
Proof.
intros Hw Hr Hs Hp. destruct (wf_parties sv w Hw id r Hr) as [_ Ham].
destruct (load_Ok _ _ _ Hr Ham) as (t & Ht & Hid & Hst & Hb & Hse & _).
unfold Accept. rewrite run_io_bind, (run_partyTrade w actor id t Ht).
rewrite (proj2 (Party_row t r actor Hb Hse) Hp). rewrite Hst, Hs. cbn [bool_decide orb negb].
rewrite !bool_decide_false, bool_decide_true by done. cbn [orb negb].
by rewrite run_io_bind.
Qed.

(** Accepting.  In a negotiated trade, a party's first acceptance is stored;
  if the counterparty has not accepted, the trade stays as it is and is
  returned; if it has, the same call moves the trade to [accepted], with one
  event that names both acceptors. *)
Theorem Accept_effect c actor id r :
reachable sv c → let w := c.1 in
trades (w_db w) !! id = Some r → t_state r = TradeNegotiating →
actor = t_buyer r ∨ actor = t_seller r → is_Some (agents (w_db w) !! actor) →
acceptances (w_db w) !! (id, actor) = None →
run (Accept actor id) w =
  let w1 := accepted_by w id actor in
  if bool_decide (is_Some (acceptances (w_db w) !! (id, counterparty r actor))) then
    let w2 := move w1 id r TradeAccepted actor EventAccepted
      (Some [("acceptedBy", JStrings (acceptors (w_db w1) id))]) in
    Some (load (w_db w2) id, w2)
  else Some (load (w_db w1) id, w1).
Proof.
intros Hc w Hr Hs Hp Hag Hacc. pose proof (reachable_wf sv c Hc) as Hw. fold w in Hw.
rewrite (run_Accept_start w actor id r Hw Hr Hs Hp). rewrite run_io_bind.
unfold AddTradeAcceptance, write. cbn [run]. rewrite Hacc, Hr.
rewrite (bool_decide_false (is_Some None)) by (by intros []).
rewrite !(bool_decide_false (_ = None)) by (done || by destruct Hag as [? ->]). cbn [negb].
change (with_db w _) with (accepted_by w id actor). set (w1 := accepted_by w id actor).
destruct (wf_parties sv w Hw id r Hr) as [Hne Ham].
assert (trades (w_db w1) !! id = Some r) as Hr1 by done.
destruct (load_Ok _ _ _ Hr1 Ham) as (t & Ht & Hid & Hst & Hb & Hse & _ & _ & Ha).
rewrite run_io_bind, run_GetTrade, Ht, Ha. cbv zeta.
assert (actor ≠ counterparty r actor ∧ (counterparty r actor = t_buyer r ∨ counterparty r actor = t_seller r))
  as [Hac Hcp].
{ unfold counterparty. destruct (String.eqb_spec actor (t_buyer r)); [subst; auto|split; [done|auto]]. }
rewrite (acceptors_two _ id actor (counterparty r actor) Hac).
- assert (acceptances (w_db w1) !! (id, counterparty r actor) = acceptances (w_db w) !! (id, counterparty r actor)) as ->.
  { unfold w1, accepted_by. db_simpl. apply lookup_insert_ne. congruence. }
  case_bool_decide as Hboth; cbn [negb]; [|done].
  unfold apply. rewrite (run_applyAs w1 t actor _ _ _ r) by (by rewrite Hid).
  rewrite Hst, Hs, Hid. cbn [canTransition transitions]. rewrite bool_decide_true by done. cbv zeta.
  unfold acceptanceDetail. by rewrite Ha.
- unfold w1, accepted_by. db_simpl. exists (nanos (w_now w)). apply lookup_insert_eq.
- intros x. unfold w1, accepted_by. db_simpl. destruct (decide (x = actor)) as [->|Hx]; [by left|].
  rewrite lookup_insert_ne by congruence. intros [y Hy].
  destruct (wf_acceptance sv w Hw id x y Hy) as (r' & Hr' & Hxp). right.
  assert (r' = r) as -> by congruence. unfold counterparty.
  destruct (String.eqb_spec actor (t_buyer r)); naive_solver.
Qed.

(** A retried acceptance never completes a trade.  When both acceptances are
  on record but the trade is still negotiating, as after a crash or an I/O
  failure between the insert and the state change, accepting again, by either
  party, changes nothing and returns the trade still negotiating. *)
Theorem Accept_stranded c actor id r :
reachable sv c → let w := c.1 in
trades (w_db w) !! id = Some r → t_state r = TradeNegotiating →
actor = t_buyer r ∨ actor = t_seller r → is_Some (acceptances (w_db w) !! (id, actor)) →
∃ t, run (Accept actor id) w = Some (Ok t, w) ∧ tr_ID t = id ∧ tr_State t = TradeNegotiating ∧
     tr_Acceptances t = acceptors (w_db w) id.
Proof.
intros Hc w Hr Hs Hp Hacc. pose proof (reachable_wf sv c Hc) as Hw. fold w in Hw.
destruct (wf_parties sv w Hw id r Hr) as [_ Ham].
destruct (load_Ok _ _ _ Hr Ham) as (t & Ht & Hid & Hst & _ & _ & _ & _ & Ha). exists t.
split_and!; [|done|by rewrite Hst|done].
rewrite (run_Accept_start w actor id r Hw Hr Hs Hp). rewrite run_io_bind.
unfold AddTradeAcceptance, write. cbn [run]. rewrite bool_decide_true by done. cbn [negb].
by rewrite with_db_same, run_GetTrade, Ht.
Qed.
End Accept.

(** ** Cancelling *)
Section Cancel.
Context `{IU : Unicode} `{IS : Solana} `{IJ : JWT} `{IB : Base58} `{IE : Ed25519} `{IN : NetURL} `{IT : SessionJWT}
  (sv : Deployment).

(** The time from which an accepted trade may be cancelled by a party. *)
Definition cancellable_from (d : DB) (id : string) : option time :=
if sv_acceptTTL sv <=? 0 then None
else match min_list (map snd (acceptance_rows d id)) with
| None => None
| Some at_ => if time_IsZero (at_ + sv_acceptTTL sv) then None else Some (at_ + sv_acceptTTL sv)
end.

Lemma run_acceptanceDeadline w t : tr_State t = TradeAccepted →
∃ dl, run (acceptanceDeadline sv t) w = Some (Ok dl, w) ∧
  cancellable_from (w_db w) (tr_ID t) = if time_IsZero dl then None else Some dl.
Proof.
intros Hs. unfold acceptanceDeadline, cancellable_from. rewrite Hs.
assert (time_IsZero zeroTime = true) as Hz by reflexivity.
destruct (Z.leb_spec (sv_acceptTTL sv) 0); cbn [orb]; [exists zeroTime; by rewrite Hz|].
rewrite bool_decide_true by done. cbn [negb]. rewrite run_io_bind. unfold TradeAcceptance, query. cbn [run].
destruct (min_list _) as [a|]; cbn [option_map]; eexists; (split; [reflexivity|]); [|by rewrite Hz].
unfold fromNanos. by destruct (time_IsZero _).
Qed.

(** Cancelling.  A party's cancellation is refused while a settlement
  transaction is live; an accepted trade can be cancelled only once its
  acceptance deadline has passed, and never when no deadline is configured; a
  proposed, negotiated or pending trade is cancelled at once, with one event;
  any other state refuses; and a refusal changes nothing. *)
Theorem Cancel_effect c actor id reason r live :
reachable sv c → let w := c.1 in
trades (w_db w) !! id = Some r → actor = t_buyer r ∨ actor = t_seller r → t_state r ≠ TradeCancelled →
run (liveSettlement sv id) w = Some (Ok live, w) →
let cancelled := let w' := move w id r TradeCancelled actor EventCancelled (reasonDetail reason) in
                 Some (load (w_db w') id, w') in
run (Cancel sv actor id reason) w =
  if live then Some (Err [ErrSettlementLive], w)
  else match t_state r with
  | TradeProposed | TradeNegotiating | TradeSettlementPending => cancelled
  | TradeAccepted =>
      match cancellable_from (w_db w) id with
      | None => Some (Err [ErrIllegalState], w)
      | Some deadline => if w_now w <? deadline then Some (Err [ErrNotExpiredYet], w) else cancelled
      end
  | _ => Some (Err [ErrIllegalState], w)
  end.
Proof.
intros Hc w Hr Hp Hne Hlive cancelled. pose proof (reachable_wf sv c Hc) as Hw. fold w in Hw.
destruct (wf_parties sv w Hw id r Hr) as [_ Ham].
destruct (load_Ok _ _ _ Hr Ham) as (t & Ht & Hid & Hst & Hb & Hse & _).
assert (run (apply t actor TradeCancelled (reasonDetail reason)) w =
  match canTransition (t_state r) TradeCancelled with
  | Some k => let w' := move w id r TradeCancelled actor k (reasonDetail reason) in Some (load (w_db w') id, w')
  | None => Some (Err [ErrIllegalState], w) end) as Happly.
{ unfold apply. rewrite (run_applyAs w t actor _ _ _ r) by (by rewrite Hid). rewrite Hst, Hid.
  destruct (canTransition _ _); [|done]. by rewrite bool_decide_true. }
unfold Cancel. rewrite run_io_bind, (run_partyTrade w actor id t Ht).
rewrite (proj2 (Party_row t r actor Hb Hse) Hp), Hst, bool_decide_false by done.
rewrite run_io_bind, Hlive, run_io_bind. cbn [refuse run]. destruct live; [done|]. cbn [guard_err].
rewrite run_io_bind. destruct (decide (t_state r = TradeAccepted)) as [Ha|Ha].
- rewrite Ha in *. rewrite bool_decide_true by done. rewrite run_io_bind.
  destruct (run_acceptanceDeadline w t Hst) as (dl & Hdl & Hfrom). rewrite Hdl, run_io_bind. rewrite Hid in Hfrom.
  rewrite Hfrom. cbn [refuse run]. destruct (time_IsZero dl); [done|]. cbn [guard_err].
  rewrite run_io_bind. cbn [now run refuse]. unfold before. destruct (w_now w <? dl); [done|]. cbn [guard_err].
  by rewrite Happly.
- rewrite bool_decide_false by done. cbn [ok run]. rewrite Happly. by destruct (t_state r).
Qed.
End Cancel.

(** ** Creating again with the same key *)
Section Create.
Context `{IU : Unicode} `{IS : Solana} `{IJ : JWT} `{IB : Base58} `{IE : Ed25519} `{IN : NetURL} `{IT : SessionJWT}
  (sv : Deployment).

(** A repeated idempotency key never creates a second trade: the trade stored
  under the key is returned, marked as not new, and nothing changes; whoever
  asks, and whatever offer is named.  In particular the caller need not be a
  party of the trade it is given. *)
Theorem Create_repeats c actor offerID key k r :
reachable sv c → let w := c.1 in
trades (w_db w) !! k = Some r → t_idem r = Some key → key ≠ "" →
∃ t r', run (Create sv actor offerID SettlementOffchain key) w = Some (Ok (t, false), w) ∧
  trades (w_db w) !! tr_ID t = Some r' ∧ t_idem r' = Some key ∧ tr_Buyer t = t_buyer r' ∧ tr_Seller t = t_seller r'.
Proof.
intros Hc w Hr Hkey Hne. pose proof (reachable_wf sv c Hc) as Hw. fold w in Hw.
unfold Create. apply String.eqb_neq in Hne. rewrite Hne. cbv zeta.
rewrite run_io_bind. cbn [refuse run].
replace (negb (SettlementMode_Valid _)) with false by reflexivity. cbn [guard_err].
rewrite run_io_bind. replace (String.eqb _ SettlementOnchain) with false by reflexivity. cbn [ok run].
unfold on_result. rewrite run_bind. unfold GetTradeByIdempotencyKey. rewrite run_io_bind. unfold query. cbn [run].
destruct (list_find _ (map_to_list (trades (w_db w)))) as [[i [k' r']]|] eqn:Hf.
2: { exfalso. apply list_find_None in Hf. rewrite Forall_forall in Hf.
     apply elem_of_map_to_list in Hr. by apply (Hf _ Hr). }
apply list_find_Some in Hf as (Hi & Hk' & _). apply list_elem_of_lookup_2, elem_of_map_to_list in Hi.
destruct (wf_parties sv w Hw k' r' Hi) as [_ Ham]. unfold scanTrade.
destruct (Money.Parse (t_amount r')) as [a|]; [|done]. rewrite run_io_bind. unfold tradeAcceptances, query.
cbn [run ok]. eexists. exists r'. split; [reflexivity|]. by split_and!.
Qed.
End Create.

(** ** Retiring *)

(** An agent with a resolved dispute can never be retired: the trade stays
  resolved, and every later attempt is refused as if the trade were live. *)
Theorem resolved_blocks_retirement `{IU : Unicode} `{IS : Solana} `{IJ : JWT} `{IB : Base58} `{IE : Ed25519}
  `{IN : NetURL} `{IT : SessionJWT} (sv : Deployment) c c' id r agent reason actor at_ :
reachable sv c → rtc (sys_step sv) c c' → trades (w_db c.1) !! id = Some r → t_state r = TradeResolved →
agent = t_buyer r ∨ agent = t_seller r →
run (RetireAgent agent reason actor at_) c'.1 = Some (Err [ErrAgentHasLiveTrades], c'.1).
Proof.
intros Hc Hs Hr Hst Hp. destruct (reachable_evo sv c c' Hc Hs) as [[He _] _].
destruct (evo_trades _ _ He id r Hr) as (r' & Hr' & (_ & Eb & Es & _) & Hsteps).
rewrite Hst in Hsteps. assert (t_state r' = TradeResolved) as Hst'.
{ destruct (terminal_steps _ _ Hsteps eq_refl) as [->|[? _]]; done. }
unfold RetireAgent. rewrite run_io_bind. unfold write. cbn [run].
assert ((0 <? length (liveTradeIDs (w_db c'.1) agent))%nat = true) as ->; [|done].
apply Nat.ltb_lt. assert (id ∈ liveTradeIDs (w_db c'.1) agent) as Hin.
{ unfold liveTradeIDs, trade_ids_by. apply list_elem_of_fmap. exists (id, r'). split; [done|].
  rewrite stable_sort_perm, list_elem_of_In, filter_In, <-list_elem_of_In. split; [by apply elem_of_map_to_list|].
  rewrite Hst'. cbn [finished negb]. rewrite andb_true_r. apply orb_true_iff. rewrite !String.eqb_eq.
  rewrite <-Eb, <-Es. destruct Hp; auto. }
destruct (liveTradeIDs _ _); [by apply not_elem_of_nil in Hin|cbn; lia].
Qed.

(** ** Waiting for a transaction *)
Lemma double_exact n delay : 0 ≤ delay → delay * 2 ^ Z.of_nat n < 9223372036854775808 →
  double n delay = delay * 2 ^ Z.of_nat n.
Proof.
  revert delay. induction n as [|n IH]; intros delay H0 Hlt; [cbn; lia|].
  rewrite Nat2Z.inj_succ, Z.pow_succ_r in * by lia. cbn [double]. rewrite Z.gtb_ltb.
  assert (1 ≤ 2 ^ Z.of_nat n) by (pose proof (Z.pow_pos_nonneg 2 (Z.of_nat n)); lia).
  destruct (Z.ltb_spec 0 delay); [|nia].
  rewrite int64_id by nia. rewrite IH; nia.
Qed.

(** The wait after the [n]-th attempt doubles from the configured backoff and is
  capped by the maximal delay, exactly, as long as the doubling fits 64 bits. *)
Theorem delayFor_doubles p n :
  0 ≤ cp_Backoff p → 0 < cp_MaxDelay p → (1 ≤ n)%nat →
  cp_Backoff p * 2 ^ Z.of_nat (n - 1) < 9223372036854775808 →
  delayFor p n = Z.min (cp_Backoff p * 2 ^ Z.of_nat (n - 1)) (cp_MaxDelay p).
Proof.
  intros Hb Hm Hn Hlt. unfold delayFor. rewrite double_exact by done. cbv zeta.
  rewrite !Z.gtb_ltb. destruct (Z.ltb_spec 0 (cp_MaxDelay p)), (Z.ltb_spec (cp_MaxDelay p) (cp_Backoff p * 2 ^ Z.of_nat (n - 1)));
    cbn [andb]; lia.
Qed.

(** ** Witnesses *)
#[local] Existing Instances demoUnicode demoSolana demoJWT demoBase58 demoEd25519 demoNetURL demoSessionJWT.

Definition seller_to_accept (w w' : World) : bool :=
  match trades (w_db w) !! "uuid-0" with
  | Some r => bool_decide (t_state r = TradeNegotiating ∧ demoSeller = t_seller r ∧
      is_Some (agents (w_db w) !! demoSeller) ∧ acceptances (w_db w) !! ("uuid-0", demoSeller) = None ∧
      is_Some (acceptances (w_db w) !! ("uuid-0", counterparty r demoSeller)))
  | None => false
  end.

Lemma Accept_effect_witness :
  ∃ c w', demo_reachable c ∧ run (Accept demoSeller "uuid-0") c.1 = Some (load (w_db w') "uuid-0", w') ∧
    in_state w' "uuid-0" TradeAccepted = true.
Proof.
  destruct (demo_run (demoOpen ++ [Call (CallAccept demoBuyer "uuid-0")]) [] seller_to_accept)
    as (c & c' & Hc & _ & HP); [allowed|allowed|vm_compute; reflexivity|].
  unfold seller_to_accept in HP. destruct (trades (w_db c.1) !! "uuid-0") as [r|] eqn:Hr; [|discriminate].
  apply bool_decide_eq_true in HP as (Hs & Hp & Hag & Hacc & Hother).
  pose proof (Accept_effect demoDeployment c demoSeller "uuid-0" r
    Hc Hr Hs (or_intror Hp) Hag Hacc) as Hrun. cbv zeta in Hrun. rewrite bool_decide_true in Hrun by exact Hother.
  exists c. eexists. split; [exact Hc|]. split; [exact Hrun|].
  unfold in_state, move. db_simpl. rewrite lookup_insert_eq. apply bool_decide_eq_true. reflexivity.
Defined.

(** The seller's acceptance is stored, and the process dies before the state
    changes. *)
Definition stranded (w w' : World) : bool :=
  match trades (w_db w) !! "uuid-0" with
  | Some r => bool_decide (t_state r = TradeNegotiating ∧ demoSeller = t_seller r ∧ demoBuyer = t_buyer r ∧
      is_Some (acceptances (w_db w) !! ("uuid-0", demoSeller)) ∧ is_Some (acceptances (w_db w) !! ("uuid-0", demoBuyer)))
  | None => false
  end.

Lemma Accept_stranded_witness :
  ∃ c t t', demo_reachable c ∧
    run (Accept demoSeller "uuid-0") c.1 = Some (Ok t, c.1) ∧ tr_State t = TradeNegotiating ∧
    run (Accept demoBuyer "uuid-0") c.1 = Some (Ok t', c.1) ∧ tr_State t' = TradeNegotiating.
Proof.
  destruct (demo_run (demoOpen ++ [Call (CallAccept demoBuyer "uuid-0"); Dies (CallAccept demoSeller "uuid-0") 4]) []
    stranded) as (c & c' & Hc & _ & HP); [allowed|allowed|vm_compute; reflexivity|].
  unfold stranded in HP. destruct (trades (w_db c.1) !! "uuid-0") as [r|] eqn:Hr; [|discriminate].
  apply bool_decide_eq_true in HP as (Hs & Hp & Hp' & Hacc & Hacc').
  destruct (Accept_stranded demoDeployment c demoSeller "uuid-0" r
    Hc Hr Hs (or_intror Hp) Hacc) as (t & Ht & _ & Hst & _).
  destruct (Accept_stranded demoDeployment c demoBuyer "uuid-0" r
    Hc Hr Hs (or_introl Hp') Hacc') as (t' & Ht' & _ & Hst' & _).
  exists c, t, t'. split_and!; [exact Hc|exact Ht|exact Hst|exact Ht'|exact Hst'].
Defined.

Lemma delayFor_doubles_witness :
  delayFor DefaultConfirmPolicy 2 = Z.min (500000000 * 2 ^ 1) (2 * second) ∧
  delayFor DefaultConfirmPolicy 3 = 2 * second.
Proof.
  split; [apply (delayFor_doubles DefaultConfirmPolicy 2)|vm_compute; reflexivity];
    vm_compute; try reflexivity; try discriminate; lia.
Defined.

(** An accepted trade, before and after its deadline. *)
Definition accepted_trade (w w' : World) : bool :=
  match trades (w_db w) !! "uuid-0" with
  | Some r => bool_decide (t_state r = TradeAccepted ∧ demoSeller = t_seller r ∧
      cancellable_from demoDeployment (w_db w) "uuid-0" = Some (5 * second + hour)) &&
      match run (liveSettlement demoDeployment "uuid-0") w with Some (Ok false, _) => true | _ => false end
  | None => false
  end.

Lemma run_liveSettlement_world w a w' :
  run (liveSettlement demoDeployment "uuid-0") w = Some (a, w') → w' = w.
Proof.
  unfold liveSettlement. cbn [Trade.Enabled demoDeployment dp_trade demoService sv_settlement demoDeps sd_Cluster].
  replace (String.eqb Localnet "") with false by reflexivity.
  rewrite run_io_bind. cbn [now run]. unfold on_result. rewrite run_bind.
  unfold LiveSettlementRequest, query. cbn [run].
  destruct (scan_one _); [by intros [= _ <-]|]. destruct (errorIs _ _); by intros [= _ <-].
Qed.

Lemma Cancel_effect_witness :
  ∃ c c', demo_reachable c ∧ rtc demo_step c c' ∧
    run (Cancel demoDeployment demoSeller "uuid-0" "") c.1 = Some (Err [ErrNotExpiredYet], c.1) ∧
    ∃ w', run (Cancel demoDeployment demoSeller "uuid-0" "") c'.1 = Some (load (w_db w') "uuid-0", w') ∧
          in_state w' "uuid-0" TradeCancelled = true.
Proof.
  destruct (demo_run (demoOpen ++ [Call (CallAccept demoBuyer "uuid-0"); Call (CallAccept demoSeller "uuid-0")])
      [Wait hour] (fun w w' => accepted_trade w w && accepted_trade w' w' &&
        bool_decide (w_now w = 5 * second ∧ w_now w' = 5 * second + hour)))
    as (c & c' & Hc & Hs & HP); [allowed|allowed|vm_compute; reflexivity|].
  apply andb_true_iff in HP as [HP Hnow]. apply andb_true_iff in HP as [H1 H2]. apply bool_decide_eq_true in Hnow as [N1 N2].
  assert (demo_reachable c') as Hc'.
  { destruct Hc as (w0 & H0 & Hr0). exists w0. split; [exact H0|]. etrans; [exact Hr0|exact Hs]. }
  unfold accepted_trade in H1, H2.
  destruct (trades (w_db c.1) !! "uuid-0") as [r|] eqn:Hr; [|discriminate].
  destruct (trades (w_db c'.1) !! "uuid-0") as [r'|] eqn:Hr'; [|discriminate].
  apply andb_true_iff in H1 as [D1 L1]. apply andb_true_iff in H2 as [D2 L2].
  apply bool_decide_eq_true in D1 as (S1 & P1 & F1). apply bool_decide_eq_true in D2 as (S2 & P2 & F2).
  destruct (run (liveSettlement demoDeployment "uuid-0") c.1) as [[[[]|] w1]|] eqn:R1; try discriminate L1.
  destruct (run (liveSettlement demoDeployment "uuid-0") c'.1) as [[[[]|] w2]|] eqn:R2; try discriminate L2.
  assert (w1 = c.1) as -> by (eapply run_liveSettlement_world; exact R1).
  assert (w2 = c'.1) as -> by (eapply run_liveSettlement_world; exact R2).
  exists c, c'. split_and!; [exact Hc|exact Hs| |].
  - rewrite (Cancel_effect demoDeployment c demoSeller "uuid-0" "" r false
      Hc Hr (or_intror P1) ltac:(rewrite S1; discriminate) R1).
    rewrite S1, F1, N1. reflexivity.
  - rewrite (Cancel_effect demoDeployment c' demoSeller "uuid-0" "" r' false
      Hc' Hr' (or_intror P2) ltac:(rewrite S2; discriminate) R2).
    rewrite S2, F2, N2. eexists. split; [reflexivity|].
    unfold in_state, move. db_simpl. rewrite lookup_insert_eq. apply bool_decide_eq_true. reflexivity.
Defined.

(** A stranger who knows the key is given the parties' trade. *)
Lemma Create_repeats_witness :
  ∃ c t, demo_reachable c ∧
    run (Create demoDeployment "STRANGER" "no-such-offer" SettlementOffchain "key") c.1 = Some (Ok (t, false), c.1) ∧
    tr_Buyer t ≠ "STRANGER" ∧ tr_Seller t ≠ "STRANGER".
Proof.
  destruct (demo_run demoOpen [] (fun w _ => match trades (w_db w) !! "uuid-0" with
      | Some r => bool_decide (t_idem r = Some "key") | None => false end &&
      bool_decide (map_Forall (fun _ r => t_buyer r ≠ "STRANGER" ∧ t_seller r ≠ "STRANGER") (trades (w_db w)))))
    as (c & c' & Hc & _ & HP); [allowed|allowed|vm_compute; reflexivity|].
  apply andb_true_iff in HP as [HP Hall]. apply bool_decide_eq_true in Hall.
  destruct (trades (w_db c.1) !! "uuid-0") as [r|] eqn:Hr; [|discriminate]. apply bool_decide_eq_true in HP.
  destruct (Create_repeats demoDeployment c "STRANGER" "no-such-offer" "key" "uuid-0" r
    Hc Hr HP ltac:(discriminate)) as (t & r' & Hrun & Hr' & _ & Hb & Hse).
  exists c, t. rewrite Hb, Hse. split; [exact Hc|]. split; [exact Hrun|]. exact (Hall _ _ Hr').
Defined.

Lemma resolved_blocks_retirement_witness :
  ∃ c, demo_reachable c ∧ in_state c.1 "uuid-0" TradeResolved = true ∧
    run (RetireAgent demoBuyer "closing" "OPERATOR" (9 * hour)) c.1 = Some (Err [ErrAgentHasLiveTrades], c.1).
Proof.
  destruct (demo_run (demoAgree ++ [Call (CallDispute demoBuyer "uuid-0" "late");
      Call (CallResolve "OPERATOR" "uuid-0" ResolutionReleased "settled by hand")]) []
      (fun w _ => match trades (w_db w) !! "uuid-0" with
        | Some r => bool_decide (t_state r = TradeResolved ∧ demoBuyer = t_buyer r) | None => false end))
    as (c & c' & Hc & _ & HP); [allowed|allowed|vm_compute; reflexivity|].
  destruct (trades (w_db c.1) !! "uuid-0") as [r|] eqn:Hr; [|discriminate].
  apply bool_decide_eq_true in HP as [Hst Hb]. exists c. split_and!; [exact Hc| |].
  - unfold in_state. rewrite Hr. apply bool_decide_eq_true. exact Hst.
  - exact (resolved_blocks_retirement demoDeployment c c "uuid-0" r demoBuyer "closing"
      "OPERATOR" (9 * hour) Hc (rtc_refl _ _) Hr Hst (or_introl Hb)).
Defined.
