(* ===== verification/Faults.v ===== *)
(** * Payments the service loses track of

    The chain holds the payment, the database does not follow: what
    [ConfirmSettlement] and [Record] answer once a request carries another
    signature, is confirmed already, or a recorded trade has no tessera; and a
    complete scenario of each, reachable in the running service. *)
From S2P Require Import Prelude Prog Money Domain Cluster Limits Tokens Settlement Keys Attest Probe World Store Auth Market Ledger Trade TradeSettlement Safety Preserve Handlers System TradeSpec.

Section Faults.
Context `{IU : Unicode} `{IS : Solana} `{IJ : JWT} `{IB : Base58} `{IE : Ed25519} `{IN : NetURL} `{IT : SessionJWT}
  (sv : Deployment).

(** A request a signature can still be written on. *)
Definition open_for (q : RequestRow) (signature : string) : Prop :=
q_status q = SettlementIssued ∧ (q_signature q = None ∨ q_signature q = Some signature).

Lemma current_request_elem l x : current_request l = Some x → x ∈ l.
Proof.
unfold current_request. destruct (last (List.filter _ l)) as [y|] eqn:Hl.
- intros [= <-]. apply last_Some_elem_of, list_elem_of_In, filter_In in Hl as [Hl _]. by apply list_elem_of_In.
- apply last_Some_elem_of.
Qed.

Lemma trade_requests_lookup d tradeID k q : (k, q) ∈ trade_requests d tradeID → requests d !! k = Some q.
Proof.
unfold trade_requests. rewrite stable_sort_perm, list_elem_of_In, filter_In, <-list_elem_of_In.
intros [Hin _]. by apply elem_of_map_to_list.
Qed.

Lemma run_SetSettlementSignature w k q signature at_ :
requests (w_db w) !! k = Some q → ¬ open_for q signature →
run (SetSettlementSignature k signature at_) w = Some (Err [ErrStale], w).
Proof.
intros Hq Hn. unfold SetSettlementSignature, write. cbn [run]. rewrite Hq.
destruct (is_issued q && _) eqn:Hb; [|done]. exfalso. apply Hn.
apply andb_true_iff in Hb as [H1 H2]. apply bool_decide_eq_true in H1.
apply orb_true_iff in H2. split; [done|].
destruct H2 as [H2|H2]; apply bool_decide_eq_true in H2; auto.
Qed.

(** A report of payment can be lost.  When the trade's current request is not
  issued any more, or already carries another signature, whoever wrote it,
  [ConfirmSettlement] answers with an error and changes nothing, for every
  party, every configuration and whatever has landed on the chain under the
  reported signature. *)
Theorem report_refused d w actor id signature sig t k q sq :
load (w_db w) id = Ok t → Party t actor = true → tr_Mode t = SettlementOnchain →
tr_State t = TradeSettlementPending → Trade.Enabled sv = Some d →
run (requireSettlement sv) w = Some (Ok tt, w) → sig_parse signature = Some sig →
current_request (trade_requests (w_db w) id) = Some (k, q) → scanSettlementRequest k q = Ok sq →
¬ open_for q (sig_print sig) →
∃ e, run (ConfirmSettlement sv actor id signature) w = Some (Err e, w).
Proof.
intros Ht Hp Hm Hs Hd Hreq Hsig Hcur Hsq Hopen.
assert (sr_ID sq = k) as Hid.
{ unfold scanSettlementRequest in Hsq. destruct (Cluster.Parse _); [by injection Hsq as <-|].
  destruct (String.eqb _ _); [by injection Hsq as <-|done]. }
pose proof (trade_requests_lookup _ _ _ _ (current_request_elem _ _ Hcur)) as Hq.
unfold ConfirmSettlement. rewrite run_io_bind, (run_partyTrade w actor id t Ht), Hp.
rewrite run_io_bind, Hreq, run_io_bind. unfold refuse. rewrite Hm. cbn [run guard_err].
replace (negb (String.eqb SettlementOnchain SettlementOnchain)) with false by reflexivity. cbn [guard_err].
rewrite Hsig, Hs. unfold deps. rewrite Hd. rewrite run_io_bind. unfold ListSettlementRequests, query. cbn [run].
destruct (scan_all _) as [rs|e]; [|by eexists].
rewrite run_io_bind. unfold record_signature at 1, on_result. rewrite run_bind.
unfold GetSettlementRequest, query. cbn [run]. unfold scan_one. rewrite Hcur, Hsq, Hid.
rewrite run_io_bind. cbn [lift run]. destruct (checkRequestCluster d rs k) as [[]|e]; [|by eexists].
rewrite run_io_bind. cbn [now run]. rewrite run_io_bind, (run_SetSettlementSignature w k q) by done. by eexists.
Qed.

(** A completed trade whose tessera was not issued stays without one: when the
  process died or the ledger failed between the state change and the tessera,
  recording the trade again, by either party, answers that there is none and
  changes nothing. *)
Theorem tessera_not_reissued c actor id r :
reachable sv c → let w := c.1 in
trades (w_db w) !! id = Some r → t_state r = TradeRecorded →
actor = t_buyer r ∨ actor = t_seller r → has_receipt (w_db w) id = false →
run (Record_trade sv actor id) w = Some (Err [ErrNotFound], w).
Proof.
intros Hc w Hr Hs Hp Hno. pose proof (reachable_wf sv c Hc) as Hw. fold w in Hw.
destruct (wf_parties sv w Hw id r Hr) as [_ Ham].
destruct (load_Ok _ _ _ Hr Ham) as (t & Ht & Hid & Hst & Hb & Hse & _).
unfold Record_trade. rewrite run_io_bind, (run_partyTrade w actor id t Ht).
rewrite (proj2 (Party_row t r actor Hb Hse) Hp), Hst, Hs, bool_decide_true by done.
rewrite run_io_bind. unfold Receipt_, GetReceiptByTrade, query. cbn [run].
destruct (list_find _ (map_to_list (receipts (w_db w)))) as [[i [k x]]|] eqn:Hf; [|done].
exfalso. apply list_find_Some in Hf as (Hi & Hx & _). apply list_elem_of_lookup_2, elem_of_map_to_list in Hi.
unfold has_receipt in Hno. apply bool_decide_eq_false in Hno. apply Hno. by exists k, x.
Qed.

Lemma run_ConfirmSettlementRequest w k q signature at_ :
requests (w_db w) !! k = Some q → q_status q ≠ SettlementIssued →
run (ConfirmSettlementRequest k signature at_) w = Some (Err [ErrStale], w).
Proof.
intros Hq Hn. unfold ConfirmSettlementRequest, write. cbn [run]. rewrite Hq.
unfold is_issued. by rewrite bool_decide_false.
Qed.

Lemma find_signed rs signed : latestSignedRequest rs = Some signed →
∃ found, find (fun r => String.eqb (sr_ID r) (sr_ID signed)) rs = Some found ∧ sr_ID found = sr_ID signed.
Proof.
unfold latestSignedRequest. intros Hl. apply last_Some_elem_of, list_elem_of_In, filter_In in Hl as [Hin _].
destruct (find _ rs) as [found|] eqn:Hf.
- apply find_some in Hf as [_ Hf]. apply String.eqb_eq in Hf. eauto.
- exfalso. apply (find_none _ _ Hf) in Hin. by rewrite String.eqb_refl in Hin.
Qed.

(** A confirmed request can no longer be settled by the reconciler.  When the
  process died, or the store failed, after the request was confirmed and before
  the trade was, every later pass finds the landed transaction, verifies it,
  is refused as stale by its own earlier confirmation, and changes nothing. *)
Theorem reconcile_stuck d w tr rs signed sig q terms f :
Trade.Enabled sv = Some d → tr_Mode tr = SettlementOnchain →
run (ListSettlementRequests (tr_ID tr)) w = Some (Ok rs, w) →
latestSignedRequest rs = Some signed → sr_ID signed ≠ "" →
checkRequestCluster d rs (sr_ID signed) = Ok tt →
sig_parse (sr_Signature signed) = Some sig →
requests (w_db w) !! sr_ID signed = Some q → q_status q ≠ SettlementIssued →
ch_landed (w_chain w) !! (ch_genesis (w_chain w), sig) = Some f → fe_ExecErr f = false →
NewTerms tr (sd_Registry d) (sd_Policy d) = Ok terms → Settlement.Verify terms (fe_Transaction f) = Ok tt →
run (reconcileTrade sv d tr) w = Some (Err [ErrStale], w).
Proof.
intros Hd Hm Hl Hsg Hid Hcl Hsig Hq Hst Hf Hex Hterms Hv.
destruct (find_signed rs signed Hsg) as (found & Hfind & Hfid).
unfold reconcileTrade. rewrite Hm. replace (String.eqb SettlementOnchain SettlementOnchain) with true by reflexivity.
cbn [negb]. rewrite run_io_bind, Hl, run_io_bind. cbn [now run]. rewrite Hsg, Hcl, Hsig.
unfold on_result at 1. rewrite run_bind. unfold ChainTransaction, rpc. cbn [run]. rewrite Hf.
unfold on_result at 1. rewrite run_bind. unfold settleFetched. rewrite Hcl, run_io_bind. cbn [lift run].
rewrite Hex, run_io_bind. cbn [lift run]. rewrite Hterms, Hv, run_io_bind. cbn [now run]. rewrite run_io_bind.
unfold confirmRequests at 1. apply String.eqb_neq in Hid as ->. rewrite Hfind, run_io_bind.
by rewrite Hfid, (run_ConfirmSettlementRequest w _ q).
Qed.
End Faults.

(** ** Scenarios in the demonstration service *)
#[local] Existing Instances demoUnicode demoSolana demoJWT demoBase58 demoEd25519 demoNetURL demoSessionJWT.

Definition bogus : event := Call (CallConfirm demoSeller "uuid-0" "BOGUS").
Definition reconcile : event := Call (CallReconcile (mkReconcilePolicy second 10)).

(** The payment for the trade's own terms has landed: the decidable form of
    [proven] for the demonstration trade. *)
Definition paid (w : World) (s : TradeState) : bool :=
  match trades (w_db w) !! "uuid-0", ch_landed (w_chain w) !! ("genesis", "SIG") with
  | Some r, Some f =>
      match Money.Parse (t_amount r) with
      | Ok amount =>
          match NewTerms (pending_trade "uuid-0" r amount) demoRegistry demoFee with
          | Ok terms => bool_decide (t_state r = s) && negb (fe_ExecErr f) &&
                        is_ok (Settlement.Verify terms (fe_Transaction f))
          | Err _ => false
          end
      | Err _ => false
      end
  | _, _ => false
  end.

Lemma paid_proven w s : paid w s = true → ∃ r, trades (w_db w) !! "uuid-0" = Some r ∧ t_state r = s ∧
  proven demoDeployment "uuid-0" r (ch_landed (w_chain w)).
Proof.
  unfold paid. destruct (trades (w_db w) !! "uuid-0") as [r|]; [|done].
  destruct (ch_landed (w_chain w) !! ("genesis", "SIG")) as [f|] eqn:Hf; [|done].
  destruct (Money.Parse (t_amount r)) as [amount|] eqn:Ha; [|done].
  destruct (NewTerms _ _ _) as [terms|] eqn:Ht; [|done].
  destruct (Settlement.Verify terms _) as [[]|] eqn:Hv; [|by rewrite andb_false_r].
  rewrite andb_true_r, andb_true_iff, negb_true_iff. intros [Hs He]. apply bool_decide_eq_true in Hs.
  exists r. split_and!; [done|done|]. exists demoDeps, amount, terms, "genesis", "SIG", f. by split_and!.
Qed.

Definition is_stale {A} (o : option (res A * World)) : bool :=
  match o with Some (Err e, _) => bool_decide (e = [ErrStale]) | _ => false end.
Lemma is_stale_inv {A} (o : option (res A * World)) : is_stale o = true → ∃ w, o = Some (Err [ErrStale], w).
Proof. destruct o as [[[a|e] w]|]; cbn; [done| |done]. intros He. apply bool_decide_eq_true in He as ->. eauto. Qed.

Definition demo_confirm (actor signature : string) : io World (Trade * Receipt) :=
  ConfirmSettlement demoDeployment actor "uuid-0" signature.

(** A paid trade can be cancelled.  In a run of the service the seller reports
  a signature that does not exist before the buyer reports the real one; the
  buyer's report is refused as stale, and when the request lapses the
  reconciler cancels the trade although the payment it was promised has
  landed, exactly as agreed. *)
Theorem paid_trade_cancelled : ∃ c c' r w,
  demo_reachable c ∧ run (demo_confirm demoBuyer "SIG") c.1 = Some (Err [ErrStale], w) ∧
  rtc demo_step c c' ∧ trades (w_db c'.1) !! "uuid-0" = Some r ∧ t_state r = TradeCancelled ∧
  proven demoDeployment "uuid-0" r (ch_landed (w_chain c'.1)).
Proof.
  destruct (demo_run (demoAgree ++ [bogus]) (demoPay ++ [Wait (100 * second); reconcile])
    (fun w w' => is_stale (run (demo_confirm demoBuyer "SIG") w) && paid w' TradeCancelled))
    as (c & c' & Hc & Hs & HP); [allowed|allowed|vm_compute; reflexivity|].
  apply andb_true_iff in HP as [[w Hw]%is_stale_inv (r & Hr & Hst & Hp)%paid_proven].
  exists c, c', r, w. by split_and!.
Qed.

(** ** Witnesses *)
Lemma run_requireSettlement sv d w : Trade.Enabled sv = Some d →
  is_ok (Cluster.Verify (sd_Cluster d) (ch_genesis (w_chain w))) = true →
  run (requireSettlement sv) w = Some (Ok tt, w).
Proof.
  intros Hd Hv. unfold requireSettlement, CheckCluster. rewrite Hd. destruct (sd_Genesis d); cbn [negb]; [|done].
  unfold on_result, GetGenesisHash, rpc. cbn [prog_bind run].
  destruct (Cluster.Verify _ _) as [[]|]; [|done]. done.
Qed.

(** The seller's bogus report is on the trade's request. *)
Definition reported (w w' : World) : bool :=
  match load (w_db w) "uuid-0", current_request (trade_requests (w_db w) "uuid-0") with
  | Ok t, Some (k, q) =>
      bool_decide (tr_Mode t = SettlementOnchain ∧ tr_State t = TradeSettlementPending ∧
                   q_signature q = Some "BOGUS") && Party t demoBuyer &&
      is_ok (@scanSettlementRequest demoUnicode k q) &&
      is_ok (Cluster.Verify Localnet (ch_genesis (w_chain w)))
  | _, _ => false
  end.

Lemma report_refused_witness : ∃ c e, demo_reachable c ∧ paid c.1 TradeSettlementPending = true ∧
  run (demo_confirm demoBuyer "SIG") c.1 = Some (Err e, c.1).
Proof.
  destruct (demo_run (demoAgree ++ [bogus]) [] (fun w w' => reported w w' && paid w TradeSettlementPending))
    as (c & c' & Hc & _ & HP); [allowed|allowed|vm_compute; reflexivity|].
  apply andb_true_iff in HP as [HP Hpaid]. unfold reported in HP.
  destruct (load (w_db c.1) "uuid-0") as [t|] eqn:Ht; [|discriminate].
  destruct (current_request _) as [[k q]|] eqn:Hcur; [|discriminate].
  apply andb_true_iff in HP as [HP Hver]. apply andb_true_iff in HP as [HP Hscan].
  apply andb_true_iff in HP as [HP Hparty]. apply bool_decide_eq_true in HP as (Hm & Hs & Hq).
  destruct (scanSettlementRequest k q) as [sq|] eqn:Hsq; [|discriminate].
  destruct (report_refused (IS := demoSolana) demoDeployment demoDeps c.1 demoBuyer "uuid-0" "SIG" "SIG"
    t k q sq Ht Hparty Hm Hs eq_refl (run_requireSettlement demoDeployment demoDeps c.1 eq_refl Hver) eq_refl Hcur Hsq)
    as [e He].
  - intros [_ [H|H]]; rewrite Hq in H; discriminate H.
  - exists c, e. split_and!; [exact Hc|exact Hpaid|exact He].
Defined.

(** A trade agreed off chain, recorded by a process that then died. *)
Definition demoRecordThenDie : list event :=
  demoListed ++
  [Call (CallCreate demoBuyer "offer-1" SettlementOffchain ""); Call (CallBegin demoSeller "uuid-0");
   Call (CallAccept demoBuyer "uuid-0"); Call (CallAccept demoSeller "uuid-0");
   Dies (CallRecord demoBuyer "uuid-0") 4].

Definition untessered (w w' : World) : bool :=
  match trades (w_db w) !! "uuid-0" with
  | Some r => bool_decide (t_state r = TradeRecorded ∧ demoSeller = t_seller r) && negb (has_receipt (w_db w) "uuid-0")
  | None => false
  end.

Lemma tessera_not_reissued_witness : ∃ c, demo_reachable c ∧ in_state c.1 "uuid-0" TradeRecorded = true ∧
  run (Record_trade demoDeployment demoSeller "uuid-0") c.1 = Some (Err [ErrNotFound], c.1).
Proof.
  destruct (demo_run demoRecordThenDie [] untessered) as (c & c' & Hc & _ & HP);
    [allowed|allowed|vm_compute; reflexivity|].
  unfold untessered in HP. destruct (trades (w_db c.1) !! "uuid-0") as [r|] eqn:Hr; [|discriminate].
  apply andb_true_iff in HP as [HP Hno]. apply bool_decide_eq_true in HP as [Hs Hp]. apply negb_true_iff in Hno.
  exists c. split_and!; [exact Hc| |].
  - unfold in_state. rewrite Hr. apply bool_decide_eq_true. exact Hs.
  - exact (tessera_not_reissued demoDeployment c demoSeller "uuid-0" r
      Hc Hr Hs (or_intror Hp) Hno).
Defined.

(** The verified payment's request is confirmed, and the process dies before the
    trade is settled. *)
Definition confirmed_only (w w' : World) : bool :=
  match load (w_db w) "uuid-0", @ListSettlementRequests demoUnicode "uuid-0",
        requests (w_db w) !! "uuid-1", ch_landed (w_chain w) !! (ch_genesis (w_chain w), "SIG") with
  | Ok t, p, Some q, Some f =>
    match run p w with
    | Some (Ok rs, _) =>
      match latestSignedRequest rs with
      | Some signed =>
        match NewTerms t demoRegistry demoFee with
        | Ok terms =>
            bool_decide (tr_ID t = "uuid-0" ∧ tr_Mode t = SettlementOnchain ∧ sr_ID signed = "uuid-1" ∧
              sr_Signature signed = "SIG" ∧ q_status q = SettlementConfirmed ∧ fe_ExecErr f = false) &&
            is_ok (checkRequestCluster demoDeps rs "uuid-1") &&
            is_ok (Settlement.Verify terms (fe_Transaction f))
        | _ => false
        end
      | None => false
      end
    | _ => false
    end
  | _, _, _, _ => false
  end.

Lemma reconcile_stuck_witness : ∃ c t, demo_reachable c ∧ load (w_db c.1) "uuid-0" = Ok t ∧
  run (reconcileTrade demoDeployment demoDeps t) c.1 = Some (Err [ErrStale], c.1).
Proof.
  destruct (demo_run (demoAgree ++ [Dies (CallConfirm demoBuyer "uuid-0" "SIG") 10]) [] confirmed_only)
    as (c & c' & Hc & _ & HP); [allowed|allowed|vm_compute; reflexivity|].
  unfold confirmed_only in HP. destruct (load (w_db c.1) "uuid-0") as [t|] eqn:Ht; [|discriminate].
  destruct (requests (w_db c.1) !! "uuid-1") as [q|] eqn:Hq; [|discriminate].
  destruct (ch_landed (w_chain c.1) !! _) as [f|] eqn:Hf; [|discriminate].
  unfold ListSettlementRequests, query in HP. cbn [run] in HP.
  destruct (scan_all (trade_requests (w_db c.1) "uuid-0")) as [rs|] eqn:Hrs; [|discriminate].
  destruct (latestSignedRequest rs) as [signed|] eqn:Hsg; [|discriminate].
  destruct (NewTerms t demoRegistry demoFee) as [terms|] eqn:Hterms; [|discriminate].
  apply andb_true_iff in HP as [HP Hv]. apply andb_true_iff in HP as [HP Hcl].
  apply bool_decide_eq_true in HP as (Hid & Hm & Hsid & Hsig & Hst & Hex).
  destruct (checkRequestCluster demoDeps rs "uuid-1") as [[]|] eqn:Hcl'; [|discriminate].
  destruct (Settlement.Verify terms _) as [[]|] eqn:Hv'; [|discriminate].
  exists c, t. split_and!; [exact Hc|exact Ht|].
  apply (reconcile_stuck demoDeployment demoDeps c.1 t rs signed "SIG" q terms f);
    try assumption; try reflexivity; rewrite ?Hsid, ?Hsig; try assumption; try reflexivity.
  - rewrite Hid. unfold ListSettlementRequests, query. cbn [run]. rewrite Hrs. reflexivity.
  - discriminate.
  - rewrite Hst. discriminate.
Defined.
