(* ===== verification/Render.v ===== *)
(** * [encoding/json.Marshal] of values, and reading them back

    [render] writes a JSON value with the white space it is given: none for
    [Marshal], line breaks and indentation for [MarshalIndent].  [parse_render]:
    the decoder of [GoJson] reads back what is written, for values whose strings are
    written as they are and whose numbers are natural. *)
From S2P Require Import Prelude GoText Json GoJson.

Fixpoint joined (sep : string) (l : list string) : string :=
  match l with [] => "" | [x] => x | x :: l' => x +:+ sep +:+ joined sep l' end.

Section Render.
Context (ws : nat → string) (sp : string).

Fixpoint render_at (n : nat) (v : json) : string :=
  match v with
  | JNull => "null"
  | JBool b => if b then "true" else "false"
  | JNumber lit => lit
  | JString s => json_string s
  | JArray [] => "[]"
  | JArray l => "[" +:+ ws (S n) +:+ joined ("," +:+ ws (S n)) (List.map (render_at (S n)) l) +:+ ws n +:+ "]"
  | JObject [] => "{}"
  | JObject l =>
      "{" +:+ ws (S n) +:+
      joined ("," +:+ ws (S n)) (List.map (fun kv => let '(k, x) := kv in json_string k +:+ ":" +:+ sp +:+ render_at (S n) x) l) +:+
      ws n +:+ "}"
  end.
End Render.

(** [json.Marshal(v)] and [json.MarshalIndent(v, "", "  ")] *)
Definition marshal (v : json) : string := render_at (fun _ => "") "" 0 v.
Definition line : string := String (ascii_of_N 10) "".
Definition indentation (n : nat) : string := line +:+ srepeat " " (2 * n).
Definition marshal_indent (v : json) : string := render_at indentation " " 0 v.

Definition JInt (n : Z) : json := JNumber (format_uint n).
Definition JStrings (l : list string) : json := JArray (map JString l).

Example marshal_ex : marshal (JObject [("a", JArray [JNull; JBool true]); ("b", JObject []); ("c", JInt 12)]) =
  "{" +:+ json_string "a" +:+ ":[null,true]," +:+ json_string "b" +:+ ":{}," +:+ json_string "c" +:+ ":12}".
Proof. reflexivity. Qed.

(** ** What can be read back *)
Inductive sound : nat → json → Prop :=
  | sound_null n : sound n JNull
  | sound_bool n b : sound n (JBool b)
  | sound_number n k : 0 ≤ k → sound n (JInt k)
  | sound_string n s : plain s = true → sound n (JString s)
  | sound_array n l : (∀ v, v ∈ l → sound n v) → sound (S n) (JArray l)
  | sound_object n l : (∀ k v, (k, v) ∈ l → plain k = true) → (∀ k v, (k, v) ∈ l → sound n v) → sound (S n) (JObject l).

(** Where a value ends. *)
Definition closes (c : ascii) : bool := is_json_space c || ceqb c "," || ceqb c "]" || ceqb c "}".
Definition ends (s : string) : Prop := match s with String c _ => closes c = true | _ => True end.

Lemma closes_spec c : closes c = true → is_digit c = false ∧ ceqb c "." = false ∧ ceqb c "e" || ceqb c "E" = false.
Proof. destruct c as [[] [] [] [] [] [] [] []]; intros H; (discriminate H || by split_and!). Qed.

Lemma digits_app d rest : all_chars is_digit d = true → ends rest → digits (d +:+ rest) = (d, rest).
Proof.
  intros Hd He. induction d as [|c d IH]; cbn in *.
  - destruct rest as [|c r]; [done|]. cbn in *. by destruct (closes_spec c He) as [-> _].
  - apply andb_true_iff in Hd as [-> Hd]. by rewrite IH.
Qed.

Lemma number_read n rest : 0 ≤ n → ends rest → number (format_uint n +:+ rest) = Some (format_uint n, rest).
Proof.
  intros Hn He. destruct (format_uint_spec n Hn) as (_ & Hd & Hne & Hz).
  assert (fraction_part rest = Some ("", rest) ∧ exponent_part rest = Some ("", rest)) as [Hf Hx].
  { destruct rest as [|c r]; [done|]. cbn in *. by destruct (closes_spec c He) as (_ & -> & ->). }
  assert (integer_part (format_uint n +:+ rest) = Some (format_uint n, rest)) as Hi.
  { destruct (format_uint n) as [|c p] eqn:E; [done|]. change (String c p +:+ rest) with (String c (p +:+ rest)). cbn [integer_part].
    destruct (Stdlib.Strings.Ascii.eqb_spec c "0") as [->|Hc].
    - destruct p as [|c p]; [done|]. exfalso. by apply (Hz "0"%char (String c p)).
    - unfold some_digits. change (String c (p +:+ rest)) with (String c p +:+ rest). by rewrite digits_app. }
  unfold number. destruct (format_uint n) as [|c p] eqn:E; [done|]. change (String c p +:+ rest) with (String c (p +:+ rest)) in *.
  assert (ceqb c "-" = false) as Hm.
  { cbn in Hd. destruct (Stdlib.Strings.Ascii.eqb_spec c "-") as [->|]; [by cbn in Hd|done]. }
  cbn -[integer_part fraction_part exponent_part]. rewrite Hm, Hi. cbn [mbind option_bind]. rewrite Hf. cbn [mbind option_bind]. rewrite Hx. cbn [mbind option_bind]. by rewrite !sapp_nil_r.
Qed.

Lemma skip_ws w s : all_chars is_json_space w = true → skip_space (w +:+ s) = skip_space s.
Proof. induction w as [|c w IH]; cbn; [done|]. by intros [-> Hw]%andb_true_iff; apply IH. Qed.

(** The text of a value starts with nothing that ends one. *)
Definition starts (s : string) : Prop := match s with String c _ => closes c = false | _ => False end.
Lemma opens_spec c : closes c = false → is_json_space c = false ∧ ceqb c "]" = false ∧ ceqb c "}" = false.
Proof. unfold closes. intros H. apply orb_false_iff in H as [[[H1 _]%orb_false_iff H2]%orb_false_iff H3]. done. Qed.
Lemma starts_skip s rest : starts s → skip_space (s +:+ rest) = s +:+ rest.
Proof. destruct s as [|c s]; [done|]. intros (H & _ & _)%opens_spec. cbn. by rewrite H. Qed.
Lemma starts_joined sep x l : starts x → starts (joined sep (x :: l)).
Proof. destruct l; [done|]. by destruct x. Qed.

Lemma digit_starts c : is_digit c = true → closes c = false ∧ ceqb c "{" = false ∧ ceqb c "[" = false ∧ ceqb c dquote = false ∧
  ceqb c "t" = false ∧ ceqb c "f" = false ∧ ceqb c "n" = false.
Proof. destruct c as [[] [] [] [] [] [] [] []]; intros H; (discriminate H || by split_and!). Qed.

(** ** Reading back *)
Section Back.
Context (ws : nat → string) (sp : string).
Context (ws_space : ∀ n, all_chars is_json_space (ws n) = true) (sp_space : all_chars is_json_space sp = true).

Definition reads (d : Z) (t : string) (v : json) : Prop :=
  starts t ∧ ∀ rest f, ends rest → (slen t ≤ f)%nat → json_value f d (t +:+ rest) = Some (v, rest).

Lemma reads_int d n : 0 ≤ n → reads d (format_uint n) (JInt n).
Proof.
  intros Hn. destruct (format_uint_spec n Hn) as (_ & Hd & Hne & _). destruct (format_uint n) as [|c p] eqn:E; [done|].
  cbn in Hd. apply andb_true_iff in Hd as [Hc _]. destruct (digit_starts c Hc) as (E0 & E1 & E2 & E3 & E4 & E5 & E6).
  split; [done|]. intros rest [|f] He Hf; cbn in Hf; [lia|]. pose proof (number_read n rest Hn He) as Hr. rewrite E in Hr.
  change (String c p +:+ rest) with (String c (p +:+ rest)) in *. cbn [json_value]. rewrite E1, E2, E3, E4, E5, E6, Hr. unfold JInt. by rewrite E.
Qed.

Lemma joined_cons sep x y l : joined sep (x :: y :: l) = x +:+ sep +:+ joined sep (y :: l).
Proof. done. Qed.

Lemma space_ends w c rest : all_chars is_json_space w = true → closes c = true → ends (w +:+ String c rest).
Proof. destruct w as [|b w]; cbn; [done|]. intros [Hb _]%andb_true_iff _. unfold closes. by rewrite Hb. Qed.

(** The elements of an array and the members of an object, one after the other. *)
Lemma read_elements d (r : json → string) w w' l rest : all_chars is_json_space w = true → all_chars is_json_space w' = true → l ≠ [] →
  (∀ v, v ∈ l → reads d (r v) v) → ∀ f, (slen (joined ("," +:+ w) (map r l)) < f)%nat →
  json_elements f d (joined ("," +:+ w) (map r l) +:+ w' +:+ String "]" rest) = Some (l, rest).
Proof.
  intros Hw Hw' Hne Hl. induction l as [|x l IH]; [done|]. clear Hne. intros [|f] Hf; [lia|].
  destruct (Hl x ltac:(left)) as [Hx Hread]. destruct l as [|y l].
  - cbn [map joined] in *. cbn [json_elements]. rewrite Hread by (by apply space_ends || lia). cbn. by rewrite skip_ws.
  - cbn [map] in *. rewrite joined_cons in Hf |- *. specialize (IH ltac:(done) (fun v H => Hl v ltac:(by right)) f).
    assert (starts (joined ("," +:+ w) (r y :: map r l))) as Hs by (apply starts_joined, Hl; right; left).
    revert Hf IH Hs. generalize (joined ("," +:+ w) (r y :: map r l)) as next. intros next Hf IH Hs.
    rewrite !slen_app in Hf. change (slen ",") with 1%nat in Hf. rewrite !sapp_assoc. cbn [json_elements].
    rewrite Hread; [|done|lia]. cbn [mbind option_bind].
    change ("," +:+ ?u) with (String "," u). change (skip_space (String "," ?u)) with (String "," u). cbv iota.
    change (ceqb "," "]") with false. change (ceqb "," ",") with true. cbv iota.
    rewrite skip_ws, starts_skip, IH by (done || lia). done.
Qed.

Definition member_text (r : json → string) (kv : string * json) : string := let '(k, x) := kv in json_string k +:+ ":" +:+ sp +:+ r x.
Lemma member_starts r k v : plain k = true → starts (member_text r (k, v)).
Proof. intros Hk. unfold member_text. by rewrite json_string_plain. Qed.

Lemma read_members d (r : json → string) w w' l rest : all_chars is_json_space w = true → all_chars is_json_space w' = true → l ≠ [] →
  (∀ k v, (k, v) ∈ l → plain k = true ∧ reads d (r v) v) → ∀ f, (slen (joined ("," +:+ w) (map (member_text r) l)) < f)%nat →
  json_members f d (joined ("," +:+ w) (map (member_text r) l) +:+ w' +:+ String "}" rest) = Some (l, rest).
Proof.
  intros Hw Hw' Hne Hl. induction l as [|[k x] l IH]; [done|]. clear Hne. intros [|f] Hf; [lia|].
  destruct (Hl k x ltac:(left)) as (Hk & Hx & Hread).
  destruct l as [|y l].
  - cbn [map joined member_text] in *. rewrite !slen_app in Hf. rewrite !sapp_assoc.
    change (":" +:+ ?u) with (String ":" u).
    erewrite (member_read d k _ x _ f _ "}" rest Hk); [done| | |reflexivity].
    + rewrite skip_ws, starts_skip by done. apply Hread; [by apply space_ends|lia].
    + by rewrite skip_ws.
  - cbn [map] in *. rewrite joined_cons in Hf |- *. specialize (IH ltac:(done) (fun k v H => Hl k v ltac:(by right)) f).
    assert (starts (joined ("," +:+ w) (member_text r y :: map (member_text r) l))) as Hs.
    { apply starts_joined. destruct y as [ky y]. apply member_starts, (Hl ky y). right; left. }
    revert Hf IH Hs. generalize (joined ("," +:+ w) (member_text r y :: map (member_text r) l)) as next. intros next Hf IH Hs.
    cbn [member_text] in Hf |- *. rewrite !slen_app in Hf. change (slen ",") with 1%nat in Hf. change (slen ":") with 1%nat in Hf. rewrite !sapp_assoc.
    change (":" +:+ ?u) with (String ":" u). change ("," +:+ w +:+ ?u) with (String "," (w +:+ u)).
    erewrite (member_read d k _ x _ f _ "," _ Hk); [| | |reflexivity]; cycle 1.
    + rewrite skip_ws, starts_skip by done. apply Hread; [done|lia].
    + done.
    + change (ceqb "," "}") with false. change (ceqb "," ",") with true. cbv iota.
      by rewrite skip_ws, starts_skip, IH by (done || lia).
Qed.

Lemma value_open_array d f s : d < maxNestingDepth →
  json_value (S f) d (String "[" s) = match skip_space s with
    | String c s2 => if ceqb c "]" then Some (JArray [], s2) else '(l, r) ← json_elements f (d + 1) (String c s2); Some (JArray l, r)
    | _ => None end.
Proof. intros Hd. cbn [json_value]. change (ceqb "[" "{") with false. change (ceqb "[" "[") with true. cbv iota. rewrite Z.geb_leb, (proj2 (Z.leb_gt _ _)) by done. done. Qed.
Lemma value_open_object d f s : d < maxNestingDepth →
  json_value (S f) d (String "{" s) = match skip_space s with
    | String c s2 => if ceqb c "}" then Some (JObject [], s2) else '(l, r) ← json_members f (d + 1) (String c s2); Some (JObject l, r)
    | _ => None end.
Proof. intros Hd. cbn [json_value]. change (ceqb "{" "{") with true. cbv iota. rewrite Z.geb_leb, (proj2 (Z.leb_gt _ _)) by done. done. Qed.

Lemma array_reads d r w w' x l : all_chars is_json_space w = true → all_chars is_json_space w' = true → d < maxNestingDepth →
  (∀ v, v ∈ x :: l → reads (d + 1) (r v) v) →
  reads d ("[" +:+ w +:+ joined ("," +:+ w) (map r (x :: l)) +:+ w' +:+ "]") (JArray (x :: l)).
Proof.
  intros Hw Hw' Hd Hl. split; [done|]. intros rest f _ Hf. rewrite !slen_app in Hf. change (slen "[") with 1%nat in Hf. change (slen "]") with 1%nat in Hf.
  destruct f as [|f]; [lia|]. rewrite !sapp_assoc. change ("[" +:+ ?u) with (String "[" u). rewrite value_open_array by done.
  assert (starts (joined ("," +:+ w) (map r (x :: l)))) as Hs by (apply starts_joined, Hl; left).
  pose proof (read_elements (d + 1) r w w' (x :: l) rest Hw Hw' ltac:(done) Hl f) as H.
  revert H Hs Hf. generalize (joined ("," +:+ w) (map r (x :: l))) as t. intros t H Hs Hf. rewrite skip_ws, starts_skip by done.
  specialize (H ltac:(lia)). change ("]" +:+ rest) with (String "]" rest). destruct t as [|c t]; [done|]. destruct (opens_spec c Hs) as (_ & Hc & _).
  change (String c t +:+ ?u) with (String c (t +:+ u)) in *. cbv beta iota. by rewrite Hc, H.
Qed.
Lemma object_reads d r w w' kv l : all_chars is_json_space w = true → all_chars is_json_space w' = true → d < maxNestingDepth →
  (∀ k v, (k, v) ∈ kv :: l → plain k = true ∧ reads (d + 1) (r v) v) →
  reads d ("{" +:+ w +:+ joined ("," +:+ w) (map (member_text r) (kv :: l)) +:+ w' +:+ "}") (JObject (kv :: l)).
Proof.
  intros Hw Hw' Hd Hl. split; [done|]. intros rest f _ Hf. rewrite !slen_app in Hf. change (slen "{") with 1%nat in Hf. change (slen "}") with 1%nat in Hf.
  destruct f as [|f]; [lia|]. rewrite !sapp_assoc. change ("{" +:+ ?u) with (String "{" u). rewrite value_open_object by done.
  assert (starts (joined ("," +:+ w) (map (member_text r) (kv :: l)))) as Hs.
  { apply starts_joined. destruct kv as [k v]. apply member_starts, (Hl k v). left. }
  pose proof (read_members (d + 1) r w w' (kv :: l) rest Hw Hw' ltac:(done) Hl f) as H.
  revert H Hs Hf. generalize (joined ("," +:+ w) (map (member_text r) (kv :: l))) as t. intros t H Hs Hf. rewrite skip_ws, starts_skip by done.
  specialize (H ltac:(lia)). change ("}" +:+ rest) with (String "}" rest). destruct t as [|c t]; [done|]. destruct (opens_spec c Hs) as (_ & _ & Hc).
  change (String c t +:+ ?u) with (String c (t +:+ u)) in *. cbv beta iota. by rewrite Hc, H.
Qed.

Lemma render_reads n v : sound n v → ∀ m d, d + Z.of_nat n ≤ maxNestingDepth → reads d (render_at ws sp m v) v.
Proof.
  induction 1 as [|? []|n k Hk|n s Hs|n l Hl IH|n l Hk Hl IH]; intros m d Hd.
  - split; [done|]. by intros rest [|f] _ Hf; [cbn in Hf; lia|].
  - split; [done|]. by intros rest [|f] _ Hf; [cbn in Hf; lia|].
  - split; [done|]. by intros rest [|f] _ Hf; [cbn in Hf; lia|].
  - by apply reads_int.
  - cbn [render_at]. split; [by rewrite json_string_plain|]. intros rest [|f] _ Hf; [cbn in Hf; lia|]. by apply value_string.
  - destruct l as [|x l]; [split; [done|]; intros rest [|f] _ Hf; [cbn in Hf; lia|]; change (render_at ws sp m (JArray []) +:+ rest) with (String "[" (String "]" rest)); by rewrite value_open_array by lia|].
    set (all := x :: l) in *. apply (array_reads d (render_at ws sp (S m)) (ws (S m)) (ws m)); [done..|lia|]. intros v Hv. by apply IH; [|lia].
  - destruct l as [|[k x] l]; [split; [done|]; intros rest [|f] _ Hf; [cbn in Hf; lia|]; change (render_at ws sp m (JObject []) +:+ rest) with (String "{" (String "}" rest)); by rewrite value_open_object by lia|].
    set (all := (k, x) :: l) in *. apply (object_reads d (render_at ws sp (S m)) (ws (S m)) (ws m)); [done..|lia|]. intros k' v Hv.
    split; [by eapply Hk|]. by eapply IH; [|lia].
Qed.

Context (n : nat) (v : json) (trailing : string).
Lemma parse_rendered : sound n v → Z.of_nat n ≤ maxNestingDepth → all_chars is_json_space trailing = true →
  json_parse (render_at ws sp 0 v +:+ trailing) = Some v.
Proof.
  intros Hv Hn Ht. destruct (render_reads n v Hv 0 0 ltac:(lia)) as [Hs Hr]. unfold json_parse. rewrite starts_skip by done.
  rewrite Hr; [|by destruct trailing as [|c t]; [|cbn in Ht |- *; apply andb_true_iff in Ht as [H _]; unfold closes; rewrite H]|rewrite slen_app; lia].
  cbn [mbind option_bind]. rewrite <-(sapp_nil_r trailing), skip_ws by done. done.
Qed.
End Back.

Lemma spaces_space n : all_chars is_json_space (srepeat " " n) = true.
Proof. by apply all_chars_srepeat. Qed.
Lemma indentation_space n : all_chars is_json_space (indentation n) = true.
Proof. unfold indentation. rewrite all_chars_app, spaces_space. done. Qed.

Lemma parse_marshal n v : sound n v → Z.of_nat n ≤ maxNestingDepth → json_parse (marshal v) = Some v.
Proof. intros Hv Hn. rewrite <-(sapp_nil_r (marshal v)). by eapply (parse_rendered (fun _ => "") ""). Qed.
Lemma parse_marshal_indent n v trailing : sound n v → Z.of_nat n ≤ maxNestingDepth → all_chars is_json_space trailing = true →
  json_parse (marshal_indent v +:+ trailing) = Some v.
Proof. intros Hv Hn Ht. by eapply (parse_rendered indentation " " indentation_space). Qed.
