(* ===== verification/GoValue.v ===== *)
(** * [encoding/json] into declared types

    A value of a Go type is represented by the JSON it marshals to; [decode_as]
    decodes into a value of a type, over the value that is there.
    [decode_conforms]: the result is a value of the type. *)
From S2P Require Import Prelude GoText Json GoJson Render.

(** [TStruct nullable fields]: a struct, or a pointer to one. *)
Inductive gotype :=
  | TString | TBool | TInt | TFloat | TAny
  | TSlice (t : gotype) | TMap (t : gotype) | TStruct (nullable : bool) (fields : list (string * gotype)).

Definition format_int (n : Z) : string := if n <? 0 then String "-" (format_uint (- n)) else format_uint n.

(** A [float64] read from a literal and written again. *)
Class FloatJson := { float_json : string → option string }.

Fixpoint zero (t : gotype) : json :=
  match t with
  | TString => JString ""
  | TBool => JBool false
  | TInt | TFloat => JNumber "0"
  | TAny | TSlice _ | TMap _ => JNull
  | TStruct nullable fs => if nullable then JNull else JObject (List.map (fun f => let '(k, u) := f in (k, zero u)) fs)
  end.

Definition zero_fields (fs : list (string * gotype)) : list (string * json) := map (fun f => let '(k, u) := f in (k, zero u)) fs.

(** What is there. *)
Definition items (old : json) : list json := match old with JArray l => l | _ => [] end.
Definition entries (old : json) : list (string * json) := match old with JObject l => l | _ => [] end.
Definition fields_of (fs : list (string * gotype)) (old : json) : list (string * json) :=
  match old with JObject l => l | _ => zero_fields fs end.
Fixpoint field (l : list (string * json)) (k : string) : option json :=
  match l with [] => None | (k', x) :: l' => if String.eqb k' k then Some x else field l' k end.
Fixpoint set_field (l : list (string * json)) (k : string) (y : json) : list (string * json) :=
  match l with [] => [] | (k', x) :: l' => if String.eqb k' k then (k', y) :: l' else (k', x) :: set_field l' k y end.
(** A map's entries, its keys in order. *)
Fixpoint set_entry (l : list (string * json)) (k : string) (y : json) : list (string * json) :=
  match l with
  | [] => [(k, y)]
  | (k', x) :: l' => if String.eqb k' k then (k, y) :: l' else if String.ltb k k' then (k, y) :: (k', x) :: l' else (k', x) :: set_entry l' k y
  end.

(** [null]: a pointer, slice, map or interface becomes nil, anything else stays. *)
Definition null_into (t : gotype) (old : json) : json :=
  match t with TAny | TSlice _ | TMap _ | TStruct true _ => JNull | _ => old end.

Section Decode.
Context `{IO : Folding} `{IF : FloatJson}.

Definition decode_list (dec : json → json → option json) (u : gotype) : list json → list json → option (list json) :=
  fix go old l := match l with
    | [] => Some []
    | x :: l' => y ← dec (default (zero u) (head old)) x; ys ← go (tail old) l'; Some (y :: ys)
    end.
Definition decode_entries (dec : json → option json) : list (string * json) → list (string * json) → option (list (string * json)) :=
  fix go acc l := match l with
    | [] => Some acc
    | (k, x) :: l' => y ← dec x; go (set_entry acc k y) l'
    end.
Definition decode_fields (dec : gotype → json → json → option json) (fs : list (string * gotype)) :
  list (string * json) → list (string * json) → option (list (string * json)) :=
  fix go acc l := match l with
    | [] => Some acc
    | (k, x) :: l' =>
        match find (fun f => EqualFold f.1 k) fs with
        | Some (name, u) => y ← dec u (default (zero u) (field acc name)) x; go (set_field acc name y) l'
        | None => go acc l'
        end
    end.

Fixpoint decode_as (t : gotype) (old v : json) {struct v} : option json :=
  match v with
  | JNull => Some (null_into t old)
  | JBool b => match t with TBool | TAny => Some (JBool b) | _ => None end
  | JNumber lit =>
      match t with
      | TInt => n ← Atoi lit; Some (JNumber (format_int n))
      | TFloat | TAny => x ← float_json lit; Some (JNumber x)
      | _ => None
      end
  | JString s => match t with TString | TAny => Some (JString s) | _ => None end
  | JArray l =>
      match t with
      | TSlice u => r ← decode_list (fun o x => decode_as u o x) u (items old) l; Some (JArray r)
      | TAny => r ← decode_list (fun o x => decode_as TAny o x) TAny [] l; Some (JArray r)
      | _ => None
      end
  | JObject l =>
      match t with
      | TStruct _ fs => r ← decode_fields (fun u o x => decode_as u o x) fs (fields_of fs old) l; Some (JObject r)
      | TMap u => r ← decode_entries (fun x => decode_as u (zero u) x) (entries old) l; Some (JObject r)
      | TAny => r ← decode_entries (fun x => decode_as TAny JNull x) [] l; Some (JObject r)
      | _ => None
      end
  end.

(** [json.Unmarshal(raw, &out)] for a fresh [out] of type [t] *)
Definition unmarshal (t : gotype) (raw : string) : option json := json_parse raw ≫= decode_as t (zero t).

(** ** Values of a type *)
Inductive conforms : gotype → json → Prop :=
  | conforms_string s : conforms TString (JString s)
  | conforms_bool b : conforms TBool (JBool b)
  | conforms_int n : conforms TInt (JNumber (format_int n))
  | conforms_float lit x : float_json lit = Some x → conforms TFloat (JNumber x)
  | conforms_float_zero : conforms TFloat (JNumber "0")
  | conforms_any v : conforms TAny v
  | conforms_nil_slice t : conforms (TSlice t) JNull
  | conforms_slice t l : (∀ v, v ∈ l → conforms t v) → conforms (TSlice t) (JArray l)
  | conforms_nil_map t : conforms (TMap t) JNull
  | conforms_map t l : (∀ k v, (k, v) ∈ l → conforms t v) → conforms (TMap t) (JObject l)
  | conforms_nil fs : conforms (TStruct true fs) JNull
  | conforms_struct nullable fs l : conforms_fields fs l → conforms (TStruct nullable fs) (JObject l)
with conforms_fields : list (string * gotype) → list (string * json) → Prop :=
  | conforms_no_fields : conforms_fields [] []
  | conforms_field k t v fs l : conforms t v → conforms_fields fs l → conforms_fields ((k, t) :: fs) ((k, v) :: l).
#[local] Hint Constructors conforms conforms_fields : core.

Fixpoint zero_conforms t : conforms t (zero t).
Proof.
  destruct t as [| | | | |t|t|[] fs]; try by constructor; cbn [zero].
  - by apply (conforms_int 0).
  - constructor. induction fs as [|[k u] fs IH]; constructor; [apply zero_conforms|exact IH].
Qed.

Lemma set_field_conforms fs l k t y : conforms_fields fs l → find (fun f => String.eqb f.1 k) fs = Some (k, t) → conforms t y →
  conforms_fields fs (set_field l k y).
Proof.
  induction 1 as [|k' t' v fs l Hv Hl IH]; [done|]. cbn. destruct (String.eqb k' k) eqn:E; cbn.
  - intros [= -> ->] Hy. by constructor.
  - intros Hf Hy. constructor; [done|by apply IH].
Qed.
Lemma field_conforms fs l k t v : conforms_fields fs l → find (fun f => String.eqb f.1 k) fs = Some (k, t) → field l k = Some v → conforms t v.
Proof.
  induction 1 as [|k' t' w fs l Hw Hl IH]; [done|]. cbn. destruct (String.eqb k' k); cbn; [|done]. by intros [= -> ->] [= ->].
Qed.
Lemma set_entry_in l k y k' v : (k', v) ∈ set_entry l k y → v = y ∨ (k', v) ∈ l.
Proof.
  induction l as [|[k0 x] l IH]; cbn; [intros [[= -> ->]|[]%not_elem_of_nil]%elem_of_cons; by left|].
  destruct (String.eqb k0 k); [|destruct (String.ltb k k0)].
  - intros [[= -> ->]|H]%elem_of_cons; [by left|right; by right].
  - intros [[= -> ->]|H]%elem_of_cons; [by left|by right].
  - intros [[= -> ->]|H]%elem_of_cons; [right; left|]. destruct (IH H) as [->|]; [by left|right; by right].
Qed.

(** No two fields of a struct have the same name. *)
Fixpoint distinct (t : gotype) : bool :=
  match t with
  | TSlice u | TMap u => distinct u
  | TStruct _ fs => bool_decide (NoDup fs.*1) && forallb (fun f => let '(_, u) := f in distinct u) fs
  | _ => true
  end.

Lemma found_field (fs : list (string * gotype)) k name t : NoDup fs.*1 → find (fun f => EqualFold f.1 k) fs = Some (name, t) →
  (name, t) ∈ fs ∧ find (fun f => String.eqb f.1 name) fs = Some (name, t).
Proof.
  induction fs as [|[n u] fs IH]; [done|]. cbn. intros [Hn Hfs]%NoDup_cons. destruct (EqualFold n k).
  - intros [= -> ->]. rewrite String.eqb_refl. split; [left|done].
  - intros Hf. destruct (IH Hfs Hf) as [Hin He]. split; [by right|]. destruct (String.eqb_spec n name) as [->|]; [|done].
    destruct Hn. by apply (list_elem_of_fmap_2 (@fst string gotype) fs (name, t)).
Qed.

(** Induction over a value and the values in it. *)
Lemma json_nested_ind (P : json → Prop) : P JNull → (∀ b, P (JBool b)) → (∀ n, P (JNumber n)) → (∀ s, P (JString s)) →
  (∀ l, Forall P l → P (JArray l)) → (∀ l, Forall (fun kv => P kv.2) l → P (JObject l)) → ∀ v, P v.
Proof.
  intros H1 H2 H3 H4 H5 H6. fix IH 1. intros [| | | |l|l]; [done|apply H2|apply H3|apply H4|apply H5|apply H6].
  - induction l as [|v l IHl]; constructor; [apply IH|exact IHl].
  - induction l as [|[k v] l IHl]; constructor; [apply IH|exact IHl].
Qed.

Definition decodes_well (v : json) : Prop := ∀ t old w, distinct t = true → conforms t old → decode_as t old v = Some w → conforms t w.

Lemma decode_list_conforms u l : distinct u = true → Forall decodes_well l → ∀ old r, (∀ x, x ∈ old → conforms u x) →
  decode_list (fun o x => decode_as u o x) u old l = Some r → ∀ v, v ∈ r → conforms u v.
Proof.
  intros Hu. induction 1 as [|x l Hx Hl IH]; intros old r Ho; [intros [= <-] v []%not_elem_of_nil|]. cbn.
  destruct (decode_as u _ x) as [y|] eqn:Ey; cbn; [|done].
  destruct (decode_list _ u (tail old) l) as [ys|] eqn:Es; cbn; [|done]. intros [= <-] v [->|Hv]%elem_of_cons.
  - eapply Hx; [done| |exact Ey]. destruct old as [|o old]; [apply zero_conforms|apply Ho; left].
  - eapply IH; [|exact Es|done]. intros z Hz. apply Ho. destruct old; [done|by right].
Qed.
Lemma decode_entries_conforms (dec : json → option json) u l : Forall (fun kv => ∀ y, dec kv.2 = Some y → conforms u y) l →
  ∀ acc r, (∀ k x, (k, x) ∈ acc → conforms u x) → decode_entries dec acc l = Some r → ∀ k v, (k, v) ∈ r → conforms u v.
Proof.
  induction 1 as [|[k x] l Hx Hl IH]; intros acc r Hacc; [by intros [= <-]|]. cbn. destruct (dec x) as [y|] eqn:Ey; cbn; [|done].
  intros Hr. eapply IH; [|exact Hr]. intros k' z [->|Hin]%set_entry_in; [by apply Hx|by eapply Hacc].
Qed.
Lemma decode_fields_conforms (fs : list (string * gotype)) l : NoDup fs.*1 → forallb (fun f => let '(_, u) := f in distinct u) fs = true → Forall (fun kv => decodes_well kv.2) l →
  ∀ acc r, conforms_fields fs acc → decode_fields (fun u o x => decode_as u o x) fs acc l = Some r → conforms_fields fs r.
Proof.
  intros Hnd Hd. induction 1 as [|[k x] l Hx Hl IH]; intros acc r Hacc; [by intros [= <-]|]. cbn.
  destruct (find _ fs) as [[name u]|] eqn:Ef; [|by apply IH]. destruct (found_field _ _ _ _ Hnd Ef) as [Hin Hn].
  destruct (decode_as u _ x) as [y|] eqn:Ey; cbn; [|done]. apply IH. eapply set_field_conforms; [done..|]. eapply Hx; [| |exact Ey].
  - rewrite forallb_forall in Hd. specialize (Hd (name, u)). apply Hd. by apply list_elem_of_In.
  - destruct (field acc name) as [o|] eqn:Eo; [by eapply field_conforms|apply zero_conforms].
Qed.

Lemma decode_conforms v : decodes_well v.
Proof.
  induction v as [|b|n|s|l IH|l IH] using json_nested_ind; intros t old w Hd Ho; cbn.
  - intros [= <-]. destruct t as [| | | | | | |[]]; try done; by constructor.
  - destruct t; try done; intros [= <-]; constructor.
  - destruct t; try (intros [=]; fail); try destruct (Atoi n); try destruct (float_json n) eqn:E; cbn; try done; intros [= <-]; by econstructor.
  - destruct t; try done; intros [= <-]; constructor.
  - destruct t as [| | | | |u| |]; try done.
    destruct (decode_list _ u (items old) l) as [r|] eqn:E; cbn; [|done]. intros [= <-]. constructor.
    eapply decode_list_conforms; [done|exact IH| |exact E]. inversion Ho; subst; cbn; [by intros ? ?%not_elem_of_nil|done].
  - destruct t as [| | | | | |u|nullable fs]; try done.
    + destruct (decode_entries _ (entries old) l) as [r|] eqn:E; cbn; [|done]. intros [= <-]. constructor.
      assert (∀ k x, (k, x) ∈ entries old → conforms u x) as He by (inversion Ho; subst; cbn; [by intros ? ? ?%not_elem_of_nil|assumption]).
      eapply (decode_entries_conforms (fun x => decode_as u (zero u) x)); [|exact He|exact E].
      eapply Forall_impl; [exact IH|]. intros [k x] Hx y Hy. eapply Hx; [done|apply zero_conforms|exact Hy].
    + destruct (decode_fields _ fs _ l) as [r|] eqn:E; cbn; [|done]. intros [= <-]. constructor.
      cbn in Hd. apply andb_true_iff in Hd as [Hnd%bool_decide_eq_true Hd]. eapply decode_fields_conforms; [done..|exact IH| |exact E].
      pose proof (zero_conforms (TStruct false fs)) as Hz. cbn in Hz. inversion Hz; subst. by inversion Ho; subst.
Qed.

Lemma unmarshal_conforms t raw w : distinct t = true → unmarshal t raw = Some w → conforms t w.
Proof.
  intros Hd. unfold unmarshal. destruct (json_parse raw) as [v|]; [|done]. cbn. apply decode_conforms; [done|apply zero_conforms].
Qed.
End Decode.
