(* ===== verification/Wire.v ===== *)
(** * A client and the marketplace it calls

    The clients of this repository ([internal/seed], [mcp], [cmd/vtessera-seller],
    [examples/go]) are programs over the traffic they cause: each call adds the
    request and what came back.  The marketplace is any function of the traffic so
    far ([server]); nothing is assumed of it.  [asks P p]: every request [p] makes
    satisfies [P]. *)
From S2P Require Import Prelude GoText Prog Json GoJson Render.

(** A request, its URL without the base and its token without the scheme. *)
Record HttpCall := mkCall { hc_method : string; hc_path : string; hc_token : string; hc_body : option string }.
(** No response; a body that cannot be read to its end; a status and a body. *)
Inductive Response_ := NoAnswer | Broken | Answer (status : Z) (raw : string).
Definition traffic : Type := list (HttpCall * Response_).
Definition server : Type := traffic → HttpCall → Response_.

(** [http.Client.Do] and the reading of the body. *)
Definition http_do (srv : server) (q : HttpCall) : prog traffic Response_ :=
  Atomic (fun l => let r := srv l q in Some (r, (q, r) :: l)) None Ret.

Definition GET : string := "GET".
Definition POST : string := "POST".
Definition PUT : string := "PUT".

(** ** [net/url]: escaping *)
Definition hex_upper (d : Z) : ascii := ascii_of_N (Z.to_N (if d <? 10 then 48 + d else 55 + d)).
Definition is_letter (c : ascii) : bool := ((65 <=? ord c) && (ord c <=? 90)) || ((97 <=? ord c) && (ord c <=? 122)).
Definition unreserved (c : ascii) : bool := is_letter c || is_digit c || existsb (ceqb c) ["-"; "_"; "."; "~"]%char.
Definition in_segment (c : ascii) : bool := unreserved c || existsb (ceqb c) ["$"; "&"; "+"; ":"; "="; "@"]%char.
Definition percent (c : ascii) : string := String "%" (String (hex_upper (ord c / 16)) (String (hex_upper (ord c mod 16)) "")).
Fixpoint PathEscape (s : string) : string :=
  match s with
  | EmptyString => ""
  | String c s' => (if in_segment c then String c "" else percent c) +:+ PathEscape s'
  end.
Fixpoint QueryEscape (s : string) : string :=
  match s with
  | EmptyString => ""
  | String c s' => (if unreserved c then String c "" else if ceqb c " " then "+" else percent c) +:+ QueryEscape s'
  end.
(** [url.Values.Encode], the keys in order. *)
Definition encode_values (l : list (string * string)) : string :=
  joined "&" (List.map (fun '(k, v) => QueryEscape k +:+ "=" +:+ QueryEscape v) l).

(** A segment leads nowhere else: no separator, no query, no fragment. *)
Definition separates (c : ascii) : bool := ceqb c "/" || ceqb c "?" || ceqb c "#".
Definition segment (s : string) : bool := negb (has_char separates s).
Lemma escaped_char c : all_chars (fun x => negb (separates x)) (if in_segment c then String c "" else percent c) = true.
Proof. destruct c as [[] [] [] [] [] [] [] []]; reflexivity. Qed.
Lemma PathEscape_segment s : segment (PathEscape s) = true.
Proof.
  assert (all_chars (fun x => negb (separates x)) (PathEscape s) = true) as H.
  { induction s as [|c s IH]; [done|]. cbn [PathEscape]. by rewrite all_chars_app, escaped_char. }
  unfold segment, has_char. rewrite negb_involutive. exact H.
Qed.

(** ** What a client asks for *)
Section Asks.
Context (P : HttpCall → Prop).
Definition only : relation traffic := fun l l' => ∃ q r, P q ∧ l' = (q, r) :: l.
Definition asks {A} (p : prog traffic A) : Prop := ∀ l, safe eq only always p l.

Lemma asks_ret {A} (a : A) : asks (Ret a).
Proof. by intros l. Qed.
Lemma asks_do srv q : P q → asks (http_do srv q).
Proof. intros Hq l l1 <-. split; [|done]. intros r l2 [= <- <-]. split; [|done]. by eexists _, _. Qed.
Lemma asks_bind {A B} (p : prog traffic A) (f : A → prog traffic B) : asks p → (∀ a, asks (f a)) → asks (prog_bind f p).
Proof. intros Hp Hf l. apply safe_bind. eapply safe_mono; [|apply Hp]. intros a l' _. apply Hf. Qed.
Lemma asks_io {A B} (p : io traffic A) (f : A → io traffic B) : asks p → (∀ a, asks (f a)) → asks (io_bind p f).
Proof. intros Hp Hf. apply asks_bind; [done|]. intros [a|e]; [done|apply asks_ret]. Qed.

Lemma asks_run {A} (p : prog traffic A) l a l' : asks p → run p l = Some (a, l') → ∃ new, l' = new ++ l ∧ Forall (fun x => P x.1) new.
Proof.
  intros Hp. specialize (Hp l). revert l Hp. induction p as [b|R f fl k IH]; intros l Hp; cbn.
  - intros [= <- <-]. by exists [].
  - destruct (Hp l eq_refl) as [Hf _]. destruct (f l) as [[r l1]|] eqn:E; [|done]. destruct (Hf r l1 eq_refl) as [(q & x & Hq & ->) Hk].
    intros Hr. destruct (IH r _ Hk Hr) as (new & -> & Hnew). exists (new ++ [(q, x)]). split; [by rewrite <-app_assoc|].
    apply Forall_app. split; [done|]. by constructor.
Qed.
End Asks.

Lemma asks_mono (P P' : HttpCall → Prop) {A} (p : prog traffic A) : (∀ q, P q → P' q) → asks P p → asks P' p.
Proof.
  intros HP Hp l. specialize (Hp l). revert l Hp. induction p as [a|R f fl k IH]; intros l Hp; [done|]. intros l1 <-.
  destruct (Hp l eq_refl) as [H1 H2]. split; [|intros r Hr; by apply IH, H2].
  intros r l2 Hf. destruct (H1 r l2 Hf) as [(q & x & Hq & ->) Hk]. split; [exists q, x; split; [by apply HP|done]|by apply IH].
Qed.

Create HintDb asks.
#[export] Hint Resolve asks_ret asks_do asks_bind asks_io : asks.
