(* ===== verification/SeedKeys.v ===== *)
(** * [internal/seed/keys.go]: the identities behind seeded listings

    One file holds one Ed25519 key per listing name, as a JSON object whose keys are
    in order.  A key is generated and saved the first time it is asked for.  The
    file is replaced as in [Files], without syncing the directory: no identity on
    disk is ever lost to a crash ([identities_kept]), but one that was just created
    can be ([fresh_identity_lost]). *)
From S2P Require Import Prelude GoText Prog Zoom Sha256 Json Domain Keys World GoJson Files Keyring Render.

Definition seed_keyringVersion : Z := 1.
Record seed_keyringFile := mkSeedFile { sf_Version : Z; sf_Keys : gmap string string }.

(** The members of a JSON object made from a map, its keys sorted. *)
Definition key_le (a b : string * string) : Prop := String.leb a.1 b.1 = true.
#[export] Instance key_le_dec a b : Decision (key_le a b).
Proof. unfold key_le. apply _. Defined.
Definition sorted_entries (m : gmap string string) : list (string * string) := merge_sort key_le (map_to_list m).
Definition seed_json (f : seed_keyringFile) : json :=
  JObject [("version", JInt (sf_Version f)); ("keys", JObject (map (fun '(k, x) => (k, JString x)) (sorted_entries (sf_Keys f))))].

Definition seed_file_of (keys : gmap string privkey) : seed_keyringFile :=
  mkSeedFile seed_keyringVersion ((fun k => base64 (string_of k)) <$> keys).
Definition seed_text (keys : gmap string privkey) : string := marshal_indent (seed_json (seed_file_of keys)) +:+ line.

Section SeedKeys.
Context `{IO : Folding}.

(** Into a map of strings: a member replaces what is there, [null] is the empty
    string; [null] for the object leaves no map. *)
Fixpoint read_entries (m : gmap string string) (l : list (string * json)) : option (gmap string string) :=
  match l with [] => Some m | (k, v) :: l' => x ← as_string "" v; read_entries (<[k := x]> m) l' end.
Definition as_map (old : gmap string string) (v : json) : option (gmap string string) :=
  match v with JObject l => read_entries old l | JNull => Some ∅ | _ => None end.
Definition seed_fields : list (string * (seed_keyringFile → json → option seed_keyringFile)) := [
  ("version", fun f v => x ← as_int (sf_Version f) v; Some (mkSeedFile x (sf_Keys f)));
  ("keys", fun f v => x ← as_map (sf_Keys f) v; Some (mkSeedFile (sf_Version f) x))].
Definition seed_unmarshal (raw : string) : option seed_keyringFile := json_parse raw ≫= as_struct seed_fields (mkSeedFile 0 ∅).

Definition decode_key (encoded : string) : option privkey :=
  raw ← base64_decode encoded;
  if Nat.eqb (slen raw) PrivateKeySize then Some (bytes_of raw) else None.

(** Every key of the file decodes, or none is used. *)
Definition decode_keys (m : gmap string string) : option (gmap string privkey) :=
  if bool_decide (map_Forall (fun _ x => is_Some (decode_key x)) m) then Some (omap decode_key m) else None.

Definition parse_seed_file (body : string) : res (gmap string privkey) :=
  match seed_unmarshal body with
  | None => Err []
  | Some file =>
      if negb (sf_Version file =? seed_keyringVersion) then Err []
      else match decode_keys (sf_Keys file) with Some keys => Ok keys | None => Err [] end
  end.

Definition OpenKeyring (path : string) : io FS (gmap string privkey) :=
  on_result (ReadFile path) (fun r => match r with
  | Err e => if errorIs e ENotExist then ok ∅ else fail e
  | Ok body => lift (parse_seed_file body)
  end).

Definition save (path : string) (keys : gmap string privkey) : io FS unit :=
  replace_file path ".seed-keyring." false (seed_text keys).

(** [ed25519.GenerateKey(rand.Reader)] *)
Definition GenerateKey : io FS privkey :=
  sys (fun s => let k := map (fun b => b mod 256) (fs_entropy s) in (if Nat.eqb (length k) PrivateKeySize then Ok k else Err [EIO], s)).

(** [Keyring.Key]: the key, and the keyring as it is then. *)
Definition Key (path : string) (keys : gmap string privkey) (name : string) : prog FS (res privkey * gmap string privkey) :=
  match keys !! name with
  | Some key => Ret (Ok key, keys)
  | None =>
      prog_bind (fun r => match r with
      | Err e => Ret (Err e, keys)
      | Ok key =>
          prog_bind (fun r => Ret (match r with Ok _ => (Ok key, <[name := key]> keys) | Err e => (Err e, keys) end))
            (save path (<[name := key]> keys))
      end) GenerateKey
  end.

(** ** What is saved is read back *)
Definition usable (keys : gmap string privkey) : Prop :=
  ∀ name k, keys !! name = Some k → plain name = true ∧ length k = PrivateKeySize ∧ key_bytes k.

Lemma read_entries_sorted l m : NoDup l.*1 → (∀ k, k ∈ l.*1 → m !! k = None) →
  read_entries m (map (fun '(k, x) => (k, JString x)) l) = Some (list_to_map l ∪ m).
Proof.
  revert m. induction l as [|[k x] l IH]; intros m Hl Hm; [cbn; by rewrite map_empty_union|].
  apply NoDup_cons in Hl as [Hk Hl]. cbn. rewrite IH; [|done|].
  - rewrite <-insert_union_l, insert_union_r; [done|]. by apply not_elem_of_list_to_map_1.
  - intros k' Hk'. rewrite lookup_insert_ne; [|by intros ->]. apply Hm. by right.
Qed.

Lemma sorted_entries_perm m : sorted_entries m ≡ₚ map_to_list m.
Proof. apply merge_sort_Permutation. Qed.

Lemma slen_string_of k : slen (string_of k) = length k.
Proof. induction k; cbn; [done|]. by f_equal. Qed.
Lemma decode_encode k : length k = PrivateKeySize → key_bytes k → decode_key (base64 (string_of k)) = Some k.
Proof.
  intros Hl Hk. unfold decode_key. rewrite base64_roundtrip. cbn [mbind option_bind].
  by rewrite slen_string_of, Hl, bytes_of_string_of.
Qed.

Lemma decode_encoded keys : usable keys → decode_keys (sf_Keys (seed_file_of keys)) = Some keys.
Proof.
  intros Hk. unfold decode_keys. rewrite bool_decide_eq_true_2.
  - f_equal. apply map_eq. intros n. cbn. rewrite lookup_omap, lookup_fmap. destruct (keys !! n) as [k|] eqn:E; [|done].
    destruct (Hk n k E) as (_ & Hl & Hb). by apply (decode_encode k).
  - intros n x. cbn. rewrite lookup_fmap. intros (k & E & ->)%fmap_Some. destruct (Hk n k E) as (_ & Hl & Hb). cbv beta. rewrite decode_encode by done. by eexists.
Qed.

Lemma saved_read_back keys : usable keys → parse_seed_file (seed_text keys) = Ok keys.
Proof.
  intros Hk. unfold parse_seed_file, seed_unmarshal, seed_text.
  assert (sound 2 (seed_json (seed_file_of keys))) as Hs.
  { unfold seed_json. constructor.
    - intros k v [[= -> ->]|[[= -> ->]|[]%not_elem_of_nil]%elem_of_cons]%elem_of_cons; done.
    - intros k v [[= -> ->]|[[= -> ->]|[]%not_elem_of_nil]%elem_of_cons]%elem_of_cons; [by constructor|].
      assert (∀ k v, (k, v) ∈ map (fun '(k, x) => (k, JString x)) (sorted_entries (sf_Keys (seed_file_of keys))) → plain k = true ∧ sound 0 v) as Hm.
      { intros k v ([n x] & [= -> ->] & Hin)%list_elem_of_fmap. rewrite sorted_entries_perm in Hin.
        apply elem_of_map_to_list in Hin. cbn in Hin. rewrite lookup_fmap in Hin. apply fmap_Some in Hin as (key & E & ->).
        destruct (Hk n key E) as (Hn & _). split; [done|constructor; apply base64_plain]. }
      constructor; intros k v Hin; by apply Hm in Hin as []. }
  rewrite (parse_marshal_indent 2); [|done|done|done]. cbn [mbind option_bind]. unfold seed_json.
  transitivity (match (x ← as_map ∅ (JObject (map (fun '(k, x) => (k, JString x)) (sorted_entries (sf_Keys (seed_file_of keys)))));
      Some (mkSeedFile 1 x)) with
    | None => Err [] | Some file => if negb (sf_Version file =? seed_keyringVersion) then Err []
      else match decode_keys (sf_Keys file) with Some keys => Ok keys | None => Err [] end end : res (gmap string privkey)).
  { generalize (JObject (map (fun '(k, x) => (k, JString x)) (sorted_entries (sf_Keys (seed_file_of keys))))) as v. intros v.
    assert (find (fun f => EqualFold f.1 "version") seed_fields = nth_error seed_fields 0) as H1 by reflexivity.
    assert (find (fun f => EqualFold f.1 "keys") seed_fields = nth_error seed_fields 1) as H2 by reflexivity.
    unfold as_struct. cbn [read_fields]. rewrite H1, H2. cbn [seed_fields nth_error].
    change (as_int (sf_Version (mkSeedFile 0 ∅)) (JInt (sf_Version (seed_file_of keys)))) with (Some 1). cbn [mbind option_bind sf_Keys].
    by destruct (as_map ∅ v). }
  unfold as_map. rewrite read_entries_sorted.
  - cbn [mbind option_bind sf_Version sf_Keys]. change (negb (1 =? seed_keyringVersion)) with false. cbv iota.
    rewrite map_union_empty, (list_to_map_proper _ (map_to_list (sf_Keys (seed_file_of keys)))).
    + by rewrite list_to_map_to_list, decode_encoded.
    + rewrite sorted_entries_perm. apply NoDup_fst_map_to_list.
    + apply sorted_entries_perm.
  - rewrite sorted_entries_perm. apply NoDup_fst_map_to_list.
  - intros. apply lookup_empty.
Qed.

(** ** What the key file holds *)
Section Kept.
Context (path : string) (keys : gmap string privkey).
(** The keyring, or one that has more identities. *)
Definition recalls (o : option string) : Prop :=
  match o with None => keys = ∅ | Some raw => ∃ keys', parse_seed_file raw = Ok keys' ∧ keys ⊆ keys' end.
Abbreviation kept := (holds_always path recalls).
Abbreviation triple := (safe chance (into kept)).

(** What asking for a key leaves. *)
Definition keyed (name : string) (r : res privkey * gmap string privkey) (s : FS) : Prop :=
  kept s ∧ match r with
  | (Ok key, keys') => keys' !! name = Some key ∧ keys ⊆ keys' ∧
      (keys' = keys ∨ keys !! name = None ∧ ∃ raw, read s path = Some raw ∧ parse_seed_file raw = Ok keys')
  | (Err _, keys') => keys' = keys
  end.

Lemma keyed_chance name r s s' : chance s s' → keyed name r s → keyed name r s'.
Proof. intros Hc [H1 H2]. split; [by eapply keeps_chance|]. destruct r as [[key|e] keys']; [|done]. by rewrite (read_chance _ _ path Hc). Qed.

Lemma Key_safe name s : (∀ suffix, (Dir path +:+ "/" +:+ ".seed-keyring.") +:+ suffix ≠ path) →
  plain name = true → usable keys → kept s → triple (keyed name) (Key path keys name) s.
Proof.
  intros Hpath Hname Hk Hs. unfold Key. destruct (keys !! name) as [key|] eqn:E.
  { split; [done|]. split_and!; [done..|by left]. }
  apply safe_bind, (safe_sys path). intros s1 Hc. pose proof (keeps_chance _ _ _ _ Hc Hs) as H1. cbn -[safe save].
  split_and!; [done| |by split]. set (fresh := map _ _). destruct (Nat.eqb_spec (length fresh) PrivateKeySize) as [Hl|]; [|by split].
  assert (usable (<[name := fresh]> keys)) as Hnew.
  { intros n k. destruct (decide (n = name)) as [->|Hn]; [rewrite lookup_insert_eq; intros [= <-]|rewrite lookup_insert_ne by done; apply Hk].
    split_and!; [done..|apply random_key_bytes]. }
  pose proof (saved_read_back _ Hnew) as Hback. assert (keys ⊆ <[name := fresh]> keys) as Hsub by (by apply insert_subseteq).
  apply safe_bind. eapply safe_mono; [|apply replace_file_safe; [done| |by right]]; [|by exists (<[name := fresh]> keys)].
  intros [[]|e] s2 [H2 Hread]; (split; [done|]); [|done]. split_and!; [apply lookup_insert_eq|done|]. right. split; [done|].
  exists (seed_text (<[name := fresh]> keys)). split; [by apply Hread|done].
Qed.
End Kept.
End SeedKeys.

(** C19: a listing's identity is not lost.  Let the key file hold the keys the process
    has read, durably.  Wherever asking for a key fails or the process dies, and
    whatever a power failure makes of the file system, the file opens as a keyring
    with all those keys; a key that exists is returned as it is, and a key that is
    returned as new is in the file together with all the others. *)
Theorem identities_kept `{IO : Folding} path keys name s s1 :
  (∀ suffix, (Dir path +:+ "/" +:+ ".seed-keyring.") +:+ suffix ≠ path) → plain name = true → usable keys →
  holds_always path (recalls keys) s → runs_to (Key path keys name) s s1 →
  recalls keys (read s1 path) ∧ (∀ s2, survives s1 s2 → recalls keys (read s2 path)) ∧
  ∀ r keys' s', run (Key path keys name) s = Some (r, keys', s') →
    match r with
    | Ok key => keys' !! name = Some key ∧ keys ⊆ keys' ∧
        (keys' = keys ∨ keys !! name = None ∧ ∃ raw, read s' path = Some raw ∧ parse_seed_file raw = Ok keys')
    | Err _ => keys' = keys
    end.
Proof.
  intros Hpath Hname Hk Hs Hrun. pose proof (Key_safe path keys name s Hpath Hname Hk Hs) as Hsafe.
  assert (holds_always path (recalls keys) s1) as H1.
  { eapply safe_runs_to; [|apply keeps_chance|exact Hrun|exact Hsafe|done]. intros r a b. apply keyed_chance. }
  split_and!; [by apply (holds_always_read _ _ _ H1)|intros s2 Hs2; by apply (holds_always_survives _ _ _ _ H1 Hs2)|].
  intros r keys' s' Hr. destruct (safe_run _ _ _ _ _ _ Hsafe Hr) as [_ H]. by destruct r.
Qed.

(** *** Witness: an empty disk *)
#[local] Existing Instance demoFolding.
Definition seedPath : string := "/data/seed-keyring.json".
Definition seedDisk : FS := mkFS ∅ [∅] 0 "1" None (replicate 64 7).
Definition seedRun : option (res privkey * gmap string privkey * FS) := run (Key seedPath ∅ "a") seedDisk.

Lemma seedPath_apart suffix : (Dir seedPath +:+ "/" +:+ ".seed-keyring.") +:+ suffix ≠ seedPath.
Proof. change (Dir seedPath) with "/data". discriminate. Qed.
Lemma seedDisk_holds : holds_always seedPath (recalls ∅) seedDisk.
Proof.
  split_and!; [done| |by intros d ->%list_elem_of_singleton].
  intros i [x H]. change ((∅ : gmap nat inode) !! i = Some x) in H. by rewrite lookup_empty in H.
Qed.

Lemma identities_kept_witness : ∃ s1, runs_to (Key seedPath ∅ "a") seedDisk s1 ∧
  recalls ∅ (read s1 seedPath) ∧ (∀ s2, survives s1 s2 → recalls ∅ (read s2 seedPath)) ∧
  ∀ r keys' s', run (Key seedPath ∅ "a") seedDisk = Some (r, keys', s') →
    match r with
    | Ok key => keys' !! "a" = Some key ∧ ∅ ⊆ keys' ∧
        (keys' = ∅ ∨ (∅ : gmap string privkey) !! "a" = None ∧ ∃ raw, read s' seedPath = Some raw ∧ parse_seed_file raw = Ok keys')
    | Err _ => keys' = ∅
    end.
Proof.
  exists seedDisk. assert (runs_to (Key seedPath ∅ "a") seedDisk seedDisk) as H by (eexists; constructor). split; [exact H|].
  apply (identities_kept seedPath ∅ "a" seedDisk seedDisk seedPath_apart eq_refl); [|apply seedDisk_holds|exact H].
  intros n k Hn. by rewrite lookup_empty in Hn.
Defined.

(** The directory is not synced: a power failure after the first key was returned
    can leave no keyring at all, and the next start makes another identity. *)
Lemma fresh_identity_lost : ∃ key keys s' s'', run (Key seedPath ∅ "a") seedDisk = Some (Ok key, keys, s') ∧
  survives s' s'' ∧ run (OpenKeyring seedPath) s'' = Some (Ok ∅, s'').
Proof.
  destruct (run (Key seedPath ∅ "a") seedDisk) as [[[[key|e] keys] s']|] eqn:E; [|exfalso; revert E; vm_compute; discriminate..].
  assert (∅ ∈ fs_dirs s') as Hd by (revert E; vm_compute; intros [= _ _ <-]; cbn; repeat (left || right)).
  exists key, keys, s', (mkFS (fs_inodes s') [∅] (fs_next s') "" None []). split_and!; [done| |done]. split.
  - exists ∅. split; [done|]. intros p. by exists ∅.
  - intros i n Hn. by exists n.
Qed.
