(* ===== verification/SeedClient.v ===== *)
(** * [internal/seed/catalog.go] and [client.go]

    The listings a seeder keeps on the board, the file they are read from, and the
    calls the seeder makes: one [Definition] per method of [Client], over the
    traffic of [Wire]. *)
From S2P Require Import Prelude GoText Prog Json Domain Money Keys Auth World GoJson Files Render Wire.

(** ** catalog.go *)
Definition usdc : string := "EPjFWdd5AufqSSqeM2qN1xzybapC8G4wEGGkZwyTDt1v".
Definition defaultCardURL : string := "https://vtessera.fly.dev/".
Record Listing := mkListing {
  li_Name : string; li_Description : string; li_URL : string; li_Capabilities : list string; li_Offer : string;
  li_PriceAmount : string; li_PriceMint : string; li_SettlementModes : list SettlementMode }.
Definition listing_mint (l : Listing) : string := if negb (String.eqb (li_PriceMint l) "") then li_PriceMint l else usdc.
Definition listing_url (l : Listing) : string := if negb (String.eqb (li_URL l) "") then li_URL l else defaultCardURL.
Definition listing_modes (l : Listing) : list SettlementMode :=
  if (0 <? length (li_SettlementModes l))%nat then li_SettlementModes l else [SettlementOffchain].

Definition default_listing (name description capability offer price : string) : Listing :=
  mkListing name description "" [capability] offer price "" [].
Definition DefaultCatalog : list Listing := [
  default_listing "vtessera-seed-summarize" "Summarizes a document into a short, faithful abstract." "summarize:document"
    "Condense a text document into a short summary." "0.25";
  default_listing "vtessera-seed-translate" "Translates short text between natural languages." "translate:text"
    "Translate a short text between two languages." "0.50";
  default_listing "vtessera-seed-extract" "Extracts structured entities from unstructured text." "extract:entities"
    "Extract people, organisations and places from a text." "0.50";
  default_listing "vtessera-seed-research" "Answers a research question with a short, sourced write-up." "research:topic"
    "Research a topic and return a short, sourced brief." "1.00";
  default_listing "vtessera-seed-code-review" "Reviews a code change and reports defects and risks." "code:review"
    "Review a patch and report defects." "0.50";
  default_listing "vtessera-seed-transcribe" "Transcribes a short audio clip to text." "transcribe:audio"
    "Transcribe a short audio clip." "0.75";
  default_listing "vtessera-seed-classify" "Classifies text into the caller's categories." "classify:text"
    "Classify a piece of text into supplied categories." "0.10"].

Section Catalog.
Context `{IO : Folding}.
Definition empty_listing : Listing := mkListing "" "" "" [] "" "" "" [].
Definition listing_fields : list (string * (Listing → json → option Listing)) := [
  ("name", fun l v => x ← as_string (li_Name l) v; Some (mkListing x (li_Description l) (li_URL l) (li_Capabilities l) (li_Offer l) (li_PriceAmount l) (li_PriceMint l) (li_SettlementModes l)));
  ("description", fun l v => x ← as_string (li_Description l) v; Some (mkListing (li_Name l) x (li_URL l) (li_Capabilities l) (li_Offer l) (li_PriceAmount l) (li_PriceMint l) (li_SettlementModes l)));
  ("url", fun l v => x ← as_string (li_URL l) v; Some (mkListing (li_Name l) (li_Description l) x (li_Capabilities l) (li_Offer l) (li_PriceAmount l) (li_PriceMint l) (li_SettlementModes l)));
  ("capabilities", fun l v => x ← as_slice "" as_string (li_Capabilities l) v; Some (mkListing (li_Name l) (li_Description l) (li_URL l) x (li_Offer l) (li_PriceAmount l) (li_PriceMint l) (li_SettlementModes l)));
  ("offer", fun l v => x ← as_string (li_Offer l) v; Some (mkListing (li_Name l) (li_Description l) (li_URL l) (li_Capabilities l) x (li_PriceAmount l) (li_PriceMint l) (li_SettlementModes l)));
  ("priceAmount", fun l v => x ← as_string (li_PriceAmount l) v; Some (mkListing (li_Name l) (li_Description l) (li_URL l) (li_Capabilities l) (li_Offer l) x (li_PriceMint l) (li_SettlementModes l)));
  ("priceMint", fun l v => x ← as_string (li_PriceMint l) v; Some (mkListing (li_Name l) (li_Description l) (li_URL l) (li_Capabilities l) (li_Offer l) (li_PriceAmount l) x (li_SettlementModes l)));
  ("settlementModes", fun l v => x ← as_slice "" as_string (li_SettlementModes l) v; Some (mkListing (li_Name l) (li_Description l) (li_URL l) (li_Capabilities l) (li_Offer l) (li_PriceAmount l) (li_PriceMint l) x))].
Definition unmarshal_catalog (body : string) : option (list Listing) :=
  json_parse body ≫= as_slice empty_listing (as_struct listing_fields) [].

(** What is read off a catalog file. *)
Definition check_listing (l : Listing) : bool :=
  negb (String.eqb (li_Name l) "") && negb (String.eqb (li_Offer l) "") && negb (String.eqb (li_PriceAmount l) "").
Definition catalog_of (body : string) : res (list Listing) :=
  match unmarshal_catalog body with
  | None => Err []
  | Some listings =>
      if Nat.eqb (length listings) 0 then Err []
      else if forallb check_listing listings then Ok listings else Err []
  end.
Definition LoadCatalog (path : string) : io FS (list Listing) :=
  if String.eqb path "" then ok DefaultCatalog else body <~ ReadFile path;; lift (catalog_of body).
End Catalog.

(** ** [time.Time.UnmarshalJSON]: the layout of RFC 3339 *)
Definition two (n : nat) (s : string) : option Z :=
  let d := stake 2 (sdrop n s) in if Nat.eqb (slen d) 2 && all_chars is_digit d then Some (dec d) else None.
Definition is_leap (y : Z) : bool := (y mod 4 =? 0) && (negb (y mod 100 =? 0) || (y mod 400 =? 0)).
Definition days_in (y m : Z) : Z :=
  if m =? 2 then if is_leap y then 29 else 28 else if existsb (Z.eqb m) [4; 6; 9; 11] then 30 else 31.
(** Days since 1970-01-01. *)
Definition days_of (y m d : Z) : Z :=
  let y' := if m <=? 2 then y - 1 else y in
  let era := y' / 400 in let yoe := y' - era * 400 in
  let doy := (153 * (if m >? 2 then m - 3 else m + 9) + 2) / 5 + d - 1 in
  era * 146097 + yoe * 365 + yoe / 4 - yoe / 100 + doy - 719468.
(** The offset from UTC in seconds. *)
Definition zone (s : string) : option Z :=
  if String.eqb s "Z" then Some 0
  else if Nat.eqb (slen s) 6 && (byte_at 3 s =? 58) then
    h ← two 1 s; m ← two 4 s;
    if (h >? 23) || (m >? 59) then None
    else if byte_at 0 s =? 43 then Some (3600 * h + 60 * m) else if byte_at 0 s =? 45 then Some (- (3600 * h + 60 * m)) else None
  else None.
(** Nine digits count. *)
Definition fraction (s : string) : Z * string :=
  match s with
  | String "." s' =>
      let '(d, r) := digits s' in
      if String.eqb d "" then (0, s) else (let d := stake 9 d in dec d * 10 ^ (9 - Z.of_nat (slen d)), r)
  | _ => (0, s)
  end.
Definition ParseRFC3339 (s : string) : option time :=
  let y4 := stake 4 s in
  if negb (Nat.eqb (slen y4) 4 && all_chars is_digit y4) then None else
  let y := dec y4 in
  mo ← two 5 s; d ← two 8 s; h ← two 11 s; mi ← two 14 s; sec ← two 17 s;
  if negb ((byte_at 4 s =? 45) && (byte_at 7 s =? 45) && (byte_at 10 s =? 84) && (byte_at 13 s =? 58) && (byte_at 16 s =? 58)) then None
  else if (mo <? 1) || (mo >? 12) || (d <? 1) || (d >? days_in y mo) || (h >? 23) || (mi >? 59) || (sec >? 59) then None
  else
    let '(ns, rest) := fraction (sdrop 19 s) in
    off ← zone rest;
    Some (second * (days_of y mo d * 86400 + h * 3600 + mi * 60 + sec - off) + ns).
Definition as_time (old : time) (v : json) : option time :=
  match v with JString s => ParseRFC3339 s | JNull => Some old | _ => None end.
Definition as_amount (old : Amount) (v : json) : option Amount :=
  match v with JString s => match Parse s with Ok a => Some a | Err _ => None end | _ => None end.

Example ParseRFC3339_back : map (fun t => ParseRFC3339 (rfc3339nano t)) [0; 951827696120000000; -62135596800000000000; 253402300799999999999] =
  map Some [0; 951827696120000000; -62135596800000000000; 253402300799999999999].
Proof. vm_compute. reflexivity. Qed.
Example ParseRFC3339_refuses : map ParseRFC3339 ["2023-02-29T00:00:00Z"; "2024-02-29T24:00:00Z"; "2024-02-29 00:00:00Z"; "2024-02-29T00:00:00"] = [None; None; None; None] ∧
  ParseRFC3339 "2024-02-29T01:00:00.5+01:00" = ParseRFC3339 "2024-02-29T00:00:00.500Z".
Proof. vm_compute. done. Qed.

(** ** client.go *)
Definition maxResponseBytes : Z := 2 ^ 20.
(** [io.ReadAll(io.LimitReader(body, n))] *)
Definition limited (n : Z) (s : string) : string := if Z.of_nat (slen s) <=? n then s else stake (Z.to_nat n) s.

Record Refused := mkRefused { rf_Status : Z; rf_Code : string; rf_Message : string }.
Definition Refused_Error (r : Refused) : string :=
  if String.eqb (rf_Code r) "" then "marketplace refused with " +:+ format_uint (rf_Status r) +:+ ": " +:+ rf_Message r
  else "marketplace refused (" +:+ rf_Code r +:+ "): " +:+ rf_Message r.

Section Decode.
Context `{IO : Folding}.
Record RefusalBody := mkRefusalBody { rb_Error : string; rb_Code : string }.
Definition refusal_fields : list (string * (RefusalBody → json → option RefusalBody)) := [
  ("error", fun r v => x ← as_string (rb_Error r) v; Some (mkRefusalBody x (rb_Code r)));
  ("code", fun r v => x ← as_string (rb_Code r) v; Some (mkRefusalBody (rb_Error r) x))].
(** A field that does not decode is left empty, the others are read. *)
Fixpoint read_what_fits {A} (fields : list (string * (A → json → option A))) (acc : A) (l : list (string * json)) : A :=
  match l with
  | [] => acc
  | (k, v) :: l' =>
      read_what_fits fields (match find (fun f => EqualFold f.1 k) fields with Some (_, set) => default acc (set acc v) | None => acc end) l'
  end.
Definition refusal (status : Z) (body : string) : Refused :=
  let decoded := match json_parse body with Some (JObject l) => read_what_fits refusal_fields (mkRefusalBody "" "") l | _ => mkRefusalBody "" "" end in
  mkRefused status (rb_Code decoded) (if String.eqb (rb_Error decoded) "" then TrimSpace body else rb_Error decoded).

(** [Client.do], into a value that starts as [zero]; and with no value to decode. *)
Definition answered (r : Response_) : res string :=
  match r with
  | NoAnswer | Broken => Err []
  | Answer status body =>
      let raw := limited maxResponseBytes body in
      if 400 <=? status then Err [Refused_Error (refusal status raw)] else Ok raw
  end.
Definition decoded {A} (zero : A) (decode : string → option A) (r : Response_) : res A :=
  raw ← answered r;
  if String.eqb raw "" then Ok zero else match decode raw with Some a => Ok a | None => Err [] end.

Record Health := mkHealth { he_VerificationKey : string; he_Sandbox : bool; he_Cluster : string; he_Version : string }.
Definition health_fields : list (string * (Health → json → option Health)) := [
  ("verificationKey", fun h v => x ← as_string (he_VerificationKey h) v; Some (mkHealth x (he_Sandbox h) (he_Cluster h) (he_Version h)));
  ("sandbox", fun h v => x ← as_bool (he_Sandbox h) v; Some (mkHealth (he_VerificationKey h) x (he_Cluster h) (he_Version h)));
  ("cluster", fun h v => x ← as_string (he_Cluster h) v; Some (mkHealth (he_VerificationKey h) (he_Sandbox h) x (he_Version h)));
  ("version", fun h v => x ← as_string (he_Version h) v; Some (mkHealth (he_VerificationKey h) (he_Sandbox h) (he_Cluster h) x))].
Definition zero_health : Health := mkHealth "" false "" "".
Definition decode_health (raw : string) : option Health := json_parse raw ≫= as_struct health_fields zero_health.

Definition challenge_fields : list (string * (string * string → json → option (string * string))) := [
  ("challengeId", fun c v => x ← as_string c.1 v; Some (x, c.2)); ("nonce", fun c v => x ← as_string c.2 v; Some (c.1, x))].
Definition decode_challenge (raw : string) : option (string * string) := json_parse raw ≫= as_struct challenge_fields ("", "").
Definition session_fields : list (string * (string → json → option string)) := [("token", fun t v => as_string t v)].
Definition decode_session (raw : string) : option string := json_parse raw ≫= as_struct session_fields "".

Definition zero_offer : Offer := mkOffer "" "" "" "" [] AmountZero "" [] "" zeroTime zeroTime zeroTime.
Definition offer_fields : list (string * (Offer → json → option Offer)) :=
  [
  ("id", fun o v => x ← as_string (offer_ID o) v; Some (mkOffer x (offer_AgentID o) (offer_Direction o) (offer_Description o) (offer_Capabilities o) (offer_PriceAmount o) (offer_PriceMint o) (offer_SettlementModes o) (offer_Status o) (offer_CreatedAt o) (offer_UpdatedAt o) (offer_ExpiresAt o)));
  ("agentId", fun o v => x ← as_string (offer_AgentID o) v; Some (mkOffer (offer_ID o) x (offer_Direction o) (offer_Description o) (offer_Capabilities o) (offer_PriceAmount o) (offer_PriceMint o) (offer_SettlementModes o) (offer_Status o) (offer_CreatedAt o) (offer_UpdatedAt o) (offer_ExpiresAt o)));
  ("direction", fun o v => x ← as_string (offer_Direction o) v; Some (mkOffer (offer_ID o) (offer_AgentID o) x (offer_Description o) (offer_Capabilities o) (offer_PriceAmount o) (offer_PriceMint o) (offer_SettlementModes o) (offer_Status o) (offer_CreatedAt o) (offer_UpdatedAt o) (offer_ExpiresAt o)));
  ("description", fun o v => x ← as_string (offer_Description o) v; Some (mkOffer (offer_ID o) (offer_AgentID o) (offer_Direction o) x (offer_Capabilities o) (offer_PriceAmount o) (offer_PriceMint o) (offer_SettlementModes o) (offer_Status o) (offer_CreatedAt o) (offer_UpdatedAt o) (offer_ExpiresAt o)));
  ("capabilities", fun o v => x ← as_slice "" as_string (offer_Capabilities o) v; Some (mkOffer (offer_ID o) (offer_AgentID o) (offer_Direction o) (offer_Description o) x (offer_PriceAmount o) (offer_PriceMint o) (offer_SettlementModes o) (offer_Status o) (offer_CreatedAt o) (offer_UpdatedAt o) (offer_ExpiresAt o)));
  ("priceAmount", fun o v => x ← as_amount (offer_PriceAmount o) v; Some (mkOffer (offer_ID o) (offer_AgentID o) (offer_Direction o) (offer_Description o) (offer_Capabilities o) x (offer_PriceMint o) (offer_SettlementModes o) (offer_Status o) (offer_CreatedAt o) (offer_UpdatedAt o) (offer_ExpiresAt o)));
  ("priceMint", fun o v => x ← as_string (offer_PriceMint o) v; Some (mkOffer (offer_ID o) (offer_AgentID o) (offer_Direction o) (offer_Description o) (offer_Capabilities o) (offer_PriceAmount o) x (offer_SettlementModes o) (offer_Status o) (offer_CreatedAt o) (offer_UpdatedAt o) (offer_ExpiresAt o)));
  ("settlementModes", fun o v => x ← as_slice "" as_string (offer_SettlementModes o) v; Some (mkOffer (offer_ID o) (offer_AgentID o) (offer_Direction o) (offer_Description o) (offer_Capabilities o) (offer_PriceAmount o) (offer_PriceMint o) x (offer_Status o) (offer_CreatedAt o) (offer_UpdatedAt o) (offer_ExpiresAt o)));
  ("status", fun o v => x ← as_string (offer_Status o) v; Some (mkOffer (offer_ID o) (offer_AgentID o) (offer_Direction o) (offer_Description o) (offer_Capabilities o) (offer_PriceAmount o) (offer_PriceMint o) (offer_SettlementModes o) x (offer_CreatedAt o) (offer_UpdatedAt o) (offer_ExpiresAt o)));
  ("createdAt", fun o v => x ← as_time (offer_CreatedAt o) v; Some (mkOffer (offer_ID o) (offer_AgentID o) (offer_Direction o) (offer_Description o) (offer_Capabilities o) (offer_PriceAmount o) (offer_PriceMint o) (offer_SettlementModes o) (offer_Status o) x (offer_UpdatedAt o) (offer_ExpiresAt o)));
  ("updatedAt", fun o v => x ← as_time (offer_UpdatedAt o) v; Some (mkOffer (offer_ID o) (offer_AgentID o) (offer_Direction o) (offer_Description o) (offer_Capabilities o) (offer_PriceAmount o) (offer_PriceMint o) (offer_SettlementModes o) (offer_Status o) (offer_CreatedAt o) x (offer_ExpiresAt o)));
  ("expiresAt", fun o v => x ← as_time (offer_ExpiresAt o) v; Some (mkOffer (offer_ID o) (offer_AgentID o) (offer_Direction o) (offer_Description o) (offer_Capabilities o) (offer_PriceAmount o) (offer_PriceMint o) (offer_SettlementModes o) (offer_Status o) (offer_CreatedAt o) (offer_UpdatedAt o) x))].
Definition decode_offer (raw : string) : option Offer := json_parse raw ≫= as_struct offer_fields zero_offer.
End Decode.

(** ** The calls *)
Section Client.
Context `{IO : Folding} `{IE : Ed25519} (srv : server).

Record OfferRequest := mkOfferRequest {
  or_Direction : OfferDirection; or_Description : string; or_Capabilities : list string; or_PriceAmount : string;
  or_PriceMint : string; or_SettlementModes : list SettlementMode }.
(** A list that may be nil: [null] when it is empty. *)
Definition json_list (l : list string) : json := match l with [] => JNull | _ => JStrings l end.
Definition offer_request_json (r : OfferRequest) : json := JObject [
  ("direction", JString (or_Direction r)); ("description", JString (or_Description r)); ("capabilities", json_list (or_Capabilities r));
  ("priceAmount", JString (or_PriceAmount r)); ("priceMint", JString (or_PriceMint r)); ("settlementModes", json_list (or_SettlementModes r))].
(** [omitempty] *)
Definition unless_empty (k s : string) : list (string * json) := if String.eqb s "" then [] else [(k, JString s)].
Definition unless_none (k : string) (l : list string) : list (string * json) := match l with [] => [] | _ => [(k, JStrings l)] end.
Definition skill_json (s : AgentSkill) : json := JObject (
  [("id", JString (skill_ID s)); ("name", JString (skill_Name s))] ++ unless_none "tags" (skill_Tags s) ++
  unless_none "inputModes" (skill_Input s) ++ unless_none "outputModes" (skill_Output s)).
Definition card_json (c : AgentCard) : json := JObject (
  [("name", JString (card_Name c))] ++ unless_empty "description" (card_Description c) ++ unless_empty "version" (card_Version c) ++
  unless_empty "url" (card_URL c) ++ [("publicKey", JString (card_PublicKey c))] ++ unless_none "capabilities" (card_Capabilities c) ++
  match card_Skills c with [] => [] | l => [("skills", JArray (map skill_json l))] end ++
  unless_none "currencies" (card_Currencies c) ++ unless_none "settlementModes" (card_SettlementModes c) ++
  unless_empty "probeTarget" (card_ProbeTarget c)).

(** [Client.do] up to the answer: a body is marshalled, a token is sent as it is. *)
Definition send (method path token : string) (body : option json) : prog traffic Response_ :=
  http_do srv (mkCall method path token (marshal <$> body)).
Definition returns {A B} (f : A → B) (p : prog traffic A) : prog traffic B := prog_bind (fun a => Ret (f a)) p.

Definition client_Health : io traffic Health :=
  returns (decoded zero_health decode_health) (send GET "/healthz" "" None).
Definition auth_message (challengeID agentID nonce : string) : string :=
  "vtessera/auth/v1" +:+ line +:+ "challenge:" +:+ challengeID +:+ line +:+ "agent:" +:+ agentID +:+ line +:+ "nonce:" +:+ nonce.
Definition client_Authenticate (agentID : string) (key : privkey) : io traffic string :=
  '(challengeID, nonce) <~ returns (decoded ("", "") decode_challenge)
    (send POST "/v1/auth/challenge" "" (Some (JObject [("agentId", JString agentID)])));;
  let signature := base64 (ed_sign key (auth_message challengeID agentID nonce)) in
  token <~ returns (decoded "" decode_session)
    (send POST "/v1/auth/verify" "" (Some (JObject [("challengeId", JString challengeID); ("signature", JString signature)])));;
  if String.eqb token "" then fail [] else ok token.
Definition unit_of (r : Response_) : res unit := _ ← answered r; Ok tt.
Definition client_PutCard (agentID token : string) (card : AgentCard) : io traffic unit :=
  returns unit_of (send PUT ("/v1/agents/" +:+ agentID +:+ "/card") token (Some (JObject [("card", card_json card)]))).
Definition client_PublishOffer (agentID token : string) (req : OfferRequest) : io traffic Offer :=
  returns (decoded zero_offer decode_offer) (send POST ("/v1/agents/" +:+ agentID +:+ "/offers") token (Some (offer_request_json req))).
Definition client_CloseOffer (token offerID : string) : io traffic unit :=
  returns unit_of (send POST ("/v1/offers/" +:+ offerID +:+ "/close") token (Some (JObject []))).

(** What the client signs is what [Auth] verifies. *)
Lemma auth_message_is challengeID agentID nonce : auth_message challengeID agentID nonce = Auth.Message challengeID agentID nonce.
Proof. reflexivity. Qed.
End Client.
