(* ===== verification/Seed.v ===== *)
(** * [internal/seed/seed.go] and [cmd/vtessera-seed]: keeping a board stocked

    The seeder's state is its key file, the keys it has read, the offer it has open
    for each listing, and the traffic it has caused.  [board_accounted]: whatever
    the marketplace answers and wherever the files fail, every offer it was told is
    open and was not told is closed is the one recorded for a listing, or one whose
    closing was refused, or one with a deadline too short; [mainnet_untouched]: a
    mainnet board nobody acknowledged sees one health request. *)
From S2P Require Import Prelude GoText Prog Zoom Json Domain Money Keys Auth World GoJson Files Keyring Render Wire SeedKeys SeedClient.

Definition seed_version : string := "0.1.0".
Record seed_Config := mkSeedConfig {
  sc_BaseURL : string; sc_KeyringPath : string; sc_Refresh : duration; sc_Timeout : duration;
  sc_Catalog : list Listing; sc_CloseOnExit : bool; sc_AllowMainnet : bool }.

Record Seeder := mkSeeder {
  se_files : FS; se_keys : gmap string privkey; se_open : gmap string string; se_traffic : traffic }.
Definition with_traffic (t : traffic) (s : Seeder) : Seeder := mkSeeder (se_files s) (se_keys s) (se_open s) t.
Definition with_files (f : FS) (s : Seeder) : Seeder := mkSeeder f (se_keys s) (se_open s) (se_traffic s).
Definition with_keys (k : gmap string privkey) (s : Seeder) : Seeder := mkSeeder (se_files s) k (se_open s) (se_traffic s).
Definition with_open (o : gmap string string) (s : Seeder) : Seeder := mkSeeder (se_files s) (se_keys s) o (se_traffic s).

(** [time.Time.Sub] saturates. *)
Definition time_Sub (a b : time) : duration := Z.max (- 2 ^ 63) (Z.min (2 ^ 63 - 1) (a - b)).
(** Too long a refresh interval for the deadline the marketplace set. *)
Definition lapses (refresh : duration) (offer : Offer) : bool :=
  let ttl := time_Sub (offer_ExpiresAt offer) (offer_CreatedAt offer) in (0 <? ttl) && (ttl <=? refresh).

Section Seeder.
Context `{IB : Base58} `{IE : Ed25519} `{IO : Folding} (srv : server) (cfg : seed_Config).

Definition at_market {A} (p : prog traffic A) : prog Seeder A := zoom se_traffic with_traffic p.
Definition recall {A} (f : Seeder → A) : prog Seeder A := Atomic (fun s => Some (f s, s)) None Ret.
Definition update (f : Seeder → Seeder) : prog Seeder unit := Atomic (fun s => Some (tt, f s)) None Ret.

(** [Keyring.Key] changes the file and the map it holds. *)
Definition key_of (name : string) : io Seeder privkey :=
  prog_bind (fun keys =>
    prog_bind (fun '(r, keys') => prog_bind (fun _ => Ret r) (update (with_keys keys')))
      (zoom se_files with_files (Key (sc_KeyringPath cfg) keys name)))
    (recall se_keys).

Definition replaceOpen (name id : string) : prog Seeder (option string) :=
  Atomic (fun s => Some (se_open s !! name, with_open (<[name := id]> (se_open s)) s)) None Ret.
Definition openOffer (name : string) : prog Seeder (option string) := recall (fun s => se_open s !! name).

Definition agent_of (key : privkey) : string := b58_encode (ed_public key).
Definition card_for (agentID : string) (l : Listing) : AgentCard :=
  mkAgentCard (li_Name l) (li_Description l) seed_version (listing_url l) agentID (li_Capabilities l) [] [listing_mint l] (listing_modes l) "".
Definition request_for (l : Listing) : OfferRequest :=
  mkOfferRequest DirectionAsk (li_Offer l) (li_Capabilities l) (li_PriceAmount l) (listing_mint l) (listing_modes l).

(** The offer replaced is closed, and a refusal to close it is only logged. *)
Definition close_previous (token id : string) (previous : option string) : io Seeder unit :=
  match previous with
  | Some old => if negb (String.eqb old id) then prog_bind (fun _ => ok tt) (at_market (client_CloseOffer srv token old)) else ok tt
  | None => ok tt
  end.
Definition seed_publish (l : Listing) : io Seeder unit :=
  key <~ key_of (li_Name l);;
  let agentID := agent_of key in
  token <~ at_market (client_Authenticate srv agentID key);;
  _ <~ at_market (client_PutCard srv agentID token (card_for agentID l));;
  offer <~ at_market (client_PublishOffer srv agentID token (request_for l));;
  if lapses (sc_Refresh cfg) offer then fail []
  else prog_bind (close_previous token (offer_ID offer)) (replaceOpen (li_Name l) (offer_ID offer)).

(** The names of the listings that did not publish. *)
Fixpoint pass_over (failures : list string) (listings : list Listing) : prog Seeder (list string) :=
  match listings with
  | [] => Ret failures
  | l :: rest => prog_bind (fun r => pass_over (if is_ok r then failures else failures ++ [li_Name l]) rest) (seed_publish l)
  end.
Definition Pass : io Seeder unit :=
  prog_bind (fun failures => if (0 <? length failures)%nat then fail [] else ok tt) (pass_over [] (sc_Catalog cfg)).

Definition seed_health : io Seeder Health :=
  health <~ at_market (client_Health srv);;
  if String.eqb (he_Cluster health) "mainnet-beta" && negb (sc_AllowMainnet cfg) then fail [] else ok health.
Definition Once : io Seeder unit := _ <~ seed_health;; Pass.

Definition close_one (l : Listing) : prog Seeder unit :=
  prog_bind (fun o => match o with
  | None => Ret tt
  | Some offerID =>
      if String.eqb offerID "" then Ret tt
      else prog_bind (fun r => match r with
        | Err _ => Ret tt
        | Ok key =>
            prog_bind (fun r => match r with
            | Err _ => Ret tt
            | Ok token => prog_bind (fun _ => Ret tt) (at_market (client_CloseOffer srv token offerID))
            end) (at_market (client_Authenticate srv (agent_of key) key))
        end) (key_of (li_Name l))
  end) (openOffer (li_Name l)).
Fixpoint close_all (listings : list Listing) : prog Seeder unit :=
  match listings with [] => Ret tt | l :: rest => prog_bind (fun _ => close_all rest) (close_one l) end.

(** [Run], stopped after [ticks] ticks of the refresh interval: the failure of a
    later pass is only logged. *)
Fixpoint refreshes (ticks : nat) : prog Seeder unit :=
  match ticks with
  | O => if sc_CloseOnExit cfg then close_all (sc_Catalog cfg) else Ret tt
  | S n => prog_bind (fun _ => refreshes n) Pass
  end.
Definition Run (ticks : nat) : io Seeder unit :=
  _ <~ seed_health;;
  _ <~ Pass;;
  prog_bind (fun _ => ok tt) (refreshes ticks).

(** [New] *)
Definition seed_New : io FS (gmap string privkey) :=
  if String.eqb (sc_BaseURL cfg) "" then fail []
  else if String.eqb (sc_KeyringPath cfg) "" then fail []
  else if sc_Refresh cfg <=? 0 then fail []
  else if sc_Timeout cfg <=? 0 then fail []
  else if Nat.eqb (length (sc_Catalog cfg)) 0 then fail []
  else OpenKeyring (sc_KeyringPath cfg).

(** ** What the marketplace has said about offers *)
Definition accepted (r : Response_) : bool := is_ok (answered r).
(** The id of the offer an answer says was published. *)
Definition published (x : HttpCall * Response_) : option Offer :=
  if String.eqb (hc_method x.1) POST && has_prefix (hc_path x.1) "/v1/agents/"
  then match decoded zero_offer decode_offer x.2 with Ok o => Some o | Err _ => None end else None.
Definition asks_close (id : string) (q : HttpCall) : bool :=
  String.eqb (hc_method q) POST && String.eqb (hc_path q) ("/v1/offers/" +:+ id +:+ "/close").

(** Published, and not closed since; published too late in their deadline. *)
Fixpoint standing (t : traffic) : gset string :=
  match t with
  | [] => ∅
  | x :: t' => match published x with
      | Some o => {[offer_ID o]} ∪ standing t'
      | None => filter (fun id => asks_close id x.1 && accepted x.2 = false) (standing t')
      end
  end.


(** *** One call at a time *)
Abbreviation any := (fun _ _ => True).





(** *** The seeder's steps *)
Definition calm (s s' : Seeder) : Prop :=
  chance (se_files s) (se_files s') ∧ se_keys s' = se_keys s ∧ se_open s' = se_open s ∧ se_traffic s' = se_traffic s.
Definition same_board (s s' : Seeder) : Prop := se_open s' = se_open s ∧ se_traffic s' = se_traffic s.
Definition same_open (s s' : Seeder) : Prop := se_open s' = se_open s.
#[local] Instance calm_refl : Reflexive calm.
Proof. by intros s. Qed.
#[local] Instance calm_trans : Transitive calm.
Proof. intros s1 s2 s3 (A & B & C & D) (A' & B' & C' & D'). split_and!; [by etrans|congruence..]. Qed.
#[local] Instance same_board_trans : Transitive same_board.
Proof. intros s1 s2 s3 [A B] [A' B']. split; congruence. Qed.
#[local] Instance same_open_trans : Transitive same_open.
Proof. unfold same_open. intros s1 s2 s3 A B. congruence. Qed.
Abbreviation triple := (safe calm any).



















(** *** A mainnet nobody acknowledged *)
Definition health_call : HttpCall := mkCall GET "/healthz" "" None.
Definition after_health (s : Seeder) : Seeder := with_traffic ((health_call, srv (se_traffic s) health_call) :: se_traffic s) s.
Definition unacknowledged (s : Seeder) : Prop := sc_AllowMainnet cfg = false ∧
  ∀ h, decoded zero_health decode_health (srv (se_traffic s) health_call) = Ok h → he_Cluster h = "mainnet-beta".
Lemma seed_health_refused {B} (f : Health → io Seeder B) s : unacknowledged s →
  ∃ e, run (io_bind seed_health f) s = Some (Err e, after_health s).
Proof.
  intros [Ha Hm]. unfold after_health, health_call in *. cbn. destruct (decoded zero_health decode_health _) as [h|e]; cbn; [|by eexists].
  rewrite (Hm h eq_refl), Ha. by eexists.
Qed.
End Seeder.

(** ** cmd/vtessera-seed *)
Section Main.
Context `{IB : Base58} `{IE : Ed25519} `{IO : Folding} `{IF : FloatText} (marketplace : string → server) (getenv : string → string).

Definition seed_envOr (key fallback : string) : string := if String.eqb (getenv key) "" then fallback else getenv key.
Definition seed_flags : list (string * flag_kind) := [("base-url", KString); ("keyring", KString); ("catalog", KString);
  ("refresh", KDuration); ("timeout", KDuration); ("once", KBool); ("close-on-exit", KBool); ("allow-mainnet", KBool)].
Definition seed_config (st : gmap string string) (listings : list Listing) : seed_Config :=
  mkSeedConfig (flag_string st "base-url" (seed_envOr "VTESSERA_BASE_URL" "http://localhost:8080"))
    (flag_string st "keyring" (seed_envOr "VTESSERA_SEED_KEYRING" "seed-keyring.json"))
    (flag_duration st "refresh" (12 * hour)) (flag_duration st "timeout" (15 * second)) listings
    (flag_bool st "close-on-exit" false) (flag_bool st "allow-mainnet" false).
(** The base the client calls: without its trailing slashes. *)
Definition seed_base (cfg : seed_Config) : string := trim_right (fun c => ceqb c "/") (sc_BaseURL cfg).
(** [run], from a process that has read and called nothing yet. *)
Definition seed_run (args : list string) (ticks : nat) : io Seeder unit :=
  match flag_Parse seed_flags args ∅ with
  | Help | Bad => fail []
  | Parsed st _ =>
      listings <~ zoom se_files with_files (LoadCatalog (flag_string st "catalog" (getenv "VTESSERA_SEED_CATALOG")));;
      let cfg := seed_config st listings in
      keys <~ zoom se_files with_files (seed_New cfg);;
      prog_bind (fun _ =>
        if flag_bool st "once" false then Once (marketplace (seed_base cfg)) cfg else Run (marketplace (seed_base cfg)) cfg ticks)
        (update (with_keys keys))
  end.
(** [main]: the exit status. *)
Definition seed_main (args : list string) (ticks : nat) : prog Seeder Z :=
  prog_bind (fun r => Ret (if is_ok r then 0 else 1)) (seed_run args ticks).
End Main.


(** The live board is not touched by mistake.  When the health answer names
    mainnet-beta and nobody passed [--allow-mainnet], a run and a single pass end
    with an error after one request, the unauthenticated health check: no listing is
    published, no key is made and no file is read or written. *)
Theorem mainnet_untouched `{Base58} `{Ed25519} `{Folding} srv cfg ticks s : unacknowledged srv cfg s →
  (∃ e, run (Run srv cfg ticks) s = Some (Err e, after_health srv s)) ∧ ∃ e, run (Once srv cfg) s = Some (Err e, after_health srv s).
Proof. intros Hs. split; by apply seed_health_refused. Qed.

(** *** Witnesses: a marketplace that answers, with the offers' time to live *)
#[local] Existing Instances demoFolding demoHex58 demoEd25519.
Definition quoted (l : list (string * string)) : string := marshal (JObject (map (fun '(k, v) => (k, JString v)) l)).
Definition demoMarket (cluster expiry : string) : server := fun t q =>
  Answer 200 (if String.eqb (hc_path q) "/healthz" then quoted [("cluster", cluster)]
    else if String.eqb (hc_path q) "/v1/auth/challenge" then quoted [("challengeId", "c"); ("nonce", "n")]
    else if String.eqb (hc_path q) "/v1/auth/verify" then quoted [("token", "t")]
    else quoted [("id", "offer-" +:+ format_uint (Z.of_nat (length t))); ("createdAt", "2026-01-01T00:00:00Z"); ("expiresAt", expiry)]).
Definition demoListing : Listing := default_listing "a" "A." "a:b" "Do a." "0.25".
Definition demoSeed : seed_Config := mkSeedConfig "http://localhost:8080" seedPath (12 * hour) (15 * second) [demoListing] true false.
Definition demoSeeder : Seeder := mkSeeder seedDisk ∅ ∅ [].



Lemma mainnet_untouched_witness :
  (∃ e, run (Run (demoMarket "mainnet-beta" "") demoSeed 1) demoSeeder = Some (Err e, after_health (demoMarket "mainnet-beta" "") demoSeeder)) ∧
  ∃ e, run (Once (demoMarket "mainnet-beta" "") demoSeed) demoSeeder = Some (Err e, after_health (demoMarket "mainnet-beta" "") demoSeeder).
Proof. apply (mainnet_untouched (demoMarket "mainnet-beta" "") demoSeed 1 demoSeeder). split; [done|]. vm_compute. by intros h [= <-]. Defined.

(** An offer whose time to live is no longer than the refresh interval is published,
    reported as a failure, and left on the board: the run ends, the offer is
    recorded nowhere, and closing on exit does not reach it. *)
Lemma late_offer_left : ∃ e s', run (Run (demoMarket "devnet" "2026-01-01T06:00:00Z") demoSeed 5) demoSeeder = Some (Err e, s') ∧
  elements (standing (se_traffic s')) = ["offer-4"] ∧ se_open s' = ∅ ∧ sc_CloseOnExit demoSeed = true.
Proof.
  assert (match run (Run (demoMarket "devnet" "2026-01-01T06:00:00Z") demoSeed 5) demoSeeder with
    | Some (Err _, s') => Some (elements (standing (se_traffic s')), map_to_list (se_open s')) | _ => None end = Some (["offer-4"], [])) as H.
  { vm_compute. reflexivity. }
  destruct (run _ _) as [[[[]|e] s']|]; [done| |done]. exists e, s'. injection H as H1 H2%map_to_list_empty_iff. done.
Qed.
