(* ===== verification/Mcp.v ===== *)
(** * [mcp]: a read-only client of the marketplace as MCP tools

    [mcp/internal/vtessera] (the client), [mcp/internal/mcpserver] (the tools and
    the discovery card) and [mcp/cmd/vtessera-mcp] (the hosted routes).  Values of
    the response types are represented by the JSON they marshal to ([GoValue]); the
    MCP library, which checks a call's arguments against their schema, is not
    modelled.  [tools_read_only]: no call carries a credential or changes anything;
    [refusals_reported]: an answer becomes a result exactly when it is a 200 within
    the cap that decodes; [results_typed]: whatever is sent, a result has the
    declared shape. *)
From S2P Require Import Prelude GoText Prog Json Domain Money GoJson Render GoValue Wire.

Definition maxBody : Z := 4 * 2 ^ 20.

(** ** The client *)
Record Client := mkClient { cl_baseURL : string; cl_timeout : duration }.
Definition NewClient `{NetURL} (baseURL : string) (timeout : duration) : res Client :=
  let trimmed := trim_right (fun c => ceqb c "/") (TrimSpace baseURL) in
  if String.eqb trimmed "" then Err []
  else match url_parse trimmed with
  | None => Err []
  | Some parsed =>
      if negb (String.eqb (url_Scheme parsed) "http") && negb (String.eqb (url_Scheme parsed) "https") then Err []
      else if String.eqb (url_Host parsed) "" then Err []
      else Ok (mkClient trimmed (if timeout <=? 0 then 15 * second else timeout))
  end.
Definition BaseURL (c : Client) : string := cl_baseURL c.

(** An [APIError], or any other error of a call. *)
Record APIError := mkAPIError { ae_Path : string; ae_Status : Z; ae_Body : string; ae_RPCCode : string; ae_Message : string }.
Inductive failure := Failed (what : string) | Api (e : APIError).
Inductive outcome (A : Type) := Got (a : A) | Fails (f : failure).
Arguments Got {A} _. Arguments Fails {A} _.

Definition APIError_Error (e : APIError) : string :=
  if negb (String.eqb (ae_Message e) "") then "vtessera " +:+ ae_Path e +:+ " refused: " +:+ ae_Message e
  else "vtessera " +:+ ae_Path e +:+ " answered " +:+ format_int (ae_Status e) +:+ ": " +:+ TrimSpace (ae_Body e).

(** *** The response types *)
Abbreviation struct := (TStruct false).
Abbreviation strings := (TSlice TString).
Definition Health : gotype := struct [("status", TString); ("version", TString); ("verificationKey", TString); ("sandbox", TBool);
  ("cluster", TString); ("genesisHash", TString); ("settlementTier", TString)].
Definition Skill : gotype := struct [("id", TString); ("name", TString); ("tags", strings); ("inputModes", strings); ("outputModes", strings)].
Definition CardView : gotype := struct [("name", TString); ("description", TString); ("version", TString); ("url", TString); ("publicKey", TString);
  ("capabilities", strings); ("skills", TSlice Skill); ("currencies", strings); ("settlementModes", strings); ("probeTarget", TString)].
Definition Agent : gotype := struct [("id", TString); ("status", TString); ("createdAt", TString); ("updatedAt", TString); ("card", CardView)].
Definition Offer : gotype := struct [("id", TString); ("agentId", TString); ("direction", TString); ("description", TString); ("capabilities", strings);
  ("priceAmount", TString); ("priceMint", TString); ("settlementModes", strings); ("status", TString); ("createdAt", TString); ("updatedAt", TString)].
Definition Offers : gotype := struct [("offers", TSlice Offer)].
Definition Side : gotype := struct [("attested", TBool); ("valid", TBool); ("keyId", TString); ("signature", TAny)].
Definition CardAttestation : gotype := struct [("agentId", TString); ("marketplace", Side); ("agent", Side); ("canonicalForm", TString); ("preAttestation", TBool)].
Definition CapabilityResult : gotype := struct [("capability", TString); ("status", TString); ("detail", TString); ("latencyMs", TInt)].
Definition CapabilityReport : gotype := struct [("agentId", TString); ("target", TString); ("results", TSlice CapabilityResult); ("passed", TBool);
  ("valid", TBool); ("checkedAt", TString); ("signature", TAny); ("attestedBy", TString)].
Definition RouteEntry : gotype := struct [("path", TString); ("cost", TFloat); ("policy", TMap TAny); ("cost_amount", TString); ("cost_mint", TString);
  ("offer_id", TString); ("agent_id", TString); ("direction", TString); ("announcement", TMap TAny)].
Definition RouteResult : gotype := struct [("target_capability", TString); ("route", RouteEntry); ("considered", TInt); ("rejected", TMap TInt);
  ("table_fingerprint", TString); ("table_as_of", TString)].
Definition rpcRPCError : gotype := TStruct true [("code", TInt); ("message", TString)].
Definition rpcEnvelope : gotype := struct [("result", RouteResult); ("error", rpcRPCError)].

(** A field of a struct value, by its JSON name. *)
Definition get_field (v : json) (k : string) : json := default JNull (field (entries v) k).
Definition text_of (v : json) : string := match v with JString s => s | _ => "" end.
Definition number_of (v : json) : string := match v with JNumber n => n | _ => "" end.

Section Client.
Context `{IO : Folding} `{IF : FloatJson} (srv : server).

(** [do]: the body is read one byte past the cap, and the status must be 200. *)
Definition answer_of (path : string) (out : gotype) (r : Response_) : outcome json :=
  match r with
  | NoAnswer => Fails (Failed ("calling " +:+ path))
  | Broken => Fails (Failed ("reading " +:+ path))
  | Answer status raw =>
      if maxBody <? Z.of_nat (slen raw) then Fails (Failed ("reading " +:+ path +:+ ": more than the cap"))
      else if negb (status =? 200) then Fails (Api (mkAPIError path status raw "" ""))
      else match unmarshal out raw with Some v => Got v | None => Fails (Failed ("decoding " +:+ path)) end
  end.
Definition do (method target : string) (encoded : option string) (path : string) (out : gotype) : prog traffic (outcome json) :=
  prog_bind (fun r => Ret (answer_of path out r)) (http_do srv (mkCall method target "" encoded)).
Definition get (path : string) (query : list (string * string)) (out : gotype) : prog traffic (outcome json) :=
  do GET (match query with [] => path | _ => path +:+ "?" +:+ encode_values query end) None path out.
Definition postJSON (path : string) (body : json) (out : gotype) : prog traffic (outcome json) :=
  do POST path (Some (marshal body)) path out.

(** [Code]: the [code] member of the body, when it is JSON with a string there. *)
Definition APIError_Code (e : APIError) : string :=
  match unmarshal (struct [("code", TString)]) (ae_Body e) with Some v => text_of (get_field v "code") | None => "" end.

Definition cl_Health : prog traffic (outcome json) := get "/healthz" [] Health.
Definition cl_Agent (id : string) : prog traffic (outcome json) := get ("/v1/agents/" +:+ PathEscape id) [] Agent.
Definition cl_Offer (id : string) : prog traffic (outcome json) := get ("/v1/offers/" +:+ PathEscape id) [] Offer.

Record OfferQuery := mkOfferQuery {
  oq_Capability : string; oq_Mint : string; oq_Mode : string; oq_Direction : string; oq_Text : string; oq_Limit : Z }.
(** The filters that are set, in the order of their keys. *)
Definition unless (k v : string) : list (string * string) := if String.eqb v "" then [] else [(k, v)].
Definition query_of (q : OfferQuery) : list (string * string) :=
  unless "capability" (oq_Capability q) ++ unless "direction" (oq_Direction q) ++
  (if oq_Limit q >? 0 then [("limit", format_int (oq_Limit q))] else []) ++
  unless "mint" (oq_Mint q) ++ unless "mode" (oq_Mode q) ++ unless "q" (oq_Text q).
Definition map_outcome {A B} (f : A → B) (o : outcome A) : outcome B := match o with Got a => Got (f a) | Fails e => Fails e end.
Definition cl_SearchOffers (q : OfferQuery) : prog traffic (outcome json) :=
  prog_bind (fun o => Ret (map_outcome (fun v => get_field v "offers") o)) (get "/v1/offers" (query_of q) Offers).
Definition cl_CardAttestation (id : string) : prog traffic (outcome json) :=
  get ("/v1/agents/" +:+ PathEscape id +:+ "/attestation") [] CardAttestation.
Definition cl_CapabilityReport (id : string) : prog traffic (outcome json) :=
  get ("/v1/agents/" +:+ PathEscape id +:+ "/capabilities") [] CapabilityReport.

(** A nil map is [None]. *)
Record RouteIntent := mkRouteIntent {
  ri_TargetCapability : string; ri_Payload : option (list (string * json)); ri_PolicyConstraints : list (string * json) }.
Definition route_call (i : RouteIntent) : json := JObject [
  ("id", JInt 1); ("jsonrpc", JString "2.0"); ("method", JString "agp/route");
  ("params", JObject ([("payload", JObject (default [] (ri_Payload i)))] ++
    match ri_PolicyConstraints i with [] => [] | l => [("policy_constraints", JObject l)] end ++
    [("target_capability", JString (ri_TargetCapability i))]))].
(** A refused route comes with status 200 and an error object. *)
Definition unwrap (o : outcome json) : outcome json :=
  match o with
  | Fails e => Fails e
  | Got envelope =>
      match get_field envelope "error" with
      | JNull => Got (get_field envelope "result")
      | e => Fails (Api (mkAPIError "/agp/route" 0 "" (number_of (get_field e "code")) (text_of (get_field e "message"))))
      end
  end.
Definition cl_Route (i : RouteIntent) : prog traffic (outcome json) :=
  prog_bind (fun o => Ret (unwrap o)) (postJSON "/agp/route" (route_call i) rpcEnvelope).

(** ** The tools *)
Inductive tool_call :=
  | vtessera_health
  | vtessera_search_offers (q : OfferQuery)
  | vtessera_get_offer (offerID : string)
  | vtessera_get_agent (agentID : string)
  | vtessera_get_card_attestation (agentID : string)
  | vtessera_get_capability_report (agentID : string)
  | vtessera_route_intent (i : RouteIntent).

(** What a tool answers: the text of a value and the value; or an error. *)
Inductive tool_result := TextResult (text : string) (structured : json) | ToolError (message : string).
Definition textResult (v : json) : tool_result := TextResult (marshal_indent v) v.
Definition describeError (f : failure) : string :=
  match f with
  | Api e => let code := APIError_Code e in
             if String.eqb code "" then APIError_Error e else APIError_Error e +:+ " (" +:+ code +:+ ")"
  | Failed what => what
  end.
Definition sideView (side : json) : json :=
  JObject [("attested", get_field side "attested"); ("keyId", get_field side "keyId"); ("valid", get_field side "valid")].
(** Maps marshal with their keys in order. *)
Definition offers_view (offers : json) : json := JObject [("count", JInt (Z.of_nat (length (items offers)))); ("offers", offers)].
Definition attestation_view (v : json) : json := JObject [
  ("agent", sideView (get_field v "agent")); ("agentId", get_field v "agentId"); ("canonicalForm", get_field v "canonicalForm");
  ("marketplace", sideView (get_field v "marketplace"))].
Definition report_view (r : json) : json := JObject [
  ("agentId", get_field r "agentId"); ("attestedBy", get_field r "attestedBy"); ("checkedAt", get_field r "checkedAt");
  ("passed", get_field r "passed"); ("results", get_field r "results"); ("signature", get_field r "signature");
  ("target", get_field r "target"); ("valid", get_field r "valid")].

Definition called (t : tool_call) : prog traffic (outcome json) :=
  match t with
  | vtessera_health => cl_Health
  | vtessera_search_offers q => cl_SearchOffers q
  | vtessera_get_offer id => cl_Offer id
  | vtessera_get_agent id => cl_Agent id
  | vtessera_get_card_attestation id => cl_CardAttestation id
  | vtessera_get_capability_report id => cl_CapabilityReport id
  | vtessera_route_intent i => cl_Route i
  end.
Definition shown (t : tool_call) (v : json) : json :=
  match t with
  | vtessera_search_offers _ => offers_view v
  | vtessera_get_card_attestation _ => attestation_view v
  | vtessera_get_capability_report _ => report_view v
  | _ => v
  end.
Definition handle (t : tool_call) : prog traffic tool_result :=
  prog_bind (fun o => Ret (match o with Got v => textResult (shown t v) | Fails f => ToolError (describeError f) end)) (called t).

(** [checkMarketplace] at start-up: what it finds is only logged. *)
Definition checkMarketplace : prog traffic (outcome json) := cl_Health.
End Client.

(** ** [cmd/vtessera-mcp]: the hosted routes *)
Inductive target := MCPTransport | ServerCardTarget | ProbeOK (body : bool) | ProbeNotFound.
Definition serveProbe (method : string) : target :=
  if String.eqb method "GET" then ProbeOK true else if String.eqb method "HEAD" then ProbeOK false else ProbeNotFound.
(** A pattern with GET also takes HEAD, and is preferred to one without a method. *)
Definition newMux (method path : string) : target :=
  let reads := String.eqb method "GET" || String.eqb method "HEAD" in
  if String.eqb path "/mcp/server-card" && reads then ServerCardTarget
  else if String.eqb path "/mcp" then if reads then serveProbe method else MCPTransport
  else serveProbe method.
Definition transportURL `{Folding} (tls : bool) (forwardedProto host : string) : string :=
  (if tls || EqualFold forwardedProto "https" then "https" else "http") +:+ "://" +:+ host +:+ "/mcp".

Definition CardSchemaURL : string := "https://static.modelcontextprotocol.io/schemas/v1/server-card.schema.json".
Definition CardName : string := "io.github.douglasdemaio/vtessera".
Definition CardDescription : string := "Discover, vet and route agent services on the vtessera A2A marketplace.".
Definition CardWebsite : string := "https://vtessera.fly.dev".
Definition CardRepository : json := JObject [("source", JString "github"); ("url", JString "https://github.com/douglasdemaio/vtessera"); ("subfolder", JString "mcp")].
Definition Version : string := "0.1.0".
(** [Server.Card], as it marshals. *)
Definition Card (remoteURL : string) : json := JObject [
  ("$schema", JString CardSchemaURL); ("name", JString CardName); ("title", JString "vtessera agent marketplace"); ("version", JString Version);
  ("description", JString CardDescription); ("websiteUrl", JString CardWebsite); ("repository", CardRepository);
  ("remotes", JArray [JObject [("type", JString "streamable-http"); ("url", JString remoteURL)]])].
Definition serveServerCard `{Folding} (tls : bool) (forwardedProto host : string) : string :=
  marshal_indent (Card (transportURL tls forwardedProto host)) +:+ line.

(** ** What a tool asks for *)
Definition request_of (t : tool_call) : HttpCall :=
  match t with
  | vtessera_health => mkCall GET "/healthz" "" None
  | vtessera_search_offers q => mkCall GET (match query_of q with [] => "/v1/offers" | l => "/v1/offers" +:+ "?" +:+ encode_values l end) "" None
  | vtessera_get_offer id => mkCall GET ("/v1/offers/" +:+ PathEscape id) "" None
  | vtessera_get_agent id => mkCall GET ("/v1/agents/" +:+ PathEscape id) "" None
  | vtessera_get_card_attestation id => mkCall GET ("/v1/agents/" +:+ PathEscape id +:+ "/attestation") "" None
  | vtessera_get_capability_report id => mkCall GET ("/v1/agents/" +:+ PathEscape id +:+ "/capabilities") "" None
  | vtessera_route_intent i => mkCall POST "/agp/route" "" (Some (marshal (route_call i)))
  end.

(** A read of a public endpoint, or the routing of an intent. *)
Inductive public_path : string → Prop :=
  | public_health : public_path "/healthz"
  | public_offers : public_path "/v1/offers"
  | public_search q : segment q = true → public_path ("/v1/offers" +:+ "?" +:+ q)
  | public_offer id : segment id = true → public_path ("/v1/offers/" +:+ id)
  | public_agent id : segment id = true → public_path ("/v1/agents/" +:+ id)
  | public_attestation id : segment id = true → public_path ("/v1/agents/" +:+ id +:+ "/attestation")
  | public_capabilities id : segment id = true → public_path ("/v1/agents/" +:+ id +:+ "/capabilities").
Definition public (q : HttpCall) : Prop :=
  hc_token q = "" ∧ (hc_method q = GET ∧ hc_body q = None ∧ public_path (hc_path q) ∨ hc_method q = POST ∧ hc_path q = "/agp/route").

Lemma segment_app a b : segment a = true → segment b = true → segment (a +:+ b) = true.
Proof. unfold segment, has_char. rewrite !negb_involutive, all_chars_app. by intros -> ->. Qed.
Lemma QueryEscape_segment s : segment (QueryEscape s) = true.
Proof.
  assert (∀ c, segment (if unreserved c then String c "" else if ceqb c " " then "+" else percent c) = true) as Hc.
  { intros c. destruct c as [[] [] [] [] [] [] [] []]; reflexivity. }
  induction s as [|c s IH]; [done|]. cbn [QueryEscape]. by apply segment_app.
Qed.
Lemma encode_segment l : segment (encode_values l) = true.
Proof.
  unfold encode_values. induction l as [|[k v] [|y l] IH]; [done|..].
  - cbn [List.map joined]. repeat apply segment_app; try apply QueryEscape_segment; done.
  - cbn [List.map] in *. rewrite joined_cons. repeat apply segment_app; try apply QueryEscape_segment; done.
Qed.

Lemma request_public t : public (request_of t).
Proof.
  split; [by destruct t|]. destruct t as [|q|id|id|id|id|i]; [left..|by right]; (split_and!; [done..|]).
  - constructor.
  - cbn [request_of hc_path]. destruct (query_of q); [constructor|apply public_search, encode_segment].
  - apply public_offer, PathEscape_segment.
  - apply public_agent, PathEscape_segment.
  - apply public_attestation, PathEscape_segment.
  - apply public_capabilities, PathEscape_segment.
Qed.

(** ** The answers *)
Section Answers.
Context `{IO : Folding} `{IF : FloatJson} (srv : server).

Definition answer_type (t : tool_call) : gotype :=
  match t with
  | vtessera_health => Health | vtessera_search_offers _ => Offers | vtessera_get_offer _ => Offer | vtessera_get_agent _ => Agent
  | vtessera_get_card_attestation _ => CardAttestation | vtessera_get_capability_report _ => CapabilityReport | vtessera_route_intent _ => rpcEnvelope
  end.
(** The part of an answer that is shown. *)
Definition selected (t : tool_call) (w : json) : json :=
  match t with vtessera_search_offers _ => get_field w "offers" | vtessera_route_intent _ => get_field w "result" | _ => w end.
Definition error_free (t : tool_call) (w : json) : bool :=
  match t with vtessera_route_intent _ => match get_field w "error" with JNull => true | _ => false end | _ => true end.
(** A 200 within the cap that decodes, and carries no error. *)
Definition answers (t : tool_call) (r : Response_) (w : json) : Prop :=
  ∃ raw, r = Answer 200 raw ∧ Z.of_nat (slen raw) ≤ maxBody ∧ unmarshal (answer_type t) raw = Some w ∧ error_free t w = true.
(** A refusal that names its code. *)
Definition refuses_with (r : Response_) (code : string) : Prop :=
  ∃ status raw, r = Answer status raw ∧ status ≠ 200 ∧ Z.of_nat (slen raw) ≤ maxBody ∧ code ≠ "" ∧
    ∃ v, unmarshal (struct [("code", TString)]) raw = Some v ∧ text_of (get_field v "code") = code.

(** The path an error names. *)
Definition call_path (t : tool_call) : string := match t with vtessera_search_offers _ => "/v1/offers" | _ => hc_path (request_of t) end.
Definition reported (t : tool_call) (r : Response_) : tool_result :=
  match answer_of (call_path t) (answer_type t) r with
  | Got w => if error_free t w then textResult (shown t (selected t w))
             else ToolError (describeError (match unwrap (Got w) with Fails f => f | Got _ => Failed "" end))
  | Fails f => ToolError (describeError f)
  end.
Lemma run_handle t l : run (handle srv t) l = Some (reported t (srv l (request_of t)), (request_of t, srv l (request_of t)) :: l).
Proof.
  destruct t as [|q|id|id|id|id|i]; cbn -[answer_of query_of]; unfold reported; cbn -[answer_of query_of].
  1, 3-6: by destruct (answer_of _ _ _).
  - destruct (query_of q); cbn -[answer_of]; by destruct (answer_of _ _ _).
  - destruct (answer_of _ _ _) as [w|f]; [|done]. unfold unwrap, error_free. by destruct (get_field w "error").
Qed.

Lemma answer_of_got p out r w : answer_of p out r = Got w ↔
  ∃ raw, r = Answer 200 raw ∧ Z.of_nat (slen raw) ≤ maxBody ∧ unmarshal out raw = Some w.
Proof.
  destruct r as [| |status raw]; [by split; [|intros (? & ? & _)]..|]. cbn -[maxBody unmarshal]. destruct (Z.ltb_spec maxBody (Z.of_nat (slen raw))) as [Hl|Hl].
  { split; [done|]. intros (? & [= -> ->] & ? & _). lia. }
  destruct (Z.eqb_spec status 200) as [->|Hs]; cbn [negb]; [|by split; [|intros (? & [= -> ->] & _)]].
  destruct (unmarshal out raw) as [v|] eqn:E.
  - split; [intros [= ->]; by exists raw|]. intros (? & [= <-] & _ & E'). congruence.
  - split; [done|]. intros (? & [= <-] & _ & E'). congruence.
Qed.
Lemma answers_reported t r w : answers t r w → reported t r = textResult (shown t (selected t w)).
Proof.
  intros (raw & H1 & H2 & H3 & H4). unfold reported. rewrite (proj2 (answer_of_got (call_path t) (answer_type t) r w)) by (by exists raw). by rewrite H4.
Qed.
Lemma reported_answers t r text v : reported t r = TextResult text v → text = marshal_indent v ∧ ∃ w, answers t r w ∧ v = shown t (selected t w).
Proof.
  unfold reported. destruct (answer_of _ _ r) as [w|f] eqn:E; [|done]. destruct (error_free t w) eqn:Ee; [|done].
  intros [= <- <-]. split; [done|]. exists w. split; [|done]. apply answer_of_got in E as (raw & H1 & H2 & H3). by exists raw.
Qed.
Lemma refused_reported t r code : refuses_with r code → ∃ p, reported t r = ToolError (p +:+ " (" +:+ code +:+ ")").
Proof.
  intros (status & raw & -> & Hs & Hl & Hc & v & Hv & Ht). unfold reported, answer_of. rewrite (proj2 (Z.ltb_ge _ _)), (proj2 (Z.eqb_neq _ _)) by done.
  cbn [negb]. unfold describeError, APIError_Code. cbn [ae_Body]. rewrite Hv, Ht, (proj2 (String.eqb_neq _ _)) by done. by eexists.
Qed.

(** *** Types *)
Definition side_view_type : gotype := struct [("attested", TBool); ("keyId", TString); ("valid", TBool)].
Definition result_type (t : tool_call) : gotype :=
  match t with
  | vtessera_search_offers _ => struct [("count", TInt); ("offers", TSlice Offer)]
  | vtessera_get_card_attestation _ => struct [("agent", side_view_type); ("agentId", TString); ("canonicalForm", TString); ("marketplace", side_view_type)]
  | vtessera_get_capability_report _ => struct [("agentId", TString); ("attestedBy", TString); ("checkedAt", TString); ("passed", TBool);
      ("results", TSlice CapabilityResult); ("signature", TAny); ("target", TString); ("valid", TBool)]
  | vtessera_route_intent _ => RouteResult
  | _ => answer_type t
  end.

Lemma get_field_conforms fs v k t : conforms (struct fs) v → find (fun f => String.eqb f.1 k) fs = Some (k, t) → conforms t (get_field v k).
Proof.
  inversion 1 as [| | | | | | | | | | |n fs' l Hl]; subst. intros Hf. unfold get_field. cbn [entries].
  destruct (field l k) as [x|] eqn:E; [by eapply field_conforms|]. exfalso. clear H. revert Hf E.
  induction Hl as [|k' t' x fs l Hx Hl IH]; [done|]. cbn. destruct (String.eqb k' k); [done|exact IH].
Qed.
Lemma answer_distinct t : distinct (answer_type t) = true.
Proof. by destruct t; vm_compute. Qed.

(** A literal struct value, field by field. *)
Ltac by_fields tac := apply conforms_struct; repeat (apply conforms_field; [tac|]); apply conforms_no_fields.
Lemma view_side v : conforms Side v → conforms side_view_type (sideView v).
Proof. intros Hv. by_fields ltac:(by eapply get_field_conforms). Qed.
Lemma shown_conforms t w : conforms (answer_type t) w → conforms (result_type t) (shown t (selected t w)).
Proof.
  destruct t; cbn [answer_type result_type shown selected]; intros Hw; [done| |done|done|..].
  - apply conforms_struct, conforms_field; [|apply conforms_field; [by eapply get_field_conforms|apply conforms_no_fields]].
    pose proof (conforms_int (Z.of_nat (length (items (get_field w "offers"))))) as H. unfold format_int in H. by rewrite (proj2 (Z.ltb_ge _ _)) in H by lia.
  - by_fields ltac:(first [by eapply get_field_conforms|apply view_side; by eapply get_field_conforms]).
  - by_fields ltac:(by eapply get_field_conforms).
  - by eapply get_field_conforms.
Qed.
End Answers.

(** The tools only read.  Whatever the marketplace answers, every tool call makes
    exactly one request; it carries no credential, and is a GET without a body of the
    health, an offer search, an offer, an agent, its attestation or its capability
    report, or the POST that routes an intent.  An id named by the caller is one
    segment of the path, so it cannot lead to another endpoint. *)
Theorem tools_read_only `{Folding} `{FloatJson} srv t l :
  ∃ result q, run (handle srv t) l = Some (result, (q, srv l q) :: l) ∧ public q.
Proof. eexists _, (request_of t). split; [apply run_handle|apply request_public]. Qed.

(** C22: an answer becomes a result exactly when it is one.  A tool call returns a
    value, with its indented text, exactly when the marketplace answered 200 with at
    most four megabytes of JSON of the type asked for, and, for a route, without an
    error object.  A refusal that names a code, an agent never probed among them, is
    an error that ends with that code. *)
Theorem refusals_reported `{Folding} `{FloatJson} srv t l :
  ∃ result traffic', run (handle srv t) l = Some (result, traffic') ∧
    (∀ text v, result = TextResult text v ↔ text = marshal_indent v ∧ ∃ w, answers t (srv l (request_of t)) w ∧ v = shown t (selected t w)) ∧
    (∀ code, refuses_with (srv l (request_of t)) code → ∃ p, result = ToolError (p +:+ " (" +:+ code +:+ ")")).
Proof.
  eexists _, _. split; [apply run_handle|]. split; [|intros code; apply refused_reported]. intros text v. split; [apply reported_answers|].
  intros (-> & w & Hw & ->). by apply answers_reported.
Qed.

(** A result has its declared shape.  Whatever JSON the marketplace sends, the value a
    tool returns is a value of the type the tool declares: every field is there, with
    a value of its type. *)
Theorem results_typed `{Folding} `{FloatJson} srv t l text v traffic' :
  run (handle srv t) l = Some (TextResult text v, traffic') → conforms (result_type t) v.
Proof.
  rewrite run_handle. intros [= Hr _]. apply reported_answers in Hr as (_ & w & (raw & _ & _ & Hw & _) & ->).
  apply shown_conforms. eapply unmarshal_conforms; [apply answer_distinct|exact Hw].
Qed.

(** *** Witness *)
#[local] Existing Instance demoFolding.
#[local] Instance demoFloatJson : FloatJson := {| float_json := Some |}.
Definition demoSearch : server := fun _ _ => Answer 200 (marshal (JObject [("offers", JArray [JObject [("id", JString "o1"); ("priceAmount", JString "0.25"); ("extra", JInt 1)]])])).
Lemma results_typed_witness : ∃ text v traffic', run (handle demoSearch (vtessera_search_offers (mkOfferQuery "a b" "" "" "" "" 5))) [] = Some (TextResult text v, traffic') ∧
  conforms (result_type (vtessera_search_offers (mkOfferQuery "a b" "" "" "" "" 5))) v.
Proof.
  eexists _, _, _. split; [vm_compute; reflexivity|]. eapply (results_typed demoSearch (vtessera_search_offers (mkOfferQuery "a b" "" "" "" "" 5)) []). vm_compute. reflexivity.
Defined.
