(* ===== verification/AnyClient.v ===== *)
(** * [examples/go]: the reference client

    The calls into [map[string]any] that [examples/go/client.go] makes (and
    [cmd/vtessera-seller] likewise), the check of a receipt, and the whole run.
    Decoded answers are represented by the JSON they marshal to ([GoValue]).
    [receipt_verifies]: what is signed under a key verifies under it, and nothing
    else does; [sandbox_only]: a marketplace that does not say it is a sandbox sees
    one request. *)
From S2P Require Import Prelude GoText Prog Sha256 Json Domain Money Keys Auth GoJson Render GoValue Wire.

Definition examples_usdc : string := "EPjFWdd5AufqSSqeM2qN1xzybapC8G4wEGGkZwyTDt1v".

(** ** [fmt]'s %v of a decoded value *)
Class FloatV := { float_v : string → string }.  (* %v of a float64, from its JSON text *)
Section Format.
Context `{FV : FloatV}.
Fixpoint format_v (v : json) : string :=
  match v with
  | JNull => "<nil>"
  | JBool b => if b then "true" else "false"
  | JNumber n => float_v n
  | JString s => s
  | JArray l => "[" +:+ joined " " (List.map format_v l) +:+ "]"
  | JObject l => "map[" +:+ joined " " (List.map (fun kv => let '(k, x) := kv in k +:+ ":" +:+ format_v x) l) +:+ "]"
  end.
End Format.

(** A map's value, and a value's string: [m[k]], [v.(string)]. *)
Definition mem (v : json) (k : string) : json := default JNull (field (entries v) k).
Definition str (v : json) : string := match v with JString s => s | _ => "" end.
Definition as_true (v : json) : bool := match v with JBool b => b | _ => false end.

(** ** One call *)
Inductive call_error := Other | Status (status : Z).
Inductive called (A : Type) := Back (a : A) | Off (e : call_error).
Arguments Back {A} _. Arguments Off {A} _.
Definition called_bind {A B} (m : prog traffic (called A)) (f : A → prog traffic (called B)) : prog traffic (called B) :=
  prog_bind (fun r => match r with Back a => f a | Off e => Ret (Off e) end) m.
Notation "x <! m ;; k" := (called_bind m (fun x => k)) (at level 20, m at level 99, k at level 200).

Section Calls.
Context `{IO : Folding} `{IF : FloatJson} `{FV : FloatV} (srv : server).

(** An empty body is a nil map; a body that is no JSON object is an error whatever
    the status. *)
Definition judge (r : Response_) : called json :=
  match r with
  | NoAnswer | Broken => Off Other
  | Answer status raw =>
      match (if String.eqb raw "" then Some JNull else unmarshal (TMap TAny) raw) with
      | None => Off Other
      | Some decoded => if 400 <=? status then Off (Status status) else Back decoded
      end
  end.
Definition call (path : string) (body : option json) (method token : string) : prog traffic (called json) :=
  prog_bind (fun r => Ret (judge r)) (http_do srv (mkCall method path token (marshal <$> body))).

Lemma run_called_bind {A B} (m : prog traffic (called A)) (f : A → prog traffic (called B)) l :
  run (called_bind m f) l = match run m l with Some (Back a, l') => run (f a) l' | Some (Off e, l') => Some (Off e, l') | None => None end.
Proof. unfold called_bind. rewrite run_bind. by destruct (run m l) as [[[] ?]|]. Qed.
Lemma run_call path body method token l : let q := mkCall method path token (marshal <$> body) in
  run (call path body method token) l = Some (judge (srv l q), (q, srv l q) :: l).
Proof. done. Qed.

Definition login_message (issued : json) (agentID : string) : string :=
  "vtessera/auth/v1" +:+ line +:+ "challenge:" +:+ format_v (mem issued "challengeId") +:+ line +:+ "agent:" +:+ agentID +:+ line +:+
  "nonce:" +:+ format_v (mem issued "nonce").
Context `{IE : Ed25519}.
Definition authenticate (agentID : string) (key : privkey) : prog traffic (called string) :=
  issued <! call "/v1/auth/challenge" (Some (JObject [("agentId", JString agentID)])) POST "";;
  session <! call "/v1/auth/verify" (Some (JObject [("challengeId", mem issued "challengeId");
      ("signature", JString (base64 (ed_sign key (login_message issued agentID))))])) POST "";;
  Ret (Back (str (mem session "token"))).

(** The requests a login makes. *)
Definition logs_in (q : HttpCall) : Prop := hc_method q = POST ∧ hc_token q = "" ∧ (hc_path q = "/v1/auth/challenge" ∨ hc_path q = "/v1/auth/verify").
Lemma asks_login agentID key : asks logs_in (authenticate agentID key).
Proof.
  unfold authenticate, called_bind, call.
  repeat (first [apply asks_bind; [|intros []]|apply asks_bind; [|intros ?]|apply asks_ret|apply asks_do]); try done; (split_and!; [done..|]); by (left + right).
Qed.
Lemma run_authenticate agentID key t : ∃ r new, run (authenticate agentID key) t = Some (r, new ++ t) ∧ Forall (fun x => logs_in x.1) new.
Proof.
  assert (∃ r t', run (authenticate agentID key) t = Some (r, t')) as (r & t' & E).
  { unfold authenticate. rewrite run_called_bind, run_call. destruct (judge _) as [v|e]; [|by eexists _, _].
    rewrite run_called_bind, run_call. destruct (judge _) as [w|e]; by eexists _, _. }
  destruct (asks_run _ _ _ _ _ (asks_login agentID key) E) as (new & -> & Hnew). by exists r, new.
Qed.
End Calls.

(** ** [base64.RawURLEncoding] *)
Definition url_char (n : Z) : ascii := if n =? 62 then "-" else if n =? 63 then "_" else base64_char n.
Definition url_val (c : ascii) : option Z :=
  if ceqb c "-" then Some 62 else if ceqb c "_" then Some 63 else if ceqb c "+" || ceqb c "/" then None else base64_val c.
Fixpoint url_quads (s : string) : option string :=
  match s with
  | EmptyString => Some ""
  | String a (String b EmptyString) =>
      va ← url_val a; vb ← url_val b; Some (String (byte_char ((262144 * va + 4096 * vb) / 65536)) "")
  | String a (String b (String c EmptyString)) =>
      va ← url_val a; vb ← url_val b; vc ← url_val c;
      let v := 262144 * va + 4096 * vb + 64 * vc in Some (String (byte_char (v / 65536)) (String (byte_char (v / 256)) ""))
  | String a (String b (String c (String d rest))) =>
      va ← url_val a; vb ← url_val b; vc ← url_val c; vd ← url_val d;
      let v := 262144 * va + 4096 * vb + 64 * vc + vd in
      out ← url_quads rest;
      Some (String (byte_char (v / 65536)) (String (byte_char (v / 256)) (String (byte_char v) out)))
  | _ => None
  end.
Definition RawURL_decode (s : string) : option string := url_quads (without_newlines s).
Fixpoint url_go (fuel : nat) (s : string) : string :=
  let sextet v k := url_char (v / 2 ^ k mod 64) in
  match fuel, s with
  | S fuel', String a (String b (String c rest)) =>
      let v := 65536 * ord a + 256 * ord b + ord c in
      String (sextet v 18) (String (sextet v 12) (String (sextet v 6) (String (sextet v 0) (url_go fuel' rest))))
  | S _, String a (String b EmptyString) =>
      let v := 65536 * ord a + 256 * ord b in String (sextet v 18) (String (sextet v 12) (String (sextet v 6) ""))
  | S _, String a EmptyString =>
      let v := 65536 * ord a in String (sextet v 18) (String (sextet v 12) "")
  | _, _ => ""
  end.
Definition RawURL_encode (s : string) : string := url_go (slen s) s.

Lemma url_char_val n : 0 ≤ n < 64 → url_val (url_char n) = Some n ∧ is_newline (url_char n) = false ∧ ceqb (url_char n) "." = false.
Proof.
  intros Hn. assert (forallb (fun k => bool_decide (url_val (url_char (Z.of_nat k)) = Some (Z.of_nat k)) &&
    negb (is_newline (url_char (Z.of_nat k))) && negb (ceqb (url_char (Z.of_nat k)) ".")) (seq 0 64) = true) as H by (vm_compute; reflexivity).
  rewrite forallb_forall in H. specialize (H (Z.to_nat n)). rewrite in_seq, Z2Nat.id, !andb_true_iff, !negb_true_iff in H by lia.
  destruct H as [[H1 H2] H3]; [lia|]. by apply bool_decide_eq_true in H1.
Qed.
Lemma url_go_fuel s n m : (slen s ≤ n)%nat → (slen s ≤ m)%nat → url_go n s = url_go m s.
Proof.
  revert n m. induction s as [|a|a b|a b c s IH] using string_ind3; intros n m Hn Hm;
    destruct n as [|n], m as [|m]; cbn in Hn, Hm; try lia; try done.
  cbn [url_go]. do 4 f_equal. apply IH; lia.
Qed.
Lemma url_cons3 a b c s : RawURL_encode (String a (String b (String c s))) =
  let v := 65536 * ord a + 256 * ord b + ord c in
  String (url_char (v / 2 ^ 18 mod 64)) (String (url_char (v / 2 ^ 12 mod 64))
    (String (url_char (v / 2 ^ 6 mod 64)) (String (url_char (v / 2 ^ 0 mod 64)) (RawURL_encode s)))).
Proof. unfold RawURL_encode at 2. rewrite <-(url_go_fuel s (S (S (slen s))) (slen s)) by lia. reflexivity. Qed.

(** An encoding has no line break and no point, and decodes to what was encoded. *)
Lemma url_clean s : all_chars (fun c => negb (is_newline c) && negb (ceqb c ".")) (RawURL_encode s) = true.
Proof.
  induction s as [|a|a b|a b c s IH] using string_ind3; [done|..].
  3: rewrite url_cons3. 1, 2: unfold RawURL_encode; cbn [slen url_go].
  all: cbv zeta; cbn [all_chars]; rewrite ?(proj1 (proj2 (url_char_val _ (sextet_range _ _)))), ?(proj2 (proj2 (url_char_val _ (sextet_range _ _)))); done.
Qed.
Lemma without_newlines_clean s : all_chars (fun c => negb (is_newline c) && negb (ceqb c ".")) s = true → without_newlines s = s.
Proof.
  induction s as [|c s IH]; [done|]. cbn. intros [[Hc _]%andb_true_iff Hs]%andb_true_iff. apply negb_true_iff in Hc. by rewrite Hc, IH.
Qed.
Lemma RawURL_roundtrip s : RawURL_decode (RawURL_encode s) = Some s.
Proof.
  unfold RawURL_decode. rewrite without_newlines_clean by apply url_clean.
  induction s as [|a|a b|a b c s IH] using string_ind3; [done| | |].
  - unfold RawURL_encode. cbn [slen url_go]. cbv zeta. cbn [url_quads].
    rewrite !(proj1 (url_char_val _ (sextet_range _ _))). cbn.
    f_equal. f_equal. apply byte_char_ord. pose proof (ord_byte a). Z.to_euclidean_division_equations; lia.
  - unfold RawURL_encode. cbn [slen url_go]. cbv zeta. cbn [url_quads].
    rewrite !(proj1 (url_char_val _ (sextet_range _ _))). cbn.
    pose proof (ord_byte a). pose proof (ord_byte b).
    do 2 f_equal; [|f_equal]; apply byte_char_ord; Z.to_euclidean_division_equations; lia.
  - rewrite url_cons3. cbv zeta. cbn [url_quads].
    rewrite !(proj1 (url_char_val _ (sextet_range _ _))). cbn [mbind option_bind]. rewrite IH. cbn [mbind option_bind].
    pose proof (ord_byte a). pose proof (ord_byte b). pose proof (ord_byte c).
    do 2 f_equal; [|f_equal; [|f_equal]]; apply byte_char_ord; cbn; Z.to_euclidean_division_equations; lia.
Qed.

(** ** Checking a receipt *)
Section Receipts.
Context `{IO : Folding} `{IF : FloatJson} `{IB : Base58} `{IE : Ed25519}.

Definition json_object_of (raw : string) : option json := unmarshal (TMap TAny) raw.
Definition checked (header payload signature : string) (verificationKey : string) : res json :=
  match RawURL_decode header ≫= json_object_of with
  | None => Err []
  | Some decoded =>
      if negb (String.eqb (str (mem decoded "alg")) "EdDSA") then Err []
      else match RawURL_decode signature, b58_decode verificationKey with
      | Some signatureRaw, Some publicKeyRaw =>
          if negb (Nat.eqb (length publicKeyRaw) PublicKeySize) then Err []
          else if negb (ed_verify publicKeyRaw (header +:+ "." +:+ payload) signatureRaw) then Err []
          else match RawURL_decode payload ≫= json_object_of with Some claims => Ok claims | None => Err [] end
      | _, _ => Err []
      end
  end.
Definition verifyTessera (jws verificationKey : string) : res json :=
  match split "." jws with
  | [header; payload; signature] => checked header payload signature verificationKey
  | _ => Err []
  end.

(** A compact JWS under an Ed25519 key. *)
Definition compact (key : privkey) (header payload : string) : string :=
  let signed := RawURL_encode header +:+ "." +:+ RawURL_encode payload in
  signed +:+ "." +:+ RawURL_encode (ed_sign key signed).

Lemma split_app sep a s : all_chars (fun c => negb (ceqb c sep)) a = true → split sep (a +:+ String sep s) = a :: split sep s.
Proof.
  induction a as [|c a IH]; cbn; [by rewrite ceqb_refl|]. intros [Hc Ha]%andb_true_iff. apply negb_true_iff in Hc.
  by rewrite Hc, IH.
Qed.
Lemma split_one sep a : all_chars (fun c => negb (ceqb c sep)) a = true → split sep a = [a].
Proof. induction a as [|c a IH]; cbn; [done|]. intros [Hc Ha]%andb_true_iff. apply negb_true_iff in Hc. by rewrite Hc, IH. Qed.
Lemma split_joined sep s : joined (String sep "") (split sep s) = s ∧ split sep s ≠ [].
Proof.
  induction s as [|c s [IH Hne]]; [done|]. cbn. destruct (Stdlib.Strings.Ascii.eqb_spec c sep) as [->|Hc].
  - split; [|done]. destruct (split sep s) as [|x l]; [done|]. by rewrite joined_cons, IH.
  - destruct (split sep s) as [|x [|y l]]; [done|cbn in *; by rewrite IH|]. split; [|done].
      change (joined (String sep "") (String c x :: y :: l)) with (String c (joined (String sep "") (x :: y :: l))). by rewrite IH.
Qed.
Lemma url_no_point s : all_chars (fun c => negb (ceqb c ".")) (RawURL_encode s) = true.
Proof. eapply all_chars_impl; [|apply url_clean]. by intros c [_ H]%andb_true_iff. Qed.

(** Who accepted what. *)
Definition vouched (jws verificationKey : string) (claims : json) : Prop :=
  ∃ header payload signature pk sig,
    jws = header +:+ "." +:+ payload +:+ "." +:+ signature ∧
    (∃ h, RawURL_decode header ≫= json_object_of = Some h ∧ str (mem h "alg") = "EdDSA") ∧
    b58_decode verificationKey = Some pk ∧ length pk = PublicKeySize ∧ RawURL_decode signature = Some sig ∧
    ed_verify pk (header +:+ "." +:+ payload) sig = true ∧
    RawURL_decode payload ≫= json_object_of = Some claims.

Lemma verifyTessera_vouched jws vk claims : verifyTessera jws vk = Ok claims → vouched jws vk claims.
Proof.
  unfold verifyTessera. destruct (split_joined "." jws) as [E _]. destruct (split "." jws) as [|h [|p [|s []]]]; try done. cbn in E.
  unfold checked. destruct (RawURL_decode h ≫= json_object_of) as [hd|] eqn:Eh; [|done]. destruct (String.eqb_spec (str (mem hd "alg")) "EdDSA") as [Ha|]; [|done].
  cbn [negb]. destruct (RawURL_decode s) as [sig|] eqn:Es; [|done]. destruct (b58_decode vk) as [pk|] eqn:Ek; [|done].
  destruct (Nat.eqb_spec (length pk) PublicKeySize) as [Hl|]; [|done]. cbn [negb]. destruct (ed_verify pk _ sig) eqn:Ev; [|done]. cbn [negb].
  destruct (RawURL_decode p ≫= json_object_of) as [c|] eqn:Ep; [|done]. intros [= ->].
  exists h, p, s, pk, sig. split; [by rewrite <-E|]. split; [by exists hd|]. done.
Qed.

Lemma verifyTessera_signed `{!Base58Laws} `{!Ed25519Laws} key header payload h claims :
  length key = PrivateKeySize → Forall (fun b => 0 ≤ b < 256) (ed_public key) →
  json_object_of header = Some h → str (mem h "alg") = "EdDSA" → json_object_of payload = Some claims →
  verifyTessera (compact key header payload) (b58_encode (ed_public key)) = Ok claims.
Proof.
  intros Hl Hb Hh Ha Hp. unfold verifyTessera, compact. set (eh := RawURL_encode header). set (ep := RawURL_encode payload). set (es := RawURL_encode _).
  assert (split "." ((eh +:+ "." +:+ ep) +:+ "." +:+ es) = [eh; ep; es]) as ->.
  { assert ((eh +:+ "." +:+ ep) +:+ "." +:+ es = eh +:+ String "." (ep +:+ String "." es)) as -> by (by rewrite sapp_assoc).
    rewrite !split_app by apply url_no_point. by rewrite split_one by apply url_no_point. }
  unfold checked. subst eh ep es. rewrite !RawURL_roundtrip. cbn [mbind option_bind]. rewrite Hh, Ha. change (negb ("EdDSA" =? "EdDSA")%string) with false. cbv iota.
  rewrite b58_roundtrip by done. assert (length (ed_public key) = PublicKeySize) as -> by (unfold ed_public; rewrite length_drop, Hl; done).
  cbn [Nat.eqb negb PublicKeySize]. rewrite ed_sign_verify by done. cbn [negb]. by rewrite Hp.
Qed.
End Receipts.

(** ** The run *)
Section Run.
Context `{IO : Folding} `{IF : FloatJson} `{FV : FloatV} `{IB : Base58} `{IE : Ed25519} (srv : server).

Definition agent_id (key : privkey) : string := b58_encode (ed_public key).
Definition example_card (id description : string) : json := JObject [("card", JObject [
  ("capabilities", JStrings ["summarize:document"]); ("currencies", JStrings [examples_usdc]); ("description", JString description);
  ("name", JString "reference-client"); ("publicKey", JString id); ("settlementModes", JStrings ["offchain"]);
  ("url", JString "https://example.invalid/reference-client"); ("version", JString "0.1.0")])].
Definition example_offer : json := JObject [
  ("capabilities", JStrings ["summarize:document"]); ("description", JString "Summarise a document in three sentences.");
  ("direction", JString "ask"); ("priceAmount", JString "2.00"); ("priceMint", JString examples_usdc); ("settlementModes", JStrings ["offchain"])].
(** Calls in order, up to the first that is refused. *)
Fixpoint each (l : list (string * json * string * string)) : prog traffic (called unit) :=
  match l with
  | [] => Ret (Back tt)
  | (path, body, method, token) :: rest => _ <! call srv path (Some body) method token;; each rest
  end.

(** [run], the keys its generator made given; the answer is its last line. *)
Definition example_run (sellerKey buyerKey : privkey) : prog traffic (called string) :=
  health <! call srv "/healthz" None GET "";;
  if negb (as_true (mem health "sandbox")) then Ret (Off Other)
  else
    let sellerID := agent_id sellerKey in let buyerID := agent_id buyerKey in
    sellerToken <! authenticate srv sellerID sellerKey;;
    buyerToken <! authenticate srv buyerID buyerKey;;
    _ <! each [("/v1/agents/" +:+ sellerID +:+ "/card", example_card sellerID "Sells a summary.", PUT, sellerToken);
               ("/v1/agents/" +:+ buyerID +:+ "/card", example_card buyerID "Buys summaries.", PUT, buyerToken)];;
    offer <! call srv ("/v1/agents/" +:+ sellerID +:+ "/offers") (Some example_offer) POST sellerToken;;
    let offerID := str (mem offer "id") in
    trade <! call srv "/v1/trades" (Some (JObject [("offerId", JString offerID); ("settlementMode", JString "offchain")])) POST buyerToken;;
    let tradeID := str (mem trade "id") in
    _ <! each [("/v1/trades/" +:+ tradeID +:+ "/negotiate", JObject [], POST, buyerToken);
               ("/v1/trades/" +:+ tradeID +:+ "/accept", JObject [], POST, sellerToken);
               ("/v1/trades/" +:+ tradeID +:+ "/accept", JObject [], POST, buyerToken);
               ("/v1/trades/" +:+ tradeID +:+ "/record", JObject [], POST, buyerToken)];;
    receipt <! call srv ("/v1/tesseras/" +:+ tradeID) None GET buyerToken;;
    match verifyTessera (str (mem receipt "jws")) (str (mem receipt "verificationKey")) with
    | Err _ => Ret (Off Other)
    | Ok claims =>
        let tradeClaims := mem claims "trade" in
        Ret (Back ("Done. " +:+ format_v (mem tradeClaims "amount") +:+ " of " +:+ format_v (mem tradeClaims "mint") +:+
          ", settled " +:+ format_v (mem tradeClaims "mode")))
    end.

(** The marketplace says it is a sandbox. *)
Definition says_sandbox (l : traffic) : Prop := ∃ health, judge (srv l (mkCall GET "/healthz" "" None)) = Back health ∧ mem health "sandbox" = JBool true.

Lemma not_sandbox_stops l sellerKey buyerKey : ¬ says_sandbox l →
  ∃ e, run (example_run sellerKey buyerKey) l = Some (Off e, (mkCall GET "/healthz" "" None, srv l (mkCall GET "/healthz" "" None)) :: l).
Proof.
  unfold says_sandbox, example_run. intros Hn. rewrite run_called_bind, run_call. change (marshal <$> None) with (@None string).
  revert Hn. generalize (judge (srv l (mkCall GET "/healthz" "" None))) as o. intros [health|e] Hn; [|by eexists].
  destruct (as_true (mem health "sandbox")) eqn:Hs; [|by eexists]. destruct Hn. exists health. split; [done|].
  by destruct (mem health "sandbox") as [|[]| | | |].
Qed.
End Run.

(** C23: a receipt is accepted exactly on its signature.  What the reference client
    accepts is a compact JWS of header EdDSA whose signature over its first two
    parts verifies under the key given, and the claims are those of its payload; and
    a JWS made with a key is accepted under the public half of that key, with the
    claims it was made of. *)
Theorem receipt_verifies `{Folding} `{FloatJson} `{Base58} `{Ed25519} `{!Base58Laws} `{!Ed25519Laws} :
  (∀ jws verificationKey claims, verifyTessera jws verificationKey = Ok claims → vouched jws verificationKey claims) ∧
  (∀ key header payload h claims, length key = PrivateKeySize → Forall (fun b => 0 ≤ b < 256) (ed_public key) →
    json_object_of header = Some h → str (mem h "alg") = "EdDSA" → json_object_of payload = Some claims →
    verifyTessera (compact key header payload) (b58_encode (ed_public key)) = Ok claims).
Proof. split; [apply verifyTessera_vouched|apply verifyTessera_signed]. Qed.

(** The reference client trades on a sandbox only.  Against a marketplace whose
    health does not say that it is a sandbox, the run ends with an error after that
    one request: no session, no card, no offer and no trade. *)
Theorem sandbox_only `{Folding} `{FloatJson} `{FloatV} `{Base58} `{Ed25519} srv l sellerKey buyerKey : ¬ says_sandbox srv l →
  ∃ e, run (example_run srv sellerKey buyerKey) l = Some (Off e, (mkCall GET "/healthz" "" None, srv l (mkCall GET "/healthz" "" None)) :: l).
Proof. apply not_sandbox_stops. Qed.

(** *** Witnesses *)
#[local] Existing Instances demoFolding demoBase58 demoBase58_laws demoEd25519 demoEd25519_laws.
#[local] Instance demoFloatJson : FloatJson := {| float_json := Some |}.
#[local] Instance demoFloatV : FloatV := {| float_v := id |}.
Definition strings_object (l : list (string * string)) : string := marshal (JObject (map (fun '(k, v) => (k, JString v)) l)).
Definition demoClaims : string := marshal (JObject [("trade", JObject [("amount", JString "2.00"); ("mint", JString examples_usdc); ("mode", JString "offchain")])]).
Definition demoReceipt (key : privkey) : string := compact key (strings_object [("alg", "EdDSA")]) demoClaims.

Lemma receipt_verifies_witness :
  ((∀ jws verificationKey claims, verifyTessera jws verificationKey = Ok claims → vouched jws verificationKey claims) ∧
   (∀ key header payload h claims, length key = PrivateKeySize → Forall (fun b => 0 ≤ b < 256) (ed_public key) →
    json_object_of header = Some h → str (mem h "alg") = "EdDSA" → json_object_of payload = Some claims →
    verifyTessera (compact key header payload) (b58_encode (ed_public key)) = Ok claims)) ∧
  is_ok (verifyTessera (demoReceipt (demoKey 1)) (b58_encode (ed_public (demoKey 1)))) = true.
Proof. split; [apply receipt_verifies|vm_compute; reflexivity]. Defined.

Definition mainMarket : server := fun _ _ => Answer 200 (strings_object [("cluster", "mainnet-beta")]).
Lemma sandbox_only_witness : ∃ e, run (example_run mainMarket (demoKey 1) (demoKey 2)) [] =
  Some (Off e, (mkCall GET "/healthz" "" None, mainMarket [] (mkCall GET "/healthz" "" None)) :: []).
Proof. apply (sandbox_only mainMarket [] (demoKey 1) (demoKey 2)). intros (h & H1 & H2). vm_compute in H1. injection H1 as <-. vm_compute in H2. discriminate. Defined.

(** The client verifies the receipt under the key the receipt came with, and never
    compares that key with the marketplace's: a receipt signed under any other key
    is accepted. *)
Definition forgingMarket : server := fun _ q =>
  Answer 200 (if String.eqb (hc_path q) "/healthz" then marshal (JObject [("sandbox", JBool true); ("verificationKey", JString (b58_encode (ed_public (demoKey 1))))])
    else if String.eqb (hc_path q) "/v1/tesseras/t" then strings_object [("jws", demoReceipt (demoKey 3)); ("verificationKey", b58_encode (ed_public (demoKey 3)))]
    else strings_object [("id", "t"); ("token", "s")]).
Lemma receipt_key_unpinned : option_map fst (run (example_run forgingMarket (demoKey 1) (demoKey 2)) []) =
  Some (Back ("Done. 2.00 of " +:+ examples_usdc +:+ ", settled offchain")) ∧ demoKey 3 ≠ demoKey 1.
Proof. split; [vm_compute; reflexivity|vm_compute; discriminate]. Qed.
