(* ===== verification/Seller.v ===== *)
(** * [cmd/vtessera-seller]: the standing seller

    One identity, one listing, and an endpoint that accepts the trades it is handed.
    The endpoint's requests and the restocking loop run at once and share the
    session token under one mutex.  [task_calls]: every request, the answer and the
    session a task leads to, branch by branch ([served_task]), and that the trade id
    of the task is part of a path as it came ([task_any_action]); [restock_one_listing]: the loop
    publishes exactly when the board lists nothing open. *)
From S2P Require Import Prelude GoText Prog Sha256 Zoom Json Domain Money Keys Auth World GoJson Files Render GoValue Wire AnyClient.

Definition seller_usdc : string := "EPjFWdd5AufqSSqeM2qN1xzybapC8G4wEGGkZwyTDt1v".
Record seller := mkSeller { sl_public : string; sl_id : string; sl_key : privkey; sl_capability : string; sl_price : string; sl_base : string }.
(** What changes while it runs: the token, its mutex, and the traffic. *)
Record Live := mkLive { lv_token : string; lv_locked : bool; lv_traffic : traffic }.
Definition with_lv_traffic (t : traffic) (s : Live) : Live := mkLive (lv_token s) (lv_locked s) t.

(** [ed25519.NewKeyFromSeed] *)
Class KeyFromSeed := { key_from_seed : list Z → privkey }.
Definition SeedSize : nat := 32.

Section Seller.
Context `{IO : Folding} `{IF : FloatJson} `{FV : FloatV} `{IB : Base58} `{IE : Ed25519} (srv : server) (s : seller).

Definition lock : prog Live unit := Atomic (fun l => if lv_locked l then None else Some (tt, mkLive (lv_token l) true (lv_traffic l))) None Ret.
Definition unlock : prog Live unit := Atomic (fun l => Some (tt, mkLive (lv_token l) false (lv_traffic l))) None Ret.
Definition set_token (t : string) : prog Live unit := Atomic (fun l => Some (tt, mkLive t (lv_locked l) (lv_traffic l))) None Ret.
Definition get_token : prog Live string := Atomic (fun l => Some (lv_token l, l)) None Ret.
Definition locked_token : prog Live string :=
  prog_bind (fun _ => prog_bind (fun t => prog_bind (fun _ => Ret t) unlock) get_token) lock.
Definition out {A} (p : prog traffic A) : prog Live A := zoom lv_traffic with_lv_traffic p.

(** [authenticateLocked]: a verify answer without a token empties the token. *)
Definition authenticateLocked : prog Live (called unit) :=
  prog_bind (fun r => match r with
    | Off e => Ret (Off e)
    | Back token => prog_bind (fun _ => Ret (Back tt)) (set_token token)
    end) (out (authenticate srv (sl_id s) (sl_key s))).
Definition seller_authenticate : prog Live (called unit) :=
  prog_bind (fun _ => prog_bind (fun r => prog_bind (fun _ => Ret r) unlock) authenticateLocked) lock.

(** A session that has lapsed is renewed, and the call made once more. *)
Definition callAuthed (path : string) (body : option json) (method : string) : prog Live (called json) :=
  prog_bind (fun token =>
    prog_bind (fun r =>
      match r with
      | Off (Status 401) =>
          prog_bind (fun a => match a with
            | Off _ => Ret (Off Other)
            | Back _ => prog_bind (fun token => out (call srv path body method token)) locked_token
            end) seller_authenticate
      | _ => Ret r
      end) (out (call srv path body method token))) locked_token.

Definition publish_card_body : json := JObject [("card", JObject [
  ("capabilities", JStrings [sl_capability s]); ("currencies", JStrings [seller_usdc]);
  ("description", JString "Explains code. A standing seller for the marketplace."); ("name", JString "standing seller");
  ("publicKey", JString (sl_id s)); ("settlementModes", JStrings ["offchain"; "onchain"]); ("url", JString (sl_public s)); ("version", JString "0.1.0")])].
Definition publish_offer_body : json := JObject [
  ("capabilities", JStrings [sl_capability s]); ("description", JString "Explain a function or file in plain language."); ("direction", JString "ask");
  ("priceAmount", JString (sl_price s)); ("priceMint", JString seller_usdc); ("settlementModes", JStrings ["offchain"; "onchain"])].
Definition to_unit {A} (r : called A) : called unit := match r with Back _ => Back tt | Off e => Off e end.
Definition publishCard : prog Live (called unit) :=
  prog_bind (fun r => Ret (to_unit r)) (callAuthed ("/v1/agents/" +:+ sl_id s +:+ "/card") (Some publish_card_body) PUT).
Definition publishOffer : prog Live (called unit) :=
  prog_bind (fun r => Ret (to_unit r)) (callAuthed ("/v1/agents/" +:+ sl_id s +:+ "/offers") (Some publish_offer_body) POST).
Definition accept_path (tradeID : string) : string := "/v1/trades/" +:+ tradeID +:+ "/accept".
Definition accept (tradeID : string) : prog Live (called unit) :=
  prog_bind (fun r => Ret (to_unit r)) (callAuthed (accept_path tradeID) (Some (JObject [])) POST).

(** The ids of the listings a buyer can still take; [None]: the type assertion on an
    id panics. *)
Fixpoint open_ids (offers : list json) : option (list string) :=
  match offers with
  | [] => Some []
  | offer :: rest =>
      if String.eqb (str (mem offer "status")) "open" then
        match mem offer "id" with JString id => ids ← open_ids rest; Some (id :: ids) | _ => None end
      else open_ids rest
  end.
Definition openOffers : prog Live (called (option (list string))) :=
  prog_bind (fun r => Ret (match r with Off e => Off e | Back listed => Back (open_ids (items (mem listed "offers"))) end))
    (out (call srv ("/v1/agents/" +:+ sl_id s +:+ "/offers") None GET "")).

(** A step of the process: it goes on, ends with an error, or panics. *)
Inductive step_result := Went | Stopped | Panicked.
Fixpoint close_each (ids : list string) : prog Live step_result :=
  match ids with
  | [] => Ret Went
  | id :: rest =>
      prog_bind (fun token =>
        prog_bind (fun r => match r with Off _ => Ret Stopped | Back _ => close_each rest end)
          (out (call srv ("/v1/offers/" +:+ id +:+ "/close") (Some (JObject [])) POST token))) get_token
  end.
Definition closeStaleOffers : prog Live step_result :=
  prog_bind (fun r => match r with Off _ => Ret Stopped | Back None => Ret Panicked | Back (Some ids) => close_each ids end) openOffers.

(** [keepStocked]: one tick; a failed check or publication is only logged. *)
Definition restock : prog Live step_result :=
  prog_bind (fun r => match r with
    | Off _ => Ret Went
    | Back None => Ret Panicked
    | Back (Some (_ :: _)) => Ret Went
    | Back (Some []) => prog_bind (fun _ => Ret Went) publishOffer
    end) openOffers.

(** What [main] does before it listens. *)
Definition go_on (p : prog Live (called unit)) (k : prog Live step_result) : prog Live step_result :=
  prog_bind (fun r => match r with Off _ => Ret Stopped | Back _ => k end) p.
Definition seller_boot : prog Live step_result :=
  go_on (prog_bind (fun r => Ret (to_unit r)) (out (call srv "/healthz" None GET "")))
  (go_on seller_authenticate
  (go_on publishCard
  (prog_bind (fun r => match r with Went => go_on publishOffer (Ret Went) | other => Ret other end) closeStaleOffers))).

(** ** The endpoint *)
(** A status and a body; [None] is an [error] member with the text of the error. *)
Record answer := mkAnswer { an_status : Z; an_body : option json }.
Definition extractTradeID (body : json) : string :=
  let v := str (mem body "tradeId") in
  if negb (String.eqb v "") then v else str (mem (mem (mem (mem body "params") "message") "payload") "tradeId").
(** A body over one megabyte is cut; one that is no JSON object is an empty map. *)
Definition task_limit : Z := 2 ^ 20.
Definition task_body (raw : string) : json :=
  let raw := if Z.of_nat (slen raw) <=? task_limit then raw else stake (Z.to_nat task_limit) raw in default JNull (unmarshal (TMap TAny) raw).
Definition handleTask (raw : string) : prog Live answer :=
  let tradeID := extractTradeID (task_body raw) in
  if String.eqb tradeID "" then
    Ret (mkAnswer 400 (Some (JObject [("error", JString "no tradeId in body (top-level or params.message.payload.tradeId)")])))
  else prog_bind (fun r => Ret (match r with
    | Off _ => mkAnswer 502 None
    | Back _ => mkAnswer 200 (Some (JObject [("accepted", JBool true); ("agentId", JString (sl_id s));
        ("result", JString "explained: this is where the seller's work product would go"); ("tradeId", JString tradeID)]))
    end)) (accept tradeID).

Definition seller_index : json := JObject [
  ("agentId", JString (sl_id s)); ("buyNodeCurl", JString ("curl -s " +:+ sl_public s +:+ "/buyer.mjs | node --input-type=module"));
  ("buyPythonCurl", JString ("curl -s " +:+ sl_public s +:+ "/buyer.py | python3 -")); ("capability", JString (sl_capability s));
  ("marketplace", JString (sl_base s)); ("offerBoard", JString (sl_base s +:+ "/v1/offers")); ("priceUsdc", JString (sl_price s))].
Definition seller_card : json := JObject [
  ("capabilities", JStrings [sl_capability s]); ("name", JString "temp-seller"); ("url", JString (sl_public s)); ("version", JString "0.1.0")].
(** [mux]; the two buyer scripts are embedded files. *)
Inductive served := Json (status : Z) (body : json) | Embedded (file : string) | Task | NotServed.
Definition seller_mux (method path : string) : served :=
  if String.eqb method "POST" then Task
  else if String.eqb method "GET" || String.eqb method "HEAD" then
    if String.eqb path "/healthz" then Json 200 (JObject [("agentId", JString (sl_id s)); ("ok", JBool true)])
    else if String.eqb path "/.well-known/agent-card.json" then Json 200 seller_card
    else if String.eqb path "/buyer.py" then Embedded "buyer.py"
    else if String.eqb path "/buyer.mjs" then Embedded "buyer.mjs"
    else if String.eqb path "/" then Json 200 seller_index
    else NotServed
  else NotServed.

(** ** What the calls do *)
Lemma run_out {A} (p : prog traffic A) l :
  run (out p) l = match run p (lv_traffic l) with Some (a, t) => Some (a, with_lv_traffic t l) | None => None end.
Proof.
  revert l. induction p as [a|R f fl k IH]; intros l; cbn; [by destruct l|]. destruct (f (lv_traffic l)) as [[r t]|]; [|done]. by rewrite IH.
Qed.

Definition call_of (path : string) (body : option json) (method token : string) : HttpCall := mkCall method path token (marshal <$> body).
Lemma run_callAuthed path body method token t :
  run (callAuthed path body method) (mkLive token false t) =
    let q1 := call_of path body method token in let r1 := srv t q1 in
    match judge r1 with
    | Off (Status 401) =>
        match run (authenticate srv (sl_id s) (sl_key s)) ((q1, r1) :: t) with
        | Some (Back token', t') =>
            let q2 := call_of path body method token' in
            Some (judge (srv t' q2), mkLive token' false ((q2, srv t' q2) :: t'))
        | Some (Off _, t') => Some (Off Other, mkLive token false t')
        | None => None
        end
    | o => Some (o, mkLive token false ((q1, r1) :: t))
    end.
Proof.
  unfold callAuthed. rewrite run_bind. cbn [run locked_token prog_bind lock get_token unlock lv_locked lv_token lv_traffic].
  rewrite run_bind, run_out, run_call. cbv zeta. unfold with_lv_traffic. cbn [lv_traffic lv_token lv_locked]. fold (call_of path body method token).
  destruct (judge (srv t (call_of path body method token))) as [v|[|status]]; [done|done|]. destruct (decide (status = 401)) as [->|Hne].
  2:{ destruct status as [|p|p]; [done| |done]. do 9 (destruct p as [p|p|]; try done). }
  rewrite run_bind. unfold seller_authenticate. rewrite run_bind. cbn [run lock lv_locked lv_token lv_traffic]. rewrite run_bind.
  unfold authenticateLocked. rewrite run_bind, run_out. cbn [lv_traffic].
  destruct (run (authenticate _ _ _) _) as [[[token'|e] t']|]; [|done|done]. unfold with_lv_traffic. cbn [run set_token lv_locked lv_token lv_traffic unlock prog_bind locked_token lock get_token].
  by rewrite run_out, run_call.
Qed.

Lemma callAuthed_makes path body method token t : ∃ r token' new,
  run (callAuthed path body method) (mkLive token false t) = Some (r, mkLive token' false (new ++ t)) ∧
  Forall (fun x => logs_in x.1 ∨ ∃ k, x.1 = call_of path body method k) new ∧
  (∃ x, last new = Some x ∧ x.1 = call_of path body method token).
Proof.
  rewrite run_callAuthed. cbv zeta. set (q1 := call_of path body method token). set (r1 := srv t q1).
  assert (∀ o : called json, ∃ r token' new, Some (o, mkLive token false ((q1, r1) :: t)) = Some (r, mkLive token' false (new ++ t)) ∧
    Forall (fun x => logs_in x.1 ∨ ∃ k, x.1 = call_of path body method k) new ∧ (∃ x, last new = Some x ∧ x.1 = q1)) as Hone.
  { intros o. exists o, token, [(q1, r1)]. split_and!; [done|constructor; [right; by exists token|done]|by exists (q1, r1)]. }
  destruct (judge r1) as [v|[|status]] eqn:Ej; [by apply Hone|by apply Hone|]. destruct (decide (status = 401)) as [->|Hne].
  2:{ destruct status as [|p|p]; [by apply Hone| |by apply Hone]. do 9 (destruct p as [p|p|]; try by apply Hone); done. }
  destruct (run_authenticate srv (sl_id s) (sl_key s) ((q1, r1) :: t)) as (a & new & -> & Hnew). destruct a as [token'|e].
  - set (q2 := call_of path body method token'). set (r2 := srv _ q2). exists (judge r2), token', ((q2, r2) :: new ++ [(q1, r1)]). split_and!.
    + by rewrite <-app_comm_cons, <-app_assoc.
    + constructor; [right; by exists token'|]. apply Forall_app. split; [eapply Forall_impl; [exact Hnew|by left]|constructor; [right; by exists token|done]].
    + exists (q1, r1). split; [|done]. by rewrite app_comm_cons, last_snoc.
  - exists (Off Other), token, (new ++ [(q1, r1)]). split_and!; [by rewrite <-app_assoc| |exists (q1, r1); split; [by rewrite last_snoc|done]].
    apply Forall_app. split; [eapply Forall_impl; [exact Hnew|by left]|constructor; [right; by exists token|done]].
Qed.


Definition accept_call (id token : string) : HttpCall := call_of (accept_path id) (Some (JObject [])) POST token.


Definition list_call : HttpCall := mkCall GET ("/v1/agents/" +:+ sl_id s +:+ "/offers") "" None.
(** What the board says of the seller's listings: the ids of those that are open. *)
Inductive board := Unknown | Malformed | Lists (open : list string).
Definition board_of (r : Response_) : board :=
  match judge r with
  | Off _ => Unknown
  | Back listed => match open_ids (items (mem listed "offers")) with None => Malformed | Some ids => Lists ids end
  end.
Lemma run_openOffers token t :
  run openOffers (mkLive token false t) =
    Some (match judge (srv t list_call) with Off e => Off e | Back listed => Back (open_ids (items (mem listed "offers"))) end,
      mkLive token false ((list_call, srv t list_call) :: t)).
Proof. unfold openOffers. rewrite run_bind, run_out, run_call. reflexivity. Qed.
Lemma run_restock token t : run restock (mkLive token false t) =
  let after := mkLive token false ((list_call, srv t list_call) :: t) in
  match board_of (srv t list_call) with
  | Unknown | Lists (_ :: _) => Some (Went, after)
  | Malformed => Some (Panicked, after)
  | Lists [] => match run publishOffer after with Some (_, l) => Some (Went, l) | None => None end
  end.
Proof.
  unfold restock, board_of. rewrite run_bind, run_openOffers. cbv zeta. destruct (judge (srv t list_call)) as [listed|e]; [|done].
  destruct (open_ids _) as [[|id ids]|]; [|done|done]. by rewrite run_bind.
Qed.
End Seller.

(** ** The identity *)
Section Identity.
Context `{IO : Folding} `{IB : Base58} `{IK : KeyFromSeed}.
Definition stored_fields : list (string * (string → json → option string)) := [("seed", fun x v => as_string x v)].
Definition stored_seed (raw : string) : option (list Z) :=
  encoded ← json_parse raw ≫= as_struct stored_fields "";
  seed ← base64_decode encoded;
  if Nat.eqb (slen seed) SeedSize then Some (bytes_of seed) else None.
Definition seed_body (seed : list Z) : string := marshal (JObject [("seed", JString (base64 (string_of seed)))]).
(** [os.WriteFile]: the file is truncated, then written; it is not synced. *)
Definition WriteFile (path body : string) : io FS unit :=
  i <~ sys (fun f => match live f !! path with
    | Some i => (Ok i, set_file i (mkInode "" false) f)
    | None => (Ok (fs_next f), mkFS (<[fs_next f := mkInode "" false]> (fs_inodes f)) (<[path := fs_next f]> (live f) :: fs_dirs f)
        (S (fs_next f)) (fs_suffix f) (fs_room f) (fs_entropy f))
    end);;
  Write i body.
(** A key file that cannot be read as one is replaced by a new identity. *)
Definition loadOrCreateKey (keyFile : string) : io FS privkey :=
  on_result (ReadFile keyFile) (fun r =>
    match (match r with Ok raw => stored_seed raw | Err _ => None end) with
    | Some seed => ok (key_from_seed seed)
    | None =>
        seed <~ sys (fun f => let seed := map (fun b => b mod 256) (fs_entropy f) in
          (if Nat.eqb (length seed) SeedSize then Ok seed else Err [EIO], f));;
        _ <~ WriteFile keyFile (seed_body seed);;
        ok (key_from_seed seed)
    end).
End Identity.

Section Identities.
Context `{IO : Folding} `{IB : Base58} `{IK : KeyFromSeed}.
(** A key file that holds a seed is read, and left as it is. *)
Lemma identity_reused keyFile f raw seed : read f keyFile = Some raw → stored_seed raw = Some seed →
  run (loadOrCreateKey keyFile) f = Some (Ok (key_from_seed seed), f).
Proof. intros Hr Hs. unfold loadOrCreateKey, on_result. rewrite run_bind. cbn -[stored_seed]. rewrite Hr, Hs. done. Qed.
(** One that holds anything else is overwritten with a new identity, as if there were
    none. *)
Lemma unreadable_identity_replaced keyFile f raw i : read f keyFile = Some raw → live f !! keyFile = Some i → stored_seed raw = None →
  length (fs_entropy f) = SeedSize → fs_room f = None →
  ∃ seed f', run (loadOrCreateKey keyFile) f = Some (Ok (key_from_seed seed), f') ∧ read f' keyFile = Some (seed_body seed).
Proof.
  intros Hr Hi Hs Hl Hroom. exists (map (fun b => b mod 256) (fs_entropy f)). unfold loadOrCreateKey, on_result. rewrite run_bind. cbn -[stored_seed seed_body]. rewrite Hr, Hs.
  cbn -[seed_body]. rewrite length_map, Hl. cbn -[seed_body]. rewrite Hi. cbn -[seed_body]. rewrite Hroom. cbn -[seed_body]. eexists. split; [done|].
  unfold read, set_file, live in *. cbn -[seed_body]. rewrite Hi. cbn -[seed_body]. by rewrite lookup_insert_eq.
Qed.
End Identities.


(** The first request of a task that names a trade. *)
Lemma first_accepts `{Folding} `{FloatJson} `{FloatV} `{Base58} `{Ed25519} srv s raw token t :
  let id := extractTradeID (task_body raw) in id ≠ "" →
  ∃ a token' new x, run (handleTask srv s raw) (mkLive token false t) = Some (a, mkLive token' false (new ++ t)) ∧
    last new = Some (accept_call id token, x).
Proof.
  cbv zeta. intros Hid. unfold handleTask. destruct (String.eqb_spec (extractTradeID (task_body raw)) "") as [|_]; [done|].
  unfold accept. rewrite !run_bind.
  destruct (callAuthed_makes srv s (accept_path (extractTradeID (task_body raw))) (Some (JObject [])) POST token t) as (r & token' & new & -> & _ & [q x] & Hl & Hq).
  cbn in Hq. subst q. by eexists _, token', new, x.
Qed.

(** One listing at a time.  A tick of the restocking loop asks the board for the
    seller's listings.  If one is open, or the board does not answer, that is its
    only request; only if none is open does it go on to publish, and a listed offer
    that is open and has no id ends the process. *)
Theorem restock_one_listing `{Folding} `{FloatJson} `{FloatV} `{Base58} `{Ed25519} srv s token t :
  ∃ r token' new, run (restock srv s) (mkLive token false t) = Some (r, mkLive token' false (new ++ (list_call s, srv t (list_call s)) :: t)) ∧
    match board_of (srv t (list_call s)) with
    | Unknown => r = Went ∧ new = []
    | Malformed => r = Panicked ∧ new = []
    | Lists [] => r = Went ∧ ∃ x, last new = Some x ∧ x.1 = call_of ("/v1/agents/" +:+ sl_id s +:+ "/offers") (Some (publish_offer_body s)) POST token
    | Lists (_ :: _) => r = Went ∧ new = []
    end.
Proof.
  rewrite run_restock. cbv zeta. destruct (board_of _) as [| |[|id ids]]; [by exists Went, token, []|by exists Panicked, token, []| |by exists Went, token, []].
  unfold publishOffer. rewrite run_bind.
  destruct (callAuthed_makes srv s ("/v1/agents/" +:+ sl_id s +:+ "/offers") (Some (publish_offer_body s)) POST token ((list_call s, srv t (list_call s)) :: t))
    as (r & token' & new & -> & _ & Hfirst). by exists Went, token', new.
Qed.

(** The id of a task is written into the path as it came: with a slash and a question
    mark in it, whoever reaches the endpoint chooses the action the seller's session
    is used for. *)
Lemma task_any_action `{Folding} `{FloatJson} `{FloatV} `{Base58} `{Ed25519} srv s raw token t trade action :
  extractTradeID (task_body raw) = trade +:+ "/" +:+ action +:+ "?" →
  has_char (ceqb "?") trade = false → has_char (ceqb "?") action = false →
  ∃ a token' new x q, run (handleTask srv s raw) (mkLive token false t) = Some (a, mkLive token' false (new ++ t)) ∧ last new = Some (q, x) ∧
    hc_method q = POST ∧ hc_token q = token ∧ cut "?" (hc_path q) = ("/v1/trades/" +:+ trade +:+ "/" +:+ action, "/accept", true).
Proof.
  intros E Ht Ha. destruct (first_accepts srv s raw token t) as (a & token' & new & x & Hr & Hl); [by rewrite E; destruct trade|]. rewrite E in Hl.
  eexists a, token', new, x, _. split_and!; [exact Hr|exact Hl|done..|].
  assert (∀ z, has_char (ceqb "?") z = false → all_chars (fun c => negb (ceqb c "?")) z = true) as Hc.
  { intros z. unfold has_char. intros Hz%negb_false_iff. eapply all_chars_impl; [|exact Hz]. intros c Hc. apply negb_true_iff in Hc. apply negb_true_iff.
    destruct (Stdlib.Strings.Ascii.eqb_spec c "?") as [->|]; [by rewrite ceqb_refl in Hc|done]. }
  transitivity (cut "?" (("/v1/trades/" +:+ trade +:+ "/" +:+ action) +:+ String "?" "/accept")); [|apply cut_app; by rewrite !all_chars_app, (Hc _ Ht), (Hc _ Ha)].
  assert (∀ p a b c d e, p +:+ (a +:+ b +:+ c +:+ d) +:+ e = (p +:+ a +:+ b +:+ c) +:+ (d +:+ e)) as L by (intros; by rewrite !sapp_assoc).
  f_equal. exact (L "/v1/trades/" trade "/" action "?" "/accept").
Qed.

(** *** An identifier that cancels *)
#[local] Existing Instances demoFolding demoBase58 demoEd25519.
#[local] Instance demoFloatJson : FloatJson := {| float_json := Some |}.
#[local] Instance demoFloatV : FloatV := {| float_v := id |}.
Definition demoSellerOf : seller := mkSeller "https://seller.example" "S" (demoKey 1) "code:explain" "0.10" "https://vtessera.fly.dev".
Example a_task_cancels : option_map (fun x => map (fun y => (hc_method y.1, hc_path y.1, hc_token y.1)) (lv_traffic x.2))
  (run (handleTask (fun _ _ => Answer 200 "{}") demoSellerOf (strings_object [("tradeId", "T/cancel?")])) (mkLive "session" false [])) =
  Some [("POST", "/v1/trades/T/cancel?/accept", "session")].
Proof. vm_compute. reflexivity. Qed.

(** *** A session that has lapsed *)
Definition lapsedMarket : server := fun _ q =>
  if String.eqb (hc_path q) "/v1/auth/challenge" then Answer 200 (strings_object [("challengeId", "c"); ("nonce", "n")])
  else if String.eqb (hc_path q) "/v1/auth/verify" then Answer 200 (strings_object [("token", "renewed")])
  else Answer (if String.eqb (hc_token q) "renewed" then 200 else 401) "{}".
Example a_session_is_renewed : option_map (fun x => (an_status x.1, lv_token x.2, map (fun y => (hc_path y.1, hc_token y.1)) (lv_traffic x.2)))
  (run (handleTask lapsedMarket demoSellerOf (strings_object [("tradeId", "T")])) (mkLive "session" false [])) =
  Some (200, "renewed", [("/v1/trades/T/accept", "renewed"); ("/v1/auth/verify", ""); ("/v1/auth/challenge", ""); ("/v1/trades/T/accept", "session")]).
Proof. vm_compute. reflexivity. Qed.
