(* ===== verification/Buyer.v ===== *)
(** * [examples/buyer]: the smallest buyer

    The calls are those of [AnyClient]; [cheapest] picks an offer of a discovery
    answer by its price as a binary64 number, and [buyer_run] opens and negotiates a
    trade for it.  [buys_the_cheapest]: a trade is only asked for on a sandbox, for
    the offer picked, and no offer listed has a readable price below it. *)
From Stdlib Require Import SpecFloat.
From S2P Require Import Prelude GoText Prog Json Domain Money Keys Auth GoJson Render GoValue Wire AnyClient.

Definition buyer_usdc : string := "EPjFWdd5AufqSSqeM2qN1xzybapC8G4wEGGkZwyTDt1v".

Section Buyer.
Context `{IO : Folding} `{IF : FloatJson} `{FV : FloatV} `{FT : FloatText} `{IB : Base58} `{IE : Ed25519} (srv : server).

(** The price of an offer, where it can be read. *)
Definition price_of (offer : json) : option f64 := parse_float64 (str (mem offer "priceAmount")).
(** The loop, the best offer so far given; [None]: the type assertion on an id panics. *)
Definition best : Type := option (f64 * string * string).
Definition beats (value : f64) (b : best) : bool := match b with None => true | Some (v, _, _) => f64_lt value v end.
Fixpoint scan (b : best) (offers : list json) : option best :=
  match offers with
  | [] => Some b
  | offer :: rest =>
      match price_of offer with
      | None => scan b rest
      | Some value =>
          if beats value b then
            match mem offer "id" with JString id => scan (Some (value, id, str (mem offer "priceAmount"))) rest | _ => None end
          else scan b rest
      end
  end.
Definition cheapest (offers : list json) : option (option (string * string)) :=
  option_map (option_map (fun '(_, id, price) => (id, price))) (scan None offers).

Definition buyer_card (id capability : string) : json := JObject [("card", JObject [
  ("capabilities", JStrings [capability]); ("currencies", JStrings [buyer_usdc]);
  ("description", JString "Buys the capability it discovers."); ("name", JString "buyer-example"); ("publicKey", JString id);
  ("settlementModes", JStrings ["offchain"]); ("url", JString "https://example.invalid/buyer-example"); ("version", JString "0.1.0")])].
(** [url.Values.Encode] orders the keys. *)
Definition discovery (capability : string) : list (string * string) :=
  [("capability", capability); ("direction", "ask"); ("mint", buyer_usdc); ("mode", "offchain"); ("status", "open")].
Definition trade_body (offerID : string) : json := JObject [("offerId", JString offerID); ("settlementMode", JString "offchain")].

(** [run], the key its generator made given; what it prints in the end, or a panic. *)
Inductive bought := Opened (tradeID price state : string) | BuyerPanicked.
Definition buyer_run (capability : string) (key : privkey) : prog traffic (called bought) :=
  health <! call srv "/healthz" None GET "";;
  if negb (as_true (mem health "sandbox")) then Ret (Off Other)
  else
    let agentID := agent_id key in
    token <! authenticate srv agentID key;;
    _ <! call srv ("/v1/agents/" +:+ agentID +:+ "/card") (Some (buyer_card agentID capability)) PUT token;;
    found <! call srv ("/v1/offers?" +:+ encode_values (discovery capability)) None GET "";;
    match items (mem found "offers") with
    | [] => Ret (Off Other)
    | offers =>
        match cheapest offers with
        | None => Ret (Back BuyerPanicked)
        | Some None => Ret (Off Other)
        | Some (Some (offerID, price)) =>
            trade <! call srv "/v1/trades" (Some (trade_body offerID)) POST token;;
            let tradeID := str (mem trade "id") in
            _ <! call srv ("/v1/trades/" +:+ tradeID +:+ "/negotiate") (Some (JObject [])) POST token;;
            opened <! call srv ("/v1/trades/" +:+ tradeID) None GET token;;
            Ret (Back (Opened tradeID price (format_v (mem opened "state"))))
        end
    end.
End Buyer.

(** ** The order of binary64 numbers *)
Lemma f64_lt_trans x y z : f64_lt x y = true → f64_lt y z = true → f64_lt x z = true.
Proof.
  unfold f64_lt, SFltb, SFcompare.
  destruct x as [sx|[]| |[] mx ex], y as [sy|[]| |[] my ey], z as [sz|[]| |[] mz ez]; try done.
  all: destruct (Z.compare_spec ex ey), (Z.compare_spec ey ez), (Z.compare_spec ex ez); try done; try lia; subst; try done.
  all: change (PosDef.Pos.compare_cont Eq) with Pos.compare.
  all: destruct (Pos.compare_spec mx my), (Pos.compare_spec my mz), (Pos.compare_spec mx mz); cbn; try done; lia.
Qed.
Lemma f64_lt_irrefl x : f64_lt x x = false.
Proof.
  unfold f64_lt, SFltb, SFcompare. destruct x as [s|[]| |[] m e]; try done.
  all: rewrite Z.compare_refl; change (PosDef.Pos.compare_cont Eq) with Pos.compare; by rewrite Pos.compare_refl.
Qed.

(** ** What is picked *)
Section Picked.
Context `{FT : FloatText}.

(** [offer] is listed with a readable price, and none of those listed is below it. *)
Definition lowest (offers : list json) (id price : string) : Prop := ∃ offer value, offer ∈ offers ∧
  mem offer "id" = JString id ∧ str (mem offer "priceAmount") = price ∧ price_of offer = Some value ∧
  ∀ other x, other ∈ offers → price_of other = Some x → f64_lt x value = false.
Definition improves (b : best) (v : f64) : Prop := match b with None => True | Some (v0, _, _) => v = v0 ∨ f64_lt v v0 = true end.
Definition readable (offer : json) : Prop := is_Some (price_of offer).

Lemma scan_picks offers : ∀ b v id price, scan b offers = Some (Some (v, id, price)) → improves b v ∧
  (b = Some (v, id, price) ∨ ∃ offer, offer ∈ offers ∧ mem offer "id" = JString id ∧ str (mem offer "priceAmount") = price ∧ price_of offer = Some v) ∧
  ∀ other x, other ∈ offers → price_of other = Some x → f64_lt x v = false.
Proof.
  induction offers as [|offer rest IH]; intros b v id price; cbn [scan].
  { intros [= ->]. split_and!; [by left|by left|]. intros other x Ho. by apply elem_of_nil in Ho. }
  destruct (price_of offer) as [value|] eqn:Ep.
  2:{ intros Hs. destruct (IH _ _ _ _ Hs) as (H1 & H2 & H3). split_and!; [done| |].
      - destruct H2 as [->|(o & Ho & Hr)]; [by left|]. right. exists o. split; [by right|done].
      - intros other x [->|Ho]%elem_of_cons Hx; [congruence|by eapply H3]. }
  destruct (beats value b) eqn:Eb.
  - destruct (mem offer "id") as [| | |i| |] eqn:Ei; try done. intros Hs. destruct (IH _ _ _ _ Hs) as (Hv & H2 & H3).
    assert (f64_lt value v = false) as Hlow.
    { destruct Hv as [->|Hv]; [apply f64_lt_irrefl|]. destruct (f64_lt value v) eqn:E; [|done].
      pose proof (f64_lt_trans _ _ _ E Hv) as Hc. by rewrite f64_lt_irrefl in Hc. }
    split_and!.
    + destruct b as [[[v0 ?] ?]|]; [|done]. cbn in Eb |- *. right. destruct Hv as [->|Hv]; [done|by eapply f64_lt_trans].
    + right. destruct H2 as [[= -> -> <-]|(o & Ho & Hr)]; [exists offer; split; [by left|done]|exists o; split; [by right|done]].
    + intros other x [->|Ho]%elem_of_cons Hx; [congruence|by eapply H3].
  - intros Hs. destruct (IH _ _ _ _ Hs) as (Hv & H2 & H3). destruct b as [[[v0 i0] p0]|]; [|done]. cbn in Eb, Hv. split_and!; [done| |].
    + destruct H2 as [->|(o & Ho & Hr)]; [by left|]. right. exists o. split; [by right|done].
    + intros other x [->|Ho]%elem_of_cons Hx; [|by eapply H3]. rewrite Ep in Hx. injection Hx as <-.
      destruct Hv as [->|Hv]; [done|]. destruct (f64_lt value v) eqn:E; [|done]. by rewrite (f64_lt_trans _ _ _ E Hv) in Eb.
Qed.
Lemma scan_nothing offers : ∀ b, scan b offers = Some None ↔ b = None ∧ ∀ offer, offer ∈ offers → ¬ readable offer.
Proof.
  induction offers as [|offer rest IH]; intros b; cbn [scan].
  { split; [intros [= ->]; split; [done|]; intros o Ho; by apply elem_of_nil in Ho|by intros [-> _]]. }
  destruct (price_of offer) as [value|] eqn:Ep.
  - split; [|intros [_ H]; destruct (H offer); [by left|by exists value]].
    destruct (beats value b) eqn:Eb; [destruct (mem offer "id"); try done|]; rewrite IH; [by intros [? _]|]. by intros [-> _].
  - rewrite IH. split; intros [-> H]; (split; [done|]); intros o Ho.
    + apply elem_of_cons in Ho as [->|Ho]; [by intros [? ?]; congruence|by apply H].
    + apply H. by right.
Qed.
Lemma cheapest_lowest offers id price : cheapest offers = Some (Some (id, price)) → lowest offers id price.
Proof.
  unfold cheapest. destruct (scan None offers) as [[[[v i] p]|]|] eqn:E; try done. cbn. intros [= -> ->].
  destruct (scan_picks _ _ _ _ _ E) as (_ & [?|(o & Ho & Hi & Hp & Hv)] & Hl); [done|]. by exists o, v.
Qed.
Lemma cheapest_none offers : cheapest offers = Some None ↔ ∀ offer, offer ∈ offers → ¬ readable offer.
Proof.
  unfold cheapest. pose proof (scan_nothing offers None) as Hn. destruct (scan None offers) as [[[[v i] p]|]|]; cbn.
  - split; [done|]. intros H. by pose proof (proj2 Hn (conj eq_refl H)).
  - split; [|done]. intros _. by apply Hn.
  - split; [done|]. intros H. by pose proof (proj2 Hn (conj eq_refl H)).
Qed.
End Picked.

(** ** The calls of a run *)
Section Calls.
Context `{IO : Folding} `{IF : FloatJson} `{FV : FloatV} `{FT : FloatText} `{IB : Base58} `{IE : Ed25519} (srv : server).

(** A call of the traffic and what its answer was read as. *)
Definition told (t : traffic) (q : HttpCall) (v : json) : Prop := ∃ r, (q, r) ∈ t ∧ judge r = Back v.
Definition health_query : HttpCall := mkCall GET "/healthz" "" None.
Definition board_query (capability : string) : HttpCall := mkCall GET ("/v1/offers?" +:+ encode_values (discovery capability)) "" None.
(** What justifies asking for a trade. *)
Definition justified (t : traffic) (capability : string) (q : HttpCall) : Prop := ∃ health found id price,
  told t health_query health ∧ mem health "sandbox" = JBool true ∧
  told t (board_query capability) found ∧ lowest (items (mem found "offers")) id price ∧
  hc_body q = Some (marshal (trade_body id)).
Definition asks_trade (q : HttpCall) : Prop := hc_path q = "/v1/trades".

Lemma logs_in_no_trade (new : traffic) q r : Forall (fun x => logs_in x.1) new → (q, r) ∈ new → ¬ asks_trade q.
Proof. intros Hf Hin. eapply Forall_forall in Hf as (_ & _ & [Hp|Hp]); [| |exact Hin]; unfold asks_trade; cbn in Hp; rewrite Hp; discriminate. Qed.
Lemma as_true_is v : as_true v = true → v = JBool true.
Proof. by destruct v as [|[]| | | |]. Qed.

(** Every request for a trade in the traffic is justified by it. *)
Definition guarded (capability : string) (t : traffic) : Prop := ∀ q r, (q, r) ∈ t → asks_trade q → justified t capability q.
Lemma justified_mono t t' capability q : (∀ x, x ∈ t → x ∈ t') → justified t capability q → justified t' capability q.
Proof.
  intros Ht (health & found & id & price & (r1 & H1 & Hj1) & Hs & (r2 & H2 & Hj2) & Hl).
  exists health, found, id, price. split_and!; [by exists r1; auto|done|by exists r2; auto|apply Hl..].
Qed.
Lemma guarded_other capability q r t : guarded capability t → ¬ asks_trade q → guarded capability ((q, r) :: t).
Proof.
  intros Hg Hq q' r' Hin Ha. apply elem_of_cons in Hin as [[= -> ->]|Hin]; [done|].
  eapply justified_mono; [|by eapply Hg]. intros x Hx. by right.
Qed.
Lemma guarded_trade capability q r t : guarded capability t → justified t capability q → guarded capability ((q, r) :: t).
Proof.
  intros Hg Hq q' r' Hin Ha. assert (∀ x, x ∈ t → x ∈ (q, r) :: t) as Hsub by (intros x Hx; by right).
  apply elem_of_cons in Hin as [[= -> ->]|Hin]; (eapply justified_mono; [exact Hsub|]); [done|by eapply Hg].
Qed.
Lemma guarded_login capability new t : Forall (fun x => logs_in x.1) new → guarded capability t → guarded capability (new ++ t).
Proof.
  intros Hn Hg q r Hin Ha. apply elem_of_app in Hin as [Hin|Hin]; [by destruct (logs_in_no_trade _ _ _ Hn Hin)|].
  eapply justified_mono; [|by eapply Hg]. intros x Hx. apply elem_of_app. by right.
Qed.

(** A call goes on to the rest with its answer, or it was the last. *)
Lemma run_step {A} path body method token (f : json → prog traffic (called A)) l (Q : traffic → Prop) r l' :
  (let q := mkCall method path token (marshal <$> body) in
   Q ((q, srv l q) :: l) ∧ ∀ v, judge (srv l q) = Back v → run (f v) ((q, srv l q) :: l) = Some (r, l') → Q l') →
  run (called_bind (call srv path body method token) f) l = Some (r, l') → Q l'.
Proof.
  cbv zeta. intros [H1 H2]. rewrite run_called_bind, run_call. destruct (judge _) as [v|e] eqn:E; [by apply H2|]. by intros [= _ <-].
Qed.

Lemma buyer_run_guarded capability key r t : run (buyer_run srv capability key) [] = Some (r, t) → guarded capability t.
Proof.
  unfold buyer_run. apply run_step. cbv zeta. set (q1 := mkCall GET "/healthz" "" (marshal <$> None)). set (r1 := srv [] q1).
  assert (guarded capability [(q1, r1)]) as H1.
  { apply guarded_other; [|done]. intros ? ? Hin. by apply elem_of_nil in Hin. }
  split; [done|]. intros health Hh. destruct (as_true (mem health "sandbox")) eqn:Hs; [|by intros [= _ <-]]. cbn [negb].
  rewrite run_called_bind. destruct (run_authenticate srv (agent_id key) key [(q1, r1)]) as (a & new & -> & Hnew).
  pose proof (guarded_login _ _ _ Hnew H1) as H2. destruct a as [token|e]; [|by intros [= _ <-]].
  assert ((q1, r1) ∈ new ++ [(q1, r1)]) as Hin1 by (apply elem_of_app; right; by left).
  revert H2 Hin1. generalize (new ++ [(q1, r1)]) as t2. intros t2 H2 Hin1.
  apply run_step. cbv zeta. set (q3 := mkCall PUT _ _ _). set (r3 := srv t2 q3).
  pose proof (guarded_other _ q3 r3 _ H2 ltac:(done)) as H3. split; [done|]. intros _ _.
  apply run_step. cbv zeta. fold (board_query capability). set (t3 := (q3, r3) :: t2). set (r4 := srv t3 (board_query capability)).
  pose proof (guarded_other _ (board_query capability) r4 _ H3 ltac:(done)) as H4. split; [done|]. intros found Hf.
  destruct (items (mem found "offers")) as [|o os] eqn:Ei; [by intros [= _ <-]|]. rewrite <-Ei.
  destruct (cheapest _) as [[[id price]|]|] eqn:Ec; [|by intros [= _ <-]..].
  apply run_step. cbv zeta. set (q5 := mkCall POST "/v1/trades" _ _). set (t4 := (board_query capability, r4) :: t3). set (r5 := srv t4 q5).
  assert (guarded capability ((q5, r5) :: t4)) as H5.
  { apply guarded_trade; [done|]. exists health, found, id, price. split_and!.
    - exists r1. split; [by do 2 right|done].
    - by apply as_true_is.
    - exists r4. split; [by left|done].
    - by apply cheapest_lowest.
    - done. }
  split; [done|]. intros trade _. apply run_step. cbv zeta. set (q6 := mkCall POST _ token _). set (t5 := (q5, r5) :: t4). set (r6 := srv t5 q6).
  pose proof (guarded_other _ q6 r6 _ H5 ltac:(done)) as H6. split; [done|]. intros _ _.
  apply run_step. cbv zeta. set (q7 := mkCall GET _ token _). set (r7 := srv ((q6, r6) :: t5) q7).
  pose proof (guarded_other _ q7 r7 _ H6 ltac:(done)) as H7. split; [done|]. intros opened _. by intros [= _ <-].
Qed.
End Calls.

(** The buyer pays for the cheapest offer, on a sandbox.  In any run against any
    marketplace, a request to open a trade is made only after the health check said
    that the marketplace is a sandbox, and names an offer of the board's answer that
    has a readable price which no other readable price in that answer is below. *)
Theorem buys_the_cheapest `{Folding} `{FloatJson} `{FloatV} `{FloatText} `{Base58} `{Ed25519} srv capability key r t :
  run (buyer_run srv capability key) [] = Some (r, t) → ∀ q answer, (q, answer) ∈ t → asks_trade q → justified t capability q.
Proof. apply buyer_run_guarded. Qed.

(** *** Witness *)
#[local] Existing Instances demoFolding demoBase58 demoEd25519.
#[local] Instance demoFloatJson : FloatJson := {| float_json := Some |}.
#[local] Instance demoFloatV : FloatV := {| float_v := id |}.
#[local] Instance demoPrices : FloatText := {|
  parse_float64 s := if String.eqb s "2" then Some (f64_of 2) else if String.eqb s "3" then Some (f64_of 3) else None |}.
Definition demoBoard : server := fun _ q =>
  let offer id price := JObject [("id", JString id); ("priceAmount", JString price)] in
  Answer 200 (marshal (if String.eqb (hc_path q) "/healthz" then JObject [("sandbox", JBool true)]
    else if String.prefix "/v1/offers" (hc_path q) then JObject [("offers", JArray [offer "a" "3"; offer "b" "2"; offer "c" "free"; offer "d" "3"])]
    else JObject [("id", JString "t"); ("token", JString "s"); ("state", JString "negotiating")])).
Definition demoPurchase : called bought * traffic := default (Off Other, []) (run (buyer_run demoBoard "summarize:document" (demoKey 1)) []).
Lemma buys_the_cheapest_witness : demoPurchase.1 = Back (Opened "t" "2" "negotiating") ∧
  ∃ q answer, (q, answer) ∈ demoPurchase.2 ∧ hc_body q = Some (marshal (trade_body "b")) ∧ justified demoPurchase.2 "summarize:document" q.
Proof.
  split; [vm_compute; reflexivity|].
  eexists (mkCall POST "/v1/trades" "s" (Some (marshal (trade_body "b")))), _. split; [|split; [reflexivity|]].
  2: eapply (buys_the_cheapest demoBoard "summarize:document" (demoKey 1) demoPurchase.1 demoPurchase.2); [vm_compute; reflexivity| |reflexivity].
  all: unfold demoPurchase; vm_compute; do 2 right; left; reflexivity.
Defined.
