(* ===== verification/Router.v ===== *)
(** * [httpapi.Server.routes]: the mux between the clients and the handlers

    The patterns the server registers, and which of them [net/http]'s mux picks for a
    method and a request target.  The targets are those of clean URLs: the path, up
    to a question mark, is its own escaped form.  [routes_answer]: every route is
    reached by the path that names it and no other pattern matches that path;
    [tools_reach_their_routes]: so are the tools of [Mcp], with the very ids and
    filters they were called with; [card_endpoints_are_public]: so are the URLs of the
    marketplace's own card. *)
From S2P Require Import Prelude GoText Prog Json Domain Money Agp GoJson Render GoValue Wire Keyring Http Routing AnyClient Seller Mcp.

(** ** [net/url]: unescaping *)
Fixpoint unescape (plus : bool) (s : string) : option string :=
  match s with
  | EmptyString => Some ""
  | String c s' =>
      if ceqb c "%" then
        match s' with
        | String h (String l s'') => x ← hex_val h; y ← hex_val l; r ← unescape plus s''; Some (String (ascii_of_N (Z.to_N (16 * x + y))) r)
        | _ => None
        end
      else r ← unescape plus s'; Some (String (if plus && ceqb c "+" then " "%char else c) r)
  end.
Definition PathUnescape : string → option string := unescape false.
Definition QueryUnescape : string → option string := unescape true.
(** The pairs of [url.ParseQuery] in their order; what does not decode is dropped. *)
Definition parse_pair (s : string) : option (string * string) :=
  if String.eqb s "" || has_char (fun c => ceqb c ";") s then None
  else let '(k, v, _) := cut "=" s in k ← QueryUnescape k; v ← QueryUnescape v; Some (k, v).
Definition ParseQuery (raw : string) : list (string * string) := omap parse_pair (split "&" raw).
(** [Values.Get] *)
Definition values_Get (l : list (string * string)) (k : string) : string := default "" (snd <$> find (fun x => String.eqb x.1 k) l).

(** ** The patterns *)
Inductive endpoint :=
  | EAgentCard | EHealth | ERetireAgent | ERestoreAgent | EGetRetirement | EProbeAgent | EResolveTrade | EAdminTrade
  | EListAgents | EGetAgent | EGetCardAttestation | EPutCard | EAgentOffers | ESearchOffers | EPublishOffer | EGetOffer
  | EGetOfferAttestation | EGetCapabilities | ECloseOffer | ECreateTrade | EGetTrade | ENegotiate | EAccept | ERecord | ECancel
  | EDispute | EBuildSettlement | ESettlementRequest | EConfirmSettlement | EGetLimits | EPutLimits | EListTokens | ETessera
  | ELedger | ELedgerHead | EListReceipts | EMetrics | EChallenge | EVerify | EAGPRoute | EAGPTable.
#[export] Instance endpoint_eq_dec : EqDecision endpoint.
Proof. solve_decision. Defined.

(** Registered with an operator credential only. *)
Definition admin_routes : list (string * endpoint) := [
  ("POST /v1/admin/agents/{id}/retire", ERetireAgent); ("POST /v1/admin/agents/{id}/restore", ERestoreAgent);
  ("GET /v1/admin/agents/{id}/retirement", EGetRetirement); ("POST /v1/admin/agents/{id}/probe", EProbeAgent);
  ("POST /v1/admin/trades/{id}/resolve", EResolveTrade); ("GET /v1/admin/trades/{id}", EAdminTrade)].
Definition open_routes : list (string * endpoint) := [
  ("GET /.well-known/agent-card.json", EAgentCard); ("GET /healthz", EHealth);
  ("GET /v1/agents", EListAgents); ("GET /v1/agents/{id}", EGetAgent); ("GET /v1/agents/{id}/attestation", EGetCardAttestation);
  ("PUT /v1/agents/{id}/card", EPutCard); ("GET /v1/agents/{id}/offers", EAgentOffers); ("GET /v1/offers", ESearchOffers);
  ("POST /v1/agents/{id}/offers", EPublishOffer); ("GET /v1/offers/{id}", EGetOffer); ("GET /v1/offers/{id}/attestation", EGetOfferAttestation);
  ("GET /v1/agents/{id}/capabilities", EGetCapabilities); ("POST /v1/offers/{id}/close", ECloseOffer); ("POST /v1/trades", ECreateTrade);
  ("GET /v1/trades/{id}", EGetTrade); ("POST /v1/trades/{id}/negotiate", ENegotiate); ("POST /v1/trades/{id}/accept", EAccept);
  ("POST /v1/trades/{id}/record", ERecord); ("POST /v1/trades/{id}/cancel", ECancel); ("POST /v1/trades/{id}/dispute", EDispute);
  ("POST /v1/trades/{id}/settlement", EBuildSettlement); ("GET /v1/trades/{id}/settlement", ESettlementRequest);
  ("POST /v1/trades/{id}/confirm", EConfirmSettlement); ("GET /v1/limits", EGetLimits); ("PUT /v1/limits", EPutLimits);
  ("GET /v1/tokens", EListTokens); ("GET /v1/tesseras/{tradeID}", ETessera); ("GET /v1/ledger", ELedger); ("GET /v1/ledger/head", ELedgerHead);
  ("GET /v1/receipts", EListReceipts); ("GET /v1/metrics", EMetrics); ("POST /v1/auth/challenge", EChallenge); ("POST /v1/auth/verify", EVerify);
  ("POST /agp/route", EAGPRoute); ("GET /agp/table", EAGPTable)].
Definition routes (admin : bool) : list (string * endpoint) := (if admin then admin_routes else []) ++ open_routes.

(** ** The mux *)
(** A literal segment, or [None] for a wildcard. *)
Definition pattern : Type := string * list (option string).
Definition parse_pattern (s : string) : pattern :=
  let '(method, path, _) := cut " " s in
  (method, map (fun seg => if has_prefix seg "{" then None else Some seg) (drop 1 (split "/" path))).
Definition table (admin : bool) : list (pattern * endpoint) := map (fun '(s, e) => (parse_pattern s, e)) (routes admin).

(** A wildcard takes one non-empty segment, unescaped. *)
Definition unescaped (seg : string) : string := default seg (PathUnescape seg).
Fixpoint match_segments (p : list (option string)) (segs : list string) : option (list string) :=
  match p, segs with
  | [], [] => Some []
  | Some l :: p', seg :: segs' => if String.eqb (unescaped seg) l then match_segments p' segs' else None
  | None :: p', seg :: segs' =>
      if String.eqb (unescaped seg) "" || String.eqb (unescaped seg) "/" then None
      else ids ← match_segments p' segs'; Some (unescaped seg :: ids)
  | _, _ => None
  end.
(** A pattern for GET also takes HEAD. *)
Definition takes (registered method : string) : bool := String.eqb method registered || (String.eqb method "HEAD" && String.eqb registered "GET").
Fixpoint first_match (l : list (pattern * endpoint)) (method : string) (segs : list string) : option (endpoint * list string) :=
  match l with
  | [] => None
  | ((m, p), e) :: rest =>
      match (if takes m method then match_segments p segs else None) with Some ids => Some (e, ids) | None => first_match rest method segs end
  end.
(** [path.Clean] leaves the path alone: no dot segments, no empty one but a last one. *)
Fixpoint clean (segs : list string) : bool :=
  match segs with
  | [] => true
  | seg :: rest => negb (String.eqb seg ".") && negb (String.eqb seg "..") && (negb (String.eqb seg "") || bool_decide (rest = [])) && clean rest
  end.
Inductive routed := Found (e : endpoint) (ids : list string) | Redirected | MethodNotAllowed | NotFound.
Definition path_of (target : string) : string := (cut "?" target).1.1.
Definition mux (admin : bool) (method target : string) : routed :=
  match split "/" (path_of target) with
  | "" :: segs =>
      if clean segs || String.eqb method "CONNECT" then
        match first_match (table admin) method segs with
        | Some (e, ids) => Found e ids
        | None => if existsb (fun '((_, p), _) => bool_decide (is_Some (match_segments p segs))) (table admin) then MethodNotAllowed else NotFound
        end
      else Redirected
  | _ => Redirected
  end.
(** [r.URL.Query()] *)
Definition query_values (target : string) : list (string * string) := ParseQuery (cut "?" target).1.2.

(** ** The handler behind a pattern: the route and what its wildcards took *)
Definition names `{Agp.Float64} (r : Route) : endpoint * list string :=
  match r with
  | Public RAgentCard => (EAgentCard, []) | Public RHealth => (EHealth, []) | Public (RListAgents _) => (EListAgents, [])
  | Public (RGetAgent id) => (EGetAgent, [id]) | Public (RCardAttestation id) => (EGetCardAttestation, [id])
  | Public (RAgentOffers id) => (EAgentOffers, [id]) | Public (RSearchOffers _) => (ESearchOffers, []) | Public (RGetOffer id) => (EGetOffer, [id])
  | Public (ROfferAttestation id) => (EGetOfferAttestation, [id]) | Public (RCapabilities id) => (EGetCapabilities, [id])
  | Public RListTokens => (EListTokens, []) | Public RLedger => (ELedger, []) | Public RLedgerHead => (ELedgerHead, [])
  | Public (RReceipts _) => (EListReceipts, []) | Public RMetrics => (EMetrics, []) | Public (RChallenge _ _) => (EChallenge, [])
  | Public (RVerify _) => (EVerify, []) | Public (RAGPRoute _) => (EAGPRoute, []) | Public RAGPTable => (EAGPTable, [])
  | InSession (RPutCard id _) => (EPutCard, [id]) | InSession (RPublishOffer id _) => (EPublishOffer, [id])
  | InSession (RCloseOffer id) => (ECloseOffer, [id]) | InSession (RCreateTrade _) => (ECreateTrade, []) | InSession (RGetTrade id) => (EGetTrade, [id])
  | InSession (RNegotiate id) => (ENegotiate, [id]) | InSession (RAccept id) => (EAccept, [id]) | InSession (RRecord id) => (ERecord, [id])
  | InSession (RCancel id _) => (ECancel, [id]) | InSession (RDispute id _) => (EDispute, [id])
  | InSession (RBuildSettlement id) => (EBuildSettlement, [id]) | InSession (RSettlementRequest id) => (ESettlementRequest, [id])
  | InSession (RConfirm id _) => (EConfirmSettlement, [id]) | InSession RGetLimits => (EGetLimits, []) | InSession (RPutLimits _) => (EPutLimits, [])
  | InSession (RTessera id) => (ETessera, [id])
  | Admin (RRetire id _) => (ERetireAgent, [id]) | Admin (RRestore id) => (ERestoreAgent, [id]) | Admin (RGetRetirement id) => (EGetRetirement, [id])
  | Admin (RProbe _ _ id) => (EProbeAgent, [id]) | Admin (RResolve id _) => (EResolveTrade, [id]) | Admin (RAdminTrade id) => (EAdminTrade, [id])
  end.
Definition is_admin `{Agp.Float64} (r : Route) : bool := match r with Admin _ => true | _ => false end.
Definition is_public `{Agp.Float64} (r : Route) : bool := match r with Public _ => true | _ => false end.

(** The request target that names a route. *)
Definition registered (e : endpoint) : option (pattern * endpoint) := find (fun x => bool_decide (x.2 = e)) (table true).
Fixpoint fill (p : list (option string)) (ids : list string) : list string :=
  match p, ids with
  | Some l :: p', _ => l :: fill p' ids
  | None :: p', id :: ids' => PathEscape id :: fill p' ids'
  | _, _ => []
  end.
Definition target_of (e : endpoint) (ids : list string) : string :=
  match registered e with Some ((_, p), _) => joined "/" ("" :: fill p ids) | None => "" end.
Definition method_of (e : endpoint) : string := match registered e with Some ((m, _), _) => m | None => "" end.
(** An id a path can name: a segment that is not special. *)
Definition nameable (id : string) : Prop := id ∉ [""; "."; ".."; "/"].

(** ** Escaping is undone *)
Lemma unescape_char (plus : bool) (c : ascii) (rest : string) : let text : string := if plus then if unreserved c then String c "" else if ceqb c " " then "+" else percent c
                                              else if in_segment c then String c "" else percent c in
  unescape plus (text +:+ rest) = String c <$> unescape plus rest.
Proof. destruct plus, c as [[] [] [] [] [] [] [] []]; reflexivity. Qed.
Lemma PathUnescape_Escape s : PathUnescape (PathEscape s) = Some s.
Proof.
  unfold PathUnescape. induction s as [|c s IH]; [done|]. cbn [PathEscape]. pose proof (unescape_char false c (PathEscape s)) as H. cbn in H.
  by rewrite H, IH.
Qed.
Lemma QueryUnescape_Escape s : QueryUnescape (QueryEscape s) = Some s.
Proof.
  unfold QueryUnescape. induction s as [|c s IH]; [done|]. cbn [QueryEscape]. pose proof (unescape_char true c (QueryEscape s)) as H. cbn in H.
  by rewrite H, IH.
Qed.
Lemma unescaped_Escape s : unescaped (PathEscape s) = s.
Proof. unfold unescaped. by rewrite PathUnescape_Escape. Qed.

(** Plain text: what a query is made of has no separator of its own. *)
Definition query_char (c : ascii) : bool := unreserved c || ceqb c "+" || ceqb c "%".
Lemma QueryEscape_plain s : all_chars query_char (QueryEscape s) = true.
Proof.
  assert (∀ c, all_chars query_char (if unreserved c then String c "" else if ceqb c " " then "+" else percent c) = true) as Hc.
  { intros c. destruct c as [[] [] [] [] [] [] [] []]; reflexivity. }
  induction s as [|c s IH]; [done|]. cbn [QueryEscape]. by rewrite all_chars_app, Hc, IH.
Qed.
Lemma query_char_not sep c : query_char sep = false → query_char c = true → negb (ceqb c sep) = true.
Proof. intros Hs Hc. apply negb_true_iff. destruct (ceqb c sep) eqn:E; [|done]. apply Stdlib.Strings.Ascii.eqb_eq in E as ->. congruence. Qed.
Lemma plain_without sep s : query_char sep = false → all_chars (fun c => negb (ceqb c sep)) (QueryEscape s) = true.
Proof. intros Hs. eapply all_chars_impl; [|apply QueryEscape_plain]. intros c. by apply query_char_not. Qed.

Lemma split_joined_by sep l : l ≠ [] → Forall (fun s => all_chars (fun c => negb (ceqb c sep)) s = true) l → split sep (joined (String sep "") l) = l.
Proof.
  induction l as [|x [|y l] IH]; intros Hne Hf; [done|..]; apply Forall_cons in Hf as [Hx Hf].
  - cbn [joined]. by apply split_one.
  - rewrite joined_cons. cbn [String.append]. rewrite split_app by done. by rewrite IH.
Qed.
Lemma ParseQuery_encode l : ParseQuery (encode_values l) = l.
Proof.
  unfold ParseQuery, encode_values. destruct l as [|x l]; [done|]. set (text := fun '(k, v) => QueryEscape k +:+ "=" +:+ QueryEscape v).
  rewrite split_joined_by; [|by destruct x|].
  - generalize (x :: l) as m. intros m. induction m as [|[k v] m IH]; [done|]. cbn [List.map omap list_omap].
    assert (parse_pair (text (k, v)) = Some (k, v)) as ->; [|by rewrite IH]. unfold parse_pair, text.
    destruct (String.eqb_spec (QueryEscape k +:+ "=" +:+ QueryEscape v) "") as [E|_]; [by destruct (QueryEscape k)|]. cbn [orb].
    assert (has_char (fun c => ceqb c ";") (QueryEscape k +:+ "=" +:+ QueryEscape v) = false) as ->.
    { unfold has_char. rewrite !all_chars_app, !plain_without by done. done. }
    cbn [String.append]. rewrite cut_app by (by apply plain_without). by rewrite !QueryUnescape_Escape.
  - apply Forall_forall. intros s Hs. apply list_elem_of_fmap in Hs as ([k v] & -> & _). unfold text. by rewrite !all_chars_app, !plain_without.
Qed.

(** ** What a pattern takes *)
Definition wilds (p : list (option string)) : nat := length (filter (fun o => o = None) p).
(** A literal stands for itself. *)
Definition literal (s : string) : bool := String.eqb (unescaped s) s && segment s && negb (bool_decide (s ∈ [""; "."; ".."])).
Definition plain_pattern (p : list (option string)) : bool := forallb (fun o => match o with Some l => literal l | None => true end) p.

Lemma nameable_segment id : nameable id → segment (PathEscape id) = true ∧ PathEscape id ∉ [""; "."; ".."].
Proof.
  intros Hn. split; [apply PathEscape_segment|]. intros Hin. apply Hn.
  rewrite <-(unescaped_Escape id). assert (PathEscape id = "" ∨ PathEscape id = "." ∨ PathEscape id = "..") as [->|[->| ->]] by set_solver; set_solver.
Qed.
Lemma fill_segments p ids : plain_pattern p = true → Forall nameable ids → Forall (fun s => segment s = true ∧ s ∉ [""; "."; ".."]) (fill p ids).
Proof.
  revert ids. induction p as [|[l|] p IH]; intros ids Hp Hn; [by destruct ids|..].
  - cbn in Hp. unfold literal in Hp. apply andb_true_iff in Hp as [[[_ Hs]%andb_true_iff Hl]%andb_true_iff Hp]. apply negb_true_iff, bool_decide_eq_false in Hl.
    cbn [fill]. constructor; [done|by apply IH].
  - destruct Hn as [|id ids Hid Hn]; [constructor|]. cbn [fill]. constructor; [by apply nameable_segment|by apply IH].
Qed.
Lemma match_fill p ids : plain_pattern p = true → Forall nameable ids → wilds p = length ids → match_segments p (fill p ids) = Some ids.
Proof.
  revert ids. induction p as [|[l|] p IH]; intros ids Hp Hn Hw; [by destruct ids|..].
  - cbn in Hp. unfold literal in Hp. apply andb_true_iff in Hp as [[[Hu _]%andb_true_iff _]%andb_true_iff Hp].
    cbn [fill match_segments]. rewrite Hu. by apply IH.
  - destruct Hn as [|id ids Hid Hn]; [done|]. cbn [fill match_segments]. rewrite unescaped_Escape.
    destruct (String.eqb_spec id "") as [->|_]; [destruct Hid; set_solver|]. destruct (String.eqb_spec id "/") as [->|_]; [destruct Hid; set_solver|]. cbn [orb].
    rewrite IH; [done..|]. cbn in Hw. unfold wilds in *. cbn in Hw. by injection Hw.
Qed.
Lemma clean_segments segs : Forall (fun s => segment s = true ∧ s ∉ [""; "."; ".."]) segs → clean segs = true.
Proof.
  induction 1 as [|s segs [_ Hs] _ IH]; [done|]. cbn [clean]. rewrite IH.
  destruct (String.eqb_spec s ".") as [->|_]; [destruct Hs; set_solver|]. destruct (String.eqb_spec s "..") as [->|_]; [destruct Hs; set_solver|].
  by destruct (String.eqb_spec s "") as [->|_]; [destruct Hs; set_solver|].
Qed.
Lemma segment_without sep s : separates sep = true → segment s = true → all_chars (fun c => negb (ceqb c sep)) s = true.
Proof.
  intros Hsep Hs. unfold segment, has_char in Hs. rewrite negb_involutive in Hs. eapply all_chars_impl; [|exact Hs].
  intros c Hc. apply negb_true_iff in Hc. apply negb_true_iff. destruct (ceqb c sep) eqn:E; [|done]. apply Stdlib.Strings.Ascii.eqb_eq in E as ->. congruence.
Qed.
Lemma joined_plain f l : f "/"%char = true → Forall (fun s => all_chars f s = true) l → all_chars f (joined "/" l) = true.
Proof.
  intros Hf. induction l as [|x [|y l] IH]; intros Hl; [done|..]; apply Forall_cons in Hl as [Hx Hl]; [done|].
  rewrite joined_cons, !all_chars_app, Hx, (IH Hl). cbn. by rewrite Hf.
Qed.
(** The mux sees the segments of a path of segments, and the query after it. *)
Lemma target_segments segs query : Forall (fun s => segment s = true ∧ s ∉ [""; "."; ".."]) segs →
  (∀ text, text = joined "/" ("" :: segs) ∨ text = joined "/" ("" :: segs) +:+ String "?" query → split "/" (path_of text) = "" :: segs).
Proof.
  intros Hs text Ht. assert (Forall (fun s => segment s = true) ("" :: segs)) as Hseg.
  { constructor; [done|]. eapply Forall_impl; [exact Hs|]. by intros s [H _]. }
  assert (path_of text = joined "/" ("" :: segs)) as ->.
  { assert (all_chars (fun c => negb (ceqb c "?")) (joined "/" ("" :: segs)) = true) as Hq.
    { apply joined_plain; [done|]. eapply Forall_impl; [exact Hseg|]. intros s. by apply segment_without. }
    unfold path_of. by destruct Ht as [->| ->]; [rewrite cut_none|rewrite cut_app]. }
  apply split_joined_by; [done|]. eapply Forall_impl; [exact Hseg|]. intros s. by apply segment_without.
Qed.

(** ** No two patterns take one request *)
Fixpoint apart (p q : list (option string)) : bool :=
  match p, q with
  | [], [] => false
  | Some l :: p', Some l' :: q' => negb (String.eqb l l') || apart p' q'
  | _ :: p', _ :: q' => apart p' q'
  | _, _ => true
  end.
Lemma apart_sound p q segs ids ids' : apart p q = true → match_segments p segs = Some ids → match_segments q segs = Some ids' → False.
Proof.
  revert q segs ids ids'. induction p as [|a p IH]; intros [|b q] [|s segs] ids ids' Ha Hp Hq; try done; try (by destruct a); try (by destruct b).
  destruct a as [l|], b as [l'|]; cbn [apart match_segments] in Ha, Hp, Hq.
  - destruct (String.eqb_spec (unescaped s) l) as [El|]; [|done]. destruct (String.eqb_spec (unescaped s) l') as [El'|]; [|done].
    assert (l = l') as Hll by congruence. rewrite Hll, String.eqb_refl in Ha. cbn in Ha. by eapply IH.
  - destruct (String.eqb _ l); [|done]. destruct (_ || _); [done|]. destruct (match_segments q segs) eqn:E; [|done]. by eapply IH.
  - destruct (String.eqb _ l'); [|done]. destruct (_ || _); [done|]. destruct (match_segments p segs) eqn:E; [|done]. by eapply IH.
  - destruct (_ || _); [done|]. destruct (match_segments p segs) eqn:E; [|done]. destruct (match_segments q segs) eqn:E'; [|done]. by eapply IH.
Qed.
Definition told_apart (l : list (pattern * endpoint)) : bool :=
  forallb (fun x => negb (String.eqb x.1.1 "HEAD") &&
    forallb (fun y => bool_decide (x = y) || negb (String.eqb x.1.1 y.1.1) || apart x.1.2 y.1.2) l) l.
Lemma table_told_apart admin : told_apart (table admin) = true.
Proof. by destruct admin; vm_compute. Qed.
Lemma takes_same m m' method : m ≠ "HEAD" → m' ≠ "HEAD" → takes m method = true → takes m' method = true → m = m'.
Proof.
  unfold takes. intros Hm Hm' H H'. apply orb_true_iff in H as [H|H], H' as [H'|H'].
  - apply String.eqb_eq in H, H'. congruence.
  - apply andb_true_iff in H' as [H' _]. apply String.eqb_eq in H, H'. congruence.
  - apply andb_true_iff in H as [H _]. apply String.eqb_eq in H, H'. congruence.
  - apply andb_true_iff in H as [_ H], H' as [_ H']. apply String.eqb_eq in H, H'. congruence.
Qed.
Lemma one_pattern admin method segs x y ids ids' : x ∈ table admin → y ∈ table admin →
  takes x.1.1 method = true → takes y.1.1 method = true →
  match_segments x.1.2 segs = Some ids → match_segments y.1.2 segs = Some ids' → x = y.
Proof.
  intros Hx Hy Hm Hm' Hs Hs'. pose proof (table_told_apart admin) as Ht. unfold told_apart in Ht. rewrite forallb_forall in Ht.
  pose proof (Ht x (proj1 (list_elem_of_In _ _) Hx)) as [Hhx Hax]%andb_true_iff. pose proof (Ht y (proj1 (list_elem_of_In _ _) Hy)) as [Hhy _]%andb_true_iff.
  rewrite forallb_forall in Hax. specialize (Hax y (proj1 (list_elem_of_In _ _) Hy)). apply negb_true_iff, String.eqb_neq in Hhx, Hhy.
  pose proof (takes_same _ _ _ Hhx Hhy Hm Hm') as Hmm. apply orb_true_iff in Hax as [[Hax|Hax]%orb_true_iff|Hax].
  - by apply bool_decide_eq_true in Hax.
  - rewrite Hmm, String.eqb_refl in Hax. done.
  - by destruct (apart_sound _ _ _ _ _ Hax Hs Hs').
Qed.

Lemma first_match_some l method segs e ids : first_match l method segs = Some (e, ids) →
  ∃ x, x ∈ l ∧ x.2 = e ∧ takes x.1.1 method = true ∧ match_segments x.1.2 segs = Some ids.
Proof.
  induction l as [|[[m p] e'] l IH]; [done|]. cbn [first_match].
  destruct (takes m method) eqn:Ht; [destruct (match_segments p segs) as [ids'|] eqn:Em|].
  - intros [= -> ->]. exists ((m, p), e). split; [by left|done].
  - intros H. destruct (IH H) as (x & Hx & Hr). exists x. split; [by right|done].
  - intros H. destruct (IH H) as (x & Hx & Hr). exists x. split; [by right|done].
Qed.
Lemma first_match_none l method segs x ids : x ∈ l → takes x.1.1 method = true → match_segments x.1.2 segs = Some ids →
  first_match l method segs ≠ None.
Proof.
  induction l as [|[[m p] e'] l IH]; intros Hx Ht Hm; [by apply elem_of_nil in Hx|]. cbn [first_match].
  apply elem_of_cons in Hx as [->|Hx]; [cbn in Ht, Hm; by rewrite Ht, Hm|].
  destruct (if takes m method then match_segments p segs else None); [done|by apply IH].
Qed.
Lemma first_match_only admin method segs x ids : x ∈ table admin → takes x.1.1 method = true → match_segments x.1.2 segs = Some ids →
  first_match (table admin) method segs = Some (x.2, ids).
Proof.
  intros Hx Ht Hm. destruct (first_match (table admin) method segs) as [[e ids']|] eqn:E; [|by destruct (first_match_none _ _ _ _ _ Hx Ht Hm)].
  destruct (first_match_some _ _ _ _ _ E) as (y & Hy & <- & Ht' & Hm'). pose proof (one_pattern _ _ _ _ _ _ _ Hx Hy Ht Ht' Hm Hm') as <-. congruence.
Qed.

Lemma table_plain admin : forallb (fun x => plain_pattern x.1.2) (table admin) = true.
Proof. by destruct admin; vm_compute. Qed.
(** A filled pattern, with or without a query, reaches its endpoint. *)
Lemma mux_filled admin x method ids query text : x ∈ table admin → takes x.1.1 method = true → Forall nameable ids → wilds x.1.2 = length ids →
  text = joined "/" ("" :: fill x.1.2 ids) ∨ text = joined "/" ("" :: fill x.1.2 ids) +:+ String "?" query → mux admin method text = Found x.2 ids.
Proof.
  intros Hx Ht Hn Hw Htext. pose proof (table_plain admin) as Hp. rewrite forallb_forall in Hp. specialize (Hp x (proj1 (list_elem_of_In _ _) Hx)).
  pose proof (fill_segments _ _ Hp Hn) as Hs. unfold mux. rewrite (target_segments _ query Hs _ Htext), (clean_segments _ Hs). cbn [orb].
  by rewrite (first_match_only _ _ _ _ _ Hx Ht (match_fill _ _ Hp Hn Hw)).
Qed.

(** The path of an operator's route matches no other pattern, whatever the method. *)
Definition hidden (admin open : list (pattern * endpoint)) : bool := forallb (fun x => forallb (fun y => apart x.1.2 y.1.2) open) admin.
Lemma operator_paths_hidden : hidden (map (fun '(s, e) => (parse_pattern s, e)) admin_routes) (table false) = true.
Proof. by vm_compute. Qed.
Lemma mux_hidden x method ids : x ∈ map (fun '(s, e) => (parse_pattern s, e)) admin_routes → Forall nameable ids → wilds x.1.2 = length ids →
  mux false method (joined "/" ("" :: fill x.1.2 ids)) = NotFound.
Proof.
  intros Hx Hn Hw. assert (x ∈ table true) as Hxt by (unfold table, routes; rewrite map_app; apply elem_of_app; by left).
  pose proof (table_plain true) as Hp. rewrite forallb_forall in Hp. specialize (Hp x (proj1 (list_elem_of_In _ _) Hxt)).
  pose proof (fill_segments _ _ Hp Hn) as Hs. unfold mux. rewrite (target_segments _ "" Hs _ (or_introl eq_refl)), (clean_segments _ Hs). cbn [orb].
  assert (∀ y ids', y ∈ table false → match_segments y.1.2 (fill x.1.2 ids) = Some ids' → False) as Hno.
  { intros y ids' Hy Hm. pose proof operator_paths_hidden as Hh. unfold hidden in Hh. rewrite forallb_forall in Hh. specialize (Hh x (proj1 (list_elem_of_In _ _) Hx)).
    rewrite forallb_forall in Hh. specialize (Hh y (proj1 (list_elem_of_In _ _) Hy)). by eapply apart_sound, Hm; [|apply match_fill]. }
  destruct (first_match (table false) method _) as [[e ids']|] eqn:E.
  { destruct (first_match_some _ _ _ _ _ E) as (y & Hy & _ & _ & Hm). by destruct (Hno _ _ Hy Hm). }
  match goal with |- context [existsb ?f (table false)] => destruct (existsb f (table false)) eqn:Ex end; [|done]. apply existsb_exists in Ex as ([[m p] e] & Hy & Hm). apply bool_decide_eq_true in Hm as [ids' Hm].
  destruct (Hno ((m, p), e) ids'); [by apply list_elem_of_In|done].
Qed.

(** Every endpoint is registered once, the operator's ones among the operator's. *)
Definition is_operators (e : endpoint) : bool := bool_decide (e ∈ map snd admin_routes).
Definition arity (e : endpoint) : nat := match registered e with Some ((_, p), _) => wilds p | None => 0 end.
Lemma registered_is e : ∃ x, registered e = Some x ∧ x.2 = e ∧
  if is_operators e then x ∈ map (fun '(s, e) => (parse_pattern s, e)) admin_routes else x ∈ table false.
Proof.
  assert (∀ e : endpoint, match registered e with
    | Some x => bool_decide (x.2 = e) && (if is_operators e then bool_decide (x ∈ map (fun '(s, e) => (parse_pattern s, e)) admin_routes) else bool_decide (x ∈ table false))
    | None => false end = true) as H by (intros []; vm_compute; reflexivity).
  specialize (H e). destruct (registered e) as [x|]; [|done]. apply andb_true_iff in H as [He Hin]. apply bool_decide_eq_true in He.
  exists x. split_and!; [done..|]. by destruct (is_operators e); apply bool_decide_eq_true in Hin.
Qed.
Lemma mux_endpoint admin e ids method : Forall nameable ids → arity e = length ids → takes (method_of e) method = true →
  mux admin method (target_of e ids) = if is_operators e && negb admin then NotFound else Found e ids.
Proof.
  intros Hn Ha Ht. destruct (registered_is e) as ([[m p] e'] & Hr & He & Hin). cbn in He. subst e'. unfold arity, target_of, method_of in *. rewrite Hr in *.
  destruct (is_operators e) eqn:Ho; [destruct admin|]; cbn [andb negb].
  - apply (mux_filled true ((m, p), e) method ids "" _); [|done..|by left]. unfold table, routes. rewrite map_app. apply elem_of_app. by left.
  - by apply (mux_hidden ((m, p), e)).
  - assert (((m, p), e) ∈ table admin) as Hx. { destruct admin; [|done]. unfold table, routes. rewrite map_app. apply elem_of_app. by right. }
    apply (mux_filled admin ((m, p), e) method ids "" _); [done..|by left].
Qed.
Lemma names_arity `{Agp.Float64} r : arity (names r).1 = length (names r).2 ∧ is_operators (names r).1 = is_admin r.
Proof. by destruct r as [[]|[]|[]]; vm_compute. Qed.

(** ** The marketplace's card *)
Definition ExtensionURI : string := "https://github.com/a2aproject/a2a-samples/tree/main/extensions/agp".
Definition GatewayRole : string := "gateway".
Definition SupportedVersions : list string := ["1.0"].
Definition ForwardingMethods : list string := [MethodRouteIntent; MethodRouteTask].
Definition card_skill (id name description : string) (tags : list string) : json :=
  JObject [("description", JString description); ("id", JString id); ("name", JString name); ("tags", JStrings tags)].
Definition readEndpoints : list (string * string) := [("agents", "/v1/agents"); ("health", "/healthz"); ("ledgerHead", "/v1/ledger/head");
  ("metrics", "/v1/metrics"); ("offers", "/v1/offers"); ("receipts", "/v1/receipts"); ("tokens", "/v1/tokens")].
(** [buildAgentCard], as its maps marshal: the keys in order. *)
Definition buildAgentCard (version publicBaseURL : string) : json := JObject ([
  ("capabilities", JObject [
    ("extensions", JArray [JObject [
      ("params", JObject [("agent_role", JString GatewayRole); ("forwarding", JObject [("methods", JStrings ForwardingMethods)]);
        ("supported_agp_versions", JStrings SupportedVersions)]);
      ("uri", JString ExtensionURI)]]);
    ("pushNotifications", JBool false); ("stateTransitionHistory", JBool true); ("streaming", JBool false)]);
  ("defaultInputModes", JStrings ["application/json"]); ("defaultOutputModes", JStrings ["application/json"]);
  ("description", JString "A2A marketplace gateway: routes Intents to the cheapest policy-compliant agent and issues hash-chain anchored virtual tessera receipts.");
  ("name", JString "vtessera marketplace"); ("preferredTransport", JString "JSONRPC"); ("protocolVersion", JString "0.3.0")] ++
  (if String.eqb publicBaseURL "" then [] else [("readEndpoints", JObject (map (fun '(k, path) => (k, JString (publicBaseURL +:+ path))) readEndpoints))]) ++
  [("skills", JArray [
    card_skill "agp_route_intent" "AGP Intent routing" "Routes an AGP Intent to the cheapest agent whose announced policy satisfies every constraint."
      ["agp"; "gateway"; "routing"];
    card_skill "agp_route_task" "AGP task routing" "Routes an AGP Intent and returns an addressed A2A message envelope ready to POST to the selected path."
      ["agp"; "gateway"; "routing"; "forwarding"];
    card_skill "tessera_receipt" "Virtual tessera receipt" "Issues and verifies a hash-chain anchored, Ed25519 signed tessera for a recorded trade."
      ["tessera"; "receipt"; "ledger"]])] ++
  (if String.eqb publicBaseURL "" then [] else [("url", JString publicBaseURL)]) ++
  [("version", JString version)]).

(** ** The tools' routes *)
(** What [handleSearchOffers] reads. *)
Definition search_of (values : list (string * string)) : searchQuery :=
  mkSearchQuery (values_Get values "direction") (values_Get values "status") (values_Get values "capability") (values_Get values "q")
    (values_Get values "mint") (values_Get values "mode") (values_Get values "limit") (values_Get values "offset").
Definition tool_ids (t : tool_call) : list string :=
  match t with
  | vtessera_get_offer id | vtessera_get_agent id | vtessera_get_card_attestation id | vtessera_get_capability_report id => [id]
  | _ => []
  end.
(** The route a tool is meant to reach; an intent's body is decoded by the handler. *)
Definition meant `{Agp.Float64} (t : tool_call) (body : Body rpcRequest) : Route := Public
  match t with
  | vtessera_health => RHealth
  | vtessera_search_offers q => RSearchOffers (mkSearchQuery (oq_Direction q) "" (oq_Capability q) (oq_Text q) (oq_Mint q) (oq_Mode q)
      (if oq_Limit q >? 0 then format_int (oq_Limit q) else "") "")
  | vtessera_get_offer id => RGetOffer id
  | vtessera_get_agent id => RGetAgent id
  | vtessera_get_card_attestation id => RCardAttestation id
  | vtessera_get_capability_report id => RCapabilities id
  | vtessera_route_intent _ => RAGPRoute body
  end.
(** [r] is the route of the request: its pattern is found, and a search reads its filters. *)
Definition answered_by `{Agp.Float64} (admin : bool) (q : HttpCall) (r : Route) : Prop :=
  mux admin (hc_method q) (hc_path q) = Found (names r).1 (names r).2 ∧
  match r with Public (RSearchOffers s) => search_of (query_values (hc_path q)) = s | _ => True end.

Lemma search_of_query q : search_of (query_of q) =
  mkSearchQuery (oq_Direction q) "" (oq_Capability q) (oq_Text q) (oq_Mint q) (oq_Mode q) (if oq_Limit q >? 0 then format_int (oq_Limit q) else "") "".
Proof.
  destruct q as [capability mint mode direction text limit]. unfold query_of, unless. cbn [oq_Capability oq_Mint oq_Mode oq_Direction oq_Text oq_Limit].
  destruct (limit >? 0).
  all: destruct (String.eqb_spec capability "") as [->|?], (String.eqb_spec direction "") as [->|?], (String.eqb_spec mint "") as [->|?],
    (String.eqb_spec mode "") as [->|?], (String.eqb_spec text "") as [->|?]; reflexivity.
Qed.
Lemma asked_limit q : oq_Limit q < 2 ^ 63 → Atoi_value (if oq_Limit q >? 0 then format_int (oq_Limit q) else "") = Z.max 0 (oq_Limit q).
Proof.
  intros Hq. destruct (Z.gtb_spec (oq_Limit q) 0) as [Hp|Hp]; [|by rewrite Z.max_l by lia].
  unfold format_int. rewrite (proj2 (Z.ltb_ge _ _)) by lia. rewrite Z.max_r by lia. apply Atoi_value_ok. unfold Atoi, signed.
  destruct (format_uint_spec (oq_Limit q)) as (Hd & Hdig & Hne & _); [lia|]. destruct (format_uint (oq_Limit q)) as [|c s] eqn:E; [done|].
  assert (is_digit c = true) as Hc by (cbn in Hdig; by apply andb_true_iff in Hdig as [? _]).
  assert (ceqb c "-" = false ∧ ceqb c "+" = false) as [-> ->].
  { split; (destruct (ceqb c _) eqn:Ec; [|done]); apply Stdlib.Strings.Ascii.eqb_eq in Ec as ->; done. }
  cbn [orb]. unfold ParseUintBits. rewrite Hdig, Hd. change (String.eqb (String c s) "") with false. cbn [negb andb].
  rewrite (proj2 (Z.ltb_lt (oq_Limit q) (2 ^ 64))) by lia. cbn. by rewrite (proj2 (Z.ltb_lt (oq_Limit q) _)) by lia.
Qed.
Lemma tool_path t : hc_path (request_of t) = match t with
  | vtessera_search_offers q => match query_of q with [] => "/v1/offers" | l => "/v1/offers" +:+ String "?" (encode_values l) end
  | vtessera_health => target_of EHealth []
  | vtessera_get_offer id => target_of EGetOffer [id]
  | vtessera_get_agent id => target_of EGetAgent [id]
  | vtessera_get_card_attestation id => target_of EGetCardAttestation [id]
  | vtessera_get_capability_report id => target_of EGetCapabilities [id]
  | vtessera_route_intent _ => target_of EAGPRoute []
  end.
Proof.
  assert (∀ e ids, target_of e ids = match registered e with Some ((_, p), _) => joined "/" ("" :: fill p ids) | None => "" end) as Hu by done.
  destruct t; cbn [request_of hc_path]; [by vm_compute|by destruct (query_of q)|..].
  all: rewrite Hu; match goal with |- context [registered ?e] => let x := eval vm_compute in (registered e) in change (registered e) with x end; reflexivity.
Qed.
Lemma tool_answered `{Agp.Float64} admin t body : Forall nameable (tool_ids t) → answered_by admin (request_of t) (meant t body).
Proof.
  intros Hn. unfold answered_by. rewrite tool_path. destruct t as [|q|id|id|id|id|i]; cbn [request_of hc_method meant names fst snd]; cbn [tool_ids] in Hn.
  1, 3-7: (split; [|done]); by apply mux_endpoint.
  assert (((parse_pattern "GET /v1/offers"), ESearchOffers) ∈ table admin) as Hin by (destruct admin; apply (bool_decide_eq_true_1 _); vm_compute; reflexivity).
  destruct (query_of q) as [|x l] eqn:Eq.
  - split; [by apply (mux_filled _ _ GET [] "" _ Hin eq_refl Hn eq_refl); left|].
    rewrite <-search_of_query, Eq. reflexivity.
  - split; [by apply (mux_filled _ _ GET [] (encode_values (x :: l)) _ Hin eq_refl Hn eq_refl); right|].
    rewrite <-search_of_query, Eq. unfold query_values. rewrite cut_app by done. cbn [fst snd]. by rewrite ParseQuery_encode.
Qed.

(** A task that names [T/cancel?] makes the seller's path one that cancels. *)
Lemma task_can_cancel admin id : nameable id → PathEscape id = id → mux admin POST (accept_path (id +:+ "/cancel?")) = Found ECancel [id].
Proof.
  intros Hn He. assert ((parse_pattern "POST /v1/trades/{id}/cancel", ECancel) ∈ table admin) as Hin by (destruct admin; apply (bool_decide_eq_true_1 _); vm_compute; reflexivity).
  apply (mux_filled _ _ POST [id] "/accept" _ Hin eq_refl); [by apply Forall_singleton|done|]. right. unfold accept_path.
  change (fill _ [id]) with ["v1"; "trades"; PathEscape id; "cancel"]. rewrite He.
  change (joined "/" ["" ; "v1"; "trades"; id; "cancel"]) with ("/v1/trades/" +:+ (id +:+ "/cancel")). by rewrite !sapp_assoc.
Qed.

(** C21: every route is reached by its path, and by no other pattern.  For any ids a
    path can carry, the target that a route's pattern makes of them, with the
    pattern's method (or HEAD for GET), is given to that route's handler with those
    very ids; an operator's route is not found at all in a deployment without an
    operator.  Whatever clean path comes in, at most one registered pattern takes it,
    so the order of registration does not matter. *)
Theorem routes_answer `{Agp.Float64} admin method :
  (∀ r e ids, names r = (e, ids) → Forall nameable ids → takes (method_of e) method = true →
    mux admin method (target_of e ids) = if is_admin r && negb admin then NotFound else Found e ids) ∧
  (∀ target segs x ids, split "/" (path_of target) = "" :: segs → clean segs = true → x ∈ table admin → takes x.1.1 method = true →
    match_segments x.1.2 segs = Some ids → mux admin method target = Found x.2 ids).
Proof.
  split.
  - intros r e ids Hr Hn Ht. pose proof (names_arity r) as [Ha Ho]. rewrite Hr in Ha, Ho. cbn in Ha, Ho. rewrite <-Ho. by apply mux_endpoint.
  - intros target segs x ids Hs Hc Hx Ht Hm. unfold mux. rewrite Hs, Hc. cbn [orb]. by rewrite (first_match_only _ _ _ _ _ Hx Ht Hm).
Qed.

(** C20: a tool asks the question it was called with.  Whatever its arguments contain,
    a tool makes one request, without a credential, which the marketplace's mux gives
    to the public handler it is meant for; the handler sees the very id the tool was
    called with (unless that is empty, a dot segment or a slash) or the very search
    filters, and the limit as the number asked for. *)
Theorem tools_reach_their_routes `{Folding} `{FloatJson} `{Agp.Float64} srv t l admin body :
  Forall nameable (tool_ids t) →
  ∃ result q, run (handle srv t) l = Some (result, (q, srv l q) :: l) ∧ hc_token q = "" ∧
    answered_by admin q (meant t body) ∧ is_public (meant t body) = true ∧
    ∀ s, meant t body = Public (RSearchOffers s) → ∃ asked, t = vtessera_search_offers asked ∧ sq_q s = oq_Text asked ∧
      (oq_Limit asked < 2 ^ 63 → Atoi_value (sq_limit s) = Z.max 0 (oq_Limit asked)).
Proof.
  intros Hn. exists (reported t (srv l (request_of t))), (request_of t). split; [apply run_handle|].
  split; [by destruct t|]. split; [by apply tool_answered|]. split; [done|].
  intros s Hs. destruct t as [|q| | | | |]; try done. exists q. injection Hs as <-. split; [done|]. split; [done|]. apply asked_limit.
Qed.

(** The marketplace's card advertises public endpoints: with a base URL every URL it
    lists is that base and a path which the mux gives to a public handler; without one
    it lists none. *)
Theorem card_endpoints_are_public `{Agp.Float64} version base admin :
  (base = "" → field (entries (buildAgentCard version base)) "readEndpoints" = None ∧ field (entries (buildAgentCard version base)) "url" = None) ∧
  (base ≠ "" → ∃ listed, field (entries (buildAgentCard version base)) "readEndpoints" = Some (JObject listed) ∧ length listed = 7%nat ∧
    ∀ k v, (k, v) ∈ listed → ∃ path r, v = JString (base +:+ path) ∧ is_public r = true ∧ mux admin GET path = Found (names r).1 []).
Proof.
  split; [by intros ->|]. intros Hb. unfold buildAgentCard. destruct (String.eqb_spec base "") as [|_]; [done|]. eexists. split; [reflexivity|]. split; [done|].
  assert (∀ path r, is_public r = true → mux true GET path = Found (names r).1 [] → mux false GET path = Found (names r).1 [] →
    ∃ path' r, JString (base +:+ path) = JString (base +:+ path') ∧ is_public r = true ∧ mux admin GET path' = Found (names r).1 []) as Hone.
  { intros path r Hp H1 H2. exists path, r. by destruct admin. }
  intros k v Hin. cbn [map readEndpoints] in Hin.
  repeat (apply elem_of_cons in Hin as [[= -> ->]|Hin]); [..|by apply elem_of_nil in Hin].
  - by apply (Hone _ (Public (RListAgents ""))).
  - by apply (Hone _ (Public RHealth)).
  - by apply (Hone _ (Public RLedgerHead)).
  - by apply (Hone _ (Public RMetrics)).
  - by apply (Hone _ (Public (RSearchOffers (search_of [])))).
  - by apply (Hone _ (Public (RReceipts ""))).
  - by apply (Hone _ (Public RListTokens)).
Qed.

(** *** Witness *)
#[local] Existing Instances demoFolding demoFloat64.
#[local] Instance demoNumbers : FloatJson := {| float_json := Some |}.
Definition demoMarket : server := fun _ _ => Answer 404 (marshal (JObject [("code", JString "NOT_PROBED")])).
Definition demoTool : tool_call := vtessera_get_capability_report "a/b c".
Lemma tools_reach_their_routes_witness : (∃ result q, run (handle demoMarket demoTool) [] = Some (result, (q, demoMarket [] q) :: []) ∧ hc_token q = "" ∧
    answered_by false q (meant demoTool None) ∧ is_public (meant demoTool None) = true ∧
    ∀ s, meant demoTool None = Public (RSearchOffers s) → ∃ asked, demoTool = vtessera_search_offers asked ∧ sq_q s = oq_Text asked ∧
      (oq_Limit asked < 2 ^ 63 → Atoi_value (sq_limit s) = Z.max 0 (oq_Limit asked))) ∧
  mux false GET "/v1/agents/a%2Fb%20c/capabilities" = Found EGetCapabilities ["a/b c"].
Proof.
  split; [|vm_compute; reflexivity]. apply (tools_reach_their_routes demoMarket demoTool [] false None).
  apply Forall_singleton. unfold nameable. rewrite !not_elem_of_cons. split_and!; try discriminate. apply not_elem_of_nil.
Defined.
