(* ===== verification/Loops.v ===== *)
(** * The background loops of the process

    [trade.RunExpirySweeper], [trade.RunReconciler] and
    [registry.RunOfferExpirySweeper]: what each does on a tick, and whether it runs
    at all with the settings given.  [loops_preserve]: however long they run, however
    their steps interleave with requests, and whatever fails, every step keeps the
    invariants of the running service, and each tick is a sequence of the calls of
    [System]. *)
From S2P Require Import Prelude Prog Money Domain Cluster Limits Tokens Settlement Keys Attest Probe World Store Auth Market Ledger Trade TradeSettlement Safety Preserve Handlers Listings System.

(** What a failed tick returned is dropped; the next one tries again. *)
Definition dropping {A} (m : io World A) (k : io World unit) : io World unit := on_result m (fun _ => k).
Fixpoint each_tick (ticks : nat) (tick : io World unit → io World unit) : io World unit :=
  match ticks with O => ok tt | S n => tick (each_tick n tick) end.

Section Loops.
Context `{IU : Unicode} `{IS : Solana} `{IJ : JWT} `{IB : Base58} `{IE : Ed25519} `{IN : NetURL} `{IT : SessionJWT} (sv : Deployment).

Definition Reconciles : bool :=
  match Enabled sv with Some d => sd_TradeList d && sd_Genesis d | None => false end.
Definition default_interval : duration := 15 * second.
Definition interval (p : ReconcilePolicy) : duration := if rp_Interval p <=? 0 then default_interval else rp_Interval p.

(** The loops, up to the tick after which the context is done. *)
Definition RunExpirySweeper (every : duration) (limit : Z) (ticks : nat) : io World unit :=
  if ((sv_acceptTTL sv <=? 0) && (sv_openTTL sv <=? 0)) || (every <=? 0) then ok tt
  else each_tick ticks (fun k => dropping (ExpireAccepted sv limit) (dropping (ExpireOpen sv limit) k)).
Definition RunReconciler (policy : ReconcilePolicy) (ticks : nat) : io World unit :=
  if negb Reconciles then ok tt else each_tick ticks (dropping (ReconcileOutstanding sv policy)).
Definition RunOfferExpirySweeper (every : duration) (limit : Z) (ticks : nat) : io World unit :=
  if (rg_offerTTL (dp_registry sv) <=? 0) || (every <=? 0) then ok tt
  else each_tick ticks (dropping (ExpireOffers (dp_registry sv) limit)).

Inductive background :=
  | ExpirySweeper (every : duration) (limit : Z) | Reconciler (policy : ReconcilePolicy) | OfferExpirySweeper (every : duration) (limit : Z).
Definition loop (b : background) (ticks : nat) : io World unit :=
  match b with
  | ExpirySweeper every limit => RunExpirySweeper every limit ticks
  | Reconciler policy => RunReconciler policy ticks
  | OfferExpirySweeper every limit => RunOfferExpirySweeper every limit ticks
  end.

(** ** Every step is permitted *)
Lemma good_dropping {A} (m : io World A) k : Safety.good sv m → Safety.good sv k → Safety.good sv (dropping m k).
Proof. intros Hm Hk. by apply good_on_result. Qed.
Lemma good_each_tick ticks tick : (∀ k, Safety.good sv k → Safety.good sv (tick k)) → Safety.good sv (each_tick ticks tick).
Proof. intros Ht. induction ticks as [|n IH]; [apply good_ok|by apply Ht]. Qed.
Lemma good_loop b ticks : Safety.good sv (loop b ticks).
Proof.
  destruct b as [every limit|policy|every limit]; cbn [loop].
  - unfold RunExpirySweeper. destruct (_ || _); [apply good_ok|]. apply good_each_tick. intros k Hk.
    apply good_dropping; [apply good_ExpireAccepted|]. apply good_dropping; [apply good_ExpireOpen|done].
  - unfold RunReconciler. destruct (negb _); [apply good_ok|]. apply good_each_tick. intros k Hk.
    apply good_dropping; [apply good_ReconcileOutstanding|done].
  - unfold RunOfferExpirySweeper. destruct (_ || _); [apply good_ok|]. apply good_each_tick. intros k Hk.
    apply good_dropping; [apply good_ExpireOffers|done].
Qed.

(** ** A tick is calls *)
Definition tick_calls (b : background) : list call :=
  match b with
  | ExpirySweeper every limit =>
      if ((sv_acceptTTL sv <=? 0) && (sv_openTTL sv <=? 0)) || (every <=? 0) then [] else [CallExpireAccepted limit; CallExpireOpen limit]
  | Reconciler policy => if negb Reconciles then [] else [CallReconcile policy]
  | OfferExpirySweeper every limit => if (rg_offerTTL (dp_registry sv) <=? 0) || (every <=? 0) then [] else [CallExpireOffers limit]
  end.
Fixpoint in_turn (calls : list call) : prog World unit :=
  match calls with [] => Ret tt | c :: rest => prog_bind (fun _ => in_turn rest) (perform sv c) end.

Lemma run_dropping {A} (m : io World A) k w : run (dropping m k) w = match run (serve m) w with Some (_, w') => run k w' | None => None end.
Proof. unfold dropping, on_result, serve. rewrite !run_bind. by destruct (run m w) as [[]|]. Qed.
Lemma run_in_turn_app l l' w : run (in_turn (l ++ l')) w = match run (in_turn l) w with Some (_, w') => run (in_turn l') w' | None => None end.
Proof.
  revert w. induction l as [|c l IH]; intros w; cbn [in_turn app]; [done|]. rewrite !run_bind. by destruct (run (perform sv c) w) as [[[] w']|].
Qed.
Lemma run_each_tick ticks tick calls w :
  (∀ k w, run (tick k) w = match run (in_turn calls) w with Some (_, w') => run k w' | None => None end) →
  option_map snd (run (each_tick ticks tick) w) = option_map snd (run (in_turn (concat (replicate ticks calls))) w).
Proof.
  intros Ht. revert w. induction ticks as [|n IH]; intros w; [done|]. cbn [each_tick replicate concat]. rewrite Ht, run_in_turn_app.
  by destruct (run (in_turn calls) w) as [[[] w']|].
Qed.
Lemma run_loop b ticks w : option_map snd (run (loop b ticks) w) = option_map snd (run (in_turn (concat (replicate ticks (tick_calls b)))) w).
Proof.
  assert (concat (replicate ticks (@nil call)) = []) as Hnil by (induction ticks; done).
  assert (∀ (p : prog World unit) (r : prog World unit) w, run (prog_bind (fun _ => r) p) w = match run p w with Some (_, w') => run r w' | None => None end) as Hb.
  { intros p r w0. rewrite run_bind. by destruct (run p w0) as [[]|]. }
  destruct b as [every limit|policy|every limit]; cbn [loop tick_calls].
  - unfold RunExpirySweeper. destruct (_ || _); [by rewrite Hnil|]. apply run_each_tick. intros k w0. rewrite run_dropping.
    cbn [in_turn]. rewrite Hb. cbn [perform]. destruct (run (serve (ExpireAccepted sv limit)) w0) as [[? w1]|]; [|done].
    rewrite run_dropping, Hb. cbn [perform]. by destruct (run (serve (ExpireOpen sv limit)) w1) as [[]|].
  - unfold RunReconciler. destruct (negb _); [by rewrite Hnil|]. apply run_each_tick. intros k w0. rewrite run_dropping.
    cbn [in_turn]. rewrite Hb. cbn [perform]. by destruct (run (serve (ReconcileOutstanding sv policy)) w0) as [[]|].
  - unfold RunOfferExpirySweeper. destruct (_ || _); [by rewrite Hnil|]. apply run_each_tick. intros k w0. rewrite run_dropping.
    cbn [in_turn]. rewrite Hb. cbn [perform]. by destruct (run (serve (ExpireOffers (dp_registry sv) limit)) w0) as [[]|].
Qed.
End Loops.

(** The loops keep the invariants.  From a world where the invariants of the service
    hold, every step of a loop, for any number of ticks and wherever a store or RPC
    call of it fails, is one the service's relation permits, while every step of the
    others may be any the relation permits; undisturbed, a loop leaves the world that
    its ticks' calls, served one after the other, leave. *)
Theorem loops_preserve `{Unicode} `{Solana} `{JWT} `{Base58} `{Ed25519} `{NetURL} `{SessionJWT} sv b ticks w :
  (wf sv w → safe (R sv) (R sv) always (serve (loop sv b ticks)) w) ∧
  option_map snd (run (loop sv b ticks) w) = option_map snd (run (in_turn sv (concat (replicate ticks (tick_calls sv b)))) w).
Proof. split; [intros Hw; apply good_serve; [apply good_loop|done]|apply run_loop]. Qed.
