(* ===== verification/Describe.v ===== *)
(** * Texts for operators: mismatches, rates and the fee

    [settlement.mismatchError] with the texts of instructions, [limits.Rates.String]
    and the JSON of a fee policy.  [mismatch_is_told]: the error about a transaction
    that is not the agreed one names the first instruction that differs, or the count. *)
From S2P Require Import Prelude Money Domain Limits Cluster Tokens Settlement Sha256 GoJson GoValue Render Keyring.

Definition hex_text (s : string) : string := hex (bytes_of s).
Definition ErrMismatch_text : string := "settlement transaction does not match the agreed terms".

Section Mismatch.
Context `{IK : SolanaKeys}.

Definition account_String (a : account) : string :=
  pk_print (acc_key a) +:+
    (if acc_signer a && acc_writable a then "S" else if acc_signer a then "s" else if acc_writable a then "W" else "").
Definition instruction_String (i : instruction) : string :=
  pk_print (in_program i) +:+ "[" +:+ joined "," (map account_String (in_accounts i)) +:+ "] " +:+ hex_text (in_data i).
Definition describe (instructions : list instruction) : list string :=
  imap (fun i ix => "[" +:+ format_uint (Z.of_nat i) +:+ "] " +:+ instruction_String ix) instructions.

(** What is reported: one instruction, the two counts, or everything. *)
Inductive mismatch := DiffersAt (i : nat) (actual want : instruction) | Counts (actual want : nat) | Whole.
Fixpoint differs (i : nat) (actual best : list instruction) : option mismatch :=
  match actual, best with
  | a :: actual', b :: best' => if negb (instruction_equals a b) then Some (DiffersAt i a b) else differs (S i) actual' best'
  | _, _ => None
  end.
Definition best_candidate (actual withATA withoutATA : list instruction) : list instruction :=
  if Nat.eqb (length actual) (length withATA) then withATA else withoutATA.
Definition mismatch_of (actual withATA withoutATA : list instruction) : mismatch :=
  let best := best_candidate actual withATA withoutATA in
  match differs 0 actual best with
  | Some m => m
  | None => if negb (Nat.eqb (length actual) (length best)) then Counts (length actual) (length best) else Whole
  end.
Definition mismatchError (actual withATA withoutATA : list instruction) : string :=
  let number (n : nat) := format_uint (Z.of_nat n) in
  let all := "[" +:+ joined " " (describe actual) +:+ "]" in
  ErrMismatch_text +:+ ": " +:+
  match mismatch_of actual withATA withoutATA with
  | DiffersAt i a b => "instruction " +:+ number i +:+ " is " +:+ instruction_String a +:+ ", want " +:+ instruction_String b
  | Counts n m => "transaction has " +:+ number n +:+ " instructions, want " +:+ number m +:+ ": " +:+ all
  | Whole => all
  end.

Lemma differs_spec actual : ∀ best k, match differs k actual best with
  | Some m => ∃ i a b, m = DiffersAt (k + i) a b ∧ actual !! i = Some a ∧ best !! i = Some b ∧ a ≠ b ∧ take i actual = take i best
  | None => ∃ rest, actual = best ++ rest ∨ best = actual ++ rest
  end.
Proof.
  induction actual as [|a actual IH]; intros best k; [by exists best; right|]. destruct best as [|b best]; [by exists (a :: actual); left|].
  cbn [differs]. destruct (instruction_equals a b) eqn:E; cbn [negb].
  - apply instruction_equals_spec in E as ->. specialize (IH best (S k)). destruct (differs (S k) actual best) as [m|].
    + destruct IH as (i & x & y & -> & Hx & Hy & Hne & Ht). exists (S i), x, y. split_and!; [by rewrite Nat.add_succ_r|done..|]. cbn. by rewrite Ht.
    + destruct IH as [rest [->| ->]]; exists rest; [by left|by right].
  - exists 0%nat, a, b. rewrite Nat.add_0_r. split_and!; [done..| |done]. intros ->.
    assert (instruction_equals b b = true) by (by apply instruction_equals_spec). congruence.
Qed.
End Mismatch.

(** A refused transaction is told apart.  Where the instructions are neither of the
    two agreed sequences, the report names the first position at which they differ
    from the agreed sequence of their length (or the longer), with both instructions
    there; or, where one is the beginning of the other, two different counts.  It
    never falls back to listing everything. *)
Theorem mismatch_is_told (actual withATA withoutATA : list instruction) :
  sameInstructions actual withATA = false → sameInstructions actual withoutATA = false →
  let best := best_candidate actual withATA withoutATA in
  (∃ i a b, mismatch_of actual withATA withoutATA = DiffersAt i a b ∧ actual !! i = Some a ∧ best !! i = Some b ∧ a ≠ b ∧ take i actual = take i best) ∨
  (mismatch_of actual withATA withoutATA = Counts (length actual) (length best) ∧ length actual ≠ length best ∧ ∃ rest, actual = best ++ rest ∨ best = actual ++ rest).
Proof.
  intros H1 H2. cbv zeta. unfold mismatch_of. set (best := best_candidate actual withATA withoutATA).
  assert (actual ≠ best) as Hne.
  { unfold best, best_candidate. intros He. destruct (Nat.eqb _ _); subst actual; [by rewrite (proj2 (sameInstructions_spec _ _)) in H1|by rewrite (proj2 (sameInstructions_spec _ _)) in H2]. }
  pose proof (differs_spec actual best 0) as Hd. destruct (differs 0 actual best) as [m|].
  - left. destruct Hd as (i & a & b & -> & Hr). by exists i, a, b.
  - right. destruct (Nat.eqb_spec (length actual) (length best)) as [El|El]; [|by split_and!]. destruct Hne, Hd as [rest [E|E]]; rewrite E, length_app in El.
    all: destruct rest; [by rewrite app_nil_r in E|cbn in El; lia].
Qed.

(** ** Rates and the fee *)
Definition Rates_String (r : gmap string Rate) : string :=
  joined ", " (map (fun mint => match r !! mint with
    | Some rate => mint +:+ "=" +:+ amount_String (rate_USD rate) +:+ " (" +:+ format_uint (rate_Decimals rate) +:+ "dp)"
    | None => ""
    end) (merge_sort String.le (map fst (map_to_list r)))).

Definition fees_MarshalJSON `{SolanaKeys} (p : FeePolicy) : json := JObject [
  ("lamports", JInt (fee_lamports p)); ("wallet", JString (pk_print (fee_wallet p))); ("description", JString (fees_Description p))].
